(* ===== verification/_CoqProject ===== *)
-Q . S2P
Prelude.v
Utf8.v
GoJson.v
Proto3.v
Errors.v
Codec.v
Message.v
Route.v
GoStd.v
Duration.v
Context.v
Metrics.v
Pipeline.v
Discovery.v
Watching.v
Getter.v
Lease.v
Router.v
Cluster.v
Leases.v
WorkerPool.v
PoolProgress.v
Component.v
Store.v
Protos.v
Schema.v
Nats.v
NatsConn.v
ServerLoop.v
Ordered.v
Serving.v
Answers.v
Remote.v
Spans.v
Calls.v
DieChan.v
Config.v
Viper.v
Logger.v
App.v
EndToEnd.v
Static.v
