(* ===== verification/Prelude.v ===== *)
(** * Verification library of the nrpc framework

    nrpc is a Go framework for clusters of servers that call each other over
    NATS and find each other through etcd. This library models the
    framework's own code in Rocq and proves the properties that make it
    work. Paths below are relative to src/.

    ** The program and the files that model it

    A server process is an application (app.go, builder.go). It announces
    itself in etcd, keeps a registry of the other servers, routes a call by
    the server type of its route, sends it as a protobuf request over NATS
    and waits for the answer. On the other side the NATS server rebuilds the
    caller's context, applies the deadline, hands the request to a goroutine
    or to the queue of its share id, and the remote service finds the method
    and answers. The files, in dependency order:

    - [Prelude]: outcomes of Go calls (value, error, panic), Go's indexing
      and slicing with their run-time checks, machine integers, bytes and
      strings, splitting and joining, [for_each] for loops that can fail.
    - [Utf8] and [GoJson]: the parts of Go's library the data goes through
      byte by byte: valid UTF-8, and the documents of encoding/json with its
      printer and parser. [Proto3]: the wire format of protocol buffers,
      varints, tags and fields.
    - [Errors]: constants/errors.go, errors/. An [error] is a value: a
      sentinel, a text, an error of a library, or an [*Error] pointer that
      may be nil (its [Error] method then panics, as in Go).
    - [Codec], module [Packet]: conn/packet, conn/codec. Packets of one
      connection: [Encode], [Decode], [ParseHeader], [forward].
    - [Message], module [Message]: conn/message, util/compression. Message
      headers, the route dictionary (state: record [Dict]), compression.
    - [Route]: route/route.go.
    - [GoStd]: strconv's decimal integers, instants. [Duration]: the text of
      durations, printed and parsed byte by byte, with the float64 rounding
      of fractions, and its round trip.
    - [Context], module [Ctx]: context/context.go. Go contexts are chains of
      frames; the propagated map is a reference shared between contexts, so
      the model has a store of maps ([heap]) and contexts hold locations.
    - [Metrics]: metrics/. Report functions, the statsd and the Prometheus
      reporter, all metrics the framework declares.
    - [Pipeline]: pipeline/. Hooks before and after handlers, the struct
      validator, and module [RateLimiter].
    - [Discovery]: cluster/server.go, cluster/info_retriever.go and the
      registry of cluster/etcd_service_discovery.go (state: record [sd] with
      the indexes by id and by type, the listeners with the calls made on
      them, the configuration). Operations: [addServer], [deleteServer],
      [SyncServers] with its parallel getter, [watch_event], the queries,
      and the JSON text of a server.
    - [Watching]: the goroutines that change the registry, the watcher and
      the synchronisations, moving by single operations on the maps and
      channels they share ([step]).
    - [Getter]: the parallel getter of the same file with its goroutines;
      [SyncServers] uses the sequential definition it refines.
    - [Lease]: the lease, [Init], [Shutdown] and the watcher's loop of the
      same file, as state machines over the answers of etcd.
    - [Router]: router/router.go, proved against the class
      [ServiceDiscovery], which [Discovery] implements.
    - [Cluster]: the service discoveries of all servers composed with the
      etcd they share. The state is the history of etcd and, for each
      server, its [sd] and how much of the history its watch has received;
      [cstep] interleaves joins, changes in etcd (new descriptions under an
      id in use included), watch events, watches that die and
      synchronisations, during which etcd may change between the reads. An id
      is used with one type. A synchronisation is one step of its server:
      that this is no restriction as long as the synchronisations of a server
      do not overlap is C16. [Leases]: the same with a clock, the leases of
      etcd and the keys put under them ([tstep]): processes, also several
      with the same id, are granted leases, register, keep them alive, revoke
      them and crash, and etcd ends a lease that is due.
    - [WorkerPool]: cluster/worker_pool.go. Dispatchers, workers, the
      cleaner and [Stop] are goroutines with a program counter each; an
      event is one lock, channel, wait group or map operation of one of
      them ([exec]), and a run is any sequence of events. [PoolProgress]:
      the runs of a pool that is not stopped, and whose cleaner finds no
      queue idle for too long ([admits]), end with all tasks run.
    - [Component]: component/. Reflection shows signatures as data; the
      registration tests and the extraction of remotes and handlers.
    - [Store]: the state and error monad of the code that handles calls.
    - [Protos]: the messages of protos/request.pb.go with their encoding and
      decoding, util/util.go, serialize/. [Schema]: the descriptor embedded
      in protos/request.pb.go, read from its bytes, and protos/request.proto.
    - [Nats], modules [Tracing] and [Nats]: tracing/span.go,
      cluster/nats_rpc_client.go, cluster/nats_rpc_server.go. [Call] on the
      client; [handle_message], [processMessages], [run_goroutine],
      [processRequest], [processResponse] on the server, composed in
      [serve].
    - [NatsConn]: cluster/nats_rpc_common.go, and [Init] of client and
      server: options, set-up under its deadline, draining, the handler of a
      closed connection.
    - [ServerLoop]: the goroutines of the NATS server: [handleMessages] and
      the dispatchers with their channels ([step]), and the semaphore of
      the requests outside the pool (module [Flow]). [Ordered]: the loop and
      its dispatchers composed with the worker pool ([exec]); [Serving]: its
      runs end with every accepted request served. [Answers]: the same
      system with the contexts of the requests, the goroutines outside the
      pool and the publications ([sys_exec]).
    - [Remote]: service/remote.go, service/util.go, [Pcall] of util/util.go.
      [Spans]: what the deferred [FinishSpan] records, and
      tracing/jaeger/config.go.
    - [Calls]: the client and the server connected by a link.
    - [DieChan]: the channel that ends the application, shared by app.go,
      the lease and the connections ([step] over the events of all of them).
    - [Config]: config/config.go. [Viper]: config/viper_config.go and the
      constructors that read through it. [Logger]: logger/.
    - [App]: app.go, module.go, component.go, rpc.go, builder.go,
      reporters.go. [EndToEnd]: two applications connected by the link of
      [Calls]. [Static]: static.go and the helpers of app.go.

    ** What the theorems show

    - Calls (C1, C7, C8, C34, C35): a call of [RPCTo], on a context no call
      was made on, that reaches a server without hooks within its deadline
      runs the method with the argument and the caller's values and brings
      back the reply or the error, through application, remote service,
      client, server and back; a request with a share id reaches the queue of
      that id; a sound remote service answers every decoded request, also
      when the route is wrong or the method panics; errors of methods keep
      code, message and metadata; a second call on the same context keeps the
      first deadline.
    - The cluster (C3, C4, C10, C31): in every run in which the
      synchronisations of a server do not overlap and an id keeps its type, a
      server that has synchronised under its watch and received all changes
      knows exactly the ids etcd holds, less the types it ignores, it can
      always be brought there, and calls to types without a custom routing
      function go to servers that are registered. A description that is
      replaced under its id is never seen (C31), so what is said of
      descriptions is that they have been registered, and that they are the
      present ones when the id never had another.
    - The server as a whole (C2, [serve_replies_once]): through its loop,
      dispatchers, pool, semaphore and shared maps, every request that is
      accepted is answered exactly once, and notifications are not, for
      messages that can be read, deadlines made of strings and handlers that
      return responses.
    - Order and completion (C5, C6, C14, [tasks_complete]): with one dispatcher the
      requests of a share id start in the order of their messages, through
      the loop, the dispatcher and the pool ([dispatchers_overtake] shows
      that with two they need not); a server that is not shut down dispatches
      every request it has accepted and runs all of those with a share id,
      whatever the interleaving, as long as the pool's cleaner finds no queue
      idle for too long; the order and exclusion of the tasks of the pool by
      itself, in every interleaving in which one dispatcher serves a queue
      and no queue is closed under a submission, and that it runs all tasks.
      When the cleaner closes queues neither can be promised (C38,
      [submit_races_with_cleaner]). The proofs of
      completion go by a measure that every operation of the server
      decreases, and by the holders of the lock, the wait group and the
      channel of each queue.
    - Registry of one server (C9, C11 to C13, C16, C32,
      [server_string_roundtrip]): a synchronisation gives the registry the
      ids of etcd under every scheduling; the goroutines of its getter refine
      the definition it is proved with, and always return; between any two
      operations of the watcher and of synchronisations that do not overlap,
      the two indexes refine one abstract registry but for the id that is
      being changed, and listeners know exactly its servers; the registries
      such goroutines lead to are those of whole batches of events and whole
      synchronisations; the texts of servers parse back.
    - Lease and watcher (C15, C27, C29, C30, C33): when all processes
      of an id have crashed, and their times to live and the delay of etcd
      have passed, the id is gone from etcd and from every server that is up
      to date; a description leaves etcd only when its own lease is due or
      revoked or another process of the id puts its own ([time_can_pass] shows
      that the clock of the model never blocks); bounded retries; exclusion of watch events
      and synchronisations, with the interleaving that breaks it.
    - Wire formats (C17 to C22, C36): the packet decoder refines a relation
      on bytes; streams of packets below 2^24 bytes, messages with routes
      that fit and routes round-trip; what the message decoder lets through
      is well typed, and where it panics; the dictionary of routes.
      [wire_follows_schema] shows that the instance of [Wire] writes what
      protos/request.proto declares.
    - Routing and application (C23 to C25): a call without a server id is the
      call of a listed server of the type, and a server does not call itself,
      both for types without a custom routing function (and
      [Route_default_correct]); start and shutdown orders.
    - Connections and the end of the process (C28, C39): set-up returns
      within its deadline, counted from the return of nats.Connect, and
      leaves no connection open; what the end of
      the message loop abandons; who crashes when [Start] has ended
      ([late_senders_crash]).
    - Contexts ([transport_ctx]): propagated values other than numbers survive
      the trip between servers, maps of strings as objects.
    - Rate limiter and metrics (C26, C37): the hook of the rate limiter is
      the sliding window, for every run of requests; what the framework's
      timing reports come to with the Prometheus reporter, the tags of the
      context included, and when they panic.
    - Configuration (C40): defaults fill what is not configured or shadowed.
    - Limits of the code as written (C20, C30, C31, C37 to C39, and theorems
      next to them in their files): inputs or interleavings on which it
      panics, blocks, loses or truncates.

    ** Parameters

    Code that is not in the repository is a type class of operations, with a
    second class for its documented behaviour and an instance that shows the
    laws can hold: [Zlib], [Json] and [ServerJson] (encoding/json on the
    propagated map and on servers, whose instances are printer and parser of
    [GoJson]), [Viper] (key lookup, with values that shadow longer paths and map keys in
    lower case; the instance has three layers of nested maps),
    [Wire] (protobuf of requests and responses, whose instance is the wire
    format of [Proto3]), [ProtoMsg] (the application's messages), [Tracer], [Etcd], [Conn] (NATS). [Sched] and
    [Choice] are the choices of the Go scheduler and of math/rand, over which
    theorems are universal; [server_ttl] and [slack] of [Leases] are the time to
    live etcd gives when one is asked for and its delay in ending a lease.
    Which label sets a Prometheus metric accepts is an argument of the
    reporter, of which [Metrics] assumes that the declared names with UTF-8
    values are accepted and others are not. Handlers, hooks, modules and
    components of the application are arguments.

    ** Integers, bounds and fuel

    Integers are [Z] with their width written out where it matters: bytes,
    16-bit route codes, 24-bit packet lengths, 64-bit ids and instants
    (subtraction of instants saturates, as in package time), the 32-bit FNV
    hash. Loops that are not structural take fuel: the packet decoder one
    unit per byte of input, which is enough because every turn consumes a
    header (the refinement theorem C17 has no case for exhausted fuel); the
    id of a message ten units, enough for 64 bits in groups of seven;
    trimming one unit per byte; the JSON parser two units per byte and two
    more, and the parser of durations one per byte ([parse_terms_fuel]),
    which the round trips show to be enough for everything that is printed;
    the reader of fields one unit per byte, since a field takes one
    ([get_fields_write]); the draining of a connection fifty ticks of 100ms, which fill its
    timeout.

    ** Not modelled

    What log lines say, apart from their prefix; viper's own lookup and
    mapstructure's decoding, which are parameters; the HTTP endpoint of
    Prometheus, the statsd client and the Jaeger client; the glue of the
    generated protobuf code to its runtime; mocks, test helpers and examples.
    Sleeps and timers appear only as the moments at which they fire. Go's
    memory model is sequentially consistent here, and a step of a goroutine
    is one operation on shared state (in [Answers] the run of a handler is
    one, too).

    ** What could be refined

    The run of a handler is one step of [Answers]; its operations on shared
    state could be steps of their own. In [Leases] a request to etcd and its
    answer are one step: a put whose answer is lost is not told apart from
    one that was answered. Overlapping synchronisations of one server are
    steps of [Watching], but beyond C30 nothing is proved of them. *)

From Stdlib Require Import ZArith Lia Strings.Byte.
From stdpp Require Export base list gmap strings pretty relations.
From Stdlib Require Export ZArith Lia.

Declare Scope nrpc_scope.
Delimit Scope nrpc_scope with nrpc.
Open Scope nrpc_scope.

(** The hint database of the development: lemmas the components' proofs use
    through [auto with nrpc] or [eauto with nrpc]. *)
Create HintDb nrpc.

#[global] Arguments Z.ltb : simpl never.
#[global] Arguments Z.leb : simpl never.
#[global] Arguments Z.eqb : simpl never.

(** ** Outcomes of Go code *)

(** The ways a goroutine can panic in the modelled code. *)
Inductive panic :=
| IndexOutOfRange
| SliceOutOfRange
| NilDereference
| NilMapWrite
| BadTypeAssertion
| CloseOfClosedChannel
| PanicMessage (msg : string).

#[export] Instance panic_eq_dec : EqDecision panic.
Proof. solve_decision. Defined.

(** A fallible Go call: it returns a value, returns an error of type [E],
    or panics. *)
Inductive outcome (E A : Type) :=
| Ok (a : A)
| Err (e : E)
| Panics (p : panic).
Arguments Ok {E A} a.
Arguments Err {E A} e.
Arguments Panics {E A} p.

#[export] Instance outcome_ret {E} : MRet (outcome E) := fun A a => Ok a.
#[export] Instance outcome_bind {E} : MBind (outcome E) :=
  fun A B f m =>
    match m with
    | Ok a => f a
    | Err e => Err e
    | Panics p => Panics p
    end.

#[export] Instance outcome_eq_dec {E A} `{EqDecision E, EqDecision A} :
  EqDecision (outcome E A).
Proof. solve_decision. Defined.

Definition is_ok {E A} (m : outcome E A) : bool :=
  match m with Ok _ => true | _ => false end.

(** Inverts a chain of binds in [outcome] that ended in [Ok]. *)
Lemma outcome_bind_ok {E A B} (m : outcome E A) (f : A -> outcome E B) b :
  (m ≫= f) = Ok b <-> exists a, m = Ok a /\ f a = Ok b.
Proof.
  split.
  - destruct m; cbn; [eauto | discriminate..].
  - by intros (a & -> & Hf).
Qed.

Ltac outcome_inv :=
  repeat match goal with
  | H : (_ ≫= _) = Ok _ |- _ => apply outcome_bind_ok in H as (? & ? & H)
  | H : mret _ = Ok _ |- _ => injection H; clear H; intros; subst
  | H : Ok _ = Ok _ |- _ => injection H; clear H; intros; subst
  | H : Err _ = Ok _ |- _ => discriminate H
  | H : Panics _ = Ok _ |- _ => discriminate H
  end.

(** ** Slices *)

(** [data[i]]: a Go index expression, which panics out of range. *)
Definition go_index {E A} (l : list A) (i : nat) : outcome E A :=
  match l !! i with Some x => Ok x | None => Panics IndexOutOfRange end.

(** [data[i:j]]: a Go slice expression, which panics unless
    [i <= j <= len(data)] (the modelled slices have [cap = len]). *)
Definition go_slice {E A} (l : list A) (i j : nat) : outcome E (list A) :=
  if decide (i <= j <= length l) then Ok (take (j - i) (drop i l))
  else Panics SliceOutOfRange.

Notation "l '.[' i ']'" := (go_index l i)
  (at level 1, left associativity, format "l .[ i ]") : nrpc_scope.

Lemma go_index_ok {E A} (l : list A) i x :
  l !! i = Some x -> go_index (E := E) l i = Ok x.
Proof. unfold go_index. by intros ->. Qed.

Lemma go_index_app_r {E A} (l k : list A) i :
  length l = i -> go_index (E := E) (l ++ k) i = go_index k 0.
Proof.
  intros <-. unfold go_index. rewrite lookup_app_r by lia.
  by rewrite Nat.sub_diag.
Qed.

Lemma go_slice_app {E A} (l m r : list A) i j :
  length l = i -> length m = j - i -> i <= j ->
  go_slice (E := E) (l ++ m ++ r) i j = Ok m.
Proof.
  intros <- Hm Hle. unfold go_slice. rewrite decide_True.
  - rewrite drop_app_length. by rewrite take_app_length'.
  - rewrite !length_app. lia.
Qed.

Lemma go_slice_from {E A} (l : list A) i :
  i <= length l -> go_slice (E := E) l i (length l) = Ok (drop i l).
Proof.
  intros Hi. unfold go_slice. rewrite decide_True by lia.
  rewrite take_ge; [done|]. rewrite length_drop. lia.
Qed.

(** A [for] loop over a slice: it runs its body on every element and stops
    at the first outcome that is not [Ok]. *)
Fixpoint for_each {E A S} (body : S -> A -> outcome E S) (s : S) (l : list A)
  : outcome E S :=
  match l with
  | [] => Ok s
  | x :: l => s' ← body s x; for_each body s' l
  end.

Lemma for_each_app {E A S} (body : S -> A -> outcome E S) s l k :
  for_each body s (l ++ k) = (s' ← for_each body s l; for_each body s' k).
Proof.
  revert s. induction l as [|x l IH]; intros s; cbn; [done|].
  destruct (body s x); cbn; auto.
Qed.

Lemma for_each_invariant {E A S} (body : S -> A -> outcome E S) (P : S -> Prop) s l s' :
  (forall s x s', P s -> body s x = Ok s' -> P s') ->
  P s -> for_each body s l = Ok s' -> P s'.
Proof.
  intros Hbody. revert s. induction l as [|x l IH]; intros s HP Hr; cbn in Hr.
  - by injection Hr as <-.
  - outcome_inv. eauto.
Qed.

(** ** Bytes and machine integers *)

(** The value of a [byte], and Go's conversion [byte(n)], which keeps the
    eight low bits. *)
Definition byte_to_Z (b : byte) : Z := Z.of_N (Byte.to_N b).
Definition byte_of_Z (z : Z) : byte :=
  match Byte.of_N (Z.to_N (z mod 256)) with Some b => b | None => x00 end.

Lemma byte_to_Z_range b : (0 <= byte_to_Z b < 256)%Z.
Proof. unfold byte_to_Z. pose proof (Byte.to_N_bounded b). lia. Qed.

Lemma byte_to_of_Z z : byte_to_Z (byte_of_Z z) = (z mod 256)%Z.
Proof.
  unfold byte_to_Z, byte_of_Z.
  pose proof (Z.mod_pos_bound z 256 ltac:(lia)) as Hb.
  destruct (Byte.of_N _) as [b|] eqn:E.
  - apply Byte.to_of_N in E. rewrite E. lia.
  - apply Byte.of_N_None_iff in E. lia.
Qed.

Lemma byte_of_to_Z b : byte_of_Z (byte_to_Z b) = b.
Proof.
  unfold byte_of_Z. rewrite Z.mod_small by apply byte_to_Z_range.
  unfold byte_to_Z. rewrite N2Z.id. by rewrite Byte.of_to_N.
Qed.

Lemma byte_to_of_Z_small z : (0 <= z < 256)%Z -> byte_to_Z (byte_of_Z z) = z.
Proof. intros ?. rewrite byte_to_of_Z. by apply Z.mod_small. Qed.

#[export] Instance byte_to_Z_inj : Inj (=) (=) byte_to_Z.
Proof. intros a b H. rewrite <-(byte_of_to_Z a), <-(byte_of_to_Z b). by f_equal. Qed.

#[export] Instance byte_eq_dec : EqDecision byte := Byte.byte_eq_dec.

(** [uint] and [uint16] arithmetic wrap around at their width; a duration
    or [int] is a signed 64-bit integer. *)
Definition u64 (z : Z) : Z := (z mod 2 ^ 64)%Z.
Definition u32 (z : Z) : Z := (z mod 2 ^ 32)%Z.
Definition u16 (z : Z) : Z := (z mod 2 ^ 16)%Z.
Definition i64 (z : Z) : Z := ((z + 2 ^ 63) mod 2 ^ 64 - 2 ^ 63)%Z.

Lemma i64_small z : (- 2 ^ 63 <= z < 2 ^ 63)%Z -> i64 z = z.
Proof. intros ?. unfold i64. rewrite Z.mod_small; lia. Qed.

Lemma u64_small z : (0 <= z < 2 ^ 64)%Z -> u64 z = z.
Proof. apply Z.mod_small. Qed.

(** ** Strings *)

(** A Go string is a byte sequence; [[]byte(s)] and [string(b)]. *)
Definition str_bytes (s : string) : list byte := String.list_byte_of_string s.
Definition bytes_str (b : list byte) : string := String.string_of_list_byte b.

Lemma bytes_str_bytes s : bytes_str (str_bytes s) = s.
Proof. apply String.string_of_list_byte_of_string. Qed.

Lemma str_bytes_str b : str_bytes (bytes_str b) = b.
Proof. apply String.list_byte_of_string_of_list_byte. Qed.

Lemma str_app_cons a s t : String a s +:+ t = String a (s +:+ t).
Proof. done. Qed.

Lemma str_app_nil_l t : "" +:+ t = t.
Proof. done. Qed.

Lemma str_bytes_app s t : str_bytes (s +:+ t) = str_bytes s ++ str_bytes t.
Proof.
  induction s as [|a s IH]; [done|]. rewrite str_app_cons. cbn. f_equal. exact IH.
Qed.

Lemma str_bytes_length s : length (str_bytes s) = String.length s.
Proof. induction s as [|a s IH]; [done|]. cbn. f_equal. exact IH. Qed.

Lemma str_app_length s t :
  String.length (s +:+ t) = String.length s + String.length t.
Proof. by rewrite <-!str_bytes_length, str_bytes_app, length_app. Qed.

Lemma str_app_assoc s t u : (s +:+ t) +:+ u = s +:+ (t +:+ u).
Proof. induction s as [|a s IH]; [done|]. rewrite !str_app_cons. by f_equal. Qed.

Lemma str_app_nil_r s : s +:+ "" = s.
Proof. induction s as [|a s IH]; [done|]. rewrite !str_app_cons. by f_equal. Qed.

(** [c] occurs in [s]. *)
Fixpoint str_contains (c : Ascii.ascii) (s : string) : bool :=
  match s with
  | EmptyString => false
  | String a s => bool_decide (a = c) || str_contains c s
  end.

(** [strings.Split(s, sep)] for a one-byte separator. *)
Fixpoint str_split (c : Ascii.ascii) (s : string) : list string :=
  match s with
  | EmptyString => [""]
  | String a s =>
      if decide (a = c) then "" :: str_split c s
      else match str_split c s with
           | [] => [String a ""]
           | h :: t => String a h :: t
           end
  end.

(** [strings.Join]. *)
Fixpoint str_join (sep : string) (l : list string) : string :=
  match l with
  | [] => ""
  | [s] => s
  | s :: l => s +:+ sep +:+ str_join sep l
  end.

Lemma str_split_nonempty c s : exists h t, str_split c s = h :: t.
Proof.
  induction s as [|a s (h & t & IH)]; cbn; [eauto|].
  case_decide; [eauto|]. rewrite IH. eauto.
Qed.

Lemma str_split_free c s : str_contains c s = false -> str_split c s = [s].
Proof.
  induction s as [|a s IH]; [done|]. cbn. intros H.
  apply orb_false_iff in H as [Ha Hs]. apply bool_decide_eq_false in Ha.
  rewrite decide_False by done. by rewrite IH.
Qed.

Lemma str_split_cons c s t :
  str_contains c s = false ->
  str_split c (s +:+ String c t) = s :: str_split c t.
Proof.
  induction s as [|a s IH]; rewrite ?str_app_cons, ?str_app_nil_l; cbn; intros H.
  - by rewrite decide_True.
  - apply orb_false_iff in H as [Ha Hs]. apply bool_decide_eq_false in Ha.
    rewrite decide_False by done. by rewrite IH.
Qed.

Lemma str_split_pieces c s : Forall (fun p => str_contains c p = false) (str_split c s).
Proof.
  induction s as [|a s IH]; cbn.
  - by repeat constructor.
  - case_decide; [by constructor|].
    destruct (str_split c s) as [|h t]; inversion IH; subst; constructor; auto.
    + cbn. by rewrite bool_decide_eq_false_2.
    + cbn. by rewrite bool_decide_eq_false_2.
Qed.

Lemma str_join_split c s : str_join (String c "") (str_split c s) = s.
Proof.
  induction s as [|a s IH]; [done|]. cbn.
  destruct (str_split_nonempty c s) as (h & t & E).
  case_decide as Hc.
  - subst. rewrite E in IH |- *. cbn in *. by rewrite <-IH.
  - rewrite E in IH |- *. destruct t; cbn in *; rewrite ?str_app_cons; by f_equal.
Qed.

(** ** [strings.TrimSpace] *)

(** The UTF-8 encodings of the runes for which [unicode.IsSpace] holds:
    U+0009..U+000D, U+0020, U+0085, U+00A0, U+1680, U+2000..U+200A, U+2028,
    U+2029, U+202F, U+205F and U+3000. *)
Definition space_encodings : list (list byte) :=
  [[x09]; [x0a]; [x0b]; [x0c]; [x0d]; [x20]; [xc2; x85]; [xc2; xa0];
   [xe1; x9a; x80]; [xe2; x80; x80]; [xe2; x80; x81]; [xe2; x80; x82];
   [xe2; x80; x83]; [xe2; x80; x84]; [xe2; x80; x85]; [xe2; x80; x86];
   [xe2; x80; x87]; [xe2; x80; x88]; [xe2; x80; x89]; [xe2; x80; x8a];
   [xe2; x80; xa8]; [xe2; x80; xa9]; [xe2; x80; xaf]; [xe2; x81; x9f];
   [xe3; x80; x80]].

(** Drops [p] from the front of [l], when [l] starts with it. *)
Fixpoint strip_prefix (p l : list byte) : option (list byte) :=
  match p, l with
  | [], l => Some l
  | a :: p, b :: l => if decide (a = b) then strip_prefix p l else None
  | _ :: _, [] => None
  end.

Fixpoint strip_any (ps : list (list byte)) (l : list byte) : option (list byte) :=
  match ps with
  | [] => None
  | p :: ps => match strip_prefix p l with Some r => Some r | None => strip_any ps l end
  end.

(** Strips encodings from the front while there is one; each step drops at
    least one byte, so [length l] steps are enough. *)
Fixpoint trim_front (fuel : nat) (ps : list (list byte)) (l : list byte) : list byte :=
  match fuel with
  | 0 => l
  | S n => match strip_any ps l with Some r => trim_front n ps r | None => l end
  end.

Definition trim_space (s : string) : string :=
  let l := str_bytes s in
  let l := trim_front (length l) space_encodings l in
  let r := reverse l in
  bytes_str (reverse (trim_front (length r) (reverse <$> space_encodings) r)).

Example trim_space_ex : trim_space "  a b " = "a b".
Proof. reflexivity. Qed.

(** ** Maps *)

(** A Go loop [for k, v := range src { dst[k] = v }]; the iteration order is
    irrelevant, since the keys are distinct. *)
Definition map_copy_into {V} (src dst : gmap string V) : gmap string V :=
  map_fold (fun k v acc => <[k := v]> acc) dst src.

Lemma map_copy_into_union {V} (src dst : gmap string V) :
  map_copy_into src dst = src ∪ dst.
Proof.
  unfold map_copy_into. symmetry.
  apply (map_fold_weak_ind (fun acc src => src ∪ dst = acc)).
  - apply (left_id_L ∅ (∪)).
  - intros k v m acc Hk <-. by rewrite insert_union_l.
Qed.
