(* ===== verification/Utf8.v ===== *)
(** * UTF-8, as package unicode/utf8 reads and writes it

    Bytes are their values. A rune is decoded from the front of a byte
    sequence; a byte that starts no well-formed encoding gives the
    replacement rune and is skipped alone. *)

From S2P Require Import Prelude.
From Stdlib Require Import Strings.Byte.

Module Utf8.

Local Open Scope Z_scope.

(** The bytes of a string as numbers, and back. *)
Definition codes (s : string) : list Z := byte_to_Z <$> str_bytes s.
Definition string_of (l : list Z) : string := bytes_str (byte_of_Z <$> l).

Lemma string_of_codes s : string_of (codes s) = s.
Proof.
  unfold string_of, codes. rewrite <-list_fmap_compose.
  transitivity (bytes_str (str_bytes s)); [f_equal | apply bytes_str_bytes].
  induction (str_bytes s) as [|b l IH]; [done|]. cbn. by rewrite byte_of_to_Z, IH.
Qed.

Lemma codes_range s : Forall (fun b => 0 <= b < 256) (codes s).
Proof. unfold codes. apply Forall_fmap, Forall_true. intros b. apply byte_to_Z_range. Qed.

Lemma codes_string_of l : Forall (fun b => 0 <= b < 256) l -> codes (string_of l) = l.
Proof.
  intros H. unfold string_of, codes. rewrite str_bytes_str, <-list_fmap_compose.
  induction H as [|b l Hb _ IH]; [done|]. cbn. by rewrite byte_to_of_Z_small, IH.
Qed.

(** ** Runes *)

Definition RuneError : Z := 65533.

Definition cont (b : Z) : bool := (128 <=? b) && (b <=? 191).

(** Well-formed sequences of two, three and four bytes: the table of package
    utf8, which leaves out overlong forms and surrogates. *)
Definition two (b0 b1 : Z) : bool := (194 <=? b0) && (b0 <=? 223) && cont b1.
Definition three (b0 b1 b2 : Z) : bool :=
  ((b0 =? 224) && (160 <=? b1) && (b1 <=? 191)
   || (b0 =? 237) && (128 <=? b1) && (b1 <=? 159)
   || (225 <=? b0) && (b0 <=? 239) && negb (b0 =? 237) && cont b1) && cont b2.
Definition four (b0 b1 b2 b3 : Z) : bool :=
  ((b0 =? 240) && (144 <=? b1) && (b1 <=? 191)
   || (b0 =? 244) && (128 <=? b1) && (b1 <=? 143)
   || (241 <=? b0) && (b0 <=? 243) && cont b1) && cont b2 && cont b3.

Definition rune2 (b0 b1 : Z) : Z := (b0 - 192) * 64 + (b1 - 128).
Definition rune3 (b0 b1 b2 : Z) : Z := (b0 - 224) * 4096 + (b1 - 128) * 64 + (b2 - 128).
Definition rune4 (b0 b1 b2 b3 : Z) : Z :=
  (b0 - 240) * 262144 + (b1 - 128) * 4096 + (b2 - 128) * 64 + (b3 - 128).

(** [utf8.DecodeRune]: the rune and the rest of the bytes, on a sequence that
    is not empty. *)
Definition DecodeRune (b0 : Z) (p : list Z) : Z * list Z :=
  if b0 <? 128 then (b0, p)
  else
    match p with
    | b1 :: p2 =>
        if two b0 b1 then (rune2 b0 b1, p2)
        else
          match p2 with
          | b2 :: p3 =>
              if three b0 b1 b2 then (rune3 b0 b1 b2, p3)
              else
                match p3 with
                | b3 :: p4 => if four b0 b1 b2 b3 then (rune4 b0 b1 b2 b3, p4) else (RuneError, p)
                | [] => (RuneError, p)
                end
          | [] => (RuneError, p)
          end
    | [] => (RuneError, p)
    end.

(** [utf8.AppendRune]; a surrogate or a number out of range is written as the
    replacement rune. *)
Definition surrogate (r : Z) : bool := (55296 <=? r) && (r <=? 57343).
Definition EncodeRune (r : Z) : list Z :=
  if (r <? 0) || (1114111 <? r) || surrogate r then [239; 191; 189]
  else if r <=? 127 then [r]
  else if r <=? 2047 then [192 + r / 64; 128 + r mod 64]
  else if r <=? 65535 then [224 + r / 4096; 128 + (r / 64) mod 64; 128 + r mod 64]
  else [240 + r / 262144; 128 + (r / 4096) mod 64; 128 + (r / 64) mod 64; 128 + r mod 64].

(** ** Valid sequences *)

(** [utf8.Valid]. *)
Fixpoint valid (p : list Z) : bool :=
  match p with
  | [] => true
  | b0 :: p1 =>
      if b0 <? 128 then valid p1
      else
        match p1 with
        | b1 :: p2 =>
            if two b0 b1 then valid p2
            else
              match p2 with
              | b2 :: p3 =>
                  if three b0 b1 b2 then valid p3
                  else
                    match p3 with
                    | b3 :: p4 => if four b0 b1 b2 b3 then valid p4 else false
                    | [] => false
                    end
              | [] => false
              end
        | [] => false
        end
  end.

(** [utf8.ValidString]. *)
Definition valid_string (s : string) : bool := valid (codes s).

Ltac bounds :=
  repeat match goal with
  | H : _ && _ = true |- _ => apply andb_true_iff in H as [? ?]
  | H : _ || _ = true |- _ => apply orb_true_iff in H as [H|H]
  | H : (_ <=? _) = true |- _ => apply Z.leb_le in H
  | H : (_ =? _) = true |- _ => apply Z.eqb_eq in H
  | H : (_ <? _) = true |- _ => apply Z.ltb_lt in H
  | H : negb _ = true |- _ => apply negb_true_iff in H
  | H : (_ =? _) = false |- _ => apply Z.eqb_neq in H
  end.

(** A valid sequence is a rune's encoding followed by a valid sequence. *)
Inductive valid_view : list Z -> Prop :=
| view_nil : valid_view []
| view_ascii b p : b < 128 -> valid p = true -> valid_view (b :: p)
| view_two b0 b1 p : two b0 b1 = true -> valid p = true -> valid_view (b0 :: b1 :: p)
| view_three b0 b1 b2 p :
    three b0 b1 b2 = true -> valid p = true -> valid_view (b0 :: b1 :: b2 :: p)
| view_four b0 b1 b2 b3 p :
    four b0 b1 b2 b3 = true -> valid p = true -> valid_view (b0 :: b1 :: b2 :: b3 :: p).

Lemma valid_cases p : valid p = true -> valid_view p.
Proof.
  intros H. destruct p as [|b0 p]; [constructor|]. cbn [valid] in H.
  destruct (b0 <? 128) eqn:E0; [apply view_ascii; [lia|done]|].
  destruct p as [|b1 p]; [done|]. destruct (two b0 b1) eqn:E1; [by apply view_two|].
  destruct p as [|b2 p]; [done|]. destruct (three b0 b1 b2) eqn:E2; [by apply view_three|].
  destruct p as [|b3 p]; [done|]. destruct (four b0 b1 b2 b3) eqn:E3; [by apply view_four|done].
Qed.

(** The bytes of the forms. *)
Lemma two_bounds b0 b1 : two b0 b1 = true -> 194 <= b0 <= 223 /\ 128 <= b1 <= 191.
Proof. unfold two, cont. intros H. bounds. lia. Qed.
Lemma three_bounds b0 b1 b2 : three b0 b1 b2 = true ->
  224 <= b0 <= 239 /\ 128 <= b1 <= 191 /\ 128 <= b2 <= 191 /\
  (b0 = 224 -> 160 <= b1) /\ (b0 = 237 -> b1 <= 159).
Proof. unfold three, cont. intros H. bounds; lia. Qed.
Lemma four_bounds b0 b1 b2 b3 : four b0 b1 b2 b3 = true ->
  240 <= b0 <= 244 /\ 128 <= b1 <= 191 /\ 128 <= b2 <= 191 /\ 128 <= b3 <= 191 /\
  (b0 = 240 -> 144 <= b1) /\ (b0 = 244 -> b1 <= 143).
Proof. unfold four, cont. intros H. bounds; lia. Qed.

Lemma two_false b0 b1 : 224 <= b0 -> two b0 b1 = false.
Proof. intros H. unfold two. rewrite (proj2 (Z.leb_gt b0 223)) by lia. by rewrite andb_false_r. Qed.
Lemma three_false b0 b1 b2 : 240 <= b0 -> three b0 b1 b2 = false.
Proof.
  intros H. unfold three. rewrite (proj2 (Z.eqb_neq b0 224)), (proj2 (Z.eqb_neq b0 237)) by lia.
  rewrite (proj2 (Z.leb_gt b0 239)) by lia. by rewrite !andb_false_r.
Qed.

(** ** Decoding and encoding are inverse on well-formed bytes *)

Lemma Decode_two b0 b1 p : two b0 b1 = true -> DecodeRune b0 (b1 :: p) = (rune2 b0 b1, p).
Proof.
  intros H. unfold DecodeRune. pose proof (two_bounds _ _ H).
  rewrite (proj2 (Z.ltb_ge _ _)) by lia. by rewrite H.
Qed.
Lemma Decode_three b0 b1 b2 p :
  three b0 b1 b2 = true -> DecodeRune b0 (b1 :: b2 :: p) = (rune3 b0 b1 b2, p).
Proof.
  intros H. unfold DecodeRune. pose proof (three_bounds _ _ _ H).
  rewrite (proj2 (Z.ltb_ge _ _)) by lia. by rewrite two_false, H by lia.
Qed.
Lemma Decode_four b0 b1 b2 b3 p :
  four b0 b1 b2 b3 = true -> DecodeRune b0 (b1 :: b2 :: b3 :: p) = (rune4 b0 b1 b2 b3, p).
Proof.
  intros H. unfold DecodeRune. pose proof (four_bounds _ _ _ _ H).
  rewrite (proj2 (Z.ltb_ge _ _)) by lia. by rewrite two_false, three_false, H by lia.
Qed.

(** Arithmetic with quotients and remainders. *)
Ltac dlia := repeat match goal with r := _ : Z |- _ => subst r end; Z.to_euclidean_division_equations; lia.

Ltac encode_case := unfold EncodeRune, surrogate;
  repeat match goal with
  | |- context [?a <? ?b] => destruct (Z.ltb_spec a b); [try lia|try lia]
  | |- context [?a <=? ?b] => destruct (Z.leb_spec a b); [try lia|try lia]
  end; cbn [orb andb].

Lemma Encode_two b0 b1 : two b0 b1 = true -> EncodeRune (rune2 b0 b1) = [b0; b1].
Proof.
  intros [? ?]%two_bounds. unfold rune2. set (r := _ + _).
  assert (r / 64 = b0 - 192) by dlia. assert (r mod 64 = b1 - 128) by dlia.
  assert (128 <= r <= 2047) by dlia. clearbody r.
  encode_case; repeat f_equal; lia.
Qed.
Lemma Encode_three b0 b1 b2 : three b0 b1 b2 = true -> EncodeRune (rune3 b0 b1 b2) = [b0; b1; b2].
Proof.
  intros (? & ? & ? & ? & ?)%three_bounds. unfold rune3. set (r := _ + _ + _).
  assert (r / 4096 = b0 - 224) by dlia.
  assert ((r / 64) mod 64 = b1 - 128) by dlia.
  assert (r mod 64 = b2 - 128) by dlia.
  assert (2047 < r) by dlia. assert (~ 55296 <= r <= 57343) by dlia.
  assert (r <= 65535) by dlia.
  clearbody r. encode_case; repeat f_equal; lia.
Qed.
Lemma Encode_four b0 b1 b2 b3 :
  four b0 b1 b2 b3 = true -> EncodeRune (rune4 b0 b1 b2 b3) = [b0; b1; b2; b3].
Proof.
  intros (? & ? & ? & ? & ? & ?)%four_bounds. unfold rune4. set (r := _ + _ + _ + _).
  assert (r / 262144 = b0 - 240) by dlia.
  assert ((r / 4096) mod 64 = b1 - 128) by dlia.
  assert ((r / 64) mod 64 = b2 - 128) by dlia.
  assert (r mod 64 = b3 - 128) by dlia.
  assert (65535 < r <= 1114111) by dlia.
  clearbody r. encode_case; repeat f_equal; lia.
Qed.

End Utf8.
