(* ===== verification/GoJson.v ===== *)
(** * JSON, as package encoding/json writes and reads it

    Documents are bytes, given by their values. The printer is that of
    [json.Marshal], with its escaping of HTML; the parser reads what
    [json.Unmarshal] accepts: white space, nesting up to ten thousand levels,
    the escapes of strings and their coercion to UTF-8. Numbers are kept as
    their text; what [strconv] makes of them is an argument. *)

From S2P Require Import Prelude Utf8.
From stdpp Require Import sorting.
From Stdlib Require Import Strings.Byte.

Module GoJson.
Import Utf8.

Local Open Scope Z_scope.

(** ** Documents *)

Inductive json :=
| JNull
| JBool (b : bool)
| JNum (t : string)
| JStr (s : string)
| JArr (l : list json)
| JObj (l : list (string * json)).

(** Induction with hypotheses for the elements of arrays and objects. *)
Section Induction.
Variable P : json -> Prop.
Hypothesis Hnull : P JNull.
Hypothesis Hbool : forall b, P (JBool b).
Hypothesis Hnum : forall t, P (JNum t).
Hypothesis Hstr : forall s, P (JStr s).
Hypothesis Harr : forall l, Forall P l -> P (JArr l).
Hypothesis Hobj : forall l, Forall (fun kv => P kv.2) l -> P (JObj l).

Fixpoint json_ind' (j : json) : P j :=
  match j with
  | JNull => Hnull
  | JBool b => Hbool b
  | JNum t => Hnum t
  | JStr s => Hstr s
  | JArr l => Harr l ((fix go l : Forall P l :=
      match l with [] => Forall_nil_2 P | j :: l => Forall_cons_2 _ _ _ (json_ind' j) (go l) end) l)
  | JObj l => Hobj l ((fix go (l : list (string * json)) : Forall (fun kv => P kv.2) l :=
      match l with
      | [] => Forall_nil_2 _
      | kv :: l => Forall_cons_2 (fun kv => P kv.2) kv l (json_ind' kv.2) (go l)
      end) l)
  end.
End Induction.

#[global] Instance json_eq_dec : EqDecision json.
Proof.
  refine (fix go (i j : json) : Decision (i = j) :=
    match i, j with
    | JNull, JNull => left eq_refl
    | JBool a, JBool b => cast_if (decide (a = b))
    | JNum a, JNum b => cast_if (decide (a = b))
    | JStr a, JStr b => cast_if (decide (a = b))
    | JArr a, JArr b => cast_if (@list_eq_dec json go a b)
    | JObj a, JObj b =>
        cast_if (@list_eq_dec (string * json) (@prod_eq_dec string _ json go) a b)
    | _, _ => right _
    end); congruence.
Defined.

(** Levels of nesting. *)
Fixpoint depth (j : json) : Z :=
  match j with
  | JArr l => 1 + foldr Z.max 0 (depth <$> l)
  | JObj l => 1 + foldr Z.max 0 ((fun kv => depth kv.2) <$> l)
  | _ => 0
  end.

(** ** Printing *)

(** The lower-case hexadecimal digit of [0..15]. *)
Definition hex_digit (n : Z) : Z := if n <? 10 then 48 + n else 87 + n.

(** The backslash escapes of one character, with the character each stands
    for: the quote, the backslash, \b, \f, \n, \r, \t. *)
Definition escape_ascii (b : Z) : list Z :=
  if (b =? 34) || (b =? 92) then [92; b]
  else if b =? 8 then [92; 98]
  else if b =? 12 then [92; 102]
  else if b =? 10 then [92; 110]
  else if b =? 13 then [92; 114]
  else if b =? 9 then [92; 116]
  else if (b <? 32) || (b =? 60) || (b =? 62) || (b =? 38)
  then [92; 117; 48; 48; hex_digit (b / 16); hex_digit (b mod 16)]
  else [b].

(** U+2028 and U+2029 are escaped; a byte that is not UTF-8 is written as the
    escape of the replacement rune. *)
Definition escape_three (b0 b1 b2 : Z) : list Z :=
  if rune3 b0 b1 b2 =? 8232 then [92; 117; 50; 48; 50; 56]
  else if rune3 b0 b1 b2 =? 8233 then [92; 117; 50; 48; 50; 57]
  else [b0; b1; b2].
Definition escape_bad : list Z := [92; 117; 102; 102; 102; 100].

(** [appendString], between the quotes. *)
Fixpoint escape (p : list Z) : list Z :=
  match p with
  | [] => []
  | b0 :: p1 =>
      if b0 <? 128 then escape_ascii b0 ++ escape p1
      else
        match p1 with
        | b1 :: p2 =>
            if two b0 b1 then b0 :: b1 :: escape p2
            else
              match p2 with
              | b2 :: p3 =>
                  if three b0 b1 b2 then escape_three b0 b1 b2 ++ escape p3
                  else
                    match p3 with
                    | b3 :: p4 =>
                        if four b0 b1 b2 b3 then b0 :: b1 :: b2 :: b3 :: escape p4
                        else escape_bad ++ escape p1
                    | [] => escape_bad ++ escape p1
                    end
              | [] => escape_bad ++ escape p1
              end
        | [] => escape_bad
        end
  end.

Definition quote (s : string) : list Z := 34 :: escape (codes s) ++ [34].

(** Items separated by commas. *)
Fixpoint commas (ls : list (list Z)) : list Z :=
  match ls with
  | [] => []
  | [x] => x
  | x :: ls => x ++ 44 :: commas ls
  end.

Fixpoint print (j : json) : list Z :=
  match j with
  | JNull => codes "null"
  | JBool true => codes "true"
  | JBool false => codes "false"
  | JNum t => codes t
  | JStr s => quote s
  | JArr l => 91 :: commas (print <$> l) ++ [93]
  | JObj l => 123 :: commas ((fun kv => quote kv.1 ++ 58 :: print kv.2) <$> l) ++ [125]
  end.

(** A member of an object. *)
Definition member (kv : string * json) : list Z := quote kv.1 ++ 58 :: print kv.2.

(** ** Parsing: strings *)

Definition hex_value (c : Z) : option Z :=
  if (48 <=? c) && (c <=? 57) then Some (c - 48)
  else if (97 <=? c) && (c <=? 102) then Some (c - 87)
  else if (65 <=? c) && (c <=? 70) then Some (c - 55)
  else None.

Definition hex4 (p : list Z) : option (Z * list Z) :=
  match p with
  | a :: b :: c :: d :: p =>
      match hex_value a, hex_value b, hex_value c, hex_value d with
      | Some a, Some b, Some c, Some d => Some (((a * 16 + b) * 16 + c) * 16 + d, p)
      | _, _, _, _ => None
      end
  | _ => None
  end.

(** [utf16.DecodeRune] on the escape that follows a surrogate. *)
Definition low_surrogate (r : Z) (p : list Z) : option (Z * list Z) :=
  match p with
  | c :: u :: p =>
      if (c =? 92) && (u =? 117) then
        match hex4 p with
        | Some (r', p) =>
            if (r <=? 56319) && (56320 <=? r') && (r' <=? 57343)
            then Some ((r - 55296) * 1024 + (r' - 56320) + 65536, p) else None
        | None => None
        end
      else None
  | _ => None
  end.

Definition simple_escape (e : Z) : option Z :=
  if (e =? 34) || (e =? 92) || (e =? 47) then Some e
  else if e =? 98 then Some 8
  else if e =? 102 then Some 12
  else if e =? 110 then Some 10
  else if e =? 114 then Some 13
  else if e =? 116 then Some 9
  else None.

Definition emit (o : list Z) (r : option (list Z * list Z)) : option (list Z * list Z) :=
  match r with Some (s, p) => Some (o ++ s, p) | None => None end.

(** The rest of a string literal after its opening quote: its bytes and what
    follows the closing quote. *)
Fixpoint unquote (n : nat) (p : list Z) : option (list Z * list Z) :=
  match n with
  | O => None
  | S n =>
      match p with
      | [] => None
      | c :: p =>
          if c =? 34 then Some ([], p)
          else if c =? 92 then
            match p with
            | [] => None
            | e :: p =>
                if e =? 117 then
                  match hex4 p with
                  | Some (r, p) =>
                      if surrogate r then
                        match low_surrogate r p with
                        | Some (r, p) => emit (EncodeRune r) (unquote n p)
                        | None => emit (EncodeRune RuneError) (unquote n p)
                        end
                      else emit (EncodeRune r) (unquote n p)
                  | None => None
                  end
                else
                  match simple_escape e with
                  | Some b => emit [b] (unquote n p)
                  | None => None
                  end
            end
          else if c <? 32 then None
          else if c <? 128 then emit [c] (unquote n p)
          else let '(r, p) := DecodeRune c p in emit (EncodeRune r) (unquote n p)
      end
  end.

Definition string_literal (p : list Z) : option (string * list Z) :=
  match unquote (length p) p with Some (s, p) => Some (string_of s, p) | None => None end.

(** ** Parsing: numbers *)

Definition digit (c : Z) : bool := (48 <=? c) && (c <=? 57).

Fixpoint digits (p : list Z) : list Z * list Z :=
  match p with
  | c :: p' => if digit c then let '(a, r) := digits p' in (c :: a, r) else ([], p)
  | [] => ([], [])
  end.

(** An optional character of [cs]. *)
Definition opt_char (cs : list Z) (p : list Z) : list Z * list Z :=
  match p with
  | c :: p' => if decide (c ∈ cs) then ([c], p') else ([], p)
  | [] => ([], [])
  end.

Definition int_part (p : list Z) : option (list Z * list Z) :=
  match p with
  | c :: p' => if c =? 48 then Some ([c], p') else if digit c then Some (digits p) else None
  | [] => None
  end.

(** Digits, at least one. *)
Definition digits1 (p : list Z) : option (list Z * list Z) :=
  let '(a, r) := digits p in match a with [] => None | _ => Some (a, r) end.

Definition frac_part (p : list Z) : option (list Z * list Z) :=
  match p with
  | c :: p' => if c =? 46 then emit [c] (digits1 p') else Some ([], p)
  | [] => Some ([], [])
  end.

Definition exp_part (p : list Z) : option (list Z * list Z) :=
  match p with
  | c :: p' =>
      if (c =? 101) || (c =? 69)
      then let '(sg, p') := opt_char [43; 45] p' in emit (c :: sg) (digits1 p')
      else Some ([], p)
  | [] => Some ([], [])
  end.

Definition number (p : list Z) : option (list Z * list Z) :=
  let '(m, p) := opt_char [45] p in
  match int_part p with
  | Some (i, p) =>
      match frac_part p with
      | Some (f, p) => emit (m ++ i ++ f) (exp_part p)
      | None => None
      end
  | None => None
  end.

(** ** Parsing: values *)

Fixpoint skip (p : list Z) : list Z :=
  match p with
  | c :: p' => if (c =? 32) || (c =? 9) || (c =? 10) || (c =? 13) then skip p' else p
  | [] => []
  end.

Fixpoint strip (w p : list Z) : option (list Z) :=
  match w, p with
  | [], p => Some p
  | a :: w, b :: p => if a =? b then strip w p else None
  | _ :: _, [] => None
  end.

(** [maxNestingDepth]. *)
Definition maxNestingDepth : Z := 10000.

Definition literal (w : string) (j : json) (p : list Z) : option (json * list Z) :=
  match strip (codes w) p with Some p => Some (j, p) | None => None end.

(** A value, the elements of an array after its bracket and the members of an
    object after its brace; [d] brackets and braces are open. *)
Fixpoint value (n : nat) (d : Z) (p : list Z) : option (json * list Z) :=
  match n with
  | O => None
  | S n =>
      match skip p with
      | [] => None
      | c :: p =>
          if c =? 123 then
            if maxNestingDepth <? d + 1 then None
            else match skip p with
                 | c' :: p' =>
                     if c' =? 125 then Some (JObj [], p')
                     else match members n (d + 1) (c' :: p') with
                          | Some (l, p) => Some (JObj l, p)
                          | None => None
                          end
                 | [] => None
                 end
          else if c =? 91 then
            if maxNestingDepth <? d + 1 then None
            else match skip p with
                 | c' :: p' =>
                     if c' =? 93 then Some (JArr [], p')
                     else match elements n (d + 1) (c' :: p') with
                          | Some (l, p) => Some (JArr l, p)
                          | None => None
                          end
                 | [] => None
                 end
          else if c =? 34 then
            match string_literal p with Some (s, p) => Some (JStr s, p) | None => None end
          else if c =? 110 then literal "null" JNull (c :: p)
          else if c =? 116 then literal "true" (JBool true) (c :: p)
          else if c =? 102 then literal "false" (JBool false) (c :: p)
          else match number (c :: p) with
               | Some (t, p) => Some (JNum (string_of t), p)
               | None => None
               end
      end
  end
with elements (n : nat) (d : Z) (p : list Z) : option (list json * list Z) :=
  match n with
  | O => None
  | S n =>
      match value n d p with
      | Some (j, p) =>
          match skip p with
          | c :: p =>
              if c =? 93 then Some ([j], p)
              else if c =? 44 then
                match elements n d p with Some (l, p) => Some (j :: l, p) | None => None end
              else None
          | [] => None
          end
      | None => None
      end
  end
with members (n : nat) (d : Z) (p : list Z) : option (list (string * json) * list Z) :=
  match n with
  | O => None
  | S n =>
      match skip p with
      | q :: p =>
          if q =? 34 then
            match string_literal p with
            | Some (k, p) =>
                match skip p with
                | c :: p =>
                    if c =? 58 then
                      match value n d p with
                      | Some (j, p) =>
                          match skip p with
                          | c :: p =>
                              if c =? 125 then Some ([(k, j)], p)
                              else if c =? 44 then
                                match members n d p with
                                | Some (l, p) => Some ((k, j) :: l, p)
                                | None => None
                                end
                              else None
                          | [] => None
                          end
                      | None => None
                      end
                    else None
                | [] => None
                end
            | None => None
            end
          else None
      | [] => None
      end
  end.

(** A whole document. *)
Definition parse (p : list Z) : option json :=
  match value (2 * length p + 2) 0 p with
  | Some (j, p) => match skip p with [] => Some j | _ => None end
  | None => None
  end.

(** Documents in examples have apostrophes for quotes. *)
Definition doc (s : string) : list Z := (fun c => if c =? 39 then 34 else c) <$> codes s.

Example parse_ex :
  parse (doc " { 'a' : [1, -2.5e+3, true ] , 'b':null} ") =
    Some (JObj [("a", JArr [JNum "1"; JNum "-2.5e+3"; JBool true]); ("b", JNull)]).
Proof. vm_compute. reflexivity. Qed.
Example print_ex : print (JObj [("a<", JArr [JNum "1"; JStr "x"]); ("b", JNull)]) =
  doc "{'a\u003c':[1,'x'],'b':null}".
Proof. vm_compute. reflexivity. Qed.
(** A surrogate pair, a lone surrogate, a leading zero, a raw control
    character, a trailing comma. *)
Example parse_strings :
  parse (doc "'\ud83d\ude00 \ud83d'") =
    Some (JStr (string_of [240; 159; 152; 128; 32; 239; 191; 189])) /\
  parse (doc "01") = None /\ parse [34; 10; 34] = None /\ parse (doc "[1,]") = None.
Proof. vm_compute. done. Qed.

(** ** The fuel is enough

    Every turn of the loops consumes a byte, or starts the one value an
    element or a member has. *)

Lemma skip_length p : (length (skip p) <= length p)%nat.
Proof. induction p as [|c p IH]; [done|]. cbn. case_match; cbn; lia. Qed.

Lemma DecodeRune_length c p r q : DecodeRune c p = (r, q) -> (length q <= length p)%nat.
Proof. unfold DecodeRune. intros H. repeat case_match; simplify_eq; cbn; lia. Qed.

Lemma hex4_length p r q : hex4 p = Some (r, q) -> (length q < length p)%nat.
Proof. unfold hex4. intros H. repeat case_match; simplify_eq; cbn; lia. Qed.

Lemma low_surrogate_length r p r' q : low_surrogate r p = Some (r', q) -> (length q < length p)%nat.
Proof.
  unfold low_surrogate. intros H. repeat case_match; simplify_eq.
  match goal with H : hex4 _ = _ |- _ => apply hex4_length in H end. cbn in *. lia.
Qed.

Lemma emit_Some o r s p : emit o r = Some (s, p) <-> exists s', r = Some (s', p) /\ s = o ++ s'.
Proof. destruct r as [[]|]; cbn; naive_solver. Qed.

(** Facts on what the parsers leave, for every parser called. *)
Ltac lengths := repeat match goal with
  | H : DecodeRune _ _ = (_, _) |- _ => apply DecodeRune_length in H
  | H : hex4 _ = Some (_, _) |- _ => apply hex4_length in H
  | H : low_surrogate _ _ = Some (_, _) |- _ => apply low_surrogate_length in H
  end; cbn [length] in *.

Lemma unquote_fuel n m p :
  (length p <= n)%nat -> (length p <= m)%nat -> unquote n p = unquote m p.
Proof.
  revert m p. induction n as [|n IH]; intros m p Hn Hm.
  { destruct p; [|cbn in Hn; lia]. by destruct m. }
  destruct m as [|m]; [by destruct p; [|cbn in Hm; lia]|].
  cbn [unquote]. repeat case_match; lengths; try done; f_equal; apply IH; lia.
Qed.

Lemma unquote_length n p s q : unquote n p = Some (s, q) -> (length q < length p)%nat.
Proof.
  revert p s. induction n as [|n IH]; intros p s H; [done|]. cbn [unquote] in H.
  repeat case_match; simplify_eq; cbn; try lia; apply emit_Some in H as (? & H%IH & _); lengths; lia.
Qed.

Lemma string_literal_length p s q : string_literal p = Some (s, q) -> (length q < length p)%nat.
Proof. unfold string_literal. intros H. repeat case_match; simplify_eq. by eapply unquote_length. Qed.

Lemma digits_length p a r : digits p = (a, r) -> (length a + length r = length p)%nat.
Proof.
  revert a. induction p as [|c p IH]; intros a; cbn; [by intros [= <- <-]|].
  destruct (digit c); [|by intros [= <- <-]]. destruct (digits p) as [a' r'].
  intros [= <- <-]. cbn. by rewrite (IH a').
Qed.

Lemma digits1_length p a r : digits1 p = Some (a, r) -> (length r <= length p)%nat.
Proof.
  unfold digits1. destruct (digits p) as [a' r'] eqn:E. apply digits_length in E.
  intros H. case_match; simplify_eq. lia.
Qed.

Lemma opt_char_length cs p a r : opt_char cs p = (a, r) -> (length r <= length p)%nat.
Proof. unfold opt_char. intros H. repeat case_match; simplify_eq; cbn; lia. Qed.

Lemma int_part_length p a r : int_part p = Some (a, r) -> (length r < length p)%nat.
Proof.
  unfold int_part. destruct p as [|c p]; [done|]. cbn [digits].
  destruct (c =? 48); [intros [= <- <-]; cbn; lia|]. destruct (digit c); [|done].
  destruct (digits p) as [a' r'] eqn:E. apply digits_length in E. intros [= <- <-]. cbn. lia.
Qed.

Lemma frac_part_length p a r : frac_part p = Some (a, r) -> (length r <= length p)%nat.
Proof.
  unfold frac_part. intros H. repeat case_match; simplify_eq; try done.
  apply emit_Some in H as (? & H%digits1_length & _). cbn. lia.
Qed.

Lemma exp_part_length p a r : exp_part p = Some (a, r) -> (length r <= length p)%nat.
Proof.
  unfold exp_part. intros H. repeat case_match; simplify_eq; try done.
  apply emit_Some in H as (? & H%digits1_length & _).
  match goal with H : opt_char _ _ = _ |- _ => apply opt_char_length in H end. cbn. lia.
Qed.

Lemma number_length p t q : number p = Some (t, q) -> (length q < length p)%nat.
Proof.
  unfold number. destruct (opt_char _ p) as [m p1] eqn:Em. apply opt_char_length in Em.
  destruct (int_part p1) as [[i p2]|] eqn:Ei; [|done]. apply int_part_length in Ei.
  destruct (frac_part p2) as [[f p3]|] eqn:Ef; [|done]. apply frac_part_length in Ef.
  intros (? & H%exp_part_length & _)%emit_Some. lia.
Qed.

Lemma strip_length w p q : strip w p = Some q -> (length w + length q = length p)%nat.
Proof.
  revert p. induction w as [|a w IH]; intros p; cbn; [by intros [= ->]|].
  destruct p as [|b p]; [done|]. destruct (a =? b); [|done]. intros H%IH. cbn. lia.
Qed.

Lemma literal_length w j p i q :
  w <> EmptyString -> literal w j p = Some (i, q) -> (length q < length p)%nat.
Proof.
  unfold literal. intros Hw H. destruct (strip _ p) eqn:E; [|done]. simplify_eq.
  apply strip_length in E. destruct w; [done|]. cbn in E. lia.
Qed.

(** Exposes the lengths of every parse that succeeded. *)
Ltac parsed := repeat match goal with
  | H : string_literal _ = Some (_, _) |- _ => apply string_literal_length in H
  | H : number _ = Some (_, _) |- _ => apply number_length in H
  | H : literal _ _ _ = Some (_, _) |- _ => apply literal_length in H; [|done]
  | H : skip ?p = _ |- _ => pose proof (skip_length p); rewrite H in *; clear H
  end; cbn [length] in *.

Lemma value_consumes n :
  (forall d p j q, value n d p = Some (j, q) -> (length q < length p)%nat) /\
  (forall d p l q, elements n d p = Some (l, q) -> (length q < length p)%nat) /\
  (forall d p l q, members n d p = Some (l, q) -> (length q < length p)%nat).
Proof.
  induction n as [|n (IHv & IHe & IHm)]; [done|].
  split_and!; intros d p j q H; cbn [value elements members] in H;
    repeat case_match; simplify_eq;
    repeat match goal with
    | H : value _ _ _ = Some (_, _) |- _ => apply IHv in H
    | H : elements _ _ _ = Some (_, _) |- _ => apply IHe in H
    | H : members _ _ _ = Some (_, _) |- _ => apply IHm in H
    end; parsed; lia.
Qed.

(** More fuel than [parse] gives makes no difference. *)
Lemma value_fuel n :
  (forall m d p, (2 * length p + 1 <= n)%nat -> (2 * length p + 1 <= m)%nat ->
     value n d p = value m d p) /\
  (forall m d p, (2 * length p + 2 <= n)%nat -> (2 * length p + 2 <= m)%nat ->
     elements n d p = elements m d p) /\
  (forall m d p, (2 * length p + 2 <= n)%nat -> (2 * length p + 2 <= m)%nat ->
     members n d p = members m d p).
Proof.
  induction n as [|n (IHv & IHe & IHm)]; [split_and!; lia|].
  split_and!; intros [|m] d p Hn Hm; [lia| |lia| |lia|]; cbn [value elements members].
  - pose proof (skip_length p). destruct (skip p) as [|c q] eqn:E; [done|]. cbn [length] in *.
    pose proof (skip_length q). destruct (skip q) as [|c' q'] eqn:E'; [done|]. cbn [length] in *.
    rewrite (IHe m) by (cbn; lia). by rewrite (IHm m) by (cbn; lia).
  - rewrite (IHv m) by lia. destruct (value m d p) as [[j q]|] eqn:E; [|done].
    apply value_consumes in E. pose proof (skip_length q).
    destruct (skip q) as [|c q'] eqn:E'; [done|]. cbn [length] in *. by rewrite (IHe m) by lia.
  - pose proof (skip_length p). destruct (skip p) as [|c q] eqn:E; [done|]. cbn [length] in *.
    case_match; [|done]. destruct (string_literal q) as [[k q1]|] eqn:Es; [|done].
    apply string_literal_length in Es. pose proof (skip_length q1).
    destruct (skip q1) as [|c1 q2] eqn:E1; [done|]. cbn [length] in *.
    case_match; [|done]. rewrite (IHv m) by lia.
    destruct (value m d q2) as [[j q3]|] eqn:Ev; [|done]. apply value_consumes in Ev.
    pose proof (skip_length q3). destruct (skip q3) as [|c3 q4] eqn:E3; [done|]. cbn [length] in *.
    by rewrite (IHm m) by lia.
Qed.

Lemma parse_fuel n p : (2 * length p + 2 <= n)%nat ->
  value n 0 p = value (2 * length p + 2) 0 p.
Proof. intros H. apply (proj1 (value_fuel n)); lia. Qed.

(** ** Round trip *)

(** One character of plain ASCII, escaped and read back. *)
Definition ascii_back (b : Z) : Prop :=
  forall n q, unquote (S n) (escape_ascii b ++ q) = emit [b] (unquote n q).

Lemma ascii_back_all : Forall ascii_back (seqZ 0 128).
Proof. repeat (constructor; [intros n q; reflexivity|]). constructor. Qed.

Lemma unquote_ascii b n q : 0 <= b < 128 ->
  unquote (S n) (escape_ascii b ++ q) = emit [b] (unquote n q).
Proof.
  intros Hb. pose proof ascii_back_all as H. rewrite Forall_forall in H.
  apply H, elem_of_seqZ. lia.
Qed.

Lemma unquote_rune c p n r q :
  128 <= c -> DecodeRune c p = (r, q) ->
  unquote (S n) (c :: p) = emit (EncodeRune r) (unquote n q).
Proof.
  intros Hc H. cbn [unquote]. rewrite H.
  rewrite (proj2 (Z.eqb_neq c 34)), (proj2 (Z.eqb_neq c 92)) by lia.
  by rewrite (proj2 (Z.ltb_ge c 32)), (proj2 (Z.ltb_ge c 128)) by lia.
Qed.

Lemma unquote_three b0 b1 b2 n q : three b0 b1 b2 = true ->
  unquote (S n) (escape_three b0 b1 b2 ++ q) = emit [b0; b1; b2] (unquote n q).
Proof.
  intros H. unfold escape_three. pose proof (Encode_three _ _ _ H) as He.
  destruct (Z.eqb_spec (rune3 b0 b1 b2) 8232) as [E|E]; [rewrite E in He; by rewrite <-He|].
  destruct (Z.eqb_spec (rune3 b0 b1 b2) 8233) as [E'|E']; [rewrite E' in He; by rewrite <-He|].
  pose proof (three_bounds _ _ _ H). cbn [app].
  by rewrite (unquote_rune b0 _ _ _ _ ltac:(lia) (Decode_three _ _ _ _ H)), He.
Qed.

Lemma escape_ascii_length b : (1 <= length (escape_ascii b))%nat.
Proof. unfold escape_ascii. repeat case_match; cbn; lia. Qed.
Lemma escape_three_length b0 b1 b2 : (1 <= length (escape_three b0 b1 b2))%nat.
Proof. unfold escape_three. repeat case_match; cbn; lia. Qed.

(** Reading an escaped string gives it back. *)
Lemma unquote_escape s n rest :
  valid s = true -> Forall (fun b => 0 <= b < 256) s -> (length (escape s) < n)%nat ->
  unquote n (escape s ++ 34 :: rest) = Some (s, rest).
Proof.
  revert n. induction s as [s IH] using (induction_ltof1 _ (@length Z)).
  unfold ltof in IH. intros n Hv Hr Hn. destruct n as [|n]; [lia|].
  destruct (valid_cases s Hv) as [|b p Hb Hp|b0 b1 p H2 Hp|b0 b1 b2 p H3 Hp|b0 b1 b2 b3 p H4 Hp].
  - done.
  - apply Forall_cons in Hr as [Hb' Hr]. cbn [escape] in *.
    rewrite (proj2 (Z.ltb_lt b 128)) in * by lia. pose proof (escape_ascii_length b).
    rewrite length_app in Hn. rewrite <-app_assoc, unquote_ascii by lia.
    rewrite IH; [done|cbn; lia|done|done|lia].
  - pose proof (two_bounds _ _ H2). cbn [escape] in *.
    rewrite (proj2 (Z.ltb_ge b0 128)), H2 in * by lia. cbn [length app] in *.
    rewrite (unquote_rune b0 _ _ _ _ ltac:(lia) (Decode_two _ _ _ H2)), Encode_two by done.
    rewrite IH; [done|lia|done|by do 2 apply Forall_cons_1 in Hr as [_ Hr]|lia].
  - pose proof (three_bounds _ _ _ H3). cbn [escape] in *.
    rewrite (proj2 (Z.ltb_ge b0 128)), two_false, H3 in * by lia.
    pose proof (escape_three_length b0 b1 b2). rewrite length_app in Hn.
    rewrite <-app_assoc, unquote_three by done.
    rewrite IH; [done|cbn; lia|done|by do 3 apply Forall_cons_1 in Hr as [_ Hr]|lia].
  - pose proof (four_bounds _ _ _ _ H4). cbn [escape] in *.
    rewrite (proj2 (Z.ltb_ge b0 128)), two_false, three_false, H4 in * by lia. cbn [length app] in *.
    rewrite (unquote_rune b0 _ _ _ _ ltac:(lia) (Decode_four _ _ _ _ _ H4)), Encode_four by done.
    rewrite IH; [done|lia|done|by do 4 apply Forall_cons_1 in Hr as [_ Hr]|lia].
Qed.

Lemma string_literal_quote s rest :
  valid_string s = true -> string_literal (escape (codes s) ++ 34 :: rest) = Some (s, rest).
Proof.
  intros H. unfold string_literal.
  rewrite unquote_escape; [by rewrite string_of_codes|done|apply codes_range|].
  rewrite length_app. cbn. lia.
Qed.

(** What can follow a value the printer wrote. *)
Definition delim (rest : list Z) : Prop :=
  match rest with [] => True | c :: _ => c = 44 \/ c = 93 \/ c = 125 end.

Section Follow.
Variable rest : list Z.
Hypothesis Hrest : delim rest.

Lemma digits_follow p a r : digits p = (a, r) -> digits (p ++ rest) = (a, r ++ rest).
Proof.
  revert a. induction p as [|c p IH]; intros a; cbn [digits app].
  - intros [= <- <-]. destruct rest as [|c r0]; [done|]. cbn [digits].
    by destruct Hrest as [-> | [-> | ->]].
  - destruct (digit c); [|by intros [= <- <-]]. destruct (digits p) as [a' r'].
    intros [= <- <-]. by rewrite (IH a').
Qed.

Lemma digits1_follow p a r : digits1 p = Some (a, r) -> digits1 (p ++ rest) = Some (a, r ++ rest).
Proof.
  unfold digits1. destruct (digits p) as [a' r'] eqn:E. rewrite (digits_follow _ _ _ E).
  by destruct a'; [|intros [= <- <-]].
Qed.

Lemma opt_char_follow cs p a r :
  (44 ∉ cs) -> (93 ∉ cs) -> (125 ∉ cs) ->
  opt_char cs p = (a, r) -> opt_char cs (p ++ rest) = (a, r ++ rest).
Proof.
  intros ? ? ?. destruct p as [|c p]; cbn [opt_char app].
  - intros [= <- <-]. destruct rest as [|c r0]; [done|]. cbn [opt_char].
    rewrite decide_False; [done|]. by destruct Hrest as [-> | [-> | ->]].
  - by case_decide; intros [= <- <-].
Qed.

Lemma int_part_follow p a r : int_part p = Some (a, r) -> int_part (p ++ rest) = Some (a, r ++ rest).
Proof.
  unfold int_part. destruct p as [|c p]; [done|]. cbn [app].
  destruct (c =? 48); [by intros [= <- <-]|]. destruct (digit c); [|done].
  intros [= E]. by rewrite <-(digits_follow (c :: p) a r).
Qed.

Lemma emit_follow o r r' a q :
  (forall b s, r = Some (b, s) -> r' = Some (b, s ++ rest)) ->
  emit o r = Some (a, q) -> emit o r' = Some (a, q ++ rest).
Proof. intros H (b & E & ->)%emit_Some. by rewrite (H _ _ E). Qed.

Lemma frac_part_follow p a r :
  frac_part p = Some (a, r) -> frac_part (p ++ rest) = Some (a, r ++ rest).
Proof.
  unfold frac_part. destruct p as [|c p]; cbn [app].
  - intros [= <- <-]. destruct rest as [|c r0]; [done|]. by destruct Hrest as [-> | [-> | ->]].
  - destruct (c =? 46); [|by intros [= <- <-]]. apply emit_follow, digits1_follow.
Qed.

Lemma exp_part_follow p a r :
  exp_part p = Some (a, r) -> exp_part (p ++ rest) = Some (a, r ++ rest).
Proof.
  unfold exp_part. destruct p as [|c p]; cbn [app].
  - intros [= <- <-]. destruct rest as [|c r0]; [done|]. by destruct Hrest as [-> | [-> | ->]].
  - destruct (_ || _); [|by intros [= <- <-]]. destruct (opt_char _ p) as [sg p'] eqn:E.
    rewrite (opt_char_follow [43; 45] _ _ _ ltac:(set_solver) ltac:(set_solver) ltac:(set_solver) E). apply emit_follow, digits1_follow.
Qed.

Lemma number_follow p a r : number p = Some (a, r) -> number (p ++ rest) = Some (a, r ++ rest).
Proof.
  unfold number. destruct (opt_char _ p) as [m p1] eqn:Em.
  rewrite (opt_char_follow [45] _ _ _ ltac:(set_solver) ltac:(set_solver) ltac:(set_solver) Em).
  destruct (int_part p1) as [[i p2]|] eqn:Ei; [|done]. rewrite (int_part_follow _ _ _ Ei).
  destruct (frac_part p2) as [[f p3]|] eqn:Ef; [|done]. rewrite (frac_part_follow _ _ _ Ef).
  apply emit_follow, exp_part_follow.
Qed.

End Follow.

(** Documents the printer writes faithfully: strings are UTF-8 and numbers
    are literals. *)
Fixpoint wf_json (j : json) : bool :=
  match j with
  | JNull | JBool _ => true
  | JNum t => bool_decide (number (codes t) = Some (codes t, []))
  | JStr s => valid_string s
  | JArr l => forallb wf_json l
  | JObj l => forallb (fun kv => valid_string kv.1 && wf_json kv.2) l
  end.

(** How a number starts. *)
Lemma number_head p a r : number p = Some (a, r) ->
  exists c p', p = c :: p' /\ (c = 45 \/ 48 <= c <= 57).
Proof.
  unfold number, opt_char, int_part, digit. destruct p as [|c p]; [done|].
  case_decide as Hc.
  - intros _. exists c, p. split; [done|]. left. set_solver.
  - intros H. exists c, p. split; [done|]. right.
    destruct (Z.eqb_spec c 48); [lia|]. destruct ((48 <=? c) && (c <=? 57)) eqn:E; [|done].
    apply andb_true_iff in E. lia.
Qed.

(** Evaluates the tests of the parser on a known character. *)
Ltac on_char := repeat match goal with
  | |- context [?a =? ?b] => rewrite (proj2 (Z.eqb_neq a b)) by lia; cbn [orb]
  | |- context [?a <? ?b] => rewrite (proj2 (Z.ltb_ge a b)) by lia; cbn [orb]
  end.

Lemma value_number n d p a rest :
  delim rest -> number p = Some (a, []) ->
  value (S n) d (p ++ rest) = Some (JNum (string_of a), rest).
Proof.
  intros Hr H. pose proof (number_follow rest Hr _ _ _ H) as Hn.
  apply number_head in H as (c & p' & -> & Hc). cbn [value skip app] in *.
  on_char. by rewrite Hn.
Qed.

(** What the printer writes is not empty and does not start with white space
    or a closing bracket. *)
Definition opener (c : Z) : Prop := 32 < c /\ c <> 93 /\ c <> 125.

Lemma print_head j : wf_json j = true -> exists c p, print j = c :: p /\ opener c.
Proof.
  unfold opener. destruct j as [|[]|t|s|l|l]; intros H;
    [exists 110|exists 116|exists 102| |exists 34|exists 91|exists 123]; try (eexists; split; [reflexivity|lia]).
  apply bool_decide_eq_true, number_head in H as (c & p & E & Hc).
  exists c, p. split; [done|lia].
Qed.

Lemma skip_opener c p : opener c -> skip (c :: p) = c :: p.
Proof. intros [? _]. cbn [skip]. by on_char. Qed.

Lemma commas_cons x ls : ls <> [] -> commas (x :: ls) = x ++ 44 :: commas ls.
Proof. by destruct ls. Qed.

Lemma commas_head x ls c p : x = c :: p -> exists p', commas (x :: ls) = c :: p'.
Proof. intros ->. destruct ls; cbn; eauto. Qed.

(** The parser reads back what is printed of [j], whatever follows it. *)
Definition reads (j : json) : Prop :=
  forall n d rest, wf_json j = true -> d + depth j <= maxNestingDepth -> delim rest ->
    (2 * length (print j) <= n)%nat -> value n d (print j ++ rest) = Some (j, rest).

Lemma elements_reads l n d rest :
  l <> [] -> Forall reads l -> forallb wf_json l = true ->
  d + foldr Z.max 0 (depth <$> l) <= maxNestingDepth ->
  (2 * length (commas (print <$> l)) + 1 <= n)%nat ->
  elements n d (commas (print <$> l) ++ 93 :: rest) = Some (l, rest).
Proof.
  intros Hl H. revert n. induction H as [|j l Hj Hls IH]; [done|]. clear Hl.
  cbn [fmap list_fmap forallb foldr]. intros n [Hw Hws]%andb_true_iff Hd Hn.
  destruct n as [|n]; [lia|]. cbn [elements]. destruct l as [|j' l].
  - cbn [fmap list_fmap commas foldr] in *. rewrite Hj; [done|done|lia|cbn; auto|lia].
  - rewrite commas_cons, length_app in * by done. cbn [length] in Hn.
    rewrite <-app_assoc, <-app_comm_cons.
    rewrite Hj; [|done|lia|cbn; auto|lia]. rewrite (skip_opener 44) by (unfold opener; lia).
    change (44 =? 93) with false. change (44 =? 44) with true. cbv iota.
    rewrite IH; [done|done|done|lia|lia].
Qed.

Lemma members_reads l n d rest :
  l <> [] -> Forall (fun kv => reads kv.2) l ->
  forallb (fun kv => valid_string kv.1 && wf_json kv.2) l = true ->
  d + foldr Z.max 0 ((fun kv => depth kv.2) <$> l) <= maxNestingDepth ->
  (2 * length (commas (member <$> l)) + 1 <= n)%nat ->
  members n d (commas (member <$> l) ++ 125 :: rest) = Some (l, rest).
Proof.
  intros Hl H. revert n. induction H as [|[k j] l Hj Hls IH]; [done|]. clear Hl.
  cbn [fmap list_fmap forallb foldr fst snd] in *.
  intros n [[Hk Hw]%andb_true_iff Hws]%andb_true_iff Hd Hn.
  assert (forall r, members (S (pred n)) d (member (k, j) ++ r) =
    match value (pred n) d (print j ++ r) with
    | Some (j, p) =>
        match skip p with
        | c :: p =>
            if c =? 125 then Some ([(k, j)], p)
            else if c =? 44 then
              match members (pred n) d p with Some (l, p) => Some ((k, j) :: l, p) | None => None end
            else None
        | [] => None
        end
    | None => None
    end) as Hstep.
  { intros r. unfold member, quote. cbn [fst snd]. rewrite <-!app_comm_cons, <-!app_assoc. cbn [app members].
    rewrite (skip_opener 34) by (unfold opener; lia). change (34 =? 34) with true. cbv iota.
    by rewrite string_literal_quote, (skip_opener 58) by (done || unfold opener; lia). }
  assert (S (length (print j)) < length (member (k, j)))%nat as Hf.
  { unfold member, quote. rewrite length_app. cbn. lia. }
  destruct n as [|n]; [lia|]. cbn [pred] in Hstep. destruct l as [|kv l].
  - cbn [fmap list_fmap commas foldr] in *. rewrite Hstep, Hj; [done|done|lia|cbn; auto|lia].
  - rewrite commas_cons, length_app in * by done. cbn [length] in Hn.
    rewrite <-app_assoc, <-app_comm_cons, Hstep.
    rewrite Hj; [|done|lia|cbn; auto|lia]. rewrite (skip_opener 44) by (unfold opener; lia).
    change (44 =? 125) with false. change (44 =? 44) with true. cbv iota.
    rewrite IH; [done|done|done|lia|lia].
Qed.

(** A document within the limit may open one more level. *)
Lemma open_ok d l : d + (1 + foldr Z.max 0 l) <= maxNestingDepth -> (maxNestingDepth <? d + 1) = false.
Proof.
  intros H. apply Z.ltb_ge. assert (0 <= foldr Z.max 0 l) by (clear; induction l; cbn; lia). lia.
Qed.

Lemma reads_all j : reads j.
Proof.
  induction j as [|b|t|s|l IH|l IH] using json_ind'; intros [|n] d rest Hw Hd Hr Hn;
    try (by destruct (print_head _ Hw) as (c & p & E & _); rewrite E in Hn; cbn in Hn; lia).
  - done.
  - by destruct b.
  - apply bool_decide_eq_true in Hw. cbn [print]. erewrite value_number; [|done..].
    by rewrite string_of_codes.
  - cbn [print wf_json] in *. unfold quote. rewrite <-app_comm_cons, <-app_assoc. cbn [value app].
    rewrite (skip_opener 34) by (unfold opener; lia). on_char. change (34 =? 34) with true. cbv iota.
    by rewrite string_literal_quote.
  - cbn [print wf_json depth] in *. rewrite <-app_comm_cons, <-app_assoc. cbn [value app].
    rewrite (skip_opener 91) by (unfold opener; lia). on_char. change (91 =? 91) with true. cbv iota.
    rewrite (open_ok _ _ Hd). rewrite length_cons, length_app in Hn.
    destruct l as [|j l]; [done|].
    destruct (print_head j) as (c & p & Ec & Hc); [by apply andb_true_iff in Hw as [? _]|].
    destruct (commas_head (print j) (print <$> l) c p Ec) as (p' & E).
    pose proof (elements_reads (j :: l) n (d + 1) rest) as He.
    change (print <$> j :: l) with (print j :: (print <$> l)) in *.
    rewrite E in *. rewrite <-app_comm_cons in *. rewrite skip_opener, (proj2 (Z.eqb_neq c 93)) by apply Hc.
    cbn [length] in *. rewrite He; [done|done|done|done|lia|lia].
  - cbn [print wf_json depth] in *. rewrite <-app_comm_cons, <-app_assoc. cbn [value app].
    rewrite (skip_opener 123) by (unfold opener; lia). on_char. change (123 =? 123) with true. cbv iota.
    rewrite (open_ok _ _ Hd). rewrite length_cons, length_app in Hn.
    destruct l as [|[k j] l]; [done|].
    destruct (commas_head (member (k, j)) (member <$> l) 34 _ eq_refl) as (p' & E).
    pose proof (members_reads ((k, j) :: l) n (d + 1) rest) as He.
    change (member <$> (k, j) :: l) with (member (k, j) :: (member <$> l)) in *.
    change (((fun kv => quote kv.1 ++ 58 :: print kv.2) <$> (k, j) :: l))
      with (member (k, j) :: (member <$> l)) in *.
    rewrite E in *. rewrite <-app_comm_cons in *. rewrite skip_opener by (unfold opener; lia).
    cbn [length] in *. change (34 =? 125) with false. cbv iota.
    rewrite He; [done|done|done|done|lia|lia].
Qed.

(** Parsing a printed document gives it back. *)
Lemma parse_print j :
  wf_json j = true -> depth j <= maxNestingDepth -> parse (print j) = Some j.
Proof.
  intros Hw Hd. unfold parse. rewrite <-(app_nil_r (print j)) at 2.
  by rewrite reads_all by (done || lia).
Qed.

(** ** The printer writes bytes *)

Abbreviation is_byte := (fun b => 0 <= b < 256).

Lemma escape_ascii_range b : 0 <= b < 128 -> Forall is_byte (escape_ascii b).
Proof.
  intros H. assert (0 <= b / 16 < 8 /\ 0 <= b mod 16 < 16) as [? ?].
  { split; [split; [apply Z.div_pos|apply Z.div_lt_upper_bound]; lia|by apply Z.mod_pos_bound]. }
  unfold escape_ascii, hex_digit. repeat case_match; repeat constructor; lia.
Qed.

Lemma escape_range p : Forall is_byte p -> Forall is_byte (escape p).
Proof.
  induction p as [p IH] using (induction_ltof1 _ (@length Z)). unfold ltof in IH. intros H.
  assert (forall a q r, p = a ++ q -> a <> [] -> Forall is_byte r -> Forall is_byte (r ++ escape q)) as Hq.
  { intros a q r -> Ha Hr. apply Forall_app_2; [done|]. apply Forall_app in H as [_ H].
    apply IH; [|done]. rewrite length_app. destruct a; [done|]. cbn. lia. }
  assert (Forall is_byte escape_bad) as Hbad by (repeat constructor; lia).
  destruct p as [|b0 p]; [done|]. cbn [escape]. apply Forall_cons in H as [H0 H].
  destruct (Z.ltb_spec b0 128) as [Hb|Hb]; [apply (Hq [b0]); [done..|by apply escape_ascii_range; lia]|].
  destruct p as [|b1 p]; [done|]. apply Forall_cons in H as [H1 H].
  destruct (two b0 b1); [by apply (Hq [b0; b1] p [b0; b1]); [..|rewrite !Forall_cons]|].
  destruct p as [|b2 p]; [by apply (Hq [b0])|]. apply Forall_cons in H as [H2 H].
  destruct (three b0 b1 b2).
  { apply (Hq [b0; b1; b2]); [done..|]. unfold escape_three.
    repeat case_match; repeat constructor; lia. }
  destruct p as [|b3 p]; [by apply (Hq [b0])|]. apply Forall_cons in H as [H3 H].
  destruct (four b0 b1 b2 b3); [|by apply (Hq [b0])].
  by apply (Hq [b0; b1; b2; b3] p [b0; b1; b2; b3]); [..|rewrite !Forall_cons].
Qed.

Lemma quote_range s : Forall is_byte (quote s).
Proof.
  unfold quote. apply Forall_cons. split; [lia|]. apply Forall_app_2; [|repeat constructor; lia].
  apply escape_range, codes_range.
Qed.

Lemma commas_range ls : Forall (Forall is_byte) ls -> Forall is_byte (commas ls).
Proof.
  induction 1 as [|x [|y ls] Hx _ IH]; [done..|]. rewrite commas_cons by done.
  apply Forall_app_2; [done|]. by constructor; [lia|].
Qed.

Lemma print_range j : Forall is_byte (print j).
Proof.
  induction j as [|[]|t|s|l IH|l IH] using json_ind'; try apply codes_range.
  - apply quote_range.
  - cbn [print]. constructor; [lia|]. apply Forall_app_2; [|repeat constructor; lia].
    by apply commas_range, Forall_fmap.
  - cbn [print]. constructor; [lia|]. apply Forall_app_2; [|repeat constructor; lia].
    apply commas_range, Forall_fmap. eapply Forall_impl; [exact IH|]. intros kv H. cbn beta in *.
    apply Forall_app_2; [apply quote_range|]. by constructor; [lia|].
Qed.

(** ** Objects as maps *)

(** A [map[string]T] is written in the order of its keys; of members with the
    same key the last one is kept. *)
Definition key_le (a b : string * json) : Prop := String.leb a.1 b.1 = true.
#[global] Instance key_le_dec : RelDecision key_le.
Proof. intros a b. unfold key_le. apply _. Defined.

Definition sorted (m : gmap string json) : list (string * json) := merge_sort key_le (map_to_list m).
Definition obj_map {A} (l : list (string * A)) : gmap string A := list_to_map (reverse l).

Lemma obj_map_perm {A} (m : gmap string A) l : l ≡ₚ map_to_list m -> obj_map l = m.
Proof.
  intros H. unfold obj_map. etransitivity; [|apply list_to_map_to_list]. symmetry.
  apply list_to_map_proper; [apply NoDup_fst_map_to_list|]. by rewrite reverse_Permutation, H.
Qed.

Lemma obj_map_fmap {A B} (f : A -> B) l : f <$> obj_map l = obj_map (prod_map id f <$> l).
Proof. unfold obj_map. by rewrite <-fmap_reverse, list_to_map_fmap. Qed.

Lemma sorted_perm m : sorted m ≡ₚ map_to_list m.
Proof. apply merge_sort_Permutation. Qed.

Lemma obj_map_sorted m : obj_map (sorted m) = m.
Proof. apply obj_map_perm, sorted_perm. Qed.

Lemma forallb_sorted (f : string * json -> bool) m :
  map_Forall (fun k v => f (k, v) = true) m -> forallb f (sorted m) = true.
Proof.
  intros H. apply forallb_forall. intros [k v] Hin%list_elem_of_In.
  rewrite sorted_perm in Hin. by apply elem_of_map_to_list, H in Hin.
Qed.

(** The value an [interface{}] holds after decoding: maps in place of
    objects, and numbers as [strconv.ParseFloat] reads them ([float] gives
    their text when printed again, [None] when out of range). *)
Section Normal.
Variable float : string -> option string.

Fixpoint norm (j : json) : option json :=
  match j with
  | JNum t => JNum <$> float t
  | JArr l => JArr <$> (fix go l :=
      match l with
      | [] => Some []
      | j :: l => match norm j, go l with Some j, Some l => Some (j :: l) | _, _ => None end
      end) l
  | JObj l => (fun l => JObj (sorted (obj_map l))) <$> (fix go (l : list (string * json)) :=
      match l with
      | [] => Some []
      | (k, j) :: l => match norm j, go l with Some j, Some l => Some ((k, j) :: l) | _, _ => None end
      end) l
  | j => Some j
  end.

Fixpoint norm_members (l : list (string * json)) : option (list (string * json)) :=
  match l with
  | [] => Some []
  | (k, j) :: l =>
      match norm j, norm_members l with Some j, Some l => Some ((k, j) :: l) | _, _ => None end
  end.

Lemma norm_obj l : norm (JObj l) = (fun l => JObj (sorted (obj_map l))) <$> norm_members l.
Proof. done. Qed.

Lemma norm_members_fixed l :
  Forall (fun kv => norm kv.2 = Some kv.2) l -> norm_members l = Some l.
Proof. induction 1 as [|[k j] l H _ IH]; [done|]. cbn in *. by rewrite H, IH. Qed.

Lemma norm_members_sorted m :
  map_Forall (fun _ j => norm j = Some j) m -> norm_members (sorted m) = Some (sorted m).
Proof.
  intros H. apply norm_members_fixed, Forall_forall. intros [k j] Hin.
  rewrite sorted_perm in Hin. by apply elem_of_map_to_list, H in Hin.
Qed.

(** Objects of normal values, with their keys in order, are normal. *)
Lemma norm_sorted m :
  map_Forall (fun _ j => norm j = Some j) m -> norm (JObj (sorted m)) = Some (JObj (sorted m)).
Proof. intros H. rewrite norm_obj, norm_members_sorted by done. cbn. by rewrite obj_map_sorted. Qed.

End Normal.

Lemma depth_sorted m b :
  0 <= b -> map_Forall (fun _ j => depth j <= b) m -> depth (JObj (sorted m)) <= 1 + b.
Proof.
  intros Hb H. cbn [depth]. apply Z.add_le_mono_l.
  assert (Forall (fun kv => depth kv.2 <= b) (sorted m)) as Hf.
  { apply Forall_forall. intros [k j] Hin. rewrite sorted_perm in Hin.
    by apply elem_of_map_to_list, H in Hin. }
  induction Hf; cbn; lia.
Qed.

(** A map of strings. *)
Definition string_members (m : gmap string string) : gmap string json := JStr <$> m.

Definition utf8_map (m : gmap string string) : Prop :=
  map_Forall (fun k v => valid_string k = true /\ valid_string v = true) m.

Lemma wf_strings m : utf8_map m -> wf_json (JObj (sorted (string_members m))) = true.
Proof.
  intros H. cbn [wf_json]. apply forallb_sorted. intros k j.
  unfold string_members. intros (s & <- & Hs)%lookup_fmap_Some.
  apply H in Hs as [Hk Hv]. cbn [fst snd wf_json]. by rewrite Hk, Hv.
Qed.

Lemma norm_strings f m :
  norm f (JObj (sorted (string_members m))) = Some (JObj (sorted (string_members m))).
Proof.
  apply norm_sorted. intros k j. unfold string_members.
  by intros (s & <- & _)%lookup_fmap_Some.
Qed.

Lemma depth_strings m : depth (JObj (sorted (string_members m))) <= 1.
Proof.
  apply (depth_sorted _ 0); [done|]. intros k j. unfold string_members.
  by intros (s & <- & _)%lookup_fmap_Some.
Qed.

(** The strings among the members of an object. *)
Definition as_string (j : json) : option string := match j with JStr s => Some s | _ => None end.

Lemma strings_back m : omap as_string (obj_map (sorted (string_members m))) = m.
Proof.
  rewrite obj_map_sorted. apply map_eq. intros k. unfold string_members.
  rewrite lookup_omap, lookup_fmap. by destruct (m !! k).
Qed.

End GoJson.
