(* ===== verification/Proto3.v ===== *)
(** * The wire format of protocol buffers

    Varints, tags and fields, as the generated code of [protos/request.pb.go]
    has them written and read by the protobuf runtime. A message is the list
    of its fields; the messages themselves are in Protos. *)

From S2P Require Import Prelude Utf8.
From Stdlib Require Import Strings.Byte.

Module Proto3.

Local Open Scope Z_scope.

(** ** Varints *)

(** Seven bits a byte, the least significant first. *)
Fixpoint put_digits (fuel : nat) (n : Z) : list byte :=
  match fuel with
  | O => []
  | S fuel =>
      if n <? 128 then [byte_of_Z n] else byte_of_Z (n mod 128 + 128) :: put_digits fuel (n / 128)
  end.
Definition put_varint (n : Z) : list byte := put_digits (S (Z.to_nat (Z.log2 n))) n.

(** The number, how many bytes it took, and what follows. *)
Fixpoint get_digits (b : list byte) : option (Z * nat * list byte) :=
  match b with
  | [] => None
  | x :: b =>
      if byte_to_Z x <? 128 then Some (byte_to_Z x, 1%nat, b)
      else '(r, k, b) ← get_digits b; Some (byte_to_Z x - 128 + 128 * r, S k, b)
  end.

(** A 64-bit number takes at most ten bytes. *)
Definition get_varint (b : list byte) : option (Z * list byte) :=
  '(n, k, b) ← get_digits b; if (n <? 2 ^ 64) && (k <=? 10)%nat then Some (n, b) else None.

(** A length and as many bytes. A list of the model may be longer than any
    slice; its length then takes more bytes. *)
Definition get_bytes (b : list byte) : option (list byte * list byte) :=
  '(n, k, b) ← get_digits b;
  if ((k <=? 10)%nat || (2 ^ 64 <=? n)) && (n <=? Z.of_nat (length b))
  then Some (take (Z.to_nat n) b, drop (Z.to_nat n) b) else None.

Lemma get_put_digits fuel n rest : (0 <= n < 2 ^ Z.of_nat fuel) -> (0 < fuel)%nat ->
  get_digits (put_digits fuel n ++ rest) = Some (n, length (put_digits fuel n), rest).
Proof.
  revert n. induction fuel as [|fuel IH]; intros n Hn Hf; [lia|]. cbn [put_digits].
  destruct (Z.ltb_spec n 128) as [Hs|Hs].
  - cbn. rewrite byte_to_of_Z_small by lia. by rewrite (proj2 (Z.ltb_lt _ _) Hs).
  - assert (fuel <> 0%nat) by (intros ->; cbn in Hn; lia).
    pose proof (Z.mod_pos_bound n 128 ltac:(lia)) as Hm. cbn [app get_digits length].
    rewrite byte_to_of_Z_small by lia. rewrite (proj2 (Z.ltb_ge _ _)) by lia.
    rewrite Nat2Z.inj_succ, Z.pow_succ_r in Hn by lia.
    rewrite IH; [|split; [apply Z.div_pos; lia|apply Z.div_lt_upper_bound; lia]|lia].
    cbn. f_equal. f_equal. f_equal. pose proof (Z.div_mod n 128). lia.
Qed.

Lemma put_digits_length fuel j n : 0 <= n < 128 ^ Z.of_nat j -> (0 < j)%nat -> (length (put_digits fuel n) <= j)%nat.
Proof.
  revert j n. induction fuel as [|fuel IH]; intros j n Hn Hj; cbn; [lia|].
  destruct (Z.ltb_spec n 128); cbn; [lia|]. destruct j as [|j]; [lia|].
  destruct j as [|j]; [cbn in Hn; lia|]. rewrite Nat2Z.inj_succ, Z.pow_succ_r in Hn by lia.
  apply le_n_S, IH; [|lia]. split; [apply Z.div_pos; lia|apply Z.div_lt_upper_bound; lia].
Qed.

Lemma get_put n rest : 0 <= n ->
  get_digits (put_varint n ++ rest) = Some (n, length (put_varint n), rest).
Proof.
  intros Hn. apply get_put_digits; [|lia]. split; [done|].
  rewrite Nat2Z.inj_succ, Z2Nat.id by apply Z.log2_nonneg.
  destruct (Z.eq_dec n 0) as [->|]; [done|]. apply Z.log2_spec. lia.
Qed.

Lemma put_varint_length n : 0 <= n < 2 ^ 64 -> (length (put_varint n) <= 10)%nat.
Proof. intros H. apply put_digits_length; [|lia]. change (128 ^ Z.of_nat 10) with (2 ^ 70). lia. Qed.

Lemma put_varint_nonempty n : put_varint n <> [].
Proof. unfold put_varint. cbn. by destruct (n <? 128). Qed.

Lemma get_put_varint n rest : 0 <= n < 2 ^ 64 -> get_varint (put_varint n ++ rest) = Some (n, rest).
Proof.
  intros H. unfold get_varint. rewrite get_put by lia. cbn.
  rewrite (proj2 (Z.ltb_lt n _)) by lia. pose proof (put_varint_length n H).
  by rewrite (proj2 (Nat.leb_le _ 10)).
Qed.

Lemma get_put_bytes b rest :
  get_bytes (put_varint (Z.of_nat (length b)) ++ b ++ rest) = Some (b, rest).
Proof.
  unfold get_bytes. rewrite get_put by lia. cbn [mbind option_bind].
  rewrite (proj2 (Z.leb_le (Z.of_nat (length b)) _)) by (rewrite length_app; lia).
  rewrite andb_true_r, Nat2Z.id, take_app_length, drop_app_length.
  destruct (Z.leb_spec (2 ^ 64) (Z.of_nat (length b))) as [|H]; [by rewrite orb_true_r|].
  pose proof (put_varint_length (Z.of_nat (length b)) ltac:(lia)).
  by rewrite (proj2 (Nat.leb_le _ 10)).
Qed.

(** ** Fields *)

Inductive value :=
| VVarint (n : Z) | VI64 (b : list byte) | VLen (b : list byte) | VGroup | VI32 (b : list byte).
Abbreviation field := (Z * value)%type.

(** A tag is a field number and a wire type. *)
Definition MaxValidNumber : Z := 2 ^ 29 - 1.
Definition get_tag (max : Z) (b : list byte) : option (Z * Z * list byte) :=
  '(t, b) ← get_varint b;
  if (1 <=? t / 8) && (t / 8 <=? max) then Some (t / 8, t mod 8, b) else None.

Definition get_fixed (n : nat) (b : list byte) : option (list byte * list byte) :=
  if (n <=? length b)%nat then Some (take n b, drop n b) else None.

(** What follows the end of the group [num]. *)
Fixpoint skip_group (fuel : nat) (num : Z) (b : list byte) : option (list byte) :=
  match fuel with
  | O => None
  | S fuel =>
      '(n, t, b) ← get_tag (2 ^ 31 - 1) b;
      if t =? 4 then (if n =? num then Some b else None)
      else
        b ← (if t =? 0 then snd <$> get_varint b
             else if t =? 1 then snd <$> get_fixed 8 b
             else if t =? 2 then snd <$> get_bytes b
             else if t =? 3 then skip_group fuel n b
             else if t =? 5 then snd <$> get_fixed 4 b
             else None);
        skip_group fuel num b
  end.

Definition get_value (num typ : Z) (b : list byte) : option (value * list byte) :=
  if typ =? 0 then '(n, b) ← get_varint b; Some (VVarint n, b)
  else if typ =? 1 then '(v, b) ← get_fixed 8 b; Some (VI64 v, b)
  else if typ =? 2 then '(v, b) ← get_bytes b; Some (VLen v, b)
  else if typ =? 3 then b ← skip_group (length b) num b; Some (VGroup, b)
  else if typ =? 5 then '(v, b) ← get_fixed 4 b; Some (VI32 v, b)
  else None.

Fixpoint get_fields (fuel : nat) (b : list byte) : option (list field) :=
  match b, fuel with
  | [], _ => Some []
  | _, O => None
  | b, S fuel =>
      '(num, typ, b) ← get_tag MaxValidNumber b;
      '(v, b) ← get_value num typ b;
      fs ← get_fields fuel b;
      Some ((num, v) :: fs)
  end.
Definition read (b : list byte) : option (list field) := get_fields (length b) b.

(** Only varints and bytes are written. *)
Definition put_field (f : field) : list byte :=
  match f.2 with
  | VVarint n => put_varint (8 * f.1) ++ put_varint n
  | VLen b => put_varint (8 * f.1 + 2) ++ put_varint (Z.of_nat (length b)) ++ b
  | _ => []
  end.
Definition write (fs : list field) : list byte := concat (put_field <$> fs).

Definition writable (f : field) : Prop :=
  1 <= f.1 <= MaxValidNumber /\
  match f.2 with VVarint n => 0 <= n < 2 ^ 64 | VLen _ => True | _ => False end.

Lemma get_put_tag num typ rest : 1 <= num <= MaxValidNumber -> 0 <= typ < 8 ->
  get_tag MaxValidNumber (put_varint (8 * num + typ) ++ rest) = Some (num, typ, rest).
Proof.
  intros Hn Ht. unfold get_tag, MaxValidNumber in *. rewrite get_put_varint by lia. cbn.
  assert ((8 * num + typ) / 8 = num) as ->
    by (rewrite (Z.mul_comm 8), Z.div_add_l, Z.div_small by lia; lia).
  assert ((1 <=? num) && (num <=? 2 ^ 29 - 1) = true) as -> by (apply andb_true_iff; split; apply Z.leb_le; lia).
  by rewrite Z.add_comm, (Z.mul_comm 8), Z.mod_add, Z.mod_small by lia.
Qed.

Lemma put_field_nonempty f : writable f -> (0 < length (put_field f))%nat.
Proof.
  intros [_ Hv]. assert (forall n l, (0 < length (put_varint n ++ l))%nat) as H.
  { intros n l. rewrite length_app. pose proof (put_varint_nonempty n). destruct (put_varint n); [done|]. cbn [length]. lia. }
  destruct f as [num []]; try done; apply H.
Qed.

Lemma get_put_field f rest : writable f ->
  exists typ b, get_tag MaxValidNumber (put_field f ++ rest) = Some (f.1, typ, b) /\
    get_value f.1 typ b = Some (f.2, rest).
Proof.
  intros [Hn Hv]. destruct f as [num [n|?|b| |?]]; try done; cbn [fst snd put_field] in *.
  - exists 0, (put_varint n ++ rest). rewrite <-app_assoc.
    rewrite <-(Z.add_0_r (8 * num)), get_put_tag by (done || lia). split; [done|].
    unfold get_value. by rewrite get_put_varint.
  - exists 2, (put_varint (Z.of_nat (length b)) ++ b ++ rest). rewrite <-!app_assoc.
    rewrite get_put_tag by (done || lia). split; [done|]. unfold get_value. by rewrite get_put_bytes.
Qed.

Lemma get_fields_write fs fuel : Forall writable fs -> (length (write fs) <= fuel)%nat ->
  get_fields fuel (write fs) = Some fs.
Proof.
  revert fuel. induction fs as [|f fs IH]; intros fuel Hfs Hl; [by destruct fuel|].
  inversion Hfs as [|? ? Hf Hfs']; subst. change (write (f :: fs)) with (put_field f ++ write fs) in *.
  pose proof (put_field_nonempty f Hf). rewrite length_app in Hl.
  destruct (get_put_field f (write fs) Hf) as (typ & b & Ht & Hv).
  destruct fuel as [|fuel]; [lia|]. cbn [get_fields].
  destruct (put_field f ++ write fs) eqn:E; [destruct (put_field f); [cbn in *; lia|done]|].
  rewrite Ht. cbn. rewrite Hv. cbn. rewrite IH by (done || lia). cbn. by destruct f.
Qed.

(** Reading gives back the fields that were written. *)
Lemma read_write fs : Forall writable fs -> read (write fs) = Some fs.
Proof. intros H. by apply get_fields_write. Qed.

(** ** Messages *)

(** Fields are taken one after the other, into what the message holds. *)
Fixpoint merge {M} (step : M -> field -> option M) (m : M) (fs : list field) : option M :=
  match fs with [] => Some m | f :: fs => m ← step m f; merge step m fs end.
Definition submessage {M} (step : M -> field -> option M) (m : M) (b : list byte) : option M :=
  fs ← read b; merge step m fs.

(** A scalar that is zero, and bytes or a string that are empty, are not
    written; a string is valid UTF-8. *)
Definition varint_field (num n : Z) : list field := if n =? 0 then [] else [(num, VVarint n)].
Definition bytes_field (num : Z) (b : list byte) : list field :=
  match b with [] => [] | _ => [(num, VLen b)] end.
Definition string_field (num : Z) (s : string) : list field := bytes_field num (str_bytes s).
Definition as_string (b : list byte) : option string :=
  if Utf8.valid_string (bytes_str b) then Some (bytes_str b) else None.

Lemma as_string_valid s : Utf8.valid_string s = true -> as_string (str_bytes s) = Some s.
Proof. intros H. unfold as_string. by rewrite bytes_str_bytes, H. Qed.

Lemma merge_app {M} (step : M -> field -> option M) m fs gs :
  merge step m (fs ++ gs) = (m ← merge step m fs; merge step m gs).
Proof.
  revert m. induction fs as [|f fs IH]; intros m; [done|]. cbn. destruct (step m f); [apply IH|done].
Qed.

Lemma writable_varint num n : 1 <= num <= MaxValidNumber -> 0 <= n < 2 ^ 64 ->
  Forall writable (varint_field num n).
Proof. intros. unfold varint_field. destruct (n =? 0); constructor; [by split|constructor]. Qed.

Lemma writable_bytes num b : 1 <= num <= MaxValidNumber -> Forall writable (bytes_field num b).
Proof. intros. unfold bytes_field. destruct b; constructor; [by split|constructor]. Qed.

Lemma merge_varint {M} (step : M -> field -> option M) m m' num n :
  (n = 0 -> m' = m) -> (n <> 0 -> step m (num, VVarint n) = Some m') ->
  merge step m (varint_field num n) = Some m'.
Proof.
  intros H0 H1. unfold varint_field. destruct (Z.eqb_spec n 0) as [E|E]; cbn; [by rewrite (H0 E)|by rewrite (H1 E)].
Qed.

Lemma merge_bytes {M} (step : M -> field -> option M) m m' num b :
  (b = [] -> m' = m) -> step m (num, VLen b) = Some m' ->
  merge step m (bytes_field num b) = Some m'.
Proof. intros H0 H1. unfold bytes_field. destruct b; cbn; [by rewrite (H0 eq_refl)|by rewrite H1]. Qed.

End Proto3.
