(* ===== verification/Errors.v ===== *)
(** * Errors: [constants/errors.go], [errors/code.go] and [errors/errors.go]

    The sentinel errors of the packages, the error codes, the [*Error] type
    with its constructor, and the classification of an error by its code. *)

From S2P Require Import Prelude.

(** ** Sentinels: the package-level [errors.New] variables *)

Inductive sentinel :=
| ErrBindingNotFound
| ErrBrokenPipe
| ErrBufferExceed
| ErrChangeDictionaryWhileRunning
| ErrChangeRouteWhileRunning
| ErrEmptyUID
| ErrEtcdGrantLeaseTimeout
| ErrEtcdLeaseNotFound
| ErrFrontSessionCantPushToFront
| ErrFrontendTypeNotSpecified
| ErrIllegalUID
| ErrIncorrectNumberOfCertificates
| ErrInvalidCertificates
| ErrInvalidSpanCarrier
| ErrMetricNotKnown
| ErrNatsMessagesBufferSizeZero
| ErrNatsNoRequestTimeout
| ErrNatsPushBufferSizeZero
| ErrNilCondition
| ErrNoBindingStorageModule
| ErrNoConnectionToServer
| ErrNoContextFound
| ErrNoNatsConnectionString
| ErrNoServerTypeChosenForRPC
| ErrNoServerWithID
| ErrNoServersAvailableOfType
| ErrNoShareIDOnContext
| ErrNoUIDBind
| ErrNonsenseRPC
| ErrNotImplemented
| ErrNotifyOnRequest
| ErrOnCloseBackend
| ErrProtodescriptor
| ErrRPCRequestTimeout
| ErrRPCClientNotInitialized
| ErrRPCJobAlreadyRegistered
| ErrRPCLocal
| ErrRPCServerNotInitialized
| ErrReplyShouldBeNotNull
| ErrReplyShouldBePtr
| ErrRequestOnNotify
| ErrRouterNotInitialized
| ErrServerNotFound
| ErrServiceDiscoveryNotInitialized
| ErrTimeoutTerminatingBinaryModule
| ErrWrongValueType
| ErrRateLimitExceeded
| ErrReceivedMsgSmallerThanExpected
| ErrReceivedMsgBiggerThanExpected
| ErrConnectionClosed
(* conn/message, conn/packet, conn/codec, route, service *)
| ErrWrongMessageType
| ErrInvalidMessage
| ErrRouteInfoNotFound
| ErrWrongPomeloPacketType
| ErrInvalidPomeloHeader
| ErrPacketSizeExcced
| ErrRouteFieldCantEmpty
| ErrInvalidRoute
| errInvalidMsg
.

Definition sentinel_msg (s : sentinel) : string :=
  match s with
  | ErrBindingNotFound => "binding for this user was not found in etcd"
  | ErrBrokenPipe => "broken low-level pipe"
  | ErrBufferExceed => "session send buffer exceed"
  | ErrChangeDictionaryWhileRunning => "you shouldn't change the dictionary while the app is already running"
  | ErrChangeRouteWhileRunning => "you shouldn't change routes while app is already running"
  | ErrEmptyUID => "empty uid"
  | ErrEtcdGrantLeaseTimeout => "timed out waiting for etcd lease grant"
  | ErrEtcdLeaseNotFound => "etcd lease not found in group"
  | ErrFrontSessionCantPushToFront => "frontend session can't push to front"
  | ErrFrontendTypeNotSpecified => "for using SendPushToUsers from a backend server you have to specify a valid frontendType"
  | ErrIllegalUID => "illegal uid"
  | ErrIncorrectNumberOfCertificates => "certificates must be exactly two"
  | ErrInvalidCertificates => "invalid certificates"
  | ErrInvalidSpanCarrier => "tracing: invalid span carrier"
  | ErrMetricNotKnown => "the provided metric does not exist"
  | ErrNatsMessagesBufferSizeZero => "nrpc.buffer.cluster.rpc.server.nats.messages cant be zero"
  | ErrNatsNoRequestTimeout => "nrpc.cluster.rpc.client.nats.requesttimeout cant be empty"
  | ErrNatsPushBufferSizeZero => "nrpc.buffer.cluster.rpc.server.nats.push cant be zero"
  | ErrNilCondition => "nrpc/timer: nil condition"
  | ErrNoBindingStorageModule => "for sending remote pushes or using unique session module while using grpc you need to pass it a BindingStorage"
  | ErrNoConnectionToServer => "rpc client has no connection to the chosen server"
  | ErrNoContextFound => "no context found"
  | ErrNoNatsConnectionString => "you have to provide a nats url"
  | ErrNoServerTypeChosenForRPC => "no server type chosen for sending RPC, send a full route in the format server.service.component"
  | ErrNoServerWithID => "can't find any server with the provided ID"
  | ErrNoServersAvailableOfType => "no servers available of this type"
  | ErrNoShareIDOnContext => "no share id on context"
  | ErrNoUIDBind => "you have to bind an UID to the session to do that"
  | ErrNonsenseRPC => "you are making a rpc that may be processed locally, either specify a different server type or specify a server id"
  | ErrNotImplemented => "method not implemented"
  | ErrNotifyOnRequest => "tried to notify a request route"
  | ErrOnCloseBackend => "onclose callbacks are not allowed on backend servers"
  | ErrProtodescriptor => "failed to get protobuf message descriptor"
  | ErrRPCRequestTimeout => "rpc client: request timeout"
  | ErrRPCClientNotInitialized => "RPC client is not running"
  | ErrRPCJobAlreadyRegistered => "rpc job was already registered"
  | ErrRPCLocal => "RPC must be to a different server type"
  | ErrRPCServerNotInitialized => "RPC server is not running"
  | ErrReplyShouldBeNotNull => "reply must not be null"
  | ErrReplyShouldBePtr => "reply must be a pointer"
  | ErrRequestOnNotify => "tried to request a notify route"
  | ErrRouterNotInitialized => "router is not initialized"
  | ErrServerNotFound => "server not found"
  | ErrServiceDiscoveryNotInitialized => "service discovery client is not initialized"
  | ErrTimeoutTerminatingBinaryModule => "timeout waiting to binary module to die"
  | ErrWrongValueType => "protobuf: convert on wrong type value"
  | ErrRateLimitExceeded => "rate limit exceeded"
  | ErrReceivedMsgSmallerThanExpected => "received less data than expected, EOF?"
  | ErrReceivedMsgBiggerThanExpected => "received more data than expected"
  | ErrConnectionClosed => "client connection closed"
  | ErrWrongMessageType => "wrong message type"
  | ErrInvalidMessage => "invalid message"
  | ErrRouteInfoNotFound => "route info not found in dictionary"
  | ErrWrongPomeloPacketType => "wrong packet type"
  | ErrInvalidPomeloHeader => "invalid header"
  | ErrPacketSizeExcced => "codec: packet size exceed"
  | ErrRouteFieldCantEmpty => "route field can not be empty"
  | ErrInvalidRoute => "invalid route"
  | errInvalidMsg => "invalid message type provided"
  end.

#[export] Instance sentinel_eq_dec : EqDecision sentinel.
Proof. solve_decision. Defined.

(** ** Error codes *)

Definition ErrUnknownCode := "PIT-000".
Definition ErrInternalCode := "PIT-500".
Definition ErrNotFoundCode := "PIT-404".
Definition ErrBadRequestCode := "PIT-400".
Definition ErrRequestTimeoutCode := "PIT-408".
Definition ErrTooManyRequestCode := "PIT-429".
Definition ErrClientClosedRequest := "PIT-499".
Definition ErrClosedRequest := "PIT-498".
Definition ErrServiceUnavailable := "PIT-503".

(** ** The error interface *)

(** A Go [map[string]string]; [None] is the nil map. *)
Abbreviation smap := (option (gmap string string)).

(** Reading a nil map is reading an empty one. *)
Definition smap_get (m : smap) : gmap string string := default ∅ m.

(** [errors.Error]. *)
Record Error := mkError {
  Code : string;
  Message : string;
  Metadata : smap
}.

(** The dynamic values of the [error] interface: a sentinel, an error made
    by [errors.New] or [fmt.Errorf] at run time, a sentinel of a third-party
    package (by its qualified name), or a pointer to an [Error], nil
    included. *)
Inductive error :=
| ESentinel (s : sentinel)
| EText (msg : string)
| ELib (name msg : string)
| ENrpc (p : option Error).

#[export] Instance Error_eq_dec : EqDecision Error.
Proof. solve_decision. Defined.
#[export] Instance error_eq_dec : EqDecision error.
Proof. solve_decision. Defined.

Abbreviation result := (outcome error).

(** [err.Error()]: on a nil [*Error] the method dereferences nil. *)
Definition error_string (e : error) : result string :=
  match e with
  | ESentinel s => Ok (sentinel_msg s)
  | EText m => Ok m
  | ELib _ m => Ok m
  | ENrpc (Some e) => Ok (Message e)
  | ENrpc None => Panics NilDereference
  end.

(** [mergeMetadatas]: the keys of [metadata] override. *)
Definition mergeMetadatas (nrpcErr : option Error) (metadata : smap) : result Error :=
  match nrpcErr with
  | None => Panics NilDereference
  | Some e =>
      match Metadata e with
      | None => Ok (mkError (Code e) (Message e) metadata)
      | Some m =>
          Ok (mkError (Code e) (Message e)
                (Some (map_copy_into (smap_get metadata) m)))
      end
  end.

(** [NewError]. [err] is an interface value ([None] is nil) and [metadata]
    the variadic argument. [errors.As] succeeds exactly on an [*Error]
    (nothing in the module wraps one), and then the same pointer, with the
    metadata merged into the object, is the result. *)
Definition NewError (err : option error) (code : string) (metadata : list smap)
  : result (option Error) :=
  match err with
  | Some (ENrpc p) =>
      match metadata with
      | [] => Ok p
      | md :: _ => e ← mergeMetadatas p md; Ok (Some e)
      end
  | Some e =>
      msg ← error_string e;
      Ok (Some (mkError code msg (match metadata with [] => None | md :: _ => md end)))
  | None => Panics NilDereference
  end.

(** [FromError]. *)
Definition FromError (err : option error) : string :=
  match err with
  | None => ""
  | Some (ENrpc (Some e)) => Code e
  | Some (ENrpc None) => ErrUnknownCode
  | Some _ => ErrUnknownCode
  end.

(** ** Properties *)

(** What [NewError] promises of the error it builds from [err]. *)
Definition new_error_spec (err : error) (code : string) (metadata : list smap) (r : Error) : Prop :=
  match err with
  | ENrpc (Some e) =>
      Code r = Code e /\ Message r = Message e /\
      forall k, smap_get (Metadata r) !! k =
        match metadata with
        | md :: _ => smap_get md !! k ∪ smap_get (Metadata e) !! k
        | [] => smap_get (Metadata e) !! k
        end
  | e => Code r = code /\ error_string e = Ok (Message r) /\
         Metadata r = match metadata with md :: _ => md | [] => None end
  end.

Lemma mergeMetadatas_get e md :
  exists r, mergeMetadatas (Some e) md = Ok r /\
    Code r = Code e /\ Message r = Message e /\
    forall k, smap_get (Metadata r) !! k = smap_get md !! k ∪ smap_get (Metadata e) !! k.
Proof.
  destruct e as [c m [md0|]]; cbn; eexists; repeat split; cbn; intros k.
  - by rewrite map_copy_into_union, lookup_union.
  - by rewrite lookup_empty, (right_id_L None (∪)).
Qed.

#[local] Arguments mergeMetadatas : simpl never.

(** [NewError] always builds an error from a usable error value, and:
    given a framework error it keeps that error's code and message and
    merges the new metadata over the old key by key; given any other error
    it takes the code and the metadata of the call and the message of the
    error. *)
Theorem NewError_correct (err : error) (code : string) (metadata : list smap) :
  err <> ENrpc None ->
  exists r, NewError (Some err) code metadata = Ok (Some r) /\
            new_error_spec err code metadata r.
Proof.
  intros Hnil. destruct err as [s|m|n m|[e|]]; cbn; [by eexists..| |done].
  destruct metadata as [|md ?]; cbn.
  - eexists; repeat split.
  - destruct (mergeMetadatas_get e md) as (r & -> & Hr). cbn. eauto.
Qed.

Lemma NewError_correct_witness :
  exists r, NewError (Some (ENrpc (Some (mkError "C" "m" (Some {["a" := "1"]})))))
              "D" [Some {["a" := "2"; "b" := "3"]}] = Ok (Some r) /\
    new_error_spec (ENrpc (Some (mkError "C" "m" (Some {["a" := "1"]})))) "D"
      [Some {["a" := "2"; "b" := "3"]}] r.
Proof. apply NewError_correct. discriminate. Defined.

(** The code of an error survives wrapping: building a framework error
    from an error and asking for its code gives back the original code for a
    framework error, and the code of the call for any other. *)
Theorem FromError_NewError (err : error) (code : string) (metadata : list smap)
    (p : option Error) :
  NewError (Some err) code metadata = Ok p ->
  FromError (Some (ENrpc p)) =
    match err with ENrpc _ => FromError (Some err) | _ => code end.
Proof.
  intros H. destruct err as [s|m|n m|[e|]], metadata as [|md ?]; cbn in H;
    try discriminate; try (by injection H as <-).
  destruct (mergeMetadatas_get e md) as (r & Hr & Hc & _).
  rewrite Hr in H. injection H as <-. exact Hc.
Qed.

Lemma FromError_NewError_witness :
  FromError (Some (ENrpc (Some (mkError ErrInternalCode "server not found" None))))
    = ErrInternalCode.
Proof.
  refine (FromError_NewError (ESentinel ErrServerNotFound) ErrInternalCode [] _ _).
  reflexivity.
Defined.
