(* ===== verification/Codec.v ===== *)
(** * Packets: [conn/packet] and [conn/codec]

    The framing layer: a packet is one type byte, a three-byte big-endian
    length and the data. [Encode] writes one packet, [Decode] reads all the
    complete packets of a byte slice. *)

From S2P Require Import Prelude Errors.
From Stdlib Require Import Strings.Byte.
Local Open Scope Z_scope.

Module Packet.

(** ** Constants and data *)

Definition Handshake := 0x01.
Definition HandshakeAck := 0x02.
Definition Heartbeat := 0x03.
Definition Data := 0x04.

Definition HeadLength : nat := 4.
Definition MaxPacketSize := Z.shiftl 1 24.

(** [packet.Packet]: the type byte, the announced length and the payload. *)
Record Packet := mkPacket {
  Typ : byte;
  Length : Z;
  Payload : list byte
}.

(** [packet.New] and [Packet.String]. *)
Definition New : Packet := mkPacket x00 0 [].
Definition Packet_String (p : Packet) : string :=
  "Type: " +:+ pretty (byte_to_Z (Typ p)) +:+ ", Length: " +:+ pretty (Length p) +:+
  ", Data: " +:+ bytes_str (Payload p).

#[export] Instance Packet_eq_dec : EqDecision Packet.
Proof. solve_decision. Defined.

(** ** Operations *)

(** [BytesToInt]: big-endian value of a slice, as a 64-bit [int]. *)
Definition BytesToInt (b : list byte) : Z :=
  fold_left (fun result v => i64 (Z.shiftl result 8 + byte_to_Z v)) b 0.

(** [IntToBytes]: the three low bytes, big-endian. *)
Definition IntToBytes (n : Z) : list byte :=
  [byte_of_Z (Z.land (Z.shiftr n 16) 0xFF);
   byte_of_Z (Z.land (Z.shiftr n 8) 0xFF);
   byte_of_Z (Z.land n 0xFF)].

(** The type bytes that are not one of the four packet types. *)
Definition bad_type (typ : byte) : bool :=
  (byte_to_Z typ <? Handshake) || (Data <? byte_to_Z typ).

(** [ParseHeader]. *)
Definition ParseHeader (header : list byte) : result (Z * byte) :=
  if bool_decide (length header <> HeadLength) then Err (ESentinel ErrInvalidPomeloHeader)
  else
    typ ← header.[0];
    if bad_type typ then Err (ESentinel ErrWrongPomeloPacketType)
    else
      rest ← go_slice header 1 (length header);
      let size := BytesToInt rest in
      if MaxPacketSize <? size then Err (ESentinel ErrPacketSizeExcced)
      else Ok (size, typ).

(** [copy(dst[lo:hi], src)]: overwrites [min (hi - lo) (len src)] bytes. *)
Definition go_copy (dst : list byte) (lo hi : nat) (src : list byte) : list byte :=
  let n := ((hi - lo) `min` length src)%nat in
  take lo dst ++ take n src ++ drop (lo + n) dst.

(** [PomeloPacketEncoder.Encode]. *)
Definition Encode (typ : byte) (data : list byte) : result (list byte) :=
  if bad_type typ then Err (ESentinel ErrWrongPomeloPacketType)
  else if MaxPacketSize <? Z.of_nat (length data) then Err (ESentinel ErrPacketSizeExcced)
  else
    let p := mkPacket typ (Z.of_nat (length data)) [] in
    let buf := replicate (length data + HeadLength) x00 in
    let buf := <[0%nat := Typ p]> buf in
    let buf := go_copy buf 1 HeadLength (IntToBytes (Length p)) in
    let buf := go_copy buf HeadLength (length buf) data in
    Ok buf.

(** [forward]: takes a header off the buffer and parses it. *)
Definition forward (buf : list byte) : result (Z * byte * list byte) :=
  '(size, typ) ← ParseHeader (take HeadLength buf);
  Ok (size, typ, drop HeadLength buf).

(** The loop of [Decode]; [buf] is the unread part of the buffer. Each
    iteration but the last consumes a header, so [length buf + 1] rounds of
    fuel are enough. *)
Fixpoint decode_loop (fuel : nat) (size : Z) (typ : byte) (buf : list byte)
    (packets : list Packet) : result (list Packet) :=
  match fuel with
  | O => Panics (PanicMessage "out of fuel")
  | S fuel =>
      if size <=? Z.of_nat (length buf) then
        let p := mkPacket typ size (take (Z.to_nat size) buf) in
        let buf := drop (Z.to_nat size) buf in
        let packets := packets ++ [p] in
        if bool_decide (length buf < HeadLength)%nat then Ok packets
        else
          '(size, typ, buf) ← forward buf;
          decode_loop fuel size typ buf packets
      else Ok packets
  end.

(** [PomeloPacketDecoder.Decode]. *)
Definition Decode (data : list byte) : result (list Packet) :=
  if bool_decide (length data < HeadLength)%nat then Ok []
  else
    '(size, typ, buf) ← forward data;
    decode_loop (S (length buf)) size typ buf [].

(** ** Headers *)

Lemma MaxPacketSize_eq : MaxPacketSize = 2 ^ 24.
Proof. done. Qed.

Lemma land_255 z : Z.land z 0xFF = z mod 256.
Proof. change 0xFF with (Z.ones 8). by rewrite Z.land_ones. Qed.

Lemma IntToBytes_values n :
  byte_to_Z <$> IntToBytes n = [n / 2 ^ 16 mod 256; n / 2 ^ 8 mod 256; n mod 256].
Proof.
  unfold IntToBytes. cbn [fmap list_fmap].
  rewrite !byte_to_of_Z, !land_255, !Z.shiftr_div_pow2, !Zmod_mod by lia. done.
Qed.

Lemma BytesToInt_three a b c :
  BytesToInt [a; b; c] = byte_to_Z a * 2 ^ 16 + byte_to_Z b * 2 ^ 8 + byte_to_Z c.
Proof.
  pose proof (byte_to_Z_range a). pose proof (byte_to_Z_range b).
  pose proof (byte_to_Z_range c).
  unfold BytesToInt. cbn [fold_left]. rewrite !Z.shiftl_mul_pow2 by lia.
  rewrite (i64_small (0 * _ + _)) by lia.
  rewrite (i64_small (_ * _ + byte_to_Z b)) by lia.
  rewrite i64_small by lia. lia.
Qed.

Lemma BytesToInt_IntToBytes n : BytesToInt (IntToBytes n) = n mod 2 ^ 24.
Proof.
  unfold IntToBytes at 1. rewrite BytesToInt_three.
  pose proof (IntToBytes_values n) as H. cbn in H. injection H as -> -> ->.
  pose proof (Z.div_mod n (2 ^ 24) ltac:(lia)).
  pose proof (Z.mod_pos_bound n (2 ^ 24) ltac:(lia)).
  Z.to_euclidean_division_equations. lia.
Qed.

Lemma IntToBytes_BytesToInt a b c : IntToBytes (BytesToInt [a; b; c]) = [a; b; c].
Proof.
  apply (inj (fmap byte_to_Z)). rewrite IntToBytes_values, BytesToInt_three. cbn.
  pose proof (byte_to_Z_range a). pose proof (byte_to_Z_range b).
  pose proof (byte_to_Z_range c).
  repeat f_equal; Z.to_euclidean_division_equations; lia.
Qed.

(** The wire format of a packet: what the encoder's buffer ends up as. *)
Definition frame (typ : byte) (data : list byte) : list byte :=
  typ :: IntToBytes (Z.of_nat (length data)) ++ data.

Lemma Encode_frame typ data :
  bad_type typ = false -> Z.of_nat (length data) <= MaxPacketSize ->
  Encode typ data = Ok (frame typ data).
Proof.
  intros Ht Hl. unfold Encode. rewrite Ht.
  assert ((MaxPacketSize <? Z.of_nat (length data)) = false) as -> by (apply Z.ltb_ge; lia).
  unfold frame, HeadLength. f_equal. rewrite (Nat.add_comm (length data)).
  cbn [replicate Nat.add]. unfold go_copy, IntToBytes. cbn.
  rewrite drop_0, take_0, length_replicate, Nat.sub_0_r, Nat.min_id, firstn_all.
  rewrite drop_ge; [by rewrite app_nil_r|]. rewrite length_replicate. lia.
Qed.

(** Header parsing is exactly the inverse of header writing. *)
Lemma ParseHeader_ok header size typ :
  ParseHeader header = Ok (size, typ) <->
  header = typ :: IntToBytes size /\ bad_type typ = false /\ 0 <= size < 2 ^ 24.
Proof.
  split.
  - unfold ParseHeader. case_bool_decide as Hlen; [done|].
    unfold HeadLength in Hlen.
    destruct header as [|t [|a [|b [|c [|? ?]]]]]; cbn in Hlen; try (exfalso; lia).
    cbn [go_index lookup list_lookup mbind outcome_bind].
    destruct (bad_type t) eqn:Ht; [done|].
    rewrite go_slice_from by (cbn; lia). cbn [drop mbind outcome_bind].
    destruct (_ <? _) eqn:Hs; [done|]. intros [= <- <-].
    rewrite IntToBytes_BytesToInt. split; [done|]. split; [done|].
    rewrite BytesToInt_three.
    pose proof (byte_to_Z_range a). pose proof (byte_to_Z_range b).
    pose proof (byte_to_Z_range c). lia.
  - intros (-> & Ht & Hs). unfold ParseHeader.
    rewrite bool_decide_eq_false_2 by (intros H; by apply H).
    rewrite go_slice_from by (cbn; lia). cbn [go_index lookup list_lookup mbind outcome_bind].
    rewrite Ht. cbn [drop mbind outcome_bind].
    rewrite drop_0, BytesToInt_IntToBytes, Z.mod_small by lia.
    assert ((MaxPacketSize <? size) = false) as ->; [|done].
    apply Z.ltb_ge. rewrite MaxPacketSize_eq. lia.
Qed.

(** A header of the right size fails only on its type byte. *)
Lemma ParseHeader_err header e :
  length header = HeadLength ->
  ParseHeader header = Err e <->
  e = ESentinel ErrWrongPomeloPacketType /\
  exists t rest, header = t :: rest /\ bad_type t = true.
Proof.
  intros Hl. unfold ParseHeader. rewrite bool_decide_eq_false_2 by (intros ?; lia).
  unfold HeadLength in Hl.
  destruct header as [|t [|a [|b [|c [|? ?]]]]]; cbn in Hl; try lia.
  rewrite go_slice_from by (cbn; lia). cbn [go_index lookup list_lookup mbind outcome_bind].
  destruct (bad_type t) eqn:Ht; cbn [drop mbind outcome_bind].
  - split; [intros [= <-]; eauto | by intros (-> & _)].
  - assert ((MaxPacketSize <? BytesToInt [a; b; c]) = false) as ->.
    { apply Z.ltb_ge. rewrite BytesToInt_three. rewrite MaxPacketSize_eq.
      pose proof (byte_to_Z_range a). pose proof (byte_to_Z_range b).
      pose proof (byte_to_Z_range c). lia. }
    split; [done|]. intros (_ & t' & r & [= <- <-] & ?). congruence.
Qed.

(** ** Streams of packets *)

(** The bytes of a packet on the wire. *)
Definition wire (p : Packet) : list byte := Typ p :: IntToBytes (Length p) ++ Payload p.

(** A packet the protocol can carry. *)
Definition wf_packet (p : Packet) : Prop :=
  bad_type (Typ p) = false /\ Length p = Z.of_nat (length (Payload p)) /\ Length p < 2 ^ 24.

(** The rest of a stream that does not hold a whole packet: not even a
    header, or a good header that announces more data than there is. *)
Definition incomplete (tail : list byte) : Prop :=
  (length tail < HeadLength)%nat \/
  exists size typ, ParseHeader (take HeadLength tail) = Ok (size, typ) /\
                   Z.of_nat (length (drop HeadLength tail)) < size.

(** The rest of a stream whose next header is malformed. *)
Definition malformed (tail : list byte) : Prop :=
  (HeadLength <= length tail)%nat /\
  exists t rest, tail = t :: rest /\ bad_type t = true.

Lemma forward_wire p rest :
  wf_packet p ->
  forward (wire p ++ rest) = Ok (Length p, Typ p, Payload p ++ rest).
Proof.
  intros (Ht & Hl & Hm). unfold forward.
  assert (ParseHeader (take HeadLength (wire p ++ rest)) = Ok (Length p, Typ p)) as ->.
  { apply ParseHeader_ok. split; [done|]. split; [done|]. lia. }
  done.
Qed.

Lemma forward_ok_inv buf size typ rest :
  forward buf = Ok (size, typ, rest) ->
  buf = typ :: IntToBytes size ++ rest /\ bad_type typ = false /\ 0 <= size < 2 ^ 24.
Proof.
  unfold forward. intros H. outcome_inv.
  match goal with x : Z * byte |- _ => destruct x end. outcome_inv.
  match goal with H : ParseHeader _ = _ |- _ => apply ParseHeader_ok in H as (Hh & Ht & Hs) end.
  split; [|done]. rewrite <-(take_drop HeadLength buf) at 1. by rewrite Hh.
Qed.

Lemma forward_not_panics buf p :
  (HeadLength <= length buf)%nat -> forward buf <> Panics p.
Proof.
  intros Hl. unfold forward, ParseHeader.
  assert (length (take HeadLength buf) = HeadLength) as Ht by (rewrite length_take; lia).
  rewrite bool_decide_eq_false_2 by (intros ?; lia).
  destruct (take HeadLength buf) as [|t hdr] eqn:E; [done|].
  cbn [go_index lookup list_lookup mbind outcome_bind].
  destruct (bad_type t); [done|]. rewrite go_slice_from by (cbn; lia).
  cbn [mbind outcome_bind]. by destruct (_ <? _).
Qed.

(** What [Decode] computes, as a relation on the unread part of the
    buffer: the well-formed packets at its front, and how it ended. *)
Inductive decodes : list byte -> list Packet -> option error -> Prop :=
| decodes_end tail : incomplete tail -> decodes tail [] None
| decodes_bad tail : malformed tail ->
    decodes tail [] (Some (ESentinel ErrWrongPomeloPacketType))
| decodes_packet p rest ps e : wf_packet p -> decodes rest ps e ->
    decodes (wire p ++ rest) (p :: ps) e.

(** The result the Go function returns for such an end. *)
Definition decode_result (ps : list Packet) (e : option error) : result (list Packet) :=
  match e with None => Ok ps | Some err => Err err end.

(** The part of [decode_loop] after a packet, in the shape of [Decode]. *)
Definition decode_rest (fuel : nat) (buf : list byte) (acc : list Packet) :=
  if bool_decide (length buf < HeadLength)%nat then Ok acc
  else '(size, typ, buf) ← forward buf; decode_loop fuel size typ buf acc.

Lemma decode_loop_step fuel size typ buf acc :
  size <= Z.of_nat (length buf) ->
  decode_loop (S fuel) size typ buf acc =
  decode_rest fuel (drop (Z.to_nat size) buf)
    (acc ++ [mkPacket typ size (take (Z.to_nat size) buf)]).
Proof. intros H. cbn [decode_loop]. by rewrite (proj2 (Z.leb_le _ _) H). Qed.

Lemma decode_rest_spec n : forall buf fuel acc,
  (length buf <= n)%nat -> (length buf <= fuel + 3)%nat ->
  exists ps e, decodes buf ps e /\ decode_rest fuel buf acc = decode_result (acc ++ ps) e.
Proof.
  induction n as [|n IH]; intros buf fuel acc Hn Hf; unfold decode_rest;
    case_bool_decide as Hh.
  1, 3: (exists [], None; split; [by constructor; left | by rewrite app_nil_r]).
  { unfold HeadLength in *. lia. }
  apply Nat.nlt_ge in Hh.
  destruct (forward buf) as [[[size typ] rest]|err|p] eqn:Ef; cbn [mbind outcome_bind].
  - apply forward_ok_inv in Ef as (-> & Ht & Hs).
    cbn [length] in *. rewrite length_app in *. cbn [length IntToBytes] in *.
    destruct fuel as [|fuel]; [lia|].
    destruct (decide (size <= Z.of_nat (length rest))) as [Hle|Hgt].
    + rewrite decode_loop_step by done.
      set (p := mkPacket typ size (take (Z.to_nat size) rest)).
      destruct (IH (drop (Z.to_nat size) rest) fuel (acc ++ [p])) as (ps & e & Hd & Hr).
      1, 2: rewrite length_drop; lia.
      exists (p :: ps), e. rewrite Hr, <-app_assoc. split; [|done].
      rewrite <-(take_drop (Z.to_nat size) rest) at 1. rewrite app_assoc.
      change (decodes (wire p ++ drop (Z.to_nat size) rest) (p :: ps) e).
      constructor; [|done]. repeat split; cbn; [done| |lia].
      rewrite length_take. lia.
    + exists [], None. split.
      * constructor. right. exists size, typ. split; [by apply ParseHeader_ok|].
        cbn. rewrite drop_0. lia.
      * cbn [decode_loop]. rewrite (proj2 (Z.leb_gt _ _)) by lia. by rewrite app_nil_r.
  - assert (ParseHeader (take HeadLength buf) = Err err) as He.
    { revert Ef. unfold forward. by destruct (ParseHeader _) as [[]| |]; cbn; intros [=]; subst. }
    apply ParseHeader_err in He as (-> & t & rest & Hb & Ht); [|rewrite length_take; lia].
    exists [], (Some (ESentinel ErrWrongPomeloPacketType)). split; [|done].
    constructor. split; [done|]. destruct buf as [|t' buf]; [done|].
    cbn in Hb. injection Hb as -> _. eauto.
  - by apply forward_not_panics in Ef.
Qed.

Lemma Decode_rest data : Decode data = decode_rest (S (length data - HeadLength)) data [].
Proof.
  unfold Decode, decode_rest. case_bool_decide; [done|].
  destruct (forward data) as [[[size typ] rest]|e|p] eqn:E;
    cbn [mbind outcome_bind]; [|done..].
  apply forward_ok_inv in E as (-> & _).
  change (length (typ :: IntToBytes size ++ rest)) with (4 + length rest)%nat.
  do 2 f_equal. unfold HeadLength. lia.
Qed.

Lemma Decode_decodes data :
  exists ps e, decodes data ps e /\ Decode data = decode_result ps e.
Proof.
  rewrite Decode_rest.
  destruct (decode_rest_spec (length data) data (S (length data - HeadLength)) [])
    as (ps & e & Hd & Hr); [done | unfold HeadLength; lia |]. eauto.
Qed.

(** The relation is deterministic: a buffer has one decoding. *)
Lemma wire_inj p q r s :
  wf_packet p -> wf_packet q -> wire p ++ r = wire q ++ s -> p = q /\ r = s.
Proof.
  intros Hp Hq H. pose proof (forward_wire p r Hp) as Fp.
  rewrite H, (forward_wire q s Hq) in Fp. injection Fp as Hl Ht Hr.
  destruct Hp as (_ & Hlp & _), Hq as (_ & Hlq & _).
  apply app_inj_1 in Hr as [Hpay Hrs]; [|lia].
  destruct p, q; cbn in *; subst. done.
Qed.

Lemma incomplete_not_wire p rest : wf_packet p -> ~ incomplete (wire p ++ rest).
Proof.
  intros Hp [Hl|(size & typ & Hh & Hl)].
  - cbn in Hl. rewrite length_app in Hl. cbn in Hl. unfold HeadLength in Hl. lia.
  - pose proof (forward_wire p rest Hp) as F. unfold forward in F. rewrite Hh in F.
    cbn [mbind outcome_bind] in F. injection F as -> ->.
    change (drop HeadLength (wire p ++ rest)) with (Payload p ++ rest) in Hl.
    rewrite length_app in Hl.
    destruct Hp as (_ & ? & _). lia.
Qed.

Lemma malformed_not_wire p rest : wf_packet p -> ~ malformed (wire p ++ rest).
Proof. intros (Ht & _) (_ & t & r & [= <- _] & Hb). congruence. Qed.

Lemma malformed_not_incomplete tail : malformed tail -> ~ incomplete tail.
Proof.
  intros (Hl & t & r & -> & Hb) [?|(size & typ & Hh & _)]; [lia|].
  apply ParseHeader_ok in Hh as (Hh & Ht & _). cbn in Hh. congruence.
Qed.

Lemma decodes_det data ps e ps' e' :
  decodes data ps e -> decodes data ps' e' -> ps = ps' /\ e = e'.
Proof.
  intros H. revert ps' e'.
  induction H as [tail Ht|tail Ht|p rest ps e Hp Hd IH]; intros ps' e' H'.
  - destruct H' as [tail Ht'|tail Ht'|p rest ps e Hp Hd]; [done|..].
    + by apply malformed_not_incomplete in Ht'.
    + by apply incomplete_not_wire in Ht.
  - destruct H' as [tail Ht'|tail Ht'|p rest ps e Hp Hd]; [|done|].
    + by apply malformed_not_incomplete in Ht.
    + by apply malformed_not_wire in Ht.
  - remember (wire p ++ rest) as data eqn:E.
    destruct H' as [tail Ht'|tail Ht'|p' rest' ps' e' Hp' Hd']; [subst..|].
    + by apply incomplete_not_wire in Ht'.
    + by apply malformed_not_wire in Ht'.
    + apply wire_inj in E as [-> ->]; [|done..]. by apply IH in Hd' as [-> ->].
Qed.

(** C17: on every byte slice, [Decode] returns exactly the packets the wire
    format defines: every slice has one and only one decoding by the wire
    format, and [Decode] computes it. It stops without error at an incomplete
    rest and fails with the wrong-packet-type error (and no packets) at a
    malformed header; in particular it terminates and never panics. *)
Theorem Decode_refines_wire (data : list byte) :
  exists ps e, decodes data ps e /\ Decode data = decode_result ps e /\
    forall ps' e', decodes data ps' e' -> ps' = ps /\ e' = e.
Proof.
  destruct (Decode_decodes data) as (ps & e & H & Hr). exists ps, e.
  split; [done|]. split; [done|]. intros ps' e' H'. by eapply decodes_det.
Qed.

Lemma decodes_stream ps tail e qs :
  Forall wf_packet ps -> decodes tail qs e ->
  decodes (concat (wire <$> ps) ++ tail) (ps ++ qs) e.
Proof.
  intros Hps Ht. induction Hps as [|p ps Hp Hps IH]; cbn; [done|].
  rewrite <-app_assoc. change (decodes (wire p ++ (concat (wire <$> ps) ++ tail)) (p :: ps ++ qs) e).
  by constructor.
Qed.

(** Encoding a packet and its wire bytes. *)
Lemma Encode_wire typ data buf :
  Encode typ data = Ok buf -> Z.of_nat (length data) < 2 ^ 24 ->
  let p := mkPacket typ (Z.of_nat (length data)) data in wf_packet p /\ buf = wire p.
Proof.
  intros H Hl. unfold Encode in H. destruct (bad_type typ) eqn:Ht; [done|].
  assert (Encode typ data = Ok (frame typ data)) as E
    by (apply Encode_frame; [done | rewrite MaxPacketSize_eq; lia]).
  unfold Encode in E. rewrite Ht, H in E. injection E as ->. done.
Qed.

(** C18: a stream of encoded packets decodes to the packets, whatever
    incomplete rest follows it on the wire: for every sequence of packets
    the encoder accepts with a payload shorter than 2^24 bytes, decoding the
    concatenation of the encodings and any incomplete tail returns the same
    types, lengths and payloads in order. *)
Theorem Decode_Encode_stream (ps : list (byte * list byte)) (bufs : list (list byte))
    (tail : list byte) :
  mapM (fun '(typ, data) => Encode typ data) ps = Ok bufs ->
  Forall (fun '(_, data) => Z.of_nat (length data) < 2 ^ 24) ps ->
  incomplete tail ->
  Decode (concat bufs ++ tail) =
    Ok ((fun '(typ, data) => mkPacket typ (Z.of_nat (length data)) data) <$> ps).
Proof.
  intros Hm Hl Ht.
  set (f := fun '(typ, data) => mkPacket typ (Z.of_nat (length data)) data).
  assert (bufs = wire <$> (f <$> ps) /\ Forall wf_packet (f <$> ps)) as [-> Hwf].
  { revert bufs Hm. induction Hl as [|[typ data] ps Hd Hps IH]; intros bufs Hm; cbn in Hm.
    - by injection Hm as <-.
    - outcome_inv. destruct (IH _ ltac:(done)) as [-> Hwf].
      match goal with H : Encode _ _ = _ |- _ => apply Encode_wire in H as [Hp ->]; [|done] end.
      split; [done|]. by constructor. }
  apply (decodes_stream _ tail None []) in Hwf; [|by constructor].
  rewrite app_nil_r in Hwf.
  destruct (Decode_decodes (concat (wire <$> (f <$> ps)) ++ tail)) as (ps' & e' & H' & ->).
  by destruct (decodes_det _ _ _ _ _ Hwf H') as [<- <-].
Qed.

Lemma Decode_Encode_stream_witness :
  Decode (concat [frame x01 [x07]; frame x04 []] ++ [x04]) =
    Ok [mkPacket x01 1 [x07]; mkPacket x04 0 []].
Proof.
  apply (Decode_Encode_stream [(x01, [x07]); (x04, [])]); [reflexivity| |].
  - by repeat constructor.
  - left. cbn. unfold HeadLength. lia.
Defined.

(** The encoder's size limit is one byte too large: a payload of exactly
    2^24 bytes is accepted although the three length bytes cannot hold it,
    and the packet goes out announcing an empty payload. *)
Theorem Encode_limit_overflows (typ : byte) (data : list byte) :
  bad_type typ = false -> Z.of_nat (length data) = 2 ^ 24 ->
  exists buf, Encode typ data = Ok buf /\
    ParseHeader (take HeadLength buf) = Ok (0, typ) /\
    drop HeadLength buf = data.
Proof.
  intros Ht Hl. exists (frame typ data). split.
  { apply Encode_frame; [done|]. rewrite MaxPacketSize_eq. lia. }
  unfold frame. rewrite Hl. split; [|done].
  apply ParseHeader_ok. split; [done|]. split; [done|]. lia.
Qed.

Lemma Encode_limit_overflows_witness :
  exists data, Z.of_nat (length data) = 2 ^ 24 /\
  exists buf, Encode x04 data = Ok buf /\
    ParseHeader (take HeadLength buf) = Ok (0, x04) /\ drop HeadLength buf = data.
Proof.
  exists (replicate (Z.to_nat (2 ^ 24)) x00).
  assert (Z.of_nat (length (replicate (Z.to_nat (2 ^ 24)) x00)) = 2 ^ 24) as Hl.
  { rewrite length_replicate. apply Z2Nat.id. lia. }
  split; [exact Hl|]. apply Encode_limit_overflows; [reflexivity | exact Hl].
Defined.

End Packet.
