(* ===== verification/Message.v ===== *)
(** * Messages: [conn/message] and [util/compression]

    The message header (flag byte, variable-length id, plain or dictionary
    route), the route dictionary and the optional compression of the data.
    zlib is the only part that is not under src/: it is the class [Zlib],
    and what the code relies on of it is [ZlibLaws]. *)

From S2P Require Import Prelude Errors.
From Stdlib Require Import Strings.Byte.
Local Open Scope Z_scope.

(** ** [util/compression] *)

(** The zlib package: writing a slice through a writer and closing it, and
    opening a reader on a slice and reading it to the end. *)
Class Zlib := {
  zlib_write : list byte -> result (list byte);
  zlib_reader : Type;
  zlib_NewReader : list byte -> result zlib_reader;
  zlib_ReadAll : zlib_reader -> result (list byte)
}.

(** A reader on what a writer produced gives the data back, and neither
    side panics. *)
Class ZlibLaws (Z : Zlib) := {
  zlib_roundtrip d b : zlib_write d = Ok b ->
    exists r, zlib_NewReader b = Ok r /\ zlib_ReadAll r = Ok d;
  zlib_NewReader_no_panic b p : zlib_NewReader b <> Panics p;
  zlib_ReadAll_no_panic r p : zlib_ReadAll r <> Panics p
}.

Section Compression.
Context `{Zlib}.

Definition DeflateData (data : list byte) : result (list byte) :=
  bb ← zlib_write data; Ok bb.

Definition InflateData (data : list byte) : result (list byte) :=
  zr ← zlib_NewReader data; zlib_ReadAll zr.

End Compression.

(** The magic-number test of [IsCompressed]: zlib or gzip. *)
Definition IsCompressed (data : list byte) : bool :=
  match data with
  | b0 :: b1 :: _ :: _ =>
      (bool_decide (b0 = x78) &&
       (bool_decide (b1 = x9c) || bool_decide (b1 = x01) ||
        bool_decide (b1 = xda) || bool_decide (b1 = x5e))) ||
      (bool_decide (b0 = x1f) && bool_decide (b1 = x8b))
  | _ => false
  end.

Module Message.

(** ** Data *)

Definition Request : byte := x00.
Definition Notify : byte := x01.
Definition Response : byte := x02.

Definition errorMask := 0x20.
Definition gzipMask := 0x10.
Definition msgRouteCompressMask := 0x01.
Definition msgTypeMask := 0x07.
Definition msgHeadLength : nat := 2.

(** [message.Message]; [ID] is a [uint]. *)
Record Message := mkMessage {
  Typ : byte;
  ID : Z;
  Route : string;
  Data : list byte;
  compressed : bool;
  IsErr : bool
}.

#[export] Instance Message_eq_dec : EqDecision Message.
Proof. solve_decision. Defined.

(** The package's route dictionary: [routes] and [codes]. *)
Record Dict := mkDict {
  routes : gmap string Z;
  codes : gmap Z string
}.

Definition empty_dict : Dict := mkDict ∅ ∅.

(** [New(err ...bool)]. *)
Definition New (err : list bool) : Message :=
  let m := mkMessage Request 0 "" [] false false in
  match err with
  | [] => m
  | e :: _ => mkMessage (Typ m) (ID m) (Route m) (Data m) (compressed m) e
  end.

Definition routable (t : byte) : bool := bool_decide (t = Request) || bool_decide (t = Notify).
Definition invalidType (t : byte) : bool :=
  (byte_to_Z t <? byte_to_Z Request) || (byte_to_Z Response <? byte_to_Z t).

(** The types whose messages carry an id. *)
Definition has_id (t : byte) : bool := bool_decide (t = Request) || bool_decide (t = Response).

(** ** How messages print *)

(** [types] and [Type.String]; an unknown type has no name. *)
Definition Type_String (t : byte) : string :=
  if bool_decide (t = Request) then "Request"
  else if bool_decide (t = Notify) then "Notify"
  else if bool_decide (t = Response) then "Response" else EmptyString.

(** The formats %t and %v of a slice of bytes. *)
Definition fmt_bool (b : bool) : string := if b then "true" else "false".
Definition fmt_bytes (l : list byte) : string :=
  "[" +:+ str_join " " (pretty ∘ byte_to_Z <$> l) +:+ "]".
Definition Message_String (m : Message) : string :=
  "Type: " +:+ Type_String (Typ m) +:+ ", ID: " +:+ pretty (ID m) +:+ ", Route: " +:+ Route m +:+
  ", Compressed: " +:+ fmt_bool (compressed m) +:+ ", Error: " +:+ fmt_bool (IsErr m) +:+
  ", Data: " +:+ fmt_bytes (Data m) +:+ ", BodyLength: " +:+ pretty (Z.of_nat (length (Data m))).

(** ** The dictionary *)

Definition dup_error (r : string) (code : Z) : error :=
  EText ("duplicated route(route: " +:+ r +:+ ", code: " +:+ pretty code +:+ ")").

(** The loop of [SetDictionary] over the entries of the map in iteration
    order: it stops at the first duplicate and keeps what it has entered. *)
Fixpoint set_entries (d : Dict) (entries : list (string * Z)) : Dict * option error :=
  match entries with
  | [] => (d, None)
  | (route, code) :: entries =>
      let r := trim_space route in
      match routes d !! r with
      | Some _ => (d, Some (dup_error r code))
      | None =>
          match codes d !! code with
          | Some _ => (d, Some (dup_error r code))
          | None => set_entries (mkDict (<[r := code]> (routes d)) (<[code := r]> (codes d))) entries
          end
      end
  end.

(** [SetDictionary]; [None] is the nil map, and the list is the map in the
    order the runtime iterates it. *)
Definition SetDictionary (d : Dict) (dict : option (list (string * Z))) : Dict * option error :=
  match dict with
  | None => (d, None)
  | Some entries => set_entries d entries
  end.

(** [GetDictionary]: a copy of [routes]. *)
Definition GetDictionary (d : Dict) : gmap string Z := map_copy_into (routes d) ∅.

(** ** Encoding *)

(** The id loop of [Encode]: seven bits a byte, low group first; ten rounds
    are enough for 64 bits. *)
Fixpoint put_id (fuel : nat) (n : Z) : list byte :=
  match fuel with
  | O => []
  | S fuel =>
      let b := n mod 128 in
      let n := Z.shiftr n 7 in
      if n =? 0 then [byte_of_Z b] else byte_of_Z (b + 128) :: put_id fuel n
  end.

Section Codec.
Context `{Zlib}.

(** [MessagesEncoder.Encode]: the bytes and the message, whose [Data] the
    encoder replaces when it compresses. *)
Definition Encode (DataCompression : bool) (d : Dict) (message : Message)
  : result (list byte * Message) :=
  if invalidType (Typ message) then Err (ESentinel ErrWrongMessageType)
  else
    let flag := byte_of_Z (Z.shiftl (byte_to_Z (Typ message)) 1) in
    let code := routes d !! Route message in
    let flag :=
      match code with
      | Some _ => byte_of_Z (Z.lor (byte_to_Z flag) msgRouteCompressMask)
      | None => flag
      end in
    let flag := if IsErr message then byte_of_Z (Z.lor (byte_to_Z flag) errorMask) else flag in
    let buf := [flag] in
    let buf := if has_id (Typ message) then buf ++ put_id 10 (ID message) else buf in
    let buf :=
      if routable (Typ message) then
        match code with
        | Some code =>
            buf ++ [byte_of_Z (Z.land (Z.shiftr code 8) 0xFF)] ++ [byte_of_Z (Z.land code 0xFF)]
        | None =>
            buf ++ [byte_of_Z (Z.of_nat (String.length (Route message)))]
                ++ str_bytes (Route message)
        end
      else buf in
    if DataCompression then
      z ← DeflateData (Data message);
      if bool_decide (length z < length (Data message))%nat then
        let message := mkMessage (Typ message) (ID message) (Route message) z
                         (compressed message) (IsErr message) in
        let buf := alter (fun b => byte_of_Z (Z.lor (byte_to_Z b) gzipMask)) 0%nat buf in
        Ok (buf ++ Data message, message)
      else Ok (buf ++ Data message, message)
    else Ok (buf ++ Data message, message).

(** ** Decoding *)

(** The id loop of [Decode] from [offset]: the value, and the number of
    bytes of the id if its last byte was found. *)
Fixpoint read_id (l : list byte) (k : nat) (id : Z) : Z * option nat :=
  match l with
  | [] => (id, None)
  | b :: l =>
      let id := u64 (id + u64 (Z.shiftl (Z.land (byte_to_Z b) 0x7F) (7 * Z.of_nat k))) in
      if byte_to_Z b <? 128 then (id, Some (S k)) else read_id l (S k) id
  end.

(** [binary.BigEndian.Uint16]. *)
Definition be_uint16 (l : list byte) : Z :=
  match l with
  | [a; b] => Z.lor (Z.shiftl (byte_to_Z a) 8) (byte_to_Z b)
  | _ => 0
  end.

(** The route of a routable message: whether it was compressed, the route
    and the offset after it. *)
Definition read_route (d : Dict) (flag : byte) (data : list byte) (offset : nat)
  : result (bool * string * nat) :=
  let size := length data in
  if Z.land (byte_to_Z flag) msgRouteCompressMask =? 1 then
    if bool_decide (size < offset)%nat || bool_decide (size < offset + 2)%nat
    then Err (ESentinel ErrInvalidMessage)
    else
      bs ← go_slice data offset (offset + 2);
      match codes d !! be_uint16 bs with
      | None => Err (ESentinel ErrRouteInfoNotFound)
      | Some route => Ok (true, route, (offset + 2)%nat)
      end
  else
    rl ← data.[offset];
    let offset := S offset in
    let rl := Z.to_nat (byte_to_Z rl) in
    if bool_decide (size < offset)%nat || bool_decide (size < offset + rl)%nat
    then Err (ESentinel ErrInvalidMessage)
    else
      bs ← go_slice data offset (offset + rl);
      Ok (false, bytes_str bs, (offset + rl)%nat).

(** [Decode]. *)
Definition Decode (d : Dict) (data : list byte) : result Message :=
  if bool_decide (length data < msgHeadLength)%nat then Err (ESentinel ErrInvalidMessage)
  else
    flag ← data.[0];
    let typ := byte_of_Z (Z.land (Z.shiftr (byte_to_Z flag) 1) msgTypeMask) in
    if invalidType typ then Err (ESentinel ErrWrongMessageType)
    else
      let '(id, offset) :=
        if has_id typ then
          let '(id, n) := read_id (drop 1 data) 0 0 in
          (id, match n with Some n => S n | None => 1%nat end)
        else (0, 1%nat) in
      let err := Z.land (byte_to_Z flag) errorMask =? errorMask in
      let size := length data in
      '(cmp, route, offset) ←
        (if routable typ then read_route d flag data offset else Ok (false, "", offset));
      if bool_decide (size < offset)%nat then Err (ESentinel ErrInvalidMessage)
      else
        payload ← go_slice data offset size;
        payload ← (if Z.land (byte_to_Z flag) gzipMask =? gzipMask
                   then InflateData payload else Ok payload);
        Ok (mkMessage typ id route payload cmp err).

(** [MessagesEncoder] and its methods. *)
Record MessagesEncoder := mkMessagesEncoder { DataCompression : bool }.
Definition NewMessagesEncoder (dataCompression : bool) : MessagesEncoder :=
  mkMessagesEncoder dataCompression.
Definition IsCompressionEnabled (me : MessagesEncoder) : bool := DataCompression me.
Definition me_Encode (me : MessagesEncoder) : Dict -> Message -> result (list byte * Message) :=
  Encode (DataCompression me).
Definition me_Decode (me : MessagesEncoder) : Dict -> list byte -> result Message := Decode.

End Codec.

(** ** Properties of the dictionary *)

(** The two maps are inverse to each other. *)
Definition dict_ok (d : Dict) : Prop :=
  forall r c, routes d !! r = Some c <-> codes d !! c = Some r.

(** The entries can all be added: after trimming, no route and no code
    occurs twice or is taken. *)
Definition fresh_entries (d : Dict) (entries : list (string * Z)) : Prop :=
  NoDup ((fun '(route, _) => trim_space route) <$> entries) /\
  NoDup (entries.*2) /\
  Forall (fun '(route, code) => routes d !! trim_space route = None /\
                                codes d !! code = None) entries.

Lemma dict_ok_insert d r c :
  dict_ok d -> routes d !! r = None -> codes d !! c = None ->
  dict_ok (mkDict (<[r := c]> (routes d)) (<[c := r]> (codes d))).
Proof.
  intros Hd Hr Hc r' c'. cbn. rewrite !lookup_insert.
  specialize (Hd r' c'). repeat case_decide; naive_solver.
Qed.

Lemma fresh_entries_cons d route code entries :
  fresh_entries d ((route, code) :: entries) <->
  routes d !! trim_space route = None /\ codes d !! code = None /\
  fresh_entries (mkDict (<[trim_space route := code]> (routes d))
                        (<[code := trim_space route]> (codes d))) entries.
Proof.
  unfold fresh_entries. cbn. rewrite !NoDup_cons, Forall_cons.
  set (tr := fun '(route, _) => trim_space route).
  assert (Forall (fun '(r, c) =>
      <[trim_space route := code]> (routes d) !! trim_space r = None /\
      <[code := trim_space route]> (codes d) !! c = None) entries <->
    Forall (fun '(r, c) => routes d !! trim_space r = None /\ codes d !! c = None) entries /\
    trim_space route ∉ (tr <$> entries) /\ code ∉ entries.*2) as ->; [|naive_solver].
  induction entries as [|[r c] entries IH]; cbn.
  - rewrite !Forall_nil. split; [|done]. intros _. repeat split; apply not_elem_of_nil.
  - rewrite !Forall_cons, !not_elem_of_cons, IH, !lookup_insert. clear IH.
    repeat case_decide; naive_solver.
Qed.

Definition added (entries : list (string * Z)) (r : string) (c : Z) : Prop :=
  exists route, (route, c) ∈ entries /\ trim_space route = r.

Lemma set_entries_spec entries : forall d d' e,
  set_entries d entries = (d', e) ->
  (dict_ok d -> dict_ok d') /\ routes d ⊆ routes d' /\
  (e = None <-> fresh_entries d entries) /\
  (e = None -> forall r c, routes d' !! r = Some c <-> routes d !! r = Some c \/ added entries r c).
Proof.
  induction entries as [|[route code] entries IH]; intros d d' e H; cbn in H.
  { injection H as <- <-. split_and!; [done|done|split; [intros _; repeat split; constructor|done]|].
    intros _ r c. split; [by left|]. intros [?|(? & []%not_elem_of_nil & _)]; done. }
  rewrite fresh_entries_cons.
  destruct (routes d !! trim_space route) eqn:Hr;
    [injection H as <- <-; naive_solver|].
  destruct (codes d !! code) eqn:Hc; [injection H as <- <-; naive_solver|].
  apply IH in H as (Hok & Hsub & He & Hin). cbn in *. clear IH. split; [|split; [|split]].
  - intros Hd. by apply Hok, dict_ok_insert.
  - etrans; [|exact Hsub]. by apply insert_subseteq.
  - naive_solver.
  - intros ->. intros r c. rewrite Hin by done. unfold added. setoid_rewrite elem_of_cons.
    rewrite lookup_insert_Some. destruct (decide (trim_space route = r)) as [<-|]; naive_solver.
Qed.

(** A failure keeps what was added before it. *)
Lemma set_entries_fails entries : forall d d' e,
  set_entries d entries = (d', Some e) ->
  exists pre x post, entries = pre ++ x :: post /\ set_entries d pre = (d', None).
Proof.
  induction entries as [|[route code] entries IH]; intros d d' e H; cbn in H; [done|].
  destruct (routes d !! trim_space route) eqn:Hr; [injection H as <- _; by exists [], (route, code), entries|].
  destruct (codes d !! code) eqn:Hc; [injection H as <- _; by exists [], (route, code), entries|].
  apply IH in H as (pre & x & post & -> & H). exists ((route, code) :: pre), x, post.
  split; [done|]. cbn. by rewrite Hr, Hc.
Qed.

(** C36: [SetDictionary] adds routes or reports an error: it keeps the
    route and code tables inverse to each other, and it never removes or
    changes a registered route. It succeeds exactly when no trimmed route and
    no code of the new entries is duplicated or taken, whatever the order of
    the map, and then the routes are those there were and the entries; when
    it fails, the entries it had come to before stay registered. *)
Theorem SetDictionary_correct (d : Dict) (entries : list (string * Z)) :
  dict_ok d ->
  let '(d', e) := SetDictionary d (Some entries) in
  dict_ok d' /\ routes d ⊆ routes d' /\
  (e = None <-> fresh_entries d entries) /\
  match e with
  | None => forall r c, routes d' !! r = Some c <-> routes d !! r = Some c \/ added entries r c
  | Some _ => exists pre x post, entries = pre ++ x :: post /\ SetDictionary d (Some pre) = (d', None)
  end.
Proof.
  intros Hd. cbn. destruct (set_entries d entries) as [d' e] eqn:E.
  pose proof (set_entries_spec _ _ _ _ E) as (Hok & Hsub & He & Hin).
  destruct e; [apply set_entries_fails in E|]; naive_solver.
Qed.

Lemma SetDictionary_correct_witness :
  let entries := [(" a.b ", 1); ("c.d", 1)] in
  exists d' err, SetDictionary empty_dict (Some entries) = (d', Some err) /\ dict_ok d' /\
    ~ fresh_entries empty_dict entries /\
    exists pre x post, entries = pre ++ x :: post /\ SetDictionary empty_dict (Some pre) = (d', None).
Proof.
  intros entries. pose proof (SetDictionary_correct empty_dict entries) as H.
  destruct (SetDictionary empty_dict (Some entries)) as [d' [err|]] eqn:E; [|vm_compute in E; discriminate].
  destruct H as (Hok & _ & Hn & Hp); [intros r c; cbn; by rewrite !lookup_empty|].
  exists d', err. split_and!; [done|done| |exact Hp]. intros Hf. by apply Hn in Hf.
Defined.

(** ** The id *)

Lemma land_127 z : Z.land z 0x7F = z mod 128.
Proof. change 0x7F with (Z.ones 7). by rewrite Z.land_ones. Qed.

Lemma put_id_nonempty fuel n : put_id (S fuel) n <> [].
Proof. cbn. by destruct (_ =? _). Qed.

(** Reading an encoded id from position [k] on adds its value, shifted. *)
Lemma read_put_id fuel : forall n k id rest,
  0 <= n < 128 ^ Z.of_nat fuel -> (0 < fuel)%nat ->
  0 <= id -> id + n * 2 ^ (7 * Z.of_nat k) < 2 ^ 64 ->
  read_id (put_id fuel n ++ rest) k id =
    (id + n * 2 ^ (7 * Z.of_nat k), Some (k + length (put_id fuel n))%nat).
Proof.
  induction fuel as [|fuel IH]; intros n k id rest Hn Hf Hid Hlim; [lia|].
  cbn [put_id]. rewrite Z.shiftr_div_pow2 by lia. change (2 ^ 7) with 128.
  pose proof (Z.mod_pos_bound n 128 ltac:(lia)) as Hb.
  pose proof (Z.div_mod n 128 ltac:(lia)) as Hdm.
  pose proof (Z.pow_pos_nonneg 2 (7 * Z.of_nat k) ltac:(lia) ltac:(lia)) as Hp.
  destruct (Z.eqb_spec (n / 128) 0) as [Hz|Hz]; cbn [app read_id].
  - rewrite byte_to_of_Z_small, land_127, Z.mod_mod, Z.shiftl_mul_pow2 by lia.
    assert (n mod 128 = n) as -> by lia.
    rewrite (u64_small (n * _)), u64_small by nia.
    rewrite (proj2 (Z.ltb_lt _ _)) by lia. cbn [length]. do 2 f_equal. lia.
  - rewrite byte_to_of_Z_small by lia. rewrite land_127.
    replace ((n mod 128 + 128) mod 128) with (n mod 128)
      by (rewrite <-Zplus_mod_idemp_r, Z_mod_same_full, Z.add_0_r, Z.mod_mod; lia).
    rewrite Z.shiftl_mul_pow2, (proj2 (Z.ltb_ge _ _)) by lia.
    assert (0 <= n / 128) by (apply Z.div_pos; lia).
    rewrite (u64_small (_ * _)), u64_small by nia.
    assert (2 ^ (7 * Z.of_nat (S k)) = 128 * 2 ^ (7 * Z.of_nat k)) as Hk.
    { rewrite <-(Z.pow_add_r 2 7) by lia. f_equal. lia. }
    rewrite Nat2Z.inj_succ, Z.pow_succ_r in Hn by lia.
    destruct fuel as [|fuel]; [cbn in Hn; lia|].
    rewrite IH; rewrite ?Hk; [| nia | lia | nia | nia].
    f_equal; [nia|]. f_equal. cbn [length]. lia.
Qed.

Lemma read_id_ten n rest :
  0 <= n < 2 ^ 64 ->
  read_id (put_id 10 n ++ rest) 0 0 = (n, Some (length (put_id 10 n))).
Proof.
  intros Hn. rewrite read_put_id; [|split; [lia|]|lia..].
  - f_equal. lia.
  - change (128 ^ Z.of_nat 10) with (2 ^ 70). lia.
Qed.

(** ** The route *)

Lemma read_route_plain d flag pre r rest :
  (Z.land (byte_to_Z flag) msgRouteCompressMask =? 1) = false ->
  (String.length r <= 255)%nat ->
  read_route d flag (pre ++ [byte_of_Z (Z.of_nat (String.length r))] ++ str_bytes r ++ rest)
    (length pre) = Ok (false, r, (length pre + 1 + String.length r)%nat).
Proof.
  intros Hf Hr. unfold read_route. rewrite Hf, go_index_app_r by done.
  cbn [app go_index lookup list_lookup mbind outcome_bind].
  rewrite byte_to_of_Z_small, Nat2Z.id by lia.
  rewrite (bool_decide_eq_false_2 (_ < S _)%nat)
    by (rewrite !length_app; cbn [length]; lia).
  rewrite (bool_decide_eq_false_2 (_ < _)%nat)
    by (rewrite !length_app; cbn [length]; rewrite length_app, str_bytes_length; lia).
  cbn [orb]. rewrite (cons_middle _ pre), app_assoc, go_slice_app.
  - cbn [mbind outcome_bind]. rewrite bytes_str_bytes. do 2 f_equal. lia.
  - rewrite length_app. cbn. lia.
  - rewrite str_bytes_length. lia.
  - lia.
Qed.

Lemma code_bytes code :
  0 <= code < 2 ^ 16 ->
  be_uint16 [byte_of_Z (Z.land (Z.shiftr code 8) 0xFF); byte_of_Z (Z.land code 0xFF)] = code.
Proof.
  intros Hc. unfold be_uint16. rewrite !byte_to_of_Z. change 0xFF with (Z.ones 8).
  change 256 with (2 ^ 8). rewrite !Z.land_ones, !Z.mod_mod, Z.shiftr_div_pow2 by lia.
  rewrite (Z.mod_small (code / _)) by (Z.to_euclidean_division_equations; lia).
  rewrite <-Z.shiftr_div_pow2, <-Z.land_ones by lia. symmetry.
  apply Z.bits_inj'. intros n Hn.
  rewrite Z.lor_spec, Z.land_spec, Z.testbit_ones_nonneg by lia.
  destruct (Z.ltb_spec n 8).
  - rewrite Z.shiftl_spec_low by lia. by rewrite andb_true_r.
  - rewrite Z.shiftl_spec_high, Z.shiftr_spec by lia.
    rewrite andb_false_r, orb_false_r. f_equal. lia.
Qed.

Lemma read_route_coded d flag pre code r rest :
  (Z.land (byte_to_Z flag) msgRouteCompressMask =? 1) = true ->
  0 <= code < 2 ^ 16 -> codes d !! code = Some r ->
  read_route d flag
    (pre ++ [byte_of_Z (Z.land (Z.shiftr code 8) 0xFF); byte_of_Z (Z.land code 0xFF)] ++ rest)
    (length pre) = Ok (true, r, (length pre + 2)%nat).
Proof.
  intros Hf Hc Hd. unfold read_route. rewrite Hf.
  rewrite !bool_decide_eq_false_2 by (rewrite !length_app; cbn [length]; lia).
  cbn [orb]. rewrite go_slice_app by (cbn [length]; lia).
  cbn [mbind outcome_bind]. by rewrite code_bytes, Hd.
Qed.

(** ** The flag byte *)

Lemma valid_types t : invalidType t = false -> t = Request \/ t = Notify \/ t = Response.
Proof. destruct t; try discriminate; auto. Qed.

(** What the decoder reads off a flag byte. *)
Definition flag_bits (flag typ : byte) (cmp err gz : bool) : Prop :=
  byte_of_Z (Z.land (Z.shiftr (byte_to_Z flag) 1) msgTypeMask) = typ /\
  (Z.land (byte_to_Z flag) msgRouteCompressMask =? 1) = cmp /\
  (Z.land (byte_to_Z flag) errorMask =? errorMask) = err /\
  (Z.land (byte_to_Z flag) gzipMask =? gzipMask) = gz.

(** The flag byte the encoder writes. *)
Definition make_flag (typ : byte) (cmp err gz : bool) : byte :=
  let flag := byte_of_Z (Z.shiftl (byte_to_Z typ) 1) in
  let flag := if cmp then byte_of_Z (Z.lor (byte_to_Z flag) msgRouteCompressMask) else flag in
  let flag := if err then byte_of_Z (Z.lor (byte_to_Z flag) errorMask) else flag in
  if gz then byte_of_Z (Z.lor (byte_to_Z flag) gzipMask) else flag.

Lemma make_flag_bits typ cmp err gz :
  invalidType typ = false -> flag_bits (make_flag typ cmp err gz) typ cmp err gz.
Proof.
  intros [->|[->| ->]]%valid_types; destruct cmp, err, gz; by repeat split.
Qed.

Section RoundTrip.
Context `{Zlib}.

(** The bytes of the id and of the route. *)
Definition id_part (m : Message) : list byte :=
  if has_id (Typ m) then put_id 10 (ID m) else [].
Definition route_part (d : Dict) (m : Message) : list byte :=
  if routable (Typ m) then
    match routes d !! Route m with
    | Some code => [byte_of_Z (Z.land (Z.shiftr code 8) 0xFF); byte_of_Z (Z.land code 0xFF)]
    | None => byte_of_Z (Z.of_nat (String.length (Route m))) :: str_bytes (Route m)
    end
  else [].

Definition is_some_b {A} (o : option A) : bool := match o with Some _ => true | None => false end.

(** The layout of an encoded message: its flag byte, id, route and data. *)
Lemma Encode_layout c d m buf m' :
  Encode c d m = Ok (buf, m') ->
  exists gz, let flag := make_flag (Typ m) (is_some_b (routes d !! Route m)) (IsErr m) gz in
    invalidType (Typ m) = false /\
    buf = flag :: id_part m ++ route_part d m ++ Data m' /\
    (if gz then c = true /\ DeflateData (Data m) = Ok (Data m') /\
                (length (Data m') < length (Data m))%nat
     else Data m' = Data m).
Proof.
  unfold Encode. destruct (invalidType (Typ m)); [done|].
  set (buf0 := if routable (Typ m) then _ else _).
  assert (buf0 = make_flag (Typ m) (is_some_b (routes d !! Route m)) (IsErr m) false
                   :: id_part m ++ route_part d m) as ->.
  { unfold buf0, make_flag, id_part, route_part.
    destruct (has_id _), (routable _), (routes d !! _), (IsErr m); cbn [is_some_b app];
      rewrite ?app_nil_r, <-?app_assoc; done. }
  intros HE.
  assert (HE' : (buf = (make_flag (Typ m) (is_some_b (routes d !! Route m)) (IsErr m) false
                   :: id_part m ++ route_part d m) ++ Data m /\ m' = m) \/
    (c = true /\ exists z, DeflateData (Data m) = Ok z /\ (length z < length (Data m))%nat /\
      m' = mkMessage (Typ m) (ID m) (Route m) z (compressed m) (IsErr m) /\
      buf = (make_flag (Typ m) (is_some_b (routes d !! Route m)) (IsErr m) true
              :: id_part m ++ route_part d m) ++ z)).
  { destruct c; [|injection HE as <- <-; auto]. outcome_inv.
    revert HE. case_bool_decide; intros [= <- <-]; [|auto].
    right. split; [done|]. eexists; split_and!; [done|done|done|].
    unfold make_flag. done. }
  destruct HE' as [[-> ->]|(-> & z & Hz & Hl & -> & ->)].
  - exists false. cbn. by rewrite <-app_assoc.
  - exists true. cbn. by rewrite <-app_assoc.
Qed.

(** A message the encoder can represent: the id is a [uint], and a routable
    message has a route with a 16-bit code in the dictionary or of at most
    255 bytes. *)
Definition wf_message (d : Dict) (m : Message) : Prop :=
  0 <= ID m < 2 ^ 64 /\
  (routable (Typ m) = true ->
   match routes d !! Route m with
   | Some code => 0 <= code < 2 ^ 16
   | None => (String.length (Route m) <= 255)%nat
   end).

(** What the receiver sees of a message: the id only on types that carry
    one, the route only on routable types. *)
Definition received (d : Dict) (m : Message) : Message :=
  mkMessage (Typ m) (if has_id (Typ m) then ID m else 0)
    (if routable (Typ m) then Route m else "") (Data m)
    (routable (Typ m) && is_some_b (routes d !! Route m)) (IsErr m).

Lemma id_part_read d m rest :
  wf_message d m ->
  (if has_id (Typ m) then
     let '(id, n) := read_id (id_part m ++ rest) 0 0 in
     (id, match n with Some n => S n | None => 1%nat end)
   else (0, 1%nat)) = (if has_id (Typ m) then ID m else 0, S (length (id_part m))).
Proof.
  intros [Hid _]. unfold id_part. destruct (has_id (Typ m)); [|done].
  by rewrite read_id_ten.
Qed.

Lemma route_part_read d m flag rest gz :
  dict_ok d -> wf_message d m ->
  flag_bits flag (Typ m) (is_some_b (routes d !! Route m)) (IsErr m) gz ->
  (if routable (Typ m)
   then read_route d flag (flag :: id_part m ++ route_part d m ++ rest) (S (length (id_part m)))
   else Ok (false, "", S (length (id_part m)))) =
  Ok (routable (Typ m) && is_some_b (routes d !! Route m),
      (if routable (Typ m) then Route m else ""),
      (S (length (id_part m)) + length (route_part d m))%nat).
Proof.
  intros Hd [_ Hr] (_ & Hc & _). unfold route_part.
  destruct (routable (Typ m)); [|by rewrite Nat.add_0_r].
  specialize (Hr eq_refl). destruct (routes d !! Route m) as [code|] eqn:E; cbn [is_some_b] in *.
  - apply (read_route_coded d flag (flag :: id_part m)); [done..|]. by apply Hd.
  - pose proof (read_route_plain d flag (flag :: id_part m) (Route m) rest Hc Hr) as R.
    cbn [length app] in R |- *. rewrite R. rewrite str_bytes_length. do 2 f_equal. lia.
Qed.

Lemma encoded_length d m flag rest :
  invalidType (Typ m) = false -> (2 <= length (flag :: id_part m ++ route_part d m ++ rest))%nat.
Proof.
  intros Ht. cbn [length]. rewrite !length_app. unfold id_part, route_part.
  pose proof (put_id_nonempty 9 (ID m)) as Hp.
  apply valid_types in Ht as [->|[->| ->]].
  - change (has_id Request) with true. destruct (put_id 10 (ID m)); [done|]. cbn [length]. lia.
  - change (routable Notify) with true. destruct (routes d !! _); cbn [length]; lia.
  - change (has_id Response) with true. destruct (put_id 10 (ID m)); [done|]. cbn [length]. lia.
Qed.

Lemma decode_encoded `{!ZlibLaws _} (c : bool) (d : Dict) (m m' : Message) (buf : list byte) :
  dict_ok d -> wf_message d m ->
  Encode c d m = Ok (buf, m') ->
  Decode d buf = Ok (received d m).
Proof.
  intros Hd Hwf (gz & Ht & -> & Hz)%Encode_layout.
  pose proof (make_flag_bits (Typ m) (is_some_b (routes d !! Route m)) (IsErr m) gz Ht) as Hb.
  set (flag := make_flag _ _ _ _) in *.
  unfold Decode. rewrite bool_decide_eq_false_2
    by (pose proof (encoded_length d m flag (Data m') Ht); unfold msgHeadLength; lia).
  cbn [go_index lookup list_lookup mbind outcome_bind].
  destruct (Hb) as (Ht' & _ & He & Hg). rewrite Ht', Ht. cbn [drop].
  rewrite drop_0, (id_part_read d) by done. rewrite (route_part_read _ _ _ _ gz) by done.
  cbn [mbind outcome_bind].
  set (data := flag :: _). set (off := (S _ + _)%nat).
  assert (data = (flag :: id_part m ++ route_part d m) ++ Data m') as Hdata
    by (unfold data; cbn; by rewrite <-app_assoc).
  assert (off = length (flag :: id_part m ++ route_part d m)) as Hoff
    by (unfold off; cbn; by rewrite length_app).
  assert (off <= length data)%nat by (rewrite Hdata, length_app; lia).
  rewrite bool_decide_eq_false_2, go_slice_from by lia.
  cbn [mbind outcome_bind]. rewrite Hdata, Hoff, drop_app_length, Hg, He.
  assert ((if gz then InflateData (Data m') else Ok (Data m')) = Ok (Data m)) as ->; [|done].
  destruct gz; [|by rewrite Hz]. destruct Hz as (_ & Hz & _). unfold DeflateData in Hz.
  outcome_inv. destruct (zlib_roundtrip (Data m) (Data m')) as (r & Hr & Ha); [done|].
  unfold InflateData. by rewrite Hr.
Qed.

(** C19: a message survives the wire when it can be represented, that is, when
    its id is below 2^64 and the route of a request or notification has a
    16-bit code in the dictionary or at most 255 bytes: whatever the encoder
    produces for it, with or without data compression, the decoder with the
    same dictionary turns back into the message, less the route of a response
    and the id of a notification, which are not sent, and with the flag that
    tells whether the route came as a code. Beyond 255 bytes the route is lost
    ([long_route_lost]). *)
Theorem Decode_Encode `{!ZlibLaws _} (c : bool) (d : Dict) (m m' : Message) (buf : list byte) :
  dict_ok d -> wf_message d m ->
  Encode c d m = Ok (buf, m') ->
  Decode d buf = Ok (received d m).
Proof. apply decode_encoded. Qed.

(** The length of a route is written as one byte, and not checked: a request
    or notification with a plain route of 256 bytes is encoded as one with the
    empty route whose data begins with the route, and is decoded as that. *)
Theorem long_route_lost `{!ZlibLaws _} (d : Dict) (m : Message) :
  dict_ok d -> routable (Typ m) = true -> routes d !! Route m = None -> routes d !! EmptyString = None ->
  String.length (Route m) = 256%nat -> 0 <= ID m < 2 ^ 64 ->
  exists buf, Encode false d m = Ok (buf, m) /\
    Decode d buf = Ok (received d (mkMessage (Typ m) (ID m) EmptyString (str_bytes (Route m) ++ Data m)
                                     (compressed m) (IsErr m))).
Proof.
  intros Hd Hr Hroute Hempty Hlen Hid. set (m1 := mkMessage _ _ _ _ _ _).
  assert (invalidType (Typ m) = false) as Hv.
  { unfold routable in Hr. apply orb_true_iff in Hr as [Hr|Hr]; apply bool_decide_eq_true in Hr; by rewrite Hr. }
  assert (exists buf, Encode false d m = Ok (buf, m) /\ Encode false d m1 = Ok (buf, m1)) as (buf & H1 & H2).
  { unfold Encode. cbn [Typ ID Route Data compressed IsErr m1]. rewrite Hv, Hr, Hroute, Hempty, Hlen.
    eexists. split; [done|]. do 2 f_equal. cbn [str_bytes String.length app]. by rewrite <-!app_assoc. }
  exists buf. split; [done|]. apply (decode_encoded false d m1 m1 buf Hd); [|done].
  split; [done|]. cbn [Route m1]. rewrite Hempty. intros _. cbn. lia.
Qed.

End RoundTrip.

(** A concrete compressor with the laws, for the witnesses: it knows one
    compressible block and stores everything else. *)
Definition block : list byte := replicate 8 x07.
#[local] Instance toy_zlib : Zlib := {|
  zlib_write d := if decide (d = block) then Ok [x01] else Ok (x00 :: d);
  zlib_reader := list byte;
  zlib_NewReader b := Ok b;
  zlib_ReadAll b :=
    match b with
    | t :: d => if decide (t = x00) then Ok d
                else if decide (b = [x01]) then Ok block
                else Err (EText "zlib: invalid header")
    | [] => Err (EText "EOF")
    end
|}.
#[local] Instance toy_zlib_laws : ZlibLaws toy_zlib.
Proof.
  split.
  - intros d b. cbn. case_decide as Hd; intros [= <-]; eexists; split; [done| |done|]; cbn.
    + by subst.
    + done.
  - done.
  - intros [|t d] p; cbn; [done|]. by repeat case_decide.
Qed.

Definition ex_dict : Dict := mkDict {["room.join" := 300]} {[300 := "room.join"]}.
Lemma ex_dict_ok : dict_ok ex_dict.
Proof. intros r c. cbn. rewrite !lookup_singleton_Some. naive_solver. Qed.

Lemma Decode_Encode_witness :
  Decode (H := toy_zlib) ex_dict [x11; xac; x02; x01; x2c; x01] =
    Ok (received ex_dict (mkMessage Request 300 "room.join" block false false)).
Proof.
  eapply (Decode_Encode true); [exact ex_dict_ok| |].
  - split; [cbn; lia|]. intros _. change (0 <= 300 < 2 ^ 16). lia.
  - vm_compute. reflexivity.
Defined.

(** ** Malformed input *)

Lemma read_id_bound l : forall k id v n,
  read_id l k id = (v, Some n) -> (k < n <= k + length l)%nat.
Proof.
  induction l as [|b l IH]; intros k id v n; cbn [read_id]; [done|].
  destruct (_ <? _); [intros [= _ <-]; cbn; lia|]. intros H%IH. cbn [length]. lia.
Qed.

Lemma read_id_unterminated l : forall k id,
  Forall (fun b => 128 <= byte_to_Z b) l -> (read_id l k id).2 = None.
Proof.
  induction l as [|b l IH]; intros k id Hl; cbn [read_id]; [done|].
  inversion Hl; subst. rewrite (proj2 (Z.ltb_ge _ _)) by done. auto.
Qed.

(** Reading a route panics only when there is no length byte to read, and
    otherwise stays within the slice. *)
Lemma read_route_outcome d flag data off :
  (off <= length data)%nat ->
  match read_route d flag data off with
  | Ok (_, _, off') => (off' <= length data)%nat
  | Err _ => True
  | Panics p => p = IndexOutOfRange /\ off = length data /\
                (Z.land (byte_to_Z flag) msgRouteCompressMask =? 1) = false
  end.
Proof.
  intros Hoff. unfold read_route. destruct (_ =? 1) eqn:Hc.
  - rewrite (bool_decide_eq_false_2 (_ < off)%nat) by lia. case_bool_decide; cbn [orb]; [done|].
    unfold go_slice. rewrite decide_True by lia. cbn [mbind outcome_bind].
    destruct (codes d !! _); [lia|done].
  - unfold go_index. destruct (data !! off) as [b|] eqn:E; cbn [mbind outcome_bind].
    + apply lookup_lt_Some in E. do 2 (case_bool_decide; cbn [orb]; [done|]).
      unfold go_slice. rewrite decide_True by lia. cbn. lia.
    + apply lookup_ge_None in E. split_and!; [done|lia|done].
Qed.

Lemma read_route_panics d flag data :
  (Z.land (byte_to_Z flag) msgRouteCompressMask =? 1) = false ->
  read_route d flag data (length data) = Panics IndexOutOfRange.
Proof.
  intros Hc. unfold read_route. rewrite Hc. unfold go_index.
  by rewrite lookup_ge_None_2.
Qed.

Section Malformed.
Context `{Zlib}.

(** A request whose id takes all the bytes after the flag, with the plain
    route bit: there is no byte left for the length of the route. *)
Definition truncated_request (data : list byte) : Prop :=
  exists flag rest id, data = flag :: rest /\ rest <> [] /\
    byte_of_Z (Z.land (Z.shiftr (byte_to_Z flag) 1) msgTypeMask) = Request /\
    (Z.land (byte_to_Z flag) msgRouteCompressMask =? 1) = false /\
    read_id rest 0 0 = (id, Some (length rest)).

(** The end of [Decode], from the offset after the route on, cannot panic. *)
Lemma Decode_tail_no_panic `{!ZlibLaws _} data off gz (k : list byte -> Message) p :
  (if bool_decide (length data < off)%nat then Err (ESentinel ErrInvalidMessage)
   else payload ← go_slice data off (length data);
        payload ← (if gz : bool then InflateData payload else Ok payload);
        Ok (k payload)) <> Panics p.
Proof.
  case_bool_decide as Ho; [done|]. rewrite go_slice_from by lia. cbn [mbind outcome_bind].
  destruct gz; [|done]. unfold InflateData.
  destruct (zlib_NewReader _) as [zr|e|q] eqn:E; cbn [mbind outcome_bind]; [|done|].
  - pose proof (zlib_ReadAll_no_panic zr) as Hr.
    destruct (zlib_ReadAll zr) as [| |q]; [done..|]. by destruct (Hr q).
  - by apply zlib_NewReader_no_panic in E.
Qed.

(** C20: the only inputs on which [Decode] panics are the requests that end
    inside their header, right after the id: the length byte of the plain
    route is read without a bounds check. Every other byte slice, however
    malformed, gives a message or an error. *)
Theorem Decode_panics_iff `{!ZlibLaws _} (d : Dict) (data : list byte) (p : panic) :
  Decode d data = Panics p <-> p = IndexOutOfRange /\ truncated_request data.
Proof.
  split.
  - unfold Decode. case_bool_decide as Hl; [done|]. unfold msgHeadLength in Hl.
    destruct data as [|flag rest]; [cbn in Hl; lia|].
    cbn [go_index lookup list_lookup mbind outcome_bind drop]. rewrite drop_0.
    destruct (invalidType _) eqn:Hv; [done|].
    set (typ := byte_of_Z (Z.land _ msgTypeMask)) in *.
    destruct (if has_id typ then _ else _) as [id off] eqn:Hid.
    assert (off <= length (flag :: rest))%nat as Hoff.
    { destruct (has_id typ); [|injection Hid as _ <-; cbn; lia].
      destruct (read_id rest 0 0) as [v [n|]] eqn:E; injection Hid as _ <-; [|cbn; lia].
      apply read_id_bound in E. cbn. lia. }
    destruct (routable typ) eqn:Hr; cbn [mbind outcome_bind];
      [|by intros ?%Decode_tail_no_panic].
    pose proof (read_route_outcome d flag (flag :: rest) off Hoff) as R.
    destruct (read_route _ _ _ _) as [[[c r] off']|e|q]; cbn [mbind outcome_bind];
      [by intros ?%Decode_tail_no_panic|done|]. intros [= <-].
    destruct R as (-> & -> & Hc). split; [done|].
    destruct (has_id typ) eqn:Hh; [|injection Hid as _ Hlen; cbn in Hl, Hlen; lia].
    destruct (read_id rest 0 0) as [v [n|]] eqn:E; injection Hid as <- Hlen;
      [|cbn in Hl, Hlen; lia].
    exists flag, rest, v. split_and!; [done|by destruct rest; cbn in Hl; [lia|]| |done|].
    + fold typ. apply valid_types in Hv as [Hv|[Hv|Hv]]; rewrite Hv in Hr, Hh |- *; done.
    + rewrite E. cbn in Hlen. do 2 f_equal. lia.
  - intros (-> & flag & rest & id & -> & Hne & Ht & Hc & Hid).
    unfold Decode. rewrite bool_decide_eq_false_2
      by (destruct rest; [done|]; unfold msgHeadLength; cbn; lia).
    cbn [go_index lookup list_lookup mbind outcome_bind drop]. rewrite drop_0, Ht.
    change (invalidType Request) with false. change (has_id Request) with true.
    change (routable Request) with true. cbn [mbind outcome_bind]. rewrite Hid.
    change (S (length rest)) with (length (flag :: rest)). by rewrite read_route_panics.
Qed.

(** ** What comes out of [Decode] *)

Lemma read_id_range l : forall k id, 0 <= id < 2 ^ 64 -> 0 <= (read_id l k id).1 < 2 ^ 64.
Proof.
  induction l as [|b l IH]; intros k id Hid; cbn [read_id]; [done|].
  assert (forall z, 0 <= u64 z < 2 ^ 64) as Hu by (intros z; apply Z.mod_pos_bound; lia).
  destruct (_ <? _); [apply Hu|]. apply IH, Hu.
Qed.

(** A code is 16 bits wide. *)
Definition codes_fit (d : Dict) : Prop := forall r c, routes d !! r = Some c -> 0 <= c < 2 ^ 16.

(** A route that is read is in the dictionary or short. *)
Lemma read_route_typed d flag data off cmp r off' :
  dict_ok d -> read_route d flag data off = Ok (cmp, r, off') ->
  if cmp then is_Some (routes d !! r) else (String.length r <= 255)%nat.
Proof.
  intros Hd. unfold read_route. destruct (_ =? 1).
  - destruct (_ || _); [done|]. intros HR. outcome_inv. destruct (codes d !! _) eqn:Ec; [|done].
    outcome_inv. eexists. by apply Hd.
  - intros HR. outcome_inv. destruct (_ || _); [done|]. outcome_inv.
    rewrite <-str_bytes_length, str_bytes_str.
    match goal with Hs : go_slice _ _ _ = Ok _ |- _ => unfold go_slice in Hs; revert Hs end.
    case_decide; intros [= <-]. rewrite length_take.
    match goal with |- context [byte_to_Z ?b] => pose proof (byte_to_Z_range b) end. lia.
Qed.

(** C21: every message the decoder lets through is well typed, whatever the
    bytes: its type is one of the three, its id a [uint], its route short
    enough to be sent or in the dictionary with a 16-bit code, and a field its
    type does not carry is zero. It is then a fixed point of the codec: what
    the encoder makes of it, with or without data compression, decodes to the
    same message, the flag apart that records how the route came in. *)
Theorem Decode_typed `{!ZlibLaws _} (d : Dict) (data : list byte) (m : Message) :
  dict_ok d -> codes_fit d -> Decode d data = Ok m ->
  (Typ m = Request \/ Typ m = Notify \/ Typ m = Response) /\ wf_message d m /\
  (has_id (Typ m) = false -> ID m = 0) /\
  (routable (Typ m) = false -> Route m = "" /\ compressed m = false) /\
  (compressed m = true -> is_Some (routes d !! Route m)) /\
  (forall c buf m', Encode c d m = Ok (buf, m') ->
   Decode d buf = Ok (mkMessage (Typ m) (ID m) (Route m) (Data m)
                        (routable (Typ m) && is_some_b (routes d !! Route m)) (IsErr m))).
Proof.
  intros Hd Hfit HD. unfold Decode in HD. case_bool_decide; [done|]. outcome_inv.
  destruct (invalidType _) eqn:Ht in HD; [done|].
  set (typ := byte_of_Z _) in *.
  assert (exists id off, (if has_id typ then let '(id, n) := read_id (drop 1 data) 0 0 in
            (id, match n with Some n => S n | None => 1%nat end) else (0, 1%nat)) = (id, off) /\
          0 <= id < 2 ^ 64 /\ (has_id typ = false -> id = 0)) as (id & off & E & Hid & Hid0).
  { pose proof (read_id_range (drop 1 data) 0 0 ltac:(lia)) as Hr.
    destruct (has_id typ), (read_id _ _ _) as [id n]; do 2 eexists; split_and!; try done; cbn in Hr; lia. }
  rewrite E in HD. outcome_inv. destruct x0 as [[cmp r] off']. case_bool_decide; [done|]. outcome_inv.
  cbn [Typ ID Route Data compressed IsErr]. split; [by apply valid_types|].
  assert (if cmp then is_Some (routes d !! r) else (String.length r <= 255)%nat) as Hr.
  { destruct (routable typ); [by eapply read_route_typed|]. outcome_inv. cbn. lia. }
  assert (routable typ = false -> r = "" /\ cmp = false) as Hn by (intros Hf; rewrite Hf in *; by outcome_inv).
  match goal with |- wf_message d ?m /\ _ => assert (wf_message d m) as Hwf end.
  { split; [done|]. intros _. cbn. destruct (routes d !! r) as [c|] eqn:Ec; [by apply (Hfit r)|].
    destruct cmp; [by destruct Hr|done]. }
  split_and!; [done..|by intros ->|]. intros c buf m' HE%decode_encoded; [|done..].
  rewrite HE. unfold received. cbn. f_equal. f_equal.
  - destruct (has_id typ); naive_solver.
  - destruct (routable typ); naive_solver.
Qed.

(** A response whose id never ends is accepted: when no byte after the
    flag has its high bit clear, the id loop falls through without moving
    the offset, and the bytes of the id come back as the message's data. *)
Theorem Decode_unterminated_id (d : Dict) (ids : list byte) :
  ids <> [] -> Forall (fun b => 128 <= byte_to_Z b) ids ->
  exists id, Decode d (make_flag Response false false false :: ids) =
    Ok (mkMessage Response id "" ids false false).
Proof.
  intros Hne Hids. pose proof (read_id_unterminated ids 0 0 Hids) as Hr.
  destruct (read_id ids 0 0) as [id [n|]] eqn:E; [done|]. exists id.
  unfold Decode. rewrite bool_decide_eq_false_2
    by (destruct ids; [done|]; unfold msgHeadLength; cbn; lia).
  cbn [go_index lookup list_lookup mbind outcome_bind drop]. rewrite drop_0.
  destruct (make_flag_bits Response false false false eq_refl) as (-> & _ & -> & ->).
  change (invalidType Response) with false. change (has_id Response) with true.
  change (routable Response) with false. cbn [mbind outcome_bind]. rewrite E.
  rewrite bool_decide_eq_false_2 by (cbn; lia). rewrite go_slice_from by (cbn; lia). done.
Qed.

End Malformed.

Lemma Decode_panics_iff_witness :
  Decode (H := toy_zlib) empty_dict [x00; x01] = Panics IndexOutOfRange.
Proof.
  apply (Decode_panics_iff empty_dict [x00; x01]). split; [reflexivity|].
  exists x00, [x01], 1. repeat split; discriminate.
Defined.

Lemma Decode_typed_witness :
  wf_message ex_dict (mkMessage Notify 0 "room.join" [x05] true false).
Proof.
  apply (Decode_typed (H := toy_zlib) ex_dict [x03; x01; x2c; x05]).
  - exact ex_dict_ok.
  - intros r c. cbn. rewrite lookup_singleton_Some. intros [_ <-]. lia.
  - vm_compute. reflexivity.
Defined.

Lemma Decode_unterminated_id_witness :
  exists id, Decode (H := toy_zlib) empty_dict [x04; x80; xff] =
    Ok (mkMessage Response id "" [x80; xff] false false).
Proof.
  apply (Decode_unterminated_id empty_dict [x80; xff]); [discriminate|].
  repeat (apply Forall_cons_2; [vm_compute; discriminate|]). apply Forall_nil_2.
Defined.

End Message.
