(* ===== verification/Route.v ===== *)
(** * Routes: [route/route.go]

    A route names a server type, a service and a method, and travels as a
    dotted string. *)

From S2P Require Import Prelude Errors.

Module Route.

(** ** Data and operations *)

Record Route := mkRoute {
  SvType : string;
  Service : string;
  Method : string
}.

#[export] Instance Route_eq_dec : EqDecision Route.
Proof. solve_decision. Defined.

(** [NewRoute]. *)
Definition NewRoute (server service method : string) : Route := mkRoute server service method.

(** [Short]: service and method. *)
Definition Short (r : Route) : string := Service r +:+ "." +:+ Method r.

(** [String]: the full route, or the short one without a server type. *)
Definition String_ (r : Route) : string :=
  if bool_decide (SvType r <> "") then SvType r +:+ "." +:+ Service r +:+ "." +:+ Method r
  else Short r.

Definition dot : Ascii.ascii := Ascii.ascii_of_nat 46.

(** A field of nothing but white space. *)
Definition blank (s : string) : bool := bool_decide (trim_space s = "").

(** [Decode]. *)
Definition Decode (route : string) : result Route :=
  let r := str_split dot route in
  if existsb blank r then Err (ESentinel ErrRouteFieldCantEmpty)
  else
    match r with
    | [a; b; c] => Ok (NewRoute a b c)
    | [a; b] => Ok (NewRoute "" a b)
    | _ => Err (ESentinel ErrInvalidRoute)
    end.

(** ** Properties *)

Definition dotless (s : string) : Prop := str_contains dot s = false.

(** A route that can be written and read back: its fields hold no dot, the
    service and the method are not blank, and neither is the server type
    unless the route has none. *)
Definition wf_route (r : Route) : Prop :=
  dotless (SvType r) /\ dotless (Service r) /\ dotless (Method r) /\
  (SvType r = "" \/ blank (SvType r) = false) /\
  blank (Service r) = false /\ blank (Method r) = false.

Lemma split_short r :
  dotless (Service r) -> dotless (Method r) ->
  str_split dot (Short r) = [Service r; Method r].
Proof.
  intros Hs Hm. unfold Short. change ("." +:+ Method r) with (String dot (Method r)).
  by rewrite str_split_cons, str_split_free.
Qed.

Lemma split_full r :
  dotless (SvType r) -> dotless (Service r) -> dotless (Method r) ->
  str_split dot (SvType r +:+ "." +:+ Service r +:+ "." +:+ Method r) =
    [SvType r; Service r; Method r].
Proof.
  intros Hv Hs Hm.
  change ("." +:+ Service r +:+ "." +:+ Method r) with (String dot (Short r)).
  by rewrite str_split_cons, split_short.
Qed.

Lemma Decode_String r : wf_route r -> Decode (String_ r) = Ok r.
Proof.
  intros (Dv & Ds & Dm & Bv & Bs & Bm). unfold Decode, String_. case_bool_decide as Hv.
  - rewrite split_full by done. destruct Bv as [|Bv]; [done|]. cbn. rewrite Bv, Bs, Bm.
    by destruct r.
  - rewrite split_short by done. cbn. rewrite Bs, Bm.
    destruct r; cbn in *; by subst.
Qed.

Lemma blank_nonempty s : blank s = false -> s <> "".
Proof. by intros H ->. Qed.

(** C22: decoding is exactly the inverse of printing: a string decodes to a
    route precisely when the route is well formed and prints as that
    string. So no route is accepted that cannot be sent again unchanged,
    and none is lost. *)
Theorem Decode_iff_String (s : string) (r : Route) :
  Decode s = Ok r <-> wf_route r /\ String_ r = s.
Proof.
  split; [|by intros [Hr <-]; apply Decode_String].
  unfold Decode. pose proof (str_split_pieces dot s) as Hp.
  pose proof (str_join_split dot s) as Hj.
  destruct (existsb blank _) eqn:Hb; [done|].
  destruct (str_split dot s) as [|a [|b [|c [|? ?]]]]; try done;
    repeat match goal with H : Forall _ (_ :: _) |- _ => inversion_clear H end;
    cbn in Hb, Hj; rewrite ?orb_false_iff in Hb; destruct_and?; intros [= <-];
    subst s; unfold String_, wf_route, Short; cbn.
  - split; [|done]. split_and!; auto.
  - split; [split_and!; auto|]. by rewrite bool_decide_eq_true_2 by (by apply blank_nonempty).
Qed.

(** A string that is not a route is refused for the right reason: with
    the empty-field error when one of its dot-separated fields is blank,
    and otherwise with the invalid-route error, when it has fewer than two
    or more than three fields. Decoding never panics. *)
Theorem Decode_errors (s : string) :
  match Decode s with
  | Ok _ => existsb blank (str_split dot s) = false /\ length (str_split dot s) ∈ [2; 3]
  | Err e => if existsb blank (str_split dot s) then e = ESentinel ErrRouteFieldCantEmpty
             else e = ESentinel ErrInvalidRoute /\ length (str_split dot s) ∉ [2; 3]
  | Panics _ => False
  end.
Proof.
  unfold Decode. destruct (existsb blank _); [done|].
  destruct (str_split dot s) as [|a [|b [|c [|? ?]]]]; cbn; split; try done; set_solver by lia.
Qed.

Lemma Decode_iff_String_witness :
  Decode "chat.room.join" = Ok (mkRoute "chat" "room" "join").
Proof. apply Decode_iff_String. split; [split_and!; auto|]; reflexivity. Defined.

End Route.
