(* ===== verification/GoStd.v ===== *)
(** * What the code uses of strconv and time

    [strconv.FormatInt]/[ParseInt] in base 10 and the saturating subtraction
    of instants. Instants and durations are nanoseconds; their text is in
    [Duration]. *)

From S2P Require Import Prelude Errors.
Local Open Scope Z_scope.

Module GoStd.

(** ** strconv *)

(** [strconv.FormatInt(n, 10)] and [strconv.Itoa(n)]. *)
Definition FormatInt (n : Z) : string := pretty n.

Definition digit (a : Ascii.ascii) : option Z :=
  let n := Z.of_nat (Ascii.nat_of_ascii a) in
  if (48 <=? n) && (n <=? 57) then Some (n - 48) else None.

(** The value of a digit string, continuing from [acc]; [None] on a byte
    that is not a digit. *)
Fixpoint digits_from (acc : Z) (s : string) : option Z :=
  match s with
  | EmptyString => Some acc
  | String a s => d ← digit a; digits_from (10 * acc + d) s
  end.

Definition err_syntax : error := ELib "strconv.ErrSyntax" "invalid syntax".
Definition err_range : error := ELib "strconv.ErrRange" "value out of range".

Definition minus : Ascii.ascii := Ascii.ascii_of_nat 45.
Definition plus : Ascii.ascii := Ascii.ascii_of_nat 43.

(** The magnitude: at least one digit. *)
Definition parse_uint (s : string) : option Z :=
  match s with EmptyString => None | _ => digits_from 0 s end.

(** [strconv.ParseInt(s, 10, 64)]: a syntax error comes with 0, a range
    error with the nearest bound. *)
Definition ParseInt (s : string) : Z * option error :=
  let '(neg, rest) :=
    match s with
    | String a s' => if decide (a = minus) then (true, s')
                     else if decide (a = plus) then (false, s') else (false, s)
    | EmptyString => (false, s)
    end in
  match parse_uint rest with
  | None => (0, Some err_syntax)
  | Some n =>
      if negb neg && (2 ^ 63 <=? n) then (2 ^ 63 - 1, Some err_range)
      else if neg && (2 ^ 63 <? n) then (- 2 ^ 63, Some err_range)
      else (if neg then - n else n, None)
  end.

Lemma digit_pretty d : (d < 10)%N -> digit (pretty_N_char d) = Some (Z.of_N d).
Proof.
  intros Hd.
  assert (d = 0 \/ d = 1 \/ d = 2 \/ d = 3 \/ d = 4 \/ d = 5 \/ d = 6 \/ d = 7 \/ d = 8 \/ d = 9)%N
    as Hc by lia.
  repeat (destruct Hc as [->|Hc]; [reflexivity|]). by subst.
Qed.

Lemma digits_from_pretty x : forall s,
  digits_from 0 (pretty_N_go x s) = digits_from (Z.of_N x) s.
Proof.
  induction (N.lt_wf_0 x) as [x _ IH]. intros s.
  destruct (decide (x = 0)%N) as [->|Hx]; [done|].
  rewrite pretty_N_go_step by lia. rewrite IH by (apply N.div_lt; lia).
  cbn [digits_from]. rewrite digit_pretty by (apply N.mod_lt; lia). cbn.
  f_equal. pose proof (N.div_mod x 10). lia.
Qed.

Lemma pretty_N_digits x : parse_uint (pretty x) = Some (Z.of_N x).
Proof.
  unfold pretty, pretty_N. case_decide as Hx; [by subst|].
  pose proof (digits_from_pretty x "") as Hd. unfold parse_uint.
  destruct (pretty_N_go x "") as [|a s] eqn:E; [|exact Hd].
  exfalso. cbn in Hd. injection Hd as Hd. lia.
Qed.

Lemma pretty_pos_digits p : parse_uint (pretty p) = Some (Z.pos p).
Proof. exact (pretty_N_digits (N.pos p)). Qed.

Lemma parse_uint_head s n : parse_uint s = Some n ->
  exists a s', s = String a s' /\ a <> minus /\ a <> plus.
Proof.
  destruct s as [|a s]; [done|]. intros H. exists a, s. split; [done|].
  split; intros ->; done.
Qed.

(** Formatting a 64-bit integer and parsing it back. *)
Lemma ParseInt_FormatInt z : - 2 ^ 63 <= z < 2 ^ 63 -> ParseInt (FormatInt z) = (z, None).
Proof.
  intros Hz. unfold FormatInt, ParseInt. destruct z as [|p|p]; [done|..].
  - change (pretty (Z.pos p)) with (pretty p).
    pose proof (pretty_pos_digits p) as Hp.
    destruct (parse_uint_head _ _ Hp) as (a & s' & E & Hm & Hq). rewrite E in Hp |- *.
    rewrite !decide_False by done. rewrite Hp. cbn [negb andb].
    by rewrite (proj2 (Z.leb_gt _ _)) by lia.
  - change (pretty (Z.neg p)) with (String minus (pretty p)).
    cbv beta iota. rewrite decide_True by done. rewrite pretty_pos_digits. cbn [negb andb].
    by rewrite (proj2 (Z.ltb_ge _ _)) by lia.
Qed.

Lemma ParseInt_error s n e : ParseInt s = (n, Some e) -> e <> ENrpc None.
Proof.
  unfold ParseInt. destruct (match s with EmptyString => _ | String _ _ => _ end) as [neg rest].
  destruct (parse_uint rest); [|by intros [= _ <-]].
  destruct (_ && _); [by intros [= _ <-]|]. destruct (_ && _); [by intros [= _ <-]|done].
Qed.

(** ** time *)

Definition maxDuration := 2 ^ 63 - 1.
Definition minDuration := - 2 ^ 63.

(** [t.Sub(u)], which saturates. *)
Definition time_sub (t u : Z) : Z := Z.max minDuration (Z.min maxDuration (t - u)).

Lemma time_sub_lt t u d : 0 <= d < 2 ^ 63 -> time_sub t u < d <-> t - u < d.
Proof. unfold time_sub, maxDuration, minDuration. lia. Qed.

(** [d/2] on a duration truncates toward zero. *)
Definition half (d : Z) : Z := Z.quot d 2.

End GoStd.
