(* ===== verification/Duration.v ===== *)
(** * Durations as text, as package time prints and parses them

    [Duration.String] and [time.ParseDuration] on the bytes of a string. The
    fraction of a parsed term goes through float64, whose operations round
    to 53 bits; the model computes them on rationals. *)

From S2P Require Import Prelude Utf8 Errors.

Module Duration.

Local Open Scope Z_scope.

Definition Nanosecond : Z := 1.
Definition Microsecond : Z := 1000.
Definition Millisecond : Z := 1000000.
Definition Second : Z := 1000000000.
Definition Minute : Z := 60 * Second.
Definition Hour : Z := 60 * Minute.

(** ** Printing

    The buffer is filled from its end: what is there comes last. *)

(** [fmtInt]: a [uint64] has at most twenty digits. *)
Fixpoint fmtInt_loop (fuel : nat) (v : Z) (buf : list Z) : list Z :=
  match fuel with
  | O => buf
  | S fuel => if v =? 0 then buf else fmtInt_loop fuel (v / 10) (48 + v mod 10 :: buf)
  end.
Definition fmtInt (v : Z) (buf : list Z) : list Z :=
  if v =? 0 then 48 :: buf else fmtInt_loop 20 v buf.

(** [fmtFrac]: the digits after the point without trailing zeros, and what
    is left of the number. *)
Fixpoint fmtFrac (prec : nat) (v : Z) (print : bool) (buf : list Z) : list Z * Z :=
  match prec with
  | O => (if print then 46 :: buf else buf, v)
  | S prec =>
      let digit := v mod 10 in
      let print := print || negb (digit =? 0) in
      fmtFrac prec (v / 10) print (if print then 48 + digit :: buf else buf)
  end.

Definition unit_ns : list Z := [110; 115].
Definition unit_us : list Z := [194; 181; 115].
Definition unit_ms : list Z := [109; 115].
Definition unit_s : list Z := [115].

Definition format (u : Z) : list Z :=
  if u <? Second then
    if u =? 0 then [48; 115]
    else
      let '(buf, v) :=
        if u <? Microsecond then fmtFrac 0 u false unit_ns
        else if u <? Millisecond then fmtFrac 3 u false unit_us
        else fmtFrac 6 u false unit_ms in
      fmtInt v buf
  else
    let '(buf, u) := fmtFrac 9 u false unit_s in
    let buf := fmtInt (u mod 60) buf in
    let u := u / 60 in
    if 0 <? u then
      let buf := fmtInt (u mod 60) (109 :: buf) in
      let u := u / 60 in
      if 0 <? u then fmtInt u (104 :: buf) else buf
    else buf.

Definition duration_string (d : Z) : string :=
  Utf8.string_of ((if d <? 0 then [45] else []) ++ format (Z.abs d)).

(** ** float64

    A finite float64 that is not negative, as a fraction. *)

(** The fraction [n/d] rounded to 53 bits, ties to even. The numbers here are
    far from the bounds of the exponent. *)
Definition f64_scaled (n d e : Z) : Z * Z := (n * 2 ^ Z.max 0 (- e), d * 2 ^ Z.max 0 e).
Definition f64 (n d : Z) : Z * Z :=
  if n =? 0 then (0, 1)
  else
    let e := Z.log2 n - Z.log2 d - 52 in
    let e := let '(a, b) := f64_scaled n d e in if a <? 2 ^ 52 * b then e - 1 else e in
    let '(a, b) := f64_scaled n d e in
    let q := a / b in
    let r := a mod b in
    let q := if (2 * r <? b) || ((2 * r =? b) && Z.even q) then q else q + 1 in
    (q * 2 ^ Z.max 0 e, 2 ^ Z.max 0 (- e)).

Definition f64_mul (x y : Z * Z) : Z * Z := f64 (x.1 * y.1) (x.2 * y.2).
Definition f64_div (x y : Z * Z) : Z * Z := f64 (x.1 * y.2) (x.2 * y.1).
Definition f64_add (x y : Z * Z) : Z * Z := f64 (x.1 * y.2 + y.1 * x.2) (x.2 * y.2).
Definition f64_trunc (x : Z * Z) : Z := x.1 / x.2.

(** A fraction of a unit that is a whole number of nanoseconds below 2^53
    goes through unchanged. *)
Lemma f64_exact z d : 0 <= z < 2 ^ 53 -> 0 < d -> exists d', 0 < d' /\ f64 (z * d) d = (z * d', d').
Proof.
  intros Hz Hd. unfold f64. destruct (Z.eqb_spec (z * d) 0) as [H0|H0].
  { exists 1. split; [lia|]. f_equal. nia. }
  assert (0 < z) as Hz0 by nia.
  assert (Z.log2 (z * d) - Z.log2 d - 52 <= 1) as H1.
  { pose proof (Z.log2_mul_above z d ltac:(lia) ltac:(lia)) as Hl.
    pose proof (proj1 (Z.log2_lt_pow2 z 53 Hz0) (proj2 Hz)) as Hb.
    revert Hl Hb. generalize (Z.log2 (z * d)) (Z.log2 z) (Z.log2 d). lia. }
  revert H1. generalize (Z.log2 (z * d) - Z.log2 d - 52). intros e0 H1.
  set (e := let '(a, b) := f64_scaled (z * d) d e0 in if a <? 2 ^ 52 * b then e0 - 1 else e0).
  assert (e <= 0) as He.
  { unfold e, f64_scaled. destruct (Z.ltb_spec (z * d * 2 ^ Z.max 0 (- e0)) (2 ^ 52 * (d * 2 ^ Z.max 0 e0))) as [Hlt|Hge];
      [lia|].
    destruct (decide (e0 = 1)) as [E|E]; [|lia]. exfalso. rewrite E in Hge.
    change (Z.max 0 (- (1))) with 0 in Hge. change (Z.max 0 1) with 1 in Hge.
    pose proof (proj1 (Z.mul_lt_mono_pos_r d z (2 ^ 53) Hd) (proj2 Hz)). lia. }
  unfold f64_scaled. rewrite (Z.max_l 0 e) by lia. rewrite (Z.max_r 0 (- e)) by lia.
  set (p := 2 ^ (- e)). assert (0 < p) by (apply Z.pow_pos_nonneg; lia).
  replace (z * d * p) with (z * p * (d * 2 ^ 0)) by ring.
  rewrite Z.div_mul, Z.mod_mul by lia.
  destruct (Z.ltb_spec (2 * 0) (d * 2 ^ 0)); [|lia]. cbn [orb].
  exists p. split; [done|]. f_equal. lia.
Qed.

(** [int64(d.Seconds())]: the seconds and the nanoseconds that are left are
    added as float64, and the sum is truncated. *)
Definition int_seconds (d : Z) : Z :=
  let sec := Z.abs d / Second in
  let nsec := Z.abs d mod Second in
  let t := f64_trunc (f64_add (f64 sec 1) (f64_div (f64 nsec 1) (f64 Second 1))) in
  if d <? 0 then - t else t.

Lemma int_seconds_whole z : 0 <= z < 2 ^ 53 -> int_seconds (z * Second) = z.
Proof.
  intros Hz. unfold int_seconds. destruct (Z.ltb_spec (z * Second) 0) as [H|_]; [unfold Second in H; lia|].
  rewrite Z.abs_eq, Z.div_mul, Z.mod_mul by (unfold Second; lia).
  destruct (f64_exact z 1 Hz ltac:(lia)) as (d & Hd & E). rewrite Z.mul_1_r in E. rewrite E.
  change (f64_div (f64 0 1) (f64 Second 1)) with (0, 1). unfold f64_add. cbn [fst snd].
  destruct (f64_exact z d Hz Hd) as (d' & Hd' & E').
  replace (f64 (z * d * 1 + 0 * d) (d * 1)) with (f64 (z * d) d) by (f_equal; ring).
  rewrite E'. unfold f64_trunc. cbn [fst snd]. apply Z.div_mul. lia.
Qed.

(** ** Parsing *)

Definition is_digit (c : Z) : bool := (48 <=? c) && (c <=? 57).

(** [leadingInt]: [None] past 2^63. *)
Fixpoint leadingInt (x : Z) (s : list Z) : option (Z * list Z) :=
  match s with
  | [] => Some (x, [])
  | c :: r =>
      if is_digit c then
        if 2 ^ 63 / 10 <? x then None
        else
          let x := x * 10 + (c - 48) in
          if 2 ^ 63 <? x then None else leadingInt x r
      else Some (x, s)
  end.

(** [leadingFraction]: digits that no longer fit are skipped. The scale, a
    power of ten below 10^20, is a float64 exactly. *)
Fixpoint leadingFraction (x scale : Z) (overflow : bool) (s : list Z) : Z * Z * list Z :=
  match s with
  | [] => (x, scale, [])
  | c :: r =>
      if is_digit c then
        if overflow then leadingFraction x scale true r
        else if (2 ^ 63 - 1) / 10 <? x then leadingFraction x scale true r
        else
          let y := x * 10 + (c - 48) in
          if 2 ^ 63 <? y then leadingFraction x scale true r
          else leadingFraction y (scale * 10) false r
      else (x, scale, s)
  end.

Definition unitMap (u : list Z) : option Z :=
  if decide (u = unit_ns) then Some Nanosecond
  else if decide (u = unit_us) then Some Microsecond
  else if decide (u = [206; 188; 115]) then Some Microsecond
  else if decide (u = [117; 115]) then Some Microsecond
  else if decide (u = unit_ms) then Some Millisecond
  else if decide (u = unit_s) then Some Second
  else if decide (u = [109]) then Some Minute
  else if decide (u = [104]) then Some Hour
  else None.

(** [quote], for the texts of errors. *)
Definition lowerhex (n : Z) : Z := if n <? 10 then 48 + n else 87 + n.
Definition quote_byte (c : Z) : list Z :=
  if (128 <=? c) || (c <? 32) then [92; 120; lowerhex (c / 16); lowerhex (c mod 16)]
  else if (c =? 34) || (c =? 92) then [92; c] else [c].
Definition quote (s : list Z) : list Z := 34 :: concat (quote_byte <$> s) ++ [34].

Definition invalid (orig : list Z) : error :=
  EText ("time: invalid duration " +:+ Utf8.string_of (quote orig)).
Definition missing_unit (orig : list Z) : error :=
  EText ("time: missing unit in duration " +:+ Utf8.string_of (quote orig)).
Definition unknown_unit (u orig : list Z) : error :=
  EText ("time: unknown unit " +:+ Utf8.string_of (quote u) +:+ " in duration "
           +:+ Utf8.string_of (quote orig)).

(** The unit: everything up to a point or a digit. *)
Fixpoint take_unit (s : list Z) : list Z * list Z :=
  match s with
  | [] => ([], [])
  | c :: r => if (c =? 46) || is_digit c then ([], s) else let '(u, r) := take_unit r in (c :: u, r)
  end.

(** The fraction, when there is a point: its digits, the power of ten they
    are out of, the rest, and whether there was a digit. *)
Definition take_fraction (s : list Z) : Z * Z * list Z * bool :=
  match s with
  | c :: r =>
      if c =? 46
      then let '(f, scale, r') := leadingFraction 0 1 false r in
           (f, scale, r', negb (length r' =? length r)%nat)
      else (0, 1, s, false)
  | [] => (0, 1, [], false)
  end.

(** An iteration of the loop of [ParseDuration]: the value of a number with
    its unit, and the rest of the string. *)
Definition parse_term (orig s : list Z) : error + (Z * list Z) :=
  match s with
  | [] => inl (invalid orig)
  | c :: _ =>
      if negb ((c =? 46) || is_digit c) then inl (invalid orig)
      else
        match leadingInt 0 s with
        | None => inl (invalid orig)
        | Some (v, s1) =>
            let pre := negb (length s1 =? length s)%nat in
            let '(f, scale, s2, post) := take_fraction s1 in
            if negb pre && negb post then inl (invalid orig)
            else
              let '(u, rest) := take_unit s2 in
              if decide (u = []) then inl (missing_unit orig)
              else
                match unitMap u with
                | None => inl (unknown_unit u orig)
                | Some unit =>
                    if 2 ^ 63 / unit <? v then inl (invalid orig)
                    else
                      let v := v * unit in
                      if 0 <? f then
                        let v := u64 (v + f64_trunc (f64_mul (f64 f 1) (f64_div (f64 unit 1) (scale, 1)))) in
                        if 2 ^ 63 <? v then inl (invalid orig) else inr (v, rest)
                      else inr (v, rest)
                end
        end
  end.

(** The loop: an iteration consumes at least a byte, so the length of the
    string is enough fuel. *)
Fixpoint parse_terms (fuel : nat) (orig : list Z) (d : Z) (s : list Z) : error + Z :=
  match s, fuel with
  | [], _ => inr d
  | _, O => inl (invalid orig)
  | _, S fuel =>
      match parse_term orig s with
      | inl e => inl e
      | inr (v, s) =>
          let d := u64 (d + v) in
          if 2 ^ 63 <? d then inl (invalid orig) else parse_terms fuel orig d s
      end
  end.

Definition ParseDuration (str : string) : Z * option error :=
  let orig := Utf8.codes str in
  let '(neg, s) :=
    match orig with
    | c :: r => if (c =? 45) || (c =? 43) then (c =? 45, r) else (false, orig)
    | [] => (false, [])
    end in
  if decide (s = [48]) then (0, None)
  else if decide (s = []) then (0, Some (invalid orig))
  else
    match parse_terms (length s) orig 0 s with
    | inl e => (0, Some e)
    | inr d =>
        if neg then (i64 (- d), None)
        else if 2 ^ 63 - 1 <? d then (0, Some (invalid orig)) else (d, None)
    end.

Example parse_minutes : ParseDuration "-1h15m30.918273645s" = (- 4530918273645, None).
Proof. vm_compute. reflexivity. Qed.

(** A fraction that is no whole number of nanoseconds is rounded as float64
    does and then cut off. *)
Example parse_cut : ParseDuration ".3333333333333333333h" = (1200000000000, None).
Proof. vm_compute. reflexivity. Qed.

Example parse_unknown : ParseDuration "1d" = (0, Some (unknown_unit [100] [49; 100])).
Proof. vm_compute. reflexivity. Qed.

(** ** The loop of [ParseDuration] ends *)

Lemma leadingInt_length x s y r : leadingInt x s = Some (y, r) -> (length r <= length s)%nat.
Proof.
  revert x. induction s as [|c s IH]; intros x; cbn [leadingInt]; [by intros [= _ <-]|].
  destruct (is_digit c); [|by intros [= _ <-]].
  destruct (_ <? x); [done|]. destruct (_ <? _); [done|]. intros H%IH. cbn. lia.
Qed.

Lemma leadingFraction_length s : forall x sc o, (length (leadingFraction x sc o s).2 <= length s)%nat.
Proof.
  induction s as [|c s IH]; intros x sc o; cbn [leadingFraction]; [done|].
  assert (forall x sc o, (length (leadingFraction x sc o s).2 <= length (c :: s))%nat) as IH'.
  { intros x' sc' o'. pose proof (IH x' sc' o'). cbn. lia. }
  by repeat case_match.
Qed.

Lemma take_unit_app s u r : take_unit s = (u, r) -> s = u ++ r.
Proof.
  revert u. induction s as [|c s IH]; intros u; cbn [take_unit]; [by intros [= <- <-]|].
  destruct (_ || _); [by intros [= <- <-]|]. destruct (take_unit s) as [u' r'].
  intros [= <- <-]. cbn. by rewrite <-IH.
Qed.

Lemma take_fraction_length s f sc r b : take_fraction s = (f, sc, r, b) -> (length r <= length s)%nat.
Proof.
  destruct s as [|c s]; cbn [take_fraction]; [by intros [= _ _ <- _]|].
  destruct (c =? 46); [|by intros [= _ _ <- _]].
  pose proof (leadingFraction_length s 0 1 false) as H.
  destruct (leadingFraction 0 1 false s) as [[f' sc'] r']. intros [= _ _ <- _]. cbn in *. lia.
Qed.

Lemma parse_term_length orig s v r : parse_term orig s = inr (v, r) -> (length r < length s)%nat.
Proof.
  unfold parse_term. destruct s as [|c s0] eqn:Es; [done|]. rewrite <-Es. destruct (negb _); [done|].
  destruct (leadingInt 0 s) as [[x s1]|] eqn:E1; [|done]. apply leadingInt_length in E1.
  destruct (take_fraction s1) as [[[f sc] s2] post] eqn:E2. apply take_fraction_length in E2.
  destruct (negb _ && negb post); [done|].
  destruct (take_unit s2) as [u rest] eqn:E3. apply take_unit_app in E3.
  destruct (decide (u = [])) as [|Hu]; [done|]. destruct (unitMap u) as [unit|]; [|done].
  assert (length rest < length s)%nat.
  { subst s2. rewrite length_app in E2. destruct u; [done|]. cbn in E2. lia. }
  destruct (_ <? x); [done|]. destruct (0 <? f); [|by intros [= _ <-]].
  destruct (_ <? _); [done|]. by intros [= _ <-].
Qed.

(** More fuel than the length changes nothing. *)
Lemma parse_terms_fuel orig n : forall d s, (length s <= n)%nat ->
  parse_terms n orig d s = parse_terms (length s) orig d s.
Proof.
  induction n as [n IH] using lt_wf_ind. intros d s Hs.
  destruct s as [|c s]; [by destruct n|]. destruct n as [|n]; [cbn in Hs; lia|].
  cbn [parse_terms length]. destruct (parse_term orig (c :: s)) as [e|[v r]] eqn:E; [done|].
  apply parse_term_length in E. cbn in E, Hs. destruct (_ <? _); [done|].
  rewrite (IH n) by lia. symmetry. apply IH; lia.
Qed.

Lemma parse_terms_step orig d s v r :
  parse_term orig s = inr (v, r) -> u64 (d + v) <= 2 ^ 63 ->
  parse_terms (length s) orig d s = parse_terms (length r) orig (u64 (d + v)) r.
Proof.
  intros E Hd. pose proof (parse_term_length _ _ _ _ E). destruct s as [|c s]; [done|].
  cbn [parse_terms length] in *. rewrite E. destruct (Z.ltb_spec (2 ^ 63) (u64 (d + v))); [lia|].
  apply parse_terms_fuel. lia.
Qed.

(** ** Reading back what is printed *)

(** Where a number ends. *)
Definition stops (s : list Z) : Prop := match s with [] => True | c :: _ => is_digit c = false end.
Definition starts (s : list Z) : Prop := match s with [] => True | c :: _ => is_digit c = true end.

Lemma digit_mod v : is_digit (48 + v mod 10) = true.
Proof. pose proof (Z.mod_pos_bound v 10 ltac:(lia)). unfold is_digit. apply andb_true_iff. split; lia. Qed.

Lemma leadingInt_digit x d r : 0 <= d < 10 -> 0 <= x * 10 + d <= 2 ^ 63 -> 0 <= x ->
  leadingInt x (48 + d :: r) = leadingInt (x * 10 + d) r.
Proof.
  intros Hd Hx H0. cbn [leadingInt]. replace (is_digit (48 + d)) with true
    by (symmetry; apply andb_true_iff; split; lia).
  destruct (Z.ltb_spec (2 ^ 63 / 10) x) as [H|_]; [change (2 ^ 63 / 10) with 922337203685477580 in H; lia|].
  replace (x * 10 + (48 + d - 48)) with (x * 10 + d) by ring.
  by destruct (Z.ltb_spec (2 ^ 63) (x * 10 + d)); [lia|].
Qed.

Lemma leadingInt_loop n : forall v buf, 0 <= v <= 2 ^ 63 -> v < 10 ^ Z.of_nat n ->
  leadingInt 0 (fmtInt_loop n v buf) = leadingInt v buf.
Proof.
  induction n as [|n IH]; intros v buf Hv Hn; cbn [fmtInt_loop].
  - cbn in Hn. by replace v with 0 by lia.
  - destruct (Z.eqb_spec v 0) as [->|H0]; [done|].
    pose proof (Z.div_mod v 10 ltac:(lia)) as Hd. pose proof (Z.mod_pos_bound v 10 ltac:(lia)) as Hm.
    assert (v / 10 < 10 ^ Z.of_nat n).
    { apply Z.div_lt_upper_bound; [lia|]. rewrite Nat2Z.inj_succ, Z.pow_succ_r in Hn by lia. lia. }
    assert (0 <= v / 10) by (apply Z.div_pos; lia).
    rewrite IH by (done || lia). rewrite leadingInt_digit by lia. f_equal. lia.
Qed.

(** The digits of a fraction. *)
Lemma leadingFraction_digit x sc d r : 0 <= d < 10 -> 0 <= x < 10 ^ 9 ->
  leadingFraction x sc false (48 + d :: r) = leadingFraction (x * 10 + d) (sc * 10) false r.
Proof.
  intros Hd Hx. cbn [leadingFraction]. replace (is_digit (48 + d)) with true
    by (symmetry; apply andb_true_iff; split; lia).
  destruct (Z.ltb_spec ((2 ^ 63 - 1) / 10) x) as [H|_];
    [change ((2 ^ 63 - 1) / 10) with 922337203685477580 in H; lia|].
  replace (x * 10 + (48 + d - 48)) with (x * 10 + d) by ring.
  by destruct (Z.ltb_spec (2 ^ 63) (x * 10 + d)); [lia|].
Qed.

Lemma mod_succ v n : v mod 10 ^ Z.of_nat (S n) = (v / 10) mod 10 ^ Z.of_nat n * 10 + v mod 10.
Proof.
  rewrite Nat2Z.inj_succ, Z.pow_succ_r by lia.
  assert (0 < 10 ^ Z.of_nat n) by (apply Z.pow_pos_nonneg; lia).
  rewrite Z.rem_mul_r by lia. lia.
Qed.
Lemma div_succ v n : v / 10 ^ Z.of_nat (S n) = v / 10 / 10 ^ Z.of_nat n.
Proof.
  rewrite Nat2Z.inj_succ, Z.pow_succ_r by lia.
  assert (0 < 10 ^ Z.of_nat n) by (apply Z.pow_pos_nonneg; lia). by rewrite Z.div_div by lia.
Qed.
Lemma mod_small_digits v n : (n <= 9)%nat -> 0 <= v mod 10 ^ Z.of_nat n < 10 ^ 9.
Proof.
  intros Hn. assert (0 < 10 ^ Z.of_nat n) by (apply Z.pow_pos_nonneg; lia).
  assert (10 ^ Z.of_nat n <= 10 ^ 9) by (apply Z.pow_le_mono_r; lia).
  pose proof (Z.mod_pos_bound v (10 ^ Z.of_nat n) ltac:(lia)). lia.
Qed.

(** [fmtFrac] once it prints. *)
Lemma fmtFrac_printing n : forall v buf, (n <= 9)%nat ->
  exists D, fmtFrac n v true buf = (46 :: D, v / 10 ^ Z.of_nat n) /\
    leadingFraction 0 1 false D = leadingFraction (v mod 10 ^ Z.of_nat n) (10 ^ Z.of_nat n) false buf /\
    (length buf <= length D)%nat.
Proof.
  induction n as [|n IH]; intros v buf Hn; cbn [fmtFrac].
  - exists buf. cbn. by rewrite Z.div_1_r, Z.mod_1_r.
  - destruct (IH (v / 10) (48 + v mod 10 :: buf) ltac:(lia)) as (D & E & H & Hl). exists D.
    cbn [orb]. rewrite E. split_and!; [by rewrite div_succ| |cbn in Hl; lia].
    rewrite H, leadingFraction_digit by (try apply mod_small_digits; try apply Z.mod_pos_bound; lia).
    rewrite mod_succ. f_equal. rewrite Nat2Z.inj_succ, Z.pow_succ_r by lia. lia.
Qed.

(** All of [fmtFrac]: the digits read back as a numerator over a power of ten
    that makes the fraction. *)
Lemma fmtFrac_spec n : forall v buf, (n <= 9)%nat ->
  exists w, fmtFrac n v false buf = (w, v / 10 ^ Z.of_nat n) /\
    ((w = buf /\ v mod 10 ^ Z.of_nat n = 0) \/
     exists D x k, w = 46 :: D /\ leadingFraction 0 1 false D = leadingFraction x (10 ^ Z.of_nat k) false buf /\
       (k <= n)%nat /\ 0 < x < 10 ^ Z.of_nat k /\ x * 10 ^ Z.of_nat (n - k) = v mod 10 ^ Z.of_nat n /\
       (length buf < length D)%nat).
Proof.
  induction n as [|n IH]; intros v buf Hn; cbn [fmtFrac].
  - exists buf. cbn. rewrite Z.div_1_r, Z.mod_1_r. auto.
  - rewrite div_succ, mod_succ. destruct (Z.eqb_spec (v mod 10) 0) as [->|H0]; cbn [negb orb].
    + destruct (IH (v / 10) buf ltac:(lia)) as (w & E & H). exists w. split; [done|].
      destruct H as [[-> H]|(D & x & k & -> & HD & Hk & Hx & Hv & Hl)]; [left; split; [done|lia]|right].
      exists D, x, k. split_and!; try done; try lia. rewrite <-Hv, Nat.sub_succ_l by done.
      rewrite Nat2Z.inj_succ, Z.pow_succ_r by lia. lia.
    + destruct (fmtFrac_printing n (v / 10) (48 + v mod 10 :: buf) ltac:(lia)) as (D & E & H & Hl).
      exists (46 :: D). split; [done|right].
      exists D, ((v / 10) mod 10 ^ Z.of_nat n * 10 + v mod 10), (S n).
      pose proof (Z.mod_pos_bound v 10 ltac:(lia)).
      assert (0 < 10 ^ Z.of_nat n) by (apply Z.pow_pos_nonneg; lia).
      pose proof (Z.mod_pos_bound (v / 10) (10 ^ Z.of_nat n) ltac:(lia)).
      rewrite H, leadingFraction_digit by (try apply mod_small_digits; lia).
      rewrite Nat.sub_diag, Nat2Z.inj_succ, Z.pow_succ_r by lia.
      split_and!; try done; try lia. f_equal. lia.
Qed.

(** What [fmtInt] prints: digits, before what was there. *)
Lemma fmtInt_loop_digits n : forall v buf,
  exists ds, fmtInt_loop n v buf = ds ++ buf /\ Forall (fun c => is_digit c = true) ds /\
    (v <> 0 -> n <> 0%nat -> ds <> []).
Proof.
  induction n as [|n IH]; intros v buf; cbn [fmtInt_loop]; [by exists []|].
  destruct (Z.eqb_spec v 0) as [->|H0]; [by exists []|].
  destruct (IH (v / 10) (48 + v mod 10 :: buf)) as (ds & E & Hf & _).
  exists (ds ++ [48 + v mod 10]). rewrite E, <-app_assoc. split_and!; [done| |].
  - apply Forall_app. split; [done|]. constructor; [apply digit_mod|constructor].
  - intros _ _. by destruct ds.
Qed.

Lemma fmtInt_digits v buf : exists c ds, fmtInt v buf = c :: ds ++ buf /\ is_digit c = true.
Proof.
  unfold fmtInt. destruct (Z.eqb_spec v 0) as [->|H0]; [by exists 48, []|].
  destruct (fmtInt_loop_digits 20 v buf) as (ds & E & Hf & Hne).
  destruct ds as [|c ds]; [by destruct Hne|]. exists c, ds. split; [done|]. by inversion Hf.
Qed.

Lemma leadingInt_fmtInt v buf : 0 <= v <= 2 ^ 63 -> stops buf ->
  leadingInt 0 (fmtInt v buf) = Some (v, buf).
Proof.
  intros Hv Hb. assert (leadingInt 0 (fmtInt v buf) = leadingInt v buf) as ->.
  { unfold fmtInt. destruct (Z.eqb_spec v 0) as [->|H0]; [done|]. apply leadingInt_loop; [done|].
    change (10 ^ Z.of_nat 20) with 100000000000000000000. lia. }
  destruct buf as [|c buf]; [done|]. cbn in *. by rewrite Hb.
Qed.

(** The float64 product is exact on what is printed. *)
Lemma fraction_exact x k p : 0 < x < 10 ^ Z.of_nat k -> (k <= p)%nat -> (p <= 9)%nat ->
  f64_trunc (f64_mul (f64 x 1) (f64_div (f64 (10 ^ Z.of_nat p) 1) (10 ^ Z.of_nat k, 1))) =
    x * 10 ^ Z.of_nat (p - k).
Proof.
  intros Hx Hk Hp. set (z := 10 ^ Z.of_nat (p - k)).
  assert (10 ^ Z.of_nat p = z * 10 ^ Z.of_nat k) as Hz.
  { unfold z. rewrite <-Z.pow_add_r by lia. f_equal. lia. }
  assert (0 < z) by (apply Z.pow_pos_nonneg; lia).
  assert (0 < 10 ^ Z.of_nat k) by (apply Z.pow_pos_nonneg; lia).
  assert (10 ^ Z.of_nat p <= 10 ^ 9) by (apply Z.pow_le_mono_r; lia).
  assert (x * z < 2 ^ 53) as Hxz by nia. rewrite Hz in *.
  destruct (f64_exact x 1) as (d1 & Hd1 & E1); [nia|lia|]. rewrite Z.mul_1_r in E1.
  destruct (f64_exact (z * 10 ^ Z.of_nat k) 1) as (d2 & Hd2 & E2); [nia|lia|]. rewrite Z.mul_1_r in E2.
  rewrite E1, E2. unfold f64_div, f64_mul. cbn [fst snd]. rewrite Z.mul_1_r.
  replace (z * 10 ^ Z.of_nat k * d2) with (z * (d2 * 10 ^ Z.of_nat k)) by ring.
  destruct (f64_exact z (d2 * 10 ^ Z.of_nat k)) as (d3 & Hd3 & ->); [nia|nia|]. cbn [fst snd].
  replace (x * d1 * (z * d3)) with (x * z * (d1 * d3)) by ring.
  destruct (f64_exact (x * z) (d1 * d3)) as (d4 & Hd4 & ->); [nia|nia|].
  unfold f64_trunc. cbn [fst snd]. apply Z.div_mul. lia.
Qed.

(** The units that are printed. *)
Definition plain_unit (u : list Z) : Prop := Forall (fun c => (c =? 46) || is_digit c = false) u /\ u <> [].
Lemma plain_minute : plain_unit [109].
Proof. by repeat constructor. Qed.
Lemma plain_hour : plain_unit [104].
Proof. by repeat constructor. Qed.

Lemma take_unit_plain u rest : plain_unit u -> starts rest -> take_unit (u ++ rest) = (u, rest).
Proof.
  intros [Hu _] Hr. induction Hu as [|c u Hc _ IH]; cbn [take_unit app].
  - destruct rest as [|c r]; [done|]. cbn in *. by rewrite Hr, orb_true_r.
  - by rewrite Hc, IH.
Qed.

Lemma stops_plain u rest : plain_unit u -> stops (u ++ rest).
Proof. intros [Hu Hne]. destruct Hu as [|c u Hc _]; [done|]. cbn. by apply orb_false_iff in Hc as [_ ->]. Qed.

Lemma take_fraction_plain u rest : plain_unit u -> take_fraction (u ++ rest) = (0, 1, u ++ rest, false).
Proof.
  intros [Hu Hne]. destruct Hu as [|c u Hc _]; [done|]. cbn. by apply orb_false_iff in Hc as [-> _].
Qed.

(** A printed term: the number, what [take_fraction] makes of the rest, and
    the unit. *)
Lemma parse_term_printed orig v w f sc u unit rest post x :
  0 <= v -> stops w -> take_fraction w = (f, sc, u ++ rest, post) ->
  plain_unit u -> starts rest -> unitMap u = Some unit -> 0 < unit ->
  (if 0 <? f then f64_trunc (f64_mul (f64 f 1) (f64_div (f64 unit 1) (sc, 1))) else 0) = x ->
  0 <= x -> v * unit + x <= 2 ^ 63 ->
  parse_term orig (fmtInt v w) = inr (v * unit + x, rest).
Proof.
  intros Hv Hw Hf Hu Hr Hm Hunit Hx Hx0 Hb. unfold parse_term.
  destruct (fmtInt_digits v w) as (c & ds & E & Hc). rewrite E. rewrite <-E.
  rewrite Hc, orb_true_r. cbn [negb]. rewrite leadingInt_fmtInt by (done || nia). rewrite Hf.
  assert ((length w =? length (fmtInt v w))%nat = false) as ->.
  { apply Nat.eqb_neq. rewrite E. cbn. rewrite length_app. lia. }
  cbn [negb andb]. rewrite take_unit_plain by done.
  rewrite decide_False by apply Hu. rewrite Hm.
  destruct (Z.ltb_spec (2 ^ 63 / unit) v) as [H|_].
  { assert (v <= 2 ^ 63 / unit) by (apply Z.div_le_lower_bound; lia). lia. }
  destruct (0 <? f); [|by rewrite <-Hx, Z.add_0_r].
  rewrite Hx, u64_small by nia. by destruct (Z.ltb_spec (2 ^ 63) (v * unit + x)); [lia|].
Qed.

(** A term without a point, and one with the digits of [fmtFrac]. *)
Lemma parse_term_whole orig v u unit rest :
  0 <= v -> plain_unit u -> starts rest -> unitMap u = Some unit -> 0 < unit -> v * unit <= 2 ^ 63 ->
  parse_term orig (fmtInt v (u ++ rest)) = inr (v * unit, rest).
Proof.
  intros. rewrite <-(Z.add_0_r (v * unit)).
  apply (parse_term_printed orig v (u ++ rest) 0 1 u unit rest false 0);
    first [done | by apply stops_plain | by apply take_fraction_plain | lia].
Qed.

(** The units that come with a fraction: the nth power of ten. *)
Definition fraction_unit (n : nat) (u : list Z) : Prop :=
  (n <= 9)%nat /\ plain_unit u /\ unitMap u = Some (10 ^ Z.of_nat n).

Lemma fraction_ns : fraction_unit 0 unit_ns.
Proof. split_and!; [lia|by repeat constructor|reflexivity]. Qed.
Lemma fraction_us : fraction_unit 3 unit_us.
Proof. split_and!; [lia|by repeat constructor|reflexivity]. Qed.
Lemma fraction_ms : fraction_unit 6 unit_ms.
Proof. split_and!; [lia|by repeat constructor|reflexivity]. Qed.
Lemma fraction_s : fraction_unit 9 unit_s.
Proof. split_and!; [lia|by repeat constructor|reflexivity]. Qed.

Lemma parse_term_fraction orig v t n u w q :
  fraction_unit n u -> 0 <= v ->
  v * 10 ^ Z.of_nat n + t mod 10 ^ Z.of_nat n <= 2 ^ 63 ->
  fmtFrac n t false u = (w, q) ->
  parse_term orig (fmtInt v w) = inr (v * 10 ^ Z.of_nat n + t mod 10 ^ Z.of_nat n, []).
Proof.
  intros (Hn & Hu & Hm) Hv Hb E. assert (0 < 10 ^ Z.of_nat n) as Hp by (apply Z.pow_pos_nonneg; lia).
  destruct (fmtFrac_spec n t u Hn) as (w' & E' & H). rewrite E in E'. injection E' as <- _.
  destruct H as [[-> H0]|(D & x & k & -> & HD & Hk & Hx & Hv' & Hl)].
  - rewrite H0, Z.add_0_r in *. pose proof (parse_term_whole orig v u _ [] Hv Hu I Hm Hp Hb) as H.
    by rewrite app_nil_r in H.
  - assert (stops u) as Hs by (rewrite <-(app_nil_r u); by apply stops_plain).
    assert (leadingFraction x (10 ^ Z.of_nat k) false u = (x, 10 ^ Z.of_nat k, u)) as Hlf.
    { destruct u as [|c u]; [done|]. cbn in *. by rewrite Hs. }
    eapply (parse_term_printed orig v (46 :: D) x (10 ^ Z.of_nat k) u _ []);
      try done; [| |apply Z.mod_pos_bound; lia].
    + cbn. rewrite HD, Hlf, app_nil_r. reflexivity.
    + destruct (Z.ltb_spec 0 x); [|lia]. by rewrite (fraction_exact x k n).
Qed.

Lemma starts_fmtInt v buf : starts (fmtInt v buf).
Proof. by destruct (fmtInt_digits v buf) as (c & ds & -> & H). Qed.

(** A term in the loop. *)
Lemma parse_terms_add orig d s v r :
  parse_term orig s = inr (v, r) -> 0 <= d -> 0 <= v -> d + v <= 2 ^ 63 ->
  parse_terms (length s) orig d s = parse_terms (length r) orig (d + v) r.
Proof.
  intros E Hd Hv Hb. rewrite (parse_terms_step orig d s v r E); rewrite u64_small by lia; [done|lia].
Qed.

Lemma parse_terms_whole orig d v u unit rest :
  plain_unit u -> unitMap u = Some unit -> starts rest ->
  0 < unit -> 0 <= d -> 0 <= v -> d + v * unit <= 2 ^ 63 ->
  parse_terms (length (fmtInt v (u ++ rest))) orig d (fmtInt v (u ++ rest)) =
    parse_terms (length rest) orig (d + v * unit) rest.
Proof. intros. apply parse_terms_add; [apply parse_term_whole|..]; first [done|nia]. Qed.

Lemma parse_terms_fraction orig d v t n u w q :
  fraction_unit n u -> fmtFrac n t false u = (w, q) ->
  0 <= d -> 0 <= v -> d + v * 10 ^ Z.of_nat n + t mod 10 ^ Z.of_nat n <= 2 ^ 63 ->
  parse_terms (length (fmtInt v w)) orig d (fmtInt v w) =
    inr (d + v * 10 ^ Z.of_nat n + t mod 10 ^ Z.of_nat n).
Proof.
  intros Hu E Hd Hv Hb. assert (0 < 10 ^ Z.of_nat n) by (apply Z.pow_pos_nonneg; lia).
  pose proof (Z.mod_pos_bound t (10 ^ Z.of_nat n) ltac:(lia)).
  rewrite (parse_terms_add orig d _ _ _ (parse_term_fraction orig v t n u w q Hu Hv ltac:(lia) E)) by nia.
  cbn. by rewrite Z.add_assoc.
Qed.

(** Below a second: one unit. *)
Lemma format_small orig u n unit w q :
  0 <= u < 2 ^ 63 -> fraction_unit n unit -> fmtFrac n u false unit = (w, q) ->
  parse_terms (length (fmtInt q w)) orig 0 (fmtInt q w) = inr u.
Proof.
  intros Hu Hunit E. assert (0 < 10 ^ Z.of_nat n) by (apply Z.pow_pos_nonneg; lia).
  destruct (fmtFrac_spec n u unit (proj1 Hunit)) as (w' & E' & _). rewrite E in E'. injection E' as <- ->.
  assert (u = u / 10 ^ Z.of_nat n * 10 ^ Z.of_nat n + u mod 10 ^ Z.of_nat n) as Hd
    by (rewrite (Z.mul_comm (u / _)); apply Z.div_mod; lia).
  assert (0 <= u / 10 ^ Z.of_nat n) by (apply Z.div_pos; lia).
  rewrite (parse_terms_fraction orig 0 _ u n unit w _ Hunit E) by lia. f_equal. lia.
Qed.

(** From a second on: hours and minutes when they are not zero, then seconds
    with their fraction. *)
Lemma format_large orig u q w :
  Second <= u <= 2 ^ 63 -> fmtFrac 9 u false unit_s = (w, q) ->
  let buf := fmtInt (q mod 60) w in
  let text :=
    if 0 <? q / 60 then
      let buf := fmtInt (q / 60 mod 60) (109 :: buf) in
      if 0 <? q / 60 / 60 then fmtInt (q / 60 / 60) (104 :: buf) else buf
    else buf in
  parse_terms (length text) orig 0 text = inr u.
Proof.
  intros Hu E buf text. unfold Second in Hu.
  destruct (fmtFrac_spec 9 u unit_s ltac:(lia)) as (w' & E' & _). rewrite E in E'. injection E' as <- Hq.
  pose proof (fun d => parse_terms_fraction orig d (q mod 60) u 9 unit_s w q fraction_s E) as Hs.
  change (10 ^ Z.of_nat 9) with 1000000000 in *.
  pose proof (Z.div_mod u 1000000000 ltac:(lia)). pose proof (Z.mod_pos_bound u 1000000000 ltac:(lia)).
  pose proof (Z.div_mod q 60 ltac:(lia)). pose proof (Z.mod_pos_bound q 60 ltac:(lia)).
  pose proof (Z.div_mod (q / 60) 60 ltac:(lia)). pose proof (Z.mod_pos_bound (q / 60) 60 ltac:(lia)).
  rewrite <-Hq in *. unfold text, buf.
  destruct (Z.ltb_spec 0 (q / 60)) as [Hm|Hm]; [|rewrite Hs by lia; f_equal; lia].
  pose proof (fun d => parse_terms_whole orig d (q / 60 mod 60) [109] Minute (fmtInt (q mod 60) w)
    plain_minute eq_refl (starts_fmtInt _ _) ltac:(done)) as Hmin. unfold Minute, Second in Hmin. cbn [app] in Hmin.
  destruct (Z.ltb_spec 0 (q / 60 / 60)) as [Hh|Hh]; [|rewrite Hmin, Hs by lia; f_equal; lia].
  pose proof (parse_terms_whole orig 0 (q / 60 / 60) [104] Hour
    (fmtInt (q / 60 mod 60) (109 :: fmtInt (q mod 60) w)) plain_hour eq_refl (starts_fmtInt _ _) ltac:(done)) as Hhour.
  unfold Hour, Minute, Second in Hhour. cbn [app] in Hhour.
  rewrite Hhour, Hmin, Hs by lia. f_equal. lia.
Qed.

(** The printed form without its sign reads back. *)
Lemma format_parses orig u : 0 <= u <= 2 ^ 63 -> parse_terms (length (format u)) orig 0 (format u) = inr u.
Proof.
  intros Hu. unfold format. destruct (Z.ltb_spec u Second) as [Hs|Hs].
  - unfold Second in Hs. destruct (Z.eqb_spec u 0) as [->|H0]; [vm_compute; reflexivity|].
    destruct (u <? Microsecond); [|destruct (u <? Millisecond)].
    all: destruct (fmtFrac _ u false _) as [w q] eqn:E.
    + exact (format_small orig u _ _ w q ltac:(lia) fraction_ns E).
    + exact (format_small orig u _ _ w q ltac:(lia) fraction_us E).
    + exact (format_small orig u _ _ w q ltac:(lia) fraction_ms E).
  - destruct (fmtFrac 9 u false unit_s) as [w q] eqn:E. exact (format_large orig u q w ltac:(lia) E).
Qed.

(** The form starts with a digit and has at least two bytes. *)
Lemma format_shape u : exists c b r, format u = c :: b :: r /\ is_digit c = true.
Proof.
  assert (forall v buf, buf <> [] -> exists c b r, fmtInt v buf = c :: b :: r /\ is_digit c = true) as H.
  { intros v buf Hb. destruct (fmtInt_digits v buf) as (c & ds & -> & Hc).
    destruct ds as [|d ds]; [|by exists c, d, (ds ++ buf)]. destruct buf as [|b buf]; [done|]. by exists c, b, buf. }
  assert (forall n v buf, (n <= 9)%nat -> buf <> [] -> (fmtFrac n v false buf).1 <> []) as Hf.
  { intros n v buf Hn Hb. destruct (fmtFrac_spec n v buf Hn) as (w & -> & [[-> _]|(D & x & k & -> & _)]); done. }
  unfold format. destruct (u <? Second).
  - destruct (u =? 0); [by exists 48, 115, []|].
    destruct (u <? Microsecond); [|destruct (u <? Millisecond)].
    + pose proof (Hf 0%nat u unit_ns ltac:(lia) ltac:(done)) as Hw. destruct (fmtFrac _ _ _ _). by apply H.
    + pose proof (Hf 3%nat u unit_us ltac:(lia) ltac:(done)) as Hw. destruct (fmtFrac _ _ _ _). by apply H.
    + pose proof (Hf 6%nat u unit_ms ltac:(lia) ltac:(done)) as Hw. destruct (fmtFrac _ _ _ _). by apply H.
  - pose proof (Hf 9%nat u unit_s ltac:(lia) ltac:(done)) as Hw. destruct (fmtFrac _ _ _ _) as [w q].
    destruct (0 <? q / 60); [destruct (0 <? q / 60 / 60)|]; by apply H.
Qed.

(** What is printed are bytes. *)
Definition bytes (l : list Z) : Prop := Forall (fun c => 0 <= c < 256) l.

Lemma bytes_cons_digit v l : bytes l -> bytes (48 + v mod 10 :: l).
Proof. intros H. constructor; [|done]. pose proof (Z.mod_pos_bound v 10 ltac:(lia)). lia. Qed.

Lemma fmtInt_bytes v buf : bytes buf -> bytes (fmtInt v buf).
Proof.
  intros Hb. unfold fmtInt. destruct (v =? 0); [by constructor|].
  revert v buf Hb. generalize 20%nat. induction n as [|n IH]; intros v buf Hb; cbn; [done|].
  destruct (v =? 0); [done|]. by apply IH, bytes_cons_digit.
Qed.

Lemma fmtFrac_bytes n : forall v b buf, bytes buf -> bytes (fmtFrac n v b buf).1.
Proof.
  induction n as [|n IH]; intros v b buf Hb; cbn [fmtFrac].
  - destruct b; [|done]. by constructor.
  - apply IH. destruct (b || _); [by apply bytes_cons_digit|done].
Qed.

Lemma format_bytes u : bytes (format u).
Proof.
  assert (forall n unit, unit ∈ [unit_ns; unit_us; unit_ms; unit_s] -> bytes (fmtFrac n u false unit).1) as H.
  { intros n unit Hin. apply fmtFrac_bytes.
    repeat (apply elem_of_cons in Hin as [->|Hin]; [by repeat constructor|]). by apply elem_of_nil in Hin. }
  unfold format. destruct (u <? Second).
  - destruct (u =? 0); [by repeat constructor|].
    destruct (u <? Microsecond); [|destruct (u <? Millisecond)];
      match goal with |- context [fmtFrac ?n u false ?unit] => pose proof (H n unit ltac:(set_solver)) as Hw end;
      destruct (fmtFrac _ _ _ _); by apply fmtInt_bytes.
  - pose proof (H 9%nat unit_s ltac:(set_solver)) as Hw. destruct (fmtFrac _ _ _ _) as [w q]. cbn in Hw.
    destruct (0 <? q / 60); [destruct (0 <? q / 60 / 60)|];
      repeat first [apply fmtInt_bytes | done | by constructor | constructor; [done|]].
Qed.

Lemma duration_roundtrip d : - 2 ^ 63 <= d < 2 ^ 63 -> ParseDuration (duration_string d) = (d, None).
Proof.
  intros Hd. unfold ParseDuration, duration_string.
  rewrite Utf8.codes_string_of by (destruct (d <? 0); cbn; [constructor; [done|]|]; apply format_bytes).
  destruct (format_shape (Z.abs d)) as (c & b & r & E & Hc).
  pose proof (fun orig => format_parses orig (Z.abs d) ltac:(lia)) as Hp. rewrite E in *.
  destruct (Z.ltb_spec d 0) as [Hn|Hn]; cbn [app].
  - cbn [Z.eqb orb]. change (45 =? 45) with true. cbn [orb].
    rewrite !decide_False by done. rewrite Hp. f_equal. rewrite Z.abs_neq, Z.opp_involutive by lia.
    by apply i64_small.
  - assert ((c =? 45) || (c =? 43) = false) as ->.
    { unfold is_digit in Hc. apply andb_true_iff in Hc as [H1 H2]. apply orb_false_iff. split; lia. }
    rewrite !decide_False by done. rewrite Hp. rewrite Z.abs_eq by lia.
    by destruct (Z.ltb_spec (2 ^ 63 - 1) d); [lia|].
Qed.

(** Errors are texts, and a duration that is read fits in 64 bits. *)
Lemma parse_term_error orig s e : parse_term orig s = inl e -> exists t, e = EText t.
Proof.
  unfold parse_term. intros H. repeat case_match; simplify_eq; eexists; reflexivity.
Qed.
Lemma parse_terms_error n : forall orig d s e, parse_terms n orig d s = inl e -> exists t, e = EText t.
Proof.
  induction n as [|n IH]; intros orig d [|c s] e; cbn [parse_terms]; try done.
  - intros [= <-]. by eexists.
  - destruct (parse_term orig (c :: s)) as [e'|[v r]] eqn:E.
    + intros [= <-]. by eapply parse_term_error.
    + destruct (_ <? _); [intros [= <-]; by eexists|apply IH].
Qed.
Lemma parse_terms_range n : forall orig d s v, 0 <= d <= 2 ^ 63 -> parse_terms n orig d s = inr v -> 0 <= v <= 2 ^ 63.
Proof.
  induction n as [|n IH]; intros orig d [|c s] v Hd; cbn [parse_terms]; try by intros [= <-].
  destruct (parse_term orig (c :: s)) as [e'|[x r]]; [done|].
  destruct (Z.ltb_spec (2 ^ 63) (u64 (d + x))); [done|]. apply IH.
  pose proof (Z.mod_pos_bound (d + x) (2 ^ 64) ltac:(lia)). unfold u64 in *. lia.
Qed.

Lemma duration_error s d e : ParseDuration s = (d, Some e) -> e <> ENrpc None.
Proof.
  unfold ParseDuration. destruct (match Utf8.codes s with [] => _ | _ :: _ => _ end) as [neg r].
  destruct (decide _); [done|]. destruct (decide _); [by intros [= _ <-]|].
  destruct (parse_terms _ _ 0 r) as [e'|v] eqn:E.
  - intros [= _ <-]. by apply parse_terms_error in E as [t ->].
  - destruct neg; [done|]. destruct (_ <? v); [by intros [= _ <-]|done].
Qed.

(** A timeout is read as it was sent: [ParseDuration] gives back every
    duration of 64 bits from its text, whatever units and fractions it is
    written with; and whatever the text, what it reads is a duration of 64
    bits, or 0 with an error that has a text. *)
Lemma ParseDuration_String (d : Z) (s : string) :
  (- 2 ^ 63 <= d < 2 ^ 63 -> ParseDuration (duration_string d) = (d, None)) /\
  match ParseDuration s with
  | (v, None) => - 2 ^ 63 <= v < 2 ^ 63
  | (v, Some e) => v = 0 /\ exists t, error_string e = Ok t
  end.
Proof.
  split; [apply duration_roundtrip|]. unfold ParseDuration.
  destruct (match Utf8.codes s with [] => _ | _ :: _ => _ end) as [neg r].
  destruct (decide _); [done|]. destruct (decide _); [split; [done|by eexists]|].
  destruct (parse_terms _ _ 0 r) as [e'|v] eqn:E.
  - split; [done|]. apply parse_terms_error in E as [t ->]. by eexists.
  - apply parse_terms_range in E; [|lia]. destruct neg.
    + unfold i64. pose proof (Z.mod_pos_bound (- v + 2 ^ 63) (2 ^ 64) ltac:(lia)). lia.
    + destruct (Z.ltb_spec (2 ^ 63 - 1) v); [split; [done|by eexists]|lia].
Qed.

End Duration.
