(* ===== verification/Context.v ===== *)
(** * Propagated context: [context/context.go] and [constants/const.go]

    A Go context is a chain of key/value frames. The values that travel with
    an RPC live in one [map[string]interface{}] stored under
    [PropagateCtxKey]; the map is a reference, so the model keeps the maps
    in a store and the frames hold locations. *)

From S2P Require Import Prelude Utf8 GoJson Errors.
From stdpp Require Import sorting.
From Stdlib Require Import Strings.Byte.

Module Ctx.
Import Utf8.

(** ** Keys of the propagated map *)

Definition SpanPropagateCtxKey := "opentracing-span".
Definition PeerIDKey := "peer.id".
Definition PeerServiceKey := "peer.service".
Definition StartTimeKey := "req-start-time".
Definition RequestIDKey := "request.id".
Definition RouteKey := "req-route".
Definition ShareIDKey := "share.id".
Definition MetricTagsKey := "metric-tags".
Definition RegionKey := "region".
Definition RequestTimeout := "reqTimeout".

(** ** Values *)

(** The dynamic values ([interface{}]) the code puts in the map or tests
    for: nil, a string, a [map[string]string], a [TextMapCarrier], what
    decoding made of a JSON boolean, number, array or object, and any other
    value. *)
Inductive gval :=
| GNil
| GStr (s : string)
| GTags (m : gmap string string)
| GCarrier (m : gmap string string)
| GJson (j : GoJson.json)
| GOther (n : Z).

#[export] Instance gval_eq_dec : EqDecision gval.
Proof. solve_decision. Defined.

(** [v.(string)]: the checked and the panicking type assertion. *)
Definition as_string (v : gval) : option string :=
  match v with GStr s => Some s | _ => None end.
Definition must_string (v : gval) : result string :=
  match v with GStr s => Ok s | _ => Panics BadTypeAssertion end.

Abbreviation loc := positive.
Abbreviation heap := (gmap positive (gmap string gval)).

(** A fresh location. *)
Definition alloc (h : heap) (m : gmap string gval) : heap * loc :=
  let l := fresh (dom h) in (<[l := m]> h, l).

Inductive ckey := PropagateCtxKey | LoggerCtxKey | SpanKey | UserKey (k : string).

(** The value of a frame: a reference to a propagated map ([None] is the nil
    map), or any other value. *)
Inductive cval := CMap (l : option loc) | CVal (v : gval).

#[export] Instance ckey_eq_dec : EqDecision ckey.
Proof. solve_decision. Defined.
#[export] Instance cval_eq_dec : EqDecision cval.
Proof. solve_decision. Defined.

(** [context.Context]; the nil interface is [None : option ctx]. *)
Inductive ctx := Background | WithValue (parent : ctx) (k : ckey) (v : cval).

#[export] Instance ctx_eq_dec : EqDecision ctx.
Proof. solve_decision. Defined.

(** [ctx.Value(k)]: the nearest frame. *)
Fixpoint ctx_value (c : ctx) (k : ckey) : option cval :=
  match c with
  | Background => None
  | WithValue c k' v => if decide (k' = k) then Some v else ctx_value c k
  end.

(** [context.WithValue], which panics on a nil parent. *)
Definition with_value (c : option ctx) (k : ckey) (v : cval) : result ctx :=
  match c with
  | Some c => Ok (WithValue c k v)
  | None => Panics (PanicMessage "cannot create context from nil parent")
  end.

(** ** Operations *)

(** [ToMap]: the map of the context, or a new empty one. *)
Definition ToMap (h : heap) (c : option ctx) : result (heap * option loc) :=
  match c with
  | None => let '(h, l) := alloc h ∅ in Ok (h, Some l)
  | Some c =>
      match ctx_value c PropagateCtxKey with
      | Some (CMap l) => Ok (h, l)
      | Some (CVal GNil) | None => let '(h, l) := alloc h ∅ in Ok (h, Some l)
      | Some (CVal _) => Panics BadTypeAssertion
      end
  end.

(** Reading and writing a map through its reference. *)
Definition map_at (h : heap) (l : option loc) : gmap string gval :=
  match l with Some l => default ∅ (h !! l) | None => ∅ end.
Definition map_store (h : heap) (l : option loc) (k : string) (v : gval) : result heap :=
  match l with
  | Some l => Ok (<[l := <[k := v]> (map_at h (Some l))]> h)
  | None => Panics NilMapWrite
  end.

(** [AddToPropagateCtx]: it writes into the map it found, and wraps the
    context in a frame with the same map. *)
Definition AddToPropagateCtx (h : heap) (c : option ctx) (key : string) (val : gval)
  : result (heap * ctx) :=
  '(h, propagate) ← ToMap h c;
  h ← map_store h propagate key val;
  c ← with_value c PropagateCtxKey (CMap propagate);
  Ok (h, c).

(** [GetFromPropagateCtx]; a map [ToMap] had to make is garbage at once. *)
Definition GetFromPropagateCtx (h : heap) (c : option ctx) (key : string) : result gval :=
  '(h, propagate) ← ToMap h c;
  Ok (default GNil (map_at h propagate !! key)).

(** [FromMap]. *)
Definition FromMap (l : option loc) : ctx := WithValue Background PropagateCtxKey (CMap l).

(** encoding/json on the propagated map: [json.Marshal(m)], and
    [json.Unmarshal] into a [map[string]interface{}], which the document
    [null] sets to the nil map. *)
Class Json := {
  json_marshal : gmap string gval -> result (list byte);
  json_unmarshal : list byte -> result (option (gmap string gval))
}.

(** The dynamic type a value has after a round through JSON: a map of strings
    is a map of interfaces. *)
Definition json_norm (v : gval) : gval :=
  match v with
  | GTags m | GCarrier m => GJson (GoJson.JObj (GoJson.sorted (GoJson.string_members m)))
  | v => v
  end.

(** JSON carries these values unchanged, up to [json_norm]: strings that are
    UTF-8, maps of them, and decoded values without numbers (whose text is
    chosen by strconv). *)
Definition plain_json (j : GoJson.json) : Prop :=
  match j with GoJson.JNull | GoJson.JStr _ => False | _ => True end /\
  GoJson.wf_json j = true /\ (GoJson.depth j < GoJson.maxNestingDepth)%Z /\
  forall float, GoJson.norm float j = Some j.
Definition plain_value (v : gval) : Prop :=
  match v with
  | GNil => True
  | GStr s => valid_string s = true
  | GTags m | GCarrier m => GoJson.utf8_map m
  | GJson j => plain_json j
  | GOther _ => False
  end.
Definition plain_map (m : gmap string gval) : Prop :=
  map_Forall (fun k v => valid_string k = true /\ plain_value v) m.

Class JsonLaws (J : Json) := {
  json_roundtrip m b : plain_map m -> json_marshal m = Ok b ->
    b <> [] /\ json_unmarshal b = Ok (Some (json_norm <$> m));
  json_total m : plain_map m -> is_ok (json_marshal m) = true;
  json_null : json_unmarshal (str_bytes "null") = Ok None;
  json_error b e : json_unmarshal b = Err e -> e <> ENrpc None;
  json_no_panic b p : json_unmarshal b <> Panics p
}.

Section Transport.
Context `{Json}.

(** [Encode]: nil for an empty map. *)
Definition Encode (h : heap) (c : option ctx) : result (option (list byte)) :=
  '(h, l) ← ToMap h c;
  let m := map_at h l in
  if bool_decide (0 < size m)%nat then b ← json_marshal m; Ok (Some b) else Ok None.

(** [Decode]: a nil context for no bytes. *)
Definition Decode (h : heap) (m : list byte) : result (heap * option ctx) :=
  if bool_decide (length m = 0)%nat then Ok (h, None)
  else
    mp ← json_unmarshal m;
    match mp with
    | Some mp => let '(h, l) := alloc h mp in Ok (h, Some (FromMap (Some l)))
    | None => Ok (h, Some (FromMap None))
    end.

End Transport.

(** ** Properties of the map *)

(** The map a context carries, if it carries one. *)
Definition ctx_map (c : ctx) : option loc :=
  match ctx_value c PropagateCtxKey with Some (CMap l) => l | _ => None end.

Lemma alloc_fresh h m h' l : alloc h m = (h', l) -> h !! l = None /\ h' = <[l := m]> h.
Proof.
  intros [= <- <-]. split; [|done]. apply not_elem_of_dom, is_fresh.
Qed.

Lemma ToMap_map h c l : ctx_map c = Some l -> ToMap h (Some c) = Ok (h, Some l).
Proof.
  unfold ctx_map, ToMap. destruct (ctx_value c _) as [[]|]; [|done..]. by intros ->.
Qed.

Lemma Get_map h c l k :
  ctx_map c = Some l ->
  GetFromPropagateCtx h (Some c) k = Ok (default GNil (map_at h (Some l) !! k)).
Proof. intros Hl. unfold GetFromPropagateCtx. by rewrite (ToMap_map h c l). Qed.

Lemma ctx_map_with_value c l : ctx_map (WithValue c PropagateCtxKey (CMap l)) = l.
Proof. done. Qed.

(** Adding to a context that carries a map. *)
Lemma Add_map h c l k v :
  ctx_map c = Some l ->
  AddToPropagateCtx h (Some c) k v =
    Ok (<[l := <[k := v]> (map_at h (Some l))]> h, WithValue c PropagateCtxKey (CMap (Some l))).
Proof. intros Hl. unfold AddToPropagateCtx. by rewrite (ToMap_map h c l). Qed.

Lemma map_at_insert h l m : map_at (<[l := m]> h) (Some l) = m.
Proof. cbn. by rewrite lookup_insert_eq. Qed.

Lemma map_at_insert_ne h l l' m : l <> l' -> map_at (<[l := m]> h) (Some l') = map_at h (Some l').
Proof. intros Hne. cbn. by rewrite lookup_insert_ne. Qed.

#[export] Hint Rewrite map_at_insert : nrpc.

(** The context is usable: any propagated value it holds is a map. *)
Definition ctx_ok (c : ctx) : Prop :=
  match ctx_value c PropagateCtxKey with
  | Some (CMap (Some _)) | None => True
  | _ => False
  end.

(** A value added to the propagated context is there afterwards and
    nothing else in the map changed: on every usable context adding
    succeeds, and reading the key in the new context gives the value while
    every other key reads as before. *)
Theorem Add_Get (h : heap) (c : ctx) (k : string) (v : gval) :
  ctx_ok c ->
  exists h' c', AddToPropagateCtx h (Some c) k v = Ok (h', c') /\ ctx_ok c' /\
    GetFromPropagateCtx h' (Some c') k = Ok v /\
    forall k', k' <> k -> GetFromPropagateCtx h' (Some c') k' = GetFromPropagateCtx h (Some c) k'.
Proof.
  intros Hok. unfold ctx_ok in Hok.
  destruct (ctx_value c PropagateCtxKey) as [[[l|]|v']|] eqn:E; [|done..|].
  - assert (ctx_map c = Some l) as Hl by (unfold ctx_map; by rewrite E).
    do 2 eexists. split; [by apply Add_map|]. split; [done|].
    rewrite !(Get_map _ _ l) by done. rewrite map_at_insert, lookup_insert_eq.
    split; [done|]. intros k' Hk. by rewrite !(Get_map _ _ l), map_at_insert, lookup_insert_ne.
  - unfold AddToPropagateCtx, ToMap. rewrite E.
    destruct (alloc h ∅) as [h1 l] eqn:Ha. cbn [mbind outcome_bind map_store with_value].
    apply alloc_fresh in Ha as [_ ->]. do 2 eexists. split; [done|]. split; [done|].
    rewrite (Get_map _ _ l) by done. rewrite map_at_insert, lookup_insert_eq. split; [done|].
    intros k' Hk. rewrite (Get_map _ _ l), !map_at_insert, lookup_insert_ne by done.
    unfold GetFromPropagateCtx, ToMap. rewrite E.
    destruct (alloc h ∅) as [h2 l2] eqn:Ha. apply alloc_fresh in Ha as [_ ->].
    cbn [mbind outcome_bind]. by rewrite map_at_insert.
Qed.

Lemma Add_Get_witness :
  exists h' c', AddToPropagateCtx ∅ (Some Background) ShareIDKey (GStr "u1") = Ok (h', c') /\
    ctx_ok c' /\ GetFromPropagateCtx h' (Some c') ShareIDKey = Ok (GStr "u1") /\
    forall k', k' <> ShareIDKey ->
      GetFromPropagateCtx h' (Some c') k' = GetFromPropagateCtx ∅ (Some Background) k'.
Proof. apply (Add_Get ∅ Background). exact I. Defined.

(** Adding to a derived context changes the context it was derived
    from: when a context already carries a map, the value added through it
    is visible through that context itself, and through any other context
    that shares the map. *)
Theorem Add_visible_in_parent (h h' : heap) (c c' other : ctx) (l : loc) (k : string) (v : gval) :
  ctx_map c = Some l -> ctx_map other = Some l ->
  AddToPropagateCtx h (Some c) k v = Ok (h', c') ->
  GetFromPropagateCtx h' (Some c) k = Ok v /\ GetFromPropagateCtx h' (Some other) k = Ok v.
Proof.
  intros Hc Ho H. rewrite (Add_map h c l) in H by done. injection H as <- _.
  rewrite !(Get_map _ _ l) by done. by rewrite map_at_insert, lookup_insert_eq.
Qed.

Lemma Add_visible_in_parent_witness :
  let c := FromMap (Some 1%positive) in
  let h' := <[1%positive := <["k" := GStr "v"]> ∅]> ({[1%positive := ∅]} : heap) in
  GetFromPropagateCtx h' (Some c) "k" = Ok (GStr "v") /\
  GetFromPropagateCtx h' (Some (WithValue c LoggerCtxKey (CVal GNil))) "k" = Ok (GStr "v").
Proof.
  refine (Add_visible_in_parent {[1%positive := ∅]} _ (FromMap (Some 1%positive)) _
           (WithValue (FromMap (Some 1%positive)) LoggerCtxKey (CVal GNil)) 1%positive
           "k" (GStr "v") _ _ _); reflexivity.
Defined.

(** ** Properties of the transport *)

Section TransportLaws.
Context `{Json} `{!JsonLaws _}.

Lemma Decode_Some h b m :
  b <> [] -> json_unmarshal b = Ok (Some m) ->
  exists h' l, Decode h b = Ok (h', Some (FromMap (Some l))) /\
    h !! l = None /\ h' = <[l := m]> h.
Proof.
  intros Hb Hm. unfold Decode. rewrite bool_decide_eq_false_2 by (by destruct b).
  rewrite Hm. cbn [mbind outcome_bind]. destruct (alloc h m) as [h' l] eqn:Ha.
  apply alloc_fresh in Ha as [Hf ->]. eauto.
Qed.

(** Encoding a context's map, of values that JSON carries as they are, and
    decoding it in another process gives a context in which every key reads as
    the sender's value, with maps of strings arriving as objects. *)
Lemma transport_ctx (h hr : heap) (c : ctx) (l : loc) :
  ctx_map c = Some l -> plain_map (map_at h (Some l)) -> map_at h (Some l) <> ∅ ->
  exists b hr' c', Encode h (Some c) = Ok (Some b) /\
    Decode hr b = Ok (hr', Some c') /\
    forall k v, GetFromPropagateCtx h (Some c) k = Ok v ->
                GetFromPropagateCtx hr' (Some c') k = Ok (json_norm v).
Proof.
  intros Hc Hp Hne. unfold Encode. rewrite (ToMap_map h c l) by done. cbn [mbind outcome_bind].
  rewrite bool_decide_eq_true_2
    by (destruct (decide (size (map_at h (Some l)) = 0%nat)) as [?%map_size_empty_inv|]; [done|lia]).
  pose proof (json_total _ Hp) as Ht.
  destruct (json_marshal (map_at h (Some l))) as [b| |] eqn:Hm; [|done..].
  destruct (json_roundtrip _ _ Hp Hm) as [Hb Hu].
  destruct (Decode_Some hr b _ Hb Hu) as (hr' & l' & Hd & _ & ->).
  exists b. do 2 eexists. split; [done|]. split; [exact Hd|].
  intros k v. rewrite (Get_map _ c l) by done. intros [= <-].
  rewrite (Get_map _ _ l') by done. rewrite map_at_insert, lookup_fmap.
  change (default ∅ (h !! l)) with (map_at h (Some l)). by destruct (map_at h (Some l) !! k).
Qed.

(** A peer can crash the process through the metadata: the JSON document
    [null] is accepted by [Decode] as a context with a nil map, and the next
    write to the propagated context, which the server makes for every
    request, panics. *)
Theorem Decode_null_then_Add_panics (h : heap) (k : string) (v : gval) :
  exists c, Decode h (str_bytes "null") = Ok (h, Some c) /\
    AddToPropagateCtx h (Some c) k v = Panics NilMapWrite.
Proof.
  exists (FromMap None). unfold Decode. rewrite json_null.
  by rewrite bool_decide_eq_false_2 by (cbn; lia).
Qed.

End TransportLaws.

(** ** encoding/json on the propagated map

    Application values ([other]), the text of floats and the texts of errors
    are arguments. *)

Section Go.
Variable other : Z -> result GoJson.json.
Variable float : string -> option string.
Variable syntax_text type_text : list byte -> string.

(** The document of a value. *)
Definition value_json (v : gval) : result GoJson.json :=
  match v with
  | GNil => Ok GoJson.JNull
  | GStr s => Ok (GoJson.JStr s)
  | GTags m | GCarrier m => Ok (GoJson.JObj (GoJson.sorted (GoJson.string_members m)))
  | GJson j => Ok j
  | GOther n => other n
  end.

(** The documents of the members; the first that fails ends the encoding. *)
Fixpoint members_json (l : list (string * gval)) : result (list (string * GoJson.json)) :=
  match l with
  | [] => Ok []
  | (k, v) :: l => j ← value_json v; l ← members_json l; Ok ((k, j) :: l)
  end.

Definition member_le (a b : string * gval) : Prop := String.leb a.1 b.1 = true.
#[local] Instance member_le_dec : RelDecision member_le.
Proof. intros a b. unfold member_le. apply _. Defined.

Definition go_marshal (m : gmap string gval) : result (list byte) :=
  l ← members_json (merge_sort member_le (map_to_list m));
  Ok (byte_of_Z <$> GoJson.print (GoJson.JObj l)).

(** The value decoded from a document, without its numbers' syntax. *)
Definition json_value (j : GoJson.json) : gval :=
  match j with
  | GoJson.JNull => GNil
  | GoJson.JStr s => GStr s
  | j => GJson j
  end.

Definition go_unmarshal (b : list byte) : result (option (gmap string gval)) :=
  match GoJson.parse (byte_to_Z <$> b) with
  | None => Err (EText (syntax_text b))
  | Some GoJson.JNull => Ok None
  | Some (GoJson.JObj l) =>
      match GoJson.norm_members float l with
      | Some l => Ok (Some (json_value <$> GoJson.obj_map l))
      | None => Err (EText (type_text b))
      end
  | Some _ => Err (EText (type_text b))
  end.

Definition go_json : Json := {| json_marshal := go_marshal; json_unmarshal := go_unmarshal |}.

(** A plain value and its document. *)
Record carries (v : gval) (j : GoJson.json) : Prop := {
  carries_doc : value_json v = Ok j;
  carries_wf : GoJson.wf_json j = true;
  carries_depth : (GoJson.depth j < GoJson.maxNestingDepth)%Z;
  carries_norm : GoJson.norm float j = Some j;
  carries_back : json_value j = json_norm v
}.

Lemma plain_carries v : plain_value v -> exists j, carries v j.
Proof.
  destruct v as [|s|m|m|j|n]; intros H; [..|done]; try (eexists; by split).
  - eexists; split; [done|by apply GoJson.wf_strings| |apply GoJson.norm_strings|done].
    pose proof (GoJson.depth_strings m). unfold GoJson.maxNestingDepth. lia.
  - eexists; split; [done|by apply GoJson.wf_strings| |apply GoJson.norm_strings|done].
    pose proof (GoJson.depth_strings m). unfold GoJson.maxNestingDepth. lia.
  - destruct H as (Hj & Hw & Hd & Hn). exists j. split; [done..|]. by destruct j.
Qed.

Lemma members_carry l :
  Forall (fun kv => valid_string kv.1 = true /\ plain_value kv.2) l ->
  exists jl, members_json l = Ok jl /\
    Forall2 (fun kv kj => kv.1 = kj.1 /\ valid_string kj.1 = true /\ carries kv.2 kj.2) l jl.
Proof.
  induction 1 as [|[k v] l [Hk Hv] _ (jl & E & H)]; [by exists []|].
  destruct (plain_carries v Hv) as [j Hj]. exists ((k, j) :: jl). cbn.
  rewrite (carries_doc _ _ Hj). cbn. rewrite E. split; [done|]. by constructor.
Qed.

Lemma members_roundtrip l jl :
  Forall2 (fun kv kj => kv.1 = kj.1 /\ valid_string kj.1 = true /\ carries kv.2 kj.2) l jl ->
  (GoJson.depth (GoJson.JObj jl) <= GoJson.maxNestingDepth)%Z /\
  GoJson.wf_json (GoJson.JObj jl) = true /\ GoJson.norm_members float jl = Some jl /\
  json_value <$> GoJson.obj_map jl = json_norm <$> GoJson.obj_map l.
Proof.
  intros H. rewrite !GoJson.obj_map_fmap.
  assert (prod_map id json_value <$> jl = prod_map id json_norm <$> l) as ->.
  { induction H as [|[k v] [k' j] l jl (Hk & _ & Hc) _ IH]; [done|]. cbn in *.
    rewrite IH. subst k'. by rewrite (carries_back _ _ Hc). }
  induction H as [|[k v] [k' j] l jl (Hk & Hv & Hc) _ (IHd & IHw & IHn & _)]; [done|].
  cbn [fst snd GoJson.depth GoJson.wf_json GoJson.norm_members forallb fmap list_fmap foldr] in *.
  pose proof (carries_depth _ _ Hc). rewrite Hv, (carries_wf _ _ Hc), (carries_norm _ _ Hc), IHn, IHw.
  split_and!; [lia|done..].
Qed.

Lemma byte_to_of_Z_list l : Forall (fun b => 0 <= b < 256)%Z l -> byte_to_Z <$> (byte_of_Z <$> l) = l.
Proof. induction 1 as [|b l Hb _ IH]; [done|]. cbn. by rewrite byte_to_of_Z_small, IH. Qed.

Lemma go_roundtrip m : plain_map m ->
  exists b, go_marshal m = Ok b /\ b <> [] /\ go_unmarshal b = Ok (Some (json_norm <$> m)).
Proof.
  intros Hm. unfold go_marshal. set (l := merge_sort member_le (map_to_list m)).
  assert (l ≡ₚ map_to_list m) as Hl by apply merge_sort_Permutation.
  destruct (members_carry l) as (jl & E & H).
  { rewrite Hl. apply Forall_forall. intros [k v] Hin%elem_of_map_to_list. by apply Hm in Hin. }
  destruct (members_roundtrip l jl H) as (Hd & Hw & Hn & Hv). rewrite E.
  eexists. split; [reflexivity|]. split; [done|]. unfold go_unmarshal.
  rewrite byte_to_of_Z_list by apply GoJson.print_range.
  by rewrite GoJson.parse_print, Hn, Hv, (GoJson.obj_map_perm m l) by done.
Qed.

#[export] Instance go_json_laws : JsonLaws go_json.
Proof.
  split; cbn [json_marshal json_unmarshal go_json].
  - intros m b Hm Hb. destruct (go_roundtrip m Hm) as (b' & E & ? & ?).
    rewrite Hb in E. by injection E as <-.
  - intros m Hm. by destruct (go_roundtrip m Hm) as (b & -> & _).
  - done.
  - intros b e. unfold go_unmarshal. intros H. repeat case_match; by simplify_eq.
  - intros b p. unfold go_unmarshal. by repeat case_match.
Qed.

End Go.

(** An instance for the witnesses: application values have no document. *)
#[export] Instance ex_json : Json :=
  go_json (fun _ => Err (EText "unsupported type")) Some
    (fun _ => "invalid character") (fun _ => "cannot unmarshal").
#[export] Instance ex_json_laws : JsonLaws ex_json := go_json_laws _ _ _ _.

Lemma transport_ctx_witness :
  let h := ({[1%positive := {[ShareIDKey := GStr "u1"]}]} : heap) in
  let c := FromMap (Some 1%positive) in
  exists b hr' c', Encode h (Some c) = Ok (Some b) /\
    Decode ∅ b = Ok (hr', Some c') /\
    forall k v, GetFromPropagateCtx h (Some c) k = Ok v ->
                GetFromPropagateCtx hr' (Some c') k = Ok (json_norm v).
Proof.
  apply (transport_ctx _ ∅ (FromMap (Some 1%positive)) 1%positive); [reflexivity| |].
  - change (plain_map {[ShareIDKey := GStr "u1"]}).
    intros k v [<- <-]%lookup_singleton_Some. split; reflexivity.
  - change (({[ShareIDKey := GStr "u1"]} : gmap string gval) <> ∅). apply map_non_empty_singleton.
Defined.

Lemma Decode_null_then_Add_panics_witness :
  exists c, Decode ∅ (str_bytes "null") = Ok (∅, Some c) /\
    AddToPropagateCtx ∅ (Some c) RouteKey (GStr "a.b.c") = Panics NilMapWrite.
Proof. apply Decode_null_then_Add_panics. Defined.

End Ctx.
