(* ===== verification/Metrics.v ===== *)
(** * Metrics: [metrics/report.go], [metrics/statsd_reporter.go],
    [metrics/prometheus_reporter.go], [metrics/models], [metrics/constants.go]

    A reporter is a record of operations on a world [W]; the report
    functions run every reporter of a list on the same tag map, which a
    reporter may change (it is a Go map). Values are nanoseconds or counts;
    the float parameters of summaries and histograms are rationals. *)

From S2P Require Import Prelude Utf8 Errors GoStd Context.
From Stdlib Require Import QArith.
Close Scope Q_scope.
Local Open Scope Z_scope.
Import Ctx GoStd.

Module Metrics.

(** ** Names *)

Definition ResponseTime := "response_time_ns".
Definition ConnectedClients := "connected_clients".
Definition CountServers := "count_servers".
Definition ChannelCapacity := "channel_capacity".
Definition DroppedMessages := "dropped_messages".
Definition ProcessDelay := "handler_delay_ns".
Definition Goroutines := "goroutines".
Definition HeapSize := "heapsize".
Definition HeapObjects := "heapobjects".
Definition WorkerJobsTotal := "worker_jobs_total".
Definition WorkerJobsRetry := "worker_jobs_retry_total".
Definition WorkerQueueSize := "worker_queue_size".
Definition ExceededRateLimiting := "exceeded_rate_limiting".

(** ** The Reporter interface *)

Abbreviation labels := (gmap string string).

(** One report: the world, the tag map and the error afterwards. *)
Definition report_op (W : Type) : Type :=
  W -> string -> labels -> Z -> result (W * labels * option error).

(** [Reporter]. *)
Record Reporter (W : Type) := mkReporter {
  ReportCount : report_op W;
  ReportSummary : report_op W;
  ReportHistogram : report_op W;
  ReportGauge : report_op W
}.
Arguments mkReporter {W}.
Arguments ReportCount {W}.
Arguments ReportSummary {W}.
Arguments ReportHistogram {W}.
Arguments ReportGauge {W}.

(** ** [metrics/report.go] *)

Section Report.
Context {W : Type}.

(** [for _, r := range reporters { r.op(metric, tags, value) }]: the tag map
    is one object, handed from reporter to reporter; errors are dropped. *)
Fixpoint each_reporter (op : Reporter W -> report_op W) (reporters : list (Reporter W))
    (w : W) (metric : string) (tags : labels) (value : Z) : result (W * labels) :=
  match reporters with
  | [] => Ok (w, tags)
  | r :: reporters =>
      '(w, tags, _) ← op r w metric tags value;
      each_reporter op reporters w metric tags value
  end.

(** [tagsFromContext]: only a [map[string]string] counts. *)
Definition tagsFromContext (h : heap) (c : option ctx) : result labels :=
  val ← GetFromPropagateCtx h c MetricTagsKey;
  match val with
  | GTags tags => Ok tags
  | _ => Ok ∅
  end.

(** [getTags]: the context's tags override. *)
Definition getTags (h : heap) (c : option ctx) (tags : labels) : result labels :=
  fromctx ← tagsFromContext h c;
  Ok (map_copy_into fromctx tags).

(** [ReportTimingFromCtx]; [now] is the clock. *)
Definition ReportTimingFromCtx (h : heap) (c : option ctx) (reporters : list (Reporter W))
    (typ : string) (err : option error) (now : Z) (w : W) : result W :=
  match c with
  | None => Ok w
  | Some _ =>
      let code := FromError err in
      let status := match err with Some _ => "failed" | None => "ok" end in
      match reporters with
      | [] => Ok w
      | _ =>
          start ← GetFromPropagateCtx h c StartTimeKey;
          startStr ← must_string start;
          let '(startTimestamp, _) := ParseInt startStr in
          routeVal ← GetFromPropagateCtx h c RouteKey;
          let elapsed := time_sub now startTimestamp in
          route ← must_string routeVal;
          tags ← getTags h c
            (<["route" := route]> (<["status" := status]> (<["type" := typ]> {["code" := code]})));
          '(w, _) ← each_reporter ReportSummary reporters w ResponseTime tags elapsed;
          Ok w
      end
  end.

(** [ReportMessageProcessDelayFromCtx]. *)
Definition ReportMessageProcessDelayFromCtx (h : heap) (c : option ctx)
    (reporters : list (Reporter W)) (typ : string) (now : Z) (w : W) : result W :=
  match reporters with
  | [] => Ok w
  | _ =>
      start ← GetFromPropagateCtx h c StartTimeKey;
      startStr ← must_string start;
      let '(startTimestamp, _) := ParseInt startStr in
      let elapsed := time_sub now startTimestamp in
      routeVal ← GetFromPropagateCtx h c RouteKey;
      route ← must_string routeVal;
      tags ← getTags h c (<["route" := route]> {["type" := typ]});
      '(w, _) ← each_reporter ReportSummary reporters w ProcessDelay tags elapsed;
      Ok w
  end.

(** Reports that make a new empty tag map for every reporter. *)
Fixpoint each_fresh (op : Reporter W -> report_op W) (reporters : list (Reporter W))
    (w : W) (metric : string) (value : Z) : result W :=
  match reporters with
  | [] => Ok w
  | r :: reporters =>
      '(w, _, _) ← op r w metric ∅ value;
      each_fresh op reporters w metric value
  end.

(** [ReportNumberOfConnectedClients]. *)
Definition ReportNumberOfConnectedClients (reporters : list (Reporter W)) (number : Z) (w : W)
  : result W := each_fresh ReportGauge reporters w ConnectedClients number.

(** [ReportExceededRateLimiting]. *)
Definition ReportExceededRateLimiting (reporters : list (Reporter W)) (w : W) : result W :=
  each_fresh ReportCount reporters w ExceededRateLimiting 1.

(** One round of the loop of [ReportSysMetrics]; the three figures are read
    from the runtime for every reporter. *)
Fixpoint sys_metrics_round (reporters : list (Reporter W)) (stats : list (Z * Z * Z)) (w : W)
  : result W :=
  match reporters, stats with
  | r :: reporters, (num, alloc, objects) :: stats =>
      '(w, _, _) ← ReportGauge r w Goroutines ∅ num;
      '(w, _, _) ← ReportGauge r w HeapSize ∅ alloc;
      '(w, _, _) ← ReportGauge r w HeapObjects ∅ objects;
      sys_metrics_round reporters stats w
  | _, _ => Ok w
  end.

End Report.

(** ** [metrics/statsd_reporter.go] *)

(** What is sent to the statsd client, whose error is a parameter. *)
Inductive statsd_call :=
| SCount (name : string) (value : Z) (tags : list string)
| SGauge (name : string) (value : Z) (tags : list string)
| STimeInMilliseconds (name : string) (value : Z) (tags : list string).

Record StatsdReporter := mkStatsd {
  serverType : string;
  defaultTags : list string
}.

Definition tag_string (kv : string * string) : string := kv.1 +:+ ":" +:+ kv.2.

(** [buildDefaultTags]; the map comes in iteration order. *)
Definition buildDefaultTags (st : string) (tagsMap : list (string * string)) : list string :=
  ("serverType:" +:+ st) :: (tag_string <$> tagsMap).

(** [newStatsdReporter] with a given client. *)
Definition newStatsdReporter (st : string) (constLabels : list (string * string)) : StatsdReporter :=
  mkStatsd st (buildDefaultTags st constLabels).

(** [NewStatsdReporter]: without a client one is made, whose errors are
    returned; [dial] is the result of [statsd.New]. *)
Definition NewStatsdReporter (client : bool) (dial : result unit) (st : string)
    (constLabels : list (string * string)) : result StatsdReporter :=
  if client then Ok (newStatsdReporter st constLabels)
  else _ ← dial; Ok (newStatsdReporter st constLabels).

(** The tags of one report: the default ones and the report's own. *)
Definition fullTags (s : StatsdReporter) (tagsMap : labels) : list string :=
  defaultTags s ++ (tag_string <$> map_to_list tagsMap).

Section Statsd.
(** The client's answer to a call. *)
Variable client : statsd_call -> option error.

Definition statsd_send (call : string -> Z -> list string -> statsd_call) (s : StatsdReporter)
  : report_op (list statsd_call) :=
  fun w metric tagsMap value =>
    let c := call metric value (fullTags s tagsMap) in
    Ok (w ++ [c], tagsMap, client c).

Definition statsd_ReportCount := statsd_send SCount.
Definition statsd_ReportGauge := statsd_send SGauge.
Definition statsd_ReportSummary := statsd_send STimeInMilliseconds.
Definition statsd_ReportHistogram (s : StatsdReporter) : report_op (list statsd_call) :=
  fun w metric tagsMap value => Ok (w, tagsMap, Some (ESentinel ErrNotImplemented)).

(** The statsd implementation of the interface. *)
Definition statsd_reporter (s : StatsdReporter) : Reporter (list statsd_call) :=
  mkReporter (statsd_ReportCount s) (statsd_ReportSummary s)
             (statsd_ReportHistogram s) (statsd_ReportGauge s).
End Statsd.

(** ** [metrics/models] *)

Record Summary := mkSummary {
  sum_Subsystem : string; sum_Name : string; sum_Help : string;
  sum_Objectives : list (Q * Q); sum_Labels : list string }.
Record Histogram := mkHistogram {
  hist_Subsystem : string; hist_Name : string; hist_Help : string;
  hist_Buckets : list Q; hist_Labels : list string }.
Record Gauge := mkGauge {
  gauge_Subsystem : string; gauge_Name : string; gauge_Help : string;
  gauge_Labels : list string }.
Record Counter := mkCounter {
  counter_Subsystem : string; counter_Name : string; counter_Help : string;
  counter_Labels : list string }.
Record CustomMetricsSpec := mkSpec {
  Summaries : list Summary;
  Histograms : list Histogram;
  Gauges : list Gauge;
  Counters : list Counter
}.

(** ** [metrics/prometheus_reporter.go] *)

(** The options of a metric vector and its variable labels. *)
Record Vec := mkVec {
  v_Namespace : string;
  v_Subsystem : string;
  v_Name : string;
  v_Help : string;
  v_Objectives : list (Q * Q);
  v_Buckets : list Q;
  v_ConstLabels : labels;
  v_Labels : list string
}.

Record PrometheusReporter := mkProm {
  p_app : string;
  p_serverType : string;
  countReportersMap : gmap string Vec;
  summaryReportersMap : gmap string Vec;
  histogramReportersMap : gmap string Vec;
  gaugeReportersMap : gmap string Vec;
  additionalLabels : labels;
  p_registered : list Vec
}.

(** The registrations of one kind, in the order of the code. *)
Definition add_vecs (vs : list Vec) (m : gmap string Vec) : gmap string Vec :=
  fold_left (fun m v => <[v_Name v := v]> m) vs m.

(** [registerCustomMetrics]. *)
Definition registerCustomMetrics (p : PrometheusReporter) (constLabels : labels)
    (additionalLabelsKeys : list string) (spec : CustomMetricsSpec) : PrometheusReporter :=
  let namespace :=
    if bool_decide (p_app p <> "") then p_app p +:+ "." +:+ p_serverType p else p_serverType p in
  mkProm (p_app p) (p_serverType p)
    (add_vecs ((fun c => mkVec namespace (counter_Subsystem c) (counter_Name c) (counter_Help c)
        [] [] constLabels (additionalLabelsKeys ++ counter_Labels c)) <$> Counters spec)
      (countReportersMap p))
    (add_vecs ((fun s => mkVec namespace (sum_Subsystem s) (sum_Name s) (sum_Help s)
        (sum_Objectives s) [] constLabels (additionalLabelsKeys ++ sum_Labels s)) <$> Summaries spec)
      (summaryReportersMap p))
    (add_vecs ((fun h => mkVec namespace (hist_Subsystem h) (hist_Name h) (hist_Help h)
        [] (hist_Buckets h) constLabels (additionalLabelsKeys ++ hist_Labels h)) <$> Histograms spec)
      (histogramReportersMap p))
    (add_vecs ((fun g => mkVec namespace (gauge_Subsystem g) (gauge_Name g) (gauge_Help g)
        [] [] constLabels (additionalLabelsKeys ++ gauge_Labels g)) <$> Gauges spec)
      (gaugeReportersMap p))
    (additionalLabels p) (p_registered p).

Definition default_objectives : list (Q * Q) :=
  [(7 # 10, 2 # 100); (95 # 100, 5 # 1000); (99 # 100, 1 # 1000)]%Q.
Definition default_buckets : list Q :=
  inject_Z <$> [1; 5; 10; 50; 100; 300; 500; 1000; 5000; 10000].

(** The framework's own vectors, by kind: [ks] are the additional labels. *)
Definition fw_summaries (cl : labels) (ks : list string) : list Vec :=
  [mkVec "nrpc" "handler" ResponseTime "the time to process a msg in nanoseconds"
     default_objectives [] cl (["route"; "status"; "type"; "code"] ++ ks);
   mkVec "nrpc" "handler" ProcessDelay "the delay to start processing a msg in nanoseconds"
     default_objectives [] cl (["route"; "type"] ++ ks)].
Definition fw_histograms (cl : labels) (ks : list string) : list Vec :=
  [mkVec "nrpc" "handler" ResponseTime "the time to process a msg in nanoseconds"
     [] default_buckets cl (["route"; "status"; "type"; "code"] ++ ks)].
Definition fw_gauges (cl : labels) (ks : list string) : list Vec :=
  [mkVec "nrpc" "acceptor" ConnectedClients "the number of clients connected right now" [] [] cl ks;
   mkVec "nrpc" "service_discovery" CountServers
     "the number of discovered servers by service discovery" [] [] cl (["type"] ++ ks);
   mkVec "nrpc" "channel" ChannelCapacity "the available capacity of the channel" [] [] cl
     (["channel"] ++ ks);
   mkVec "nrpc" "rpc_server" DroppedMessages
     "the number of rpc server dropped messages (messages that are not handled)" [] [] cl ks;
   mkVec "nrpc" "sys" Goroutines "the current number of goroutines" [] [] cl ks;
   mkVec "nrpc" "sys" HeapSize "the current heap size" [] [] cl ks;
   mkVec "nrpc" "sys" HeapObjects "the current number of allocated heap objects" [] [] cl ks;
   mkVec "nrpc" "worker" WorkerJobsRetry "the current number of job retries" [] [] cl ks;
   mkVec "nrpc" "worker" WorkerQueueSize "the current queue size" [] [] cl (["queue"] ++ ks);
   mkVec "nrpc" "worker" WorkerJobsTotal "the total executed jobs" [] [] cl (["status"] ++ ks)].
Definition fw_counters (cl : labels) (ks : list string) : list Vec :=
  [mkVec "nrpc" "acceptor" ExceededRateLimiting
     "the number of blocked requests by exceeded rate limiting" [] [] cl ks].

(** [registerMetrics]: the constant labels are written into the caller's
    map, the custom metrics come first and the framework's own override
    them; the histograms are collected for registration before the
    framework's histogram is set, so that one is not registered. *)
Definition registerMetrics (p : PrometheusReporter) (constLabels : smap) (additional : labels)
    (spec : CustomMetricsSpec) : result (PrometheusReporter * smap) :=
  match constLabels with
  | None => Panics NilMapWrite
  | Some cl =>
      let cl := <["serverType" := p_serverType p]> (<["app" := p_app p]> cl) in
      let p := mkProm (p_app p) (p_serverType p) (countReportersMap p) (summaryReportersMap p)
                 (histogramReportersMap p) (gaugeReportersMap p) additional (p_registered p) in
      let ks := (map_to_list additional).*1 in
      let p := registerCustomMetrics p cl ks spec in
      let toRegister := (map_to_list (histogramReportersMap p)).*2 in
      let p := mkProm (p_app p) (p_serverType p)
                 (add_vecs (fw_counters cl ks) (countReportersMap p))
                 (add_vecs (fw_summaries cl ks) (summaryReportersMap p))
                 (add_vecs (fw_histograms cl ks) (histogramReportersMap p))
                 (add_vecs (fw_gauges cl ks) (gaugeReportersMap p))
                 (additionalLabels p) (p_registered p) in
      let toRegister := toRegister ++ (map_to_list (countReportersMap p)).*2
                          ++ (map_to_list (gaugeReportersMap p)).*2
                          ++ (map_to_list (summaryReportersMap p)).*2 in
      Ok (mkProm (p_app p) (p_serverType p) (countReportersMap p) (summaryReportersMap p)
            (histogramReportersMap p) (gaugeReportersMap p) (additionalLabels p)
            (p_registered p ++ toRegister), Some cl)
  end.

(** [getPrometheusReporter]: the singleton behind [sync.Once]. *)
Definition getPrometheusReporter (once : option PrometheusReporter) (st app : string)
    (constLabels : smap) (additional : labels) (spec : CustomMetricsSpec)
  : result (option PrometheusReporter * PrometheusReporter) :=
  match once with
  | Some p => Ok (once, p)
  | None =>
      '(p, _) ← registerMetrics (mkProm app st ∅ ∅ ∅ ∅ ∅ []) constLabels additional spec;
      Ok (Some p, p)
  end.

(** [GetPrometheusReporter]. *)
Definition GetPrometheusReporter := getPrometheusReporter.

(** [ensureLabels]: the defaults of the additional labels that are missing. *)
Definition ensureLabels (p : PrometheusReporter) (ls : labels) : labels :=
  map_fold (fun key defaultVal ls =>
    match ls !! key with Some _ => ls | None => <[key := defaultVal]> ls end)
    ls (additionalLabels p).

(** An observation that reached a vector. *)
Record sample := mkSample { s_metric : string; s_labels : labels; s_value : Z }.

Section Prometheus.
(** [vec.With(labels)] panics when the labels do not fit the vector;
    [With_ok] is the test of the client library. *)
Variable With_ok : list string -> labels -> bool.

Definition prom_report (vecs : PrometheusReporter -> gmap string Vec) (p : PrometheusReporter)
  : report_op (list sample) :=
  fun w metric ls value =>
    match vecs p !! metric with
    | Some v =>
        let ls := ensureLabels p ls in
        if With_ok (v_Labels v) ls then Ok (w ++ [mkSample metric ls value], ls, None)
        else Panics (PanicMessage "inconsistent label cardinality")
    | None => Ok (w, ls, Some (ESentinel ErrMetricNotKnown))
    end.

(** The prometheus implementation of the interface. *)
Definition prom_reporter (p : PrometheusReporter) : Reporter (list sample) :=
  mkReporter (prom_report countReportersMap p) (prom_report summaryReportersMap p)
             (prom_report histogramReportersMap p) (prom_report gaugeReportersMap p).
End Prometheus.

(** ** Properties *)

Lemma ensureLabels_union p ls : ensureLabels p ls = ls ∪ additionalLabels p.
Proof.
  unfold ensureLabels. symmetry.
  apply (map_fold_weak_ind (fun acc add => ls ∪ add = acc)).
  - apply (right_id_L ∅ (∪)).
  - intros k v m acc Hk <-.
    assert ((ls ∪ m) !! k = ls !! k) as ->
      by (by rewrite lookup_union, Hk, (right_id_L None (∪))).
    destruct (ls !! k) as [x|] eqn:E; [|by rewrite insert_union_r].
    apply map_eq. intros j. rewrite !lookup_union, lookup_insert.
    case_decide; [|done]. subst. by rewrite E, Hk.
Qed.

Lemma dom_keys (m : labels) : dom m = list_to_set (C := gset string) (map_to_list m).*1.
Proof.
  apply set_eq. intros k. rewrite elem_of_list_to_set, elem_of_dom, list_elem_of_fmap. split.
  - intros [v Hv]. exists (k, v). split; [done|]. by apply elem_of_map_to_list.
  - intros ([k' v] & -> & Hv). apply elem_of_map_to_list in Hv. by exists v.
Qed.

(** The summaries of the framework as [registerMetrics] leaves them. *)
Lemma summaries_registered p0 cl add spec p cl' : registerMetrics p0 (Some cl) add spec = Ok (p, cl') ->
  additionalLabels p = add /\
  (exists v, summaryReportersMap p !! ResponseTime = Some v /\
     v_Labels v = ["route"; "status"; "type"; "code"] ++ (map_to_list add).*1) /\
  (exists v, summaryReportersMap p !! ProcessDelay = Some v /\ v_Labels v = ["route"; "type"] ++ (map_to_list add).*1).
Proof.
  intros [= <- _]. cbn [summaryReportersMap]. unfold add_vecs, fw_summaries. cbn [fold_left v_Name].
  split; [done|]. split; (eexists; split;
    [repeat (rewrite lookup_insert_eq || rewrite lookup_insert_ne by done); reflexivity|reflexivity]).
Qed.

(** The tags a context adds. *)
Definition context_tags (m : gmap string gval) : labels :=
  match m !! MetricTagsKey with Some (GTags tags) => tags | _ => ∅ end.

Lemma getTags_map h c l own : ctx_map c = Some l ->
  getTags h (Some c) own = Ok (context_tags (map_at h (Some l)) ∪ own).
Proof.
  intros Hl. unfold getTags, tagsFromContext, context_tags. rewrite (Get_map _ _ l) by done.
  destruct (map_at h (Some l) !! MetricTagsKey) as [[]|]; cbn [default from_option id mbind outcome_bind];
    by rewrite map_copy_into_union.
Qed.

Section Accepted.
Variable With_ok : list string -> labels -> bool.

(** The client library accepts labels whose names are exactly the distinct
    label names of the vector and whose values are UTF-8. *)
Hypothesis With_accepts : forall (names : list string) (ls : labels), NoDup names ->
  With_ok names ls = true <-> dom ls = list_to_set names /\ map_Forall (fun _ v => Utf8.valid_string v = true) ls.

(** Whether a report with these labels of its own and these of the context
    fits the vector the framework registered for it. *)
Definition fits (own tags add : labels) : Prop :=
  dom tags ⊆ dom own ∪ dom add /\ map_Forall (fun _ v => Utf8.valid_string v = true) (tags ∪ own ∪ add).
#[local] Instance fits_dec own tags add : Decision (fits own tags add).
Proof. unfold fits. apply _. Defined.

Lemma report_fits p metric v base own tags w value :
  summaryReportersMap p !! metric = Some v -> v_Labels v = base ++ (map_to_list (additionalLabels p)).*1 ->
  NoDup base -> dom own = list_to_set base -> Forall (fun k => additionalLabels p !! k = None) base ->
  let full := tags ∪ own ∪ additionalLabels p in
  prom_report With_ok summaryReportersMap p w metric (tags ∪ own) value =
    if decide (fits own tags (additionalLabels p)) then Ok (w ++ [mkSample metric full value], full, None)
    else Panics (PanicMessage "inconsistent label cardinality").
Proof.
  intros Hv Hl Hnd Hown Hadd full. unfold prom_report. rewrite Hv, ensureLabels_union, Hl. fold full.
  assert (NoDup (base ++ (map_to_list (additionalLabels p)).*1)) as Hnames.
  { apply NoDup_app. split_and!; [done| |apply NoDup_fst_map_to_list].
    intros k Hk Hk'. rewrite Forall_forall in Hadd. specialize (Hadd k Hk).
    apply not_elem_of_dom in Hadd. apply Hadd. rewrite dom_keys. by apply elem_of_list_to_set. }
  assert (With_ok (base ++ (map_to_list (additionalLabels p)).*1) full = true <-> fits own tags (additionalLabels p)) as Hiff.
  { rewrite With_accepts by done. unfold fits. fold full.
    rewrite list_to_set_app_L, <-Hown, <-dom_keys. unfold full at 1. rewrite !dom_union_L.
    split; (intros [H1 H2]; split; [|done]); set_solver. }
  case_decide as Hf; [by rewrite (proj2 Hiff Hf)|].
  destruct (With_ok _ full); [by destruct Hf; apply Hiff|done].
Qed.

(** C37: what a timing report of the framework comes to with the Prometheus
    reporter it configured. The context carries a start time and the route.
    [ReportTimingFromCtx] then adds one sample to the response times, with
    the elapsed time and with the labels route, status, type and code of the
    call, the tags of the context over them and the defaults of the
    additional labels under them, and [ReportMessageProcessDelayFromCtx] one
    to the delays with route and type, provided that the tags of the context
    are all among these labels and the additional ones and that the values
    are UTF-8; with any other tag in the context the report panics in the
    client library. *)
Theorem timing_reported (p0 p : PrometheusReporter) (cl add : labels) (cl' : smap) (spec : CustomMetricsSpec)
    (h : heap) (c : ctx) (l : loc) (typ route startStr : string) (err : option error) (start now : Z)
    (w : list sample) :
  registerMetrics p0 (Some cl) add spec = Ok (p, cl') ->
  Forall (fun k => add !! k = None) ["route"; "status"; "type"; "code"] ->
  ctx_map c = Some l -> map_at h (Some l) !! StartTimeKey = Some (GStr startStr) ->
  ParseInt startStr = (start, None) -> map_at h (Some l) !! RouteKey = Some (GStr route) ->
  let tags := context_tags (map_at h (Some l)) in
  let status := match err with Some _ => "failed" | None => "ok" end in
  let timing := {["route" := route; "status" := status; "type" := typ; "code" := FromError err]} in
  let delay := {["route" := route; "type" := typ]} in
  ReportTimingFromCtx h (Some c) [prom_reporter With_ok p] typ err now w =
    (if decide (fits timing tags add)
     then Ok (w ++ [mkSample ResponseTime (tags ∪ timing ∪ add) (time_sub now start)])
     else Panics (PanicMessage "inconsistent label cardinality")) /\
  ReportMessageProcessDelayFromCtx h (Some c) [prom_reporter With_ok p] typ now w =
    (if decide (fits delay tags add)
     then Ok (w ++ [mkSample ProcessDelay (tags ∪ delay ∪ add) (time_sub now start)])
     else Panics (PanicMessage "inconsistent label cardinality")).
Proof.
  intros Hr Hadd Hl Hs Hps Hrt tags status timing delay.
  destruct (summaries_registered _ _ _ _ _ _ Hr) as (Ha & (v & Hv & Hvl) & (v' & Hv' & Hvl')). rewrite <-Ha in *.
  split; [unfold ReportTimingFromCtx|unfold ReportMessageProcessDelayFromCtx];
    rewrite !(Get_map _ _ l) by done; rewrite Hs, Hrt; cbn [default from_option id mbind outcome_bind must_string];
    rewrite Hps, (getTags_map _ _ l) by done; cbn [mbind outcome_bind each_reporter prom_reporter ReportSummary]; fold tags.
  - rewrite (report_fits p ResponseTime v ["route"; "status"; "type"; "code"] timing tags w _ Hv Hvl);
      [|by apply (bool_decide_unpack _); vm_compute|unfold timing; set_solver|done].
    by case_decide.
  - rewrite (report_fits p ProcessDelay v' ["route"; "type"] delay tags w _ Hv' Hvl');
      [|by apply (bool_decide_unpack _); vm_compute|unfold delay; set_solver|].
    + by case_decide.
    + rewrite !Forall_cons in Hadd. rewrite !Forall_cons. naive_solver.
Qed.

End Accepted.

(** The exact test, for the witness. *)
Definition exact_labels (names : list string) (ls : labels) : bool :=
  bool_decide (dom ls = list_to_set names /\ map_Forall (fun _ v => Utf8.valid_string v = true) ls).

(** A call took 250ns; the context says that its region is "eu", which is an
    additional label, or that it is of the guild "g7", which is none. *)
Definition tagged (k v : string) : heap :=
  {[1%positive := {[StartTimeKey := GStr "1000"; RouteKey := GStr "chat.room.Join"; MetricTagsKey := GTags {[k := v]}]}]}.

Lemma timing_reported_witness : exists p cl',
  registerMetrics (mkProm "" "chat" ∅ ∅ ∅ ∅ ∅ []) (Some ∅) {["region" := "us"]} (mkSpec [] [] [] []) = Ok (p, cl') /\
  (exists ls, ReportTimingFromCtx (tagged "region" "eu") (Some (FromMap (Some 1%positive)))
     [prom_reporter exact_labels p] "rpc" None 1250 [] = Ok [mkSample ResponseTime ls 250] /\
     ls !! "region" = Some "eu" /\ ls !! "code" = Some (FromError None)) /\
  exists q, ReportTimingFromCtx (tagged "guild" "g7") (Some (FromMap (Some 1%positive)))
     [prom_reporter exact_labels p] "rpc" None 1250 [] = Panics q.
Proof.
  do 2 eexists. split; [reflexivity|].
  assert (forall (names : list string) (ls : labels), NoDup names -> exact_labels names ls = true <->
    dom ls = list_to_set names /\ map_Forall (fun _ v => Utf8.valid_string v = true) ls) as Hex
    by (intros; apply bool_decide_eq_true).
  split.
  - eexists. rewrite (proj1 (timing_reported exact_labels Hex (mkProm "" "chat" ∅ ∅ ∅ ∅ ∅ []) _ ∅
      {["region" := "us"]} _ (mkSpec [] [] [] []) (tagged "region" "eu") (FromMap (Some 1%positive)) 1%positive
      "rpc" "chat.room.Join" "1000" None 1000 1250 [] eq_refl ltac:(by repeat constructor) eq_refl eq_refl eq_refl eq_refl)).
    rewrite decide_True by (by apply (bool_decide_unpack _); vm_compute). split; [reflexivity|]. by vm_compute.
  - eexists. rewrite (proj1 (timing_reported exact_labels Hex (mkProm "" "chat" ∅ ∅ ∅ ∅ ∅ []) _ ∅
      {["region" := "us"]} _ (mkSpec [] [] [] []) (tagged "guild" "g7") (FromMap (Some 1%positive)) 1%positive
      "rpc" "chat.room.Join" "1000" None 1000 1250 [] eq_refl ltac:(by repeat constructor) eq_refl eq_refl eq_refl eq_refl)).
    rewrite decide_False by (intros H; apply (bool_decide_pack _) in H; by vm_compute in H). reflexivity.
Defined.

(** Metric tags do not survive an RPC: tags added to the propagated
    context label the sender's own metrics, but in the context the receiver
    decodes they are a JSON object, which [tagsFromContext] ignores. *)
Theorem metric_tags_lost_in_transport `{Json} `{!JsonLaws _}
    (h hr : heap) (c : ctx) (l : loc) (tags : labels) :
  ctx_map c = Some l -> plain_map (map_at h (Some l)) ->
  map_at h (Some l) !! MetricTagsKey = Some (GTags tags) ->
  tagsFromContext h (Some c) = Ok tags /\
  exists b hr' c', Encode h (Some c) = Ok (Some b) /\ Decode hr b = Ok (hr', Some c') /\
    tagsFromContext hr' (Some c') = Ok ∅.
Proof.
  intros Hc Hp Ht.
  assert (GetFromPropagateCtx h (Some c) MetricTagsKey = Ok (GTags tags)) as Hg
    by (rewrite (Get_map _ _ l) by done; by rewrite Ht).
  split; [unfold tagsFromContext; by rewrite Hg|].
  destruct (transport_ctx h hr c l Hc Hp) as (b & hr' & c' & He & Hd & Hk).
  { intros E. by rewrite E in Ht. }
  exists b, hr', c'. split_and!; [done..|]. unfold tagsFromContext. by rewrite (Hk _ _ Hg).
Qed.

Lemma metric_tags_lost_in_transport_witness :
  let h := ({[1%positive := {[MetricTagsKey := GTags {["k" := "v"]}]}]} : heap) in
  tagsFromContext h (Some (FromMap (Some 1%positive))) = Ok {["k" := "v"]} /\
  exists b hr' c', Encode h (Some (FromMap (Some 1%positive))) = Ok (Some b) /\
    Decode ∅ b = Ok (hr', Some c') /\ tagsFromContext hr' (Some c') = Ok ∅.
Proof.
  apply (metric_tags_lost_in_transport _ ∅ _ 1%positive); [reflexivity| |reflexivity].
  change (plain_map {[MetricTagsKey := GTags {["k" := "v"]}]}).
  intros k v [<- <-]%lookup_singleton_Some. split; [reflexivity|].
  intros k v [<- <-]%lookup_singleton_Some. split; reflexivity.
Defined.

End Metrics.
