(* ===== verification/Pipeline.v ===== *)
(** * Pipelines: [pipeline/pipeline.go], [pipeline/default] and
    [pipeline/plugin/rate_limiter.go]

    The hooks run before and after a handler, and the two hooks the
    repository ships: the struct validator and the rate limiter. *)

From S2P Require Import Prelude Errors GoStd Context Metrics.
From Stdlib Require Import Sorting.Sorted.
Local Open Scope Z_scope.
Import GoStd Metrics.

Module Pipeline.

Section Hooks.
(** The world the hooks act on, their contexts and their data. *)
Context {W C A : Type}.

(** [HandlerTempl] and [AfterHandlerTempl]. *)
Definition HandlerTempl : Type := W -> C -> A -> result (W * C * A * option error).
Definition AfterHandlerTempl : Type := W -> C -> A -> option error -> result (W * A * option error).

Record Channel := mkChannel { Handlers : list HandlerTempl }.
Record AfterChannel := mkAfterChannel { AfterHandlers : list AfterHandlerTempl }.

(** [Hooks] (embedded in [RemoteHooks]). *)
Record Hooks := mkHooks { BeforeHandler : Channel; AfterHandler : AfterChannel }.

Definition NewChannel : Channel := mkChannel [].
Definition NewAfterChannel : AfterChannel := mkAfterChannel [].
Definition NewRemoteHooks : Hooks := mkHooks NewChannel NewAfterChannel.

(** The loop of [ExecuteBeforePipeline]: it stops at the first error. *)
Fixpoint before_loop (hs : list HandlerTempl) (w : W) (ctx : C) (res : A)
  : result (W * C * A * option error) :=
  match hs with
  | [] => Ok (w, ctx, res, None)
  | h :: hs =>
      '(w, ctx, res, err) ← h w ctx res;
      match err with
      | Some _ => Ok (w, ctx, res, err)
      | None => before_loop hs w ctx res
      end
  end.

Definition ExecuteBeforePipeline (p : Channel) (w : W) (ctx : C) (data : A)
  : result (W * C * A * option error) := before_loop (Handlers p) w ctx data.

(** The loop of [ExecuteAfterPipeline]: every handler sees the result and
    the error of the previous one. *)
Fixpoint after_loop (hs : list AfterHandlerTempl) (w : W) (ctx : C) (ret : A) (err : option error)
  : result (W * A * option error) :=
  match hs with
  | [] => Ok (w, ret, err)
  | h :: hs => '(w, ret, err) ← h w ctx ret err; after_loop hs w ctx ret err
  end.

Definition ExecuteAfterPipeline (p : AfterChannel) (w : W) (ctx : C) (res : A) (err : option error)
  : result (W * A * option error) := after_loop (AfterHandlers p) w ctx res err.

Definition PushFront (p : Channel) (h : HandlerTempl) : Channel := mkChannel (h :: Handlers p).
Definition PushBack (p : Channel) (h : HandlerTempl) : Channel := mkChannel (Handlers p ++ [h]).
Definition Clear (p : Channel) : Channel := mkChannel [].
Definition AfterPushFront (p : AfterChannel) (h : AfterHandlerTempl) : AfterChannel :=
  mkAfterChannel (h :: AfterHandlers p).
Definition AfterPushBack (p : AfterChannel) (h : AfterHandlerTempl) : AfterChannel :=
  mkAfterChannel (AfterHandlers p ++ [h]).
Definition AfterClear (p : AfterChannel) : AfterChannel := mkAfterChannel [].

Lemma before_loop_app hs ks w ctx res :
  before_loop (hs ++ ks) w ctx res =
  ('(w, ctx, res, err) ← before_loop hs w ctx res;
   match err with
   | Some _ => Ok (w, ctx, res, err)
   | None => before_loop ks w ctx res
   end).
Proof.
  revert w ctx res. induction hs as [|h hs IH]; intros w ctx res; [done|].
  cbn [app before_loop]. destruct (h w ctx res) as [[[[w' c'] r'] [e|]]| |]; cbn; auto.
Qed.

Lemma before_loop_error hs ks w ctx res w' ctx' res' e :
  before_loop hs w ctx res = Ok (w', ctx', res', Some e) ->
  before_loop (hs ++ ks) w ctx res = Ok (w', ctx', res', Some e).
Proof. intros H. by rewrite before_loop_app, H. Qed.

(** The first failing hook ends the pipeline: when the hooks up to some
    point return an error, the pipeline returns exactly that error with the
    context and data of the failing hook, whatever hooks come after it, and
    those hooks have no effect; and when the hooks up to some point succeed,
    the rest runs on their result. *)
Theorem before_pipeline_short_circuit (hs : list HandlerTempl) (later : list HandlerTempl)
    (w w' : W) (ctx ctx' : C) (data data' : A) (err : option error) :
  ExecuteBeforePipeline (mkChannel hs) w ctx data = Ok (w', ctx', data', err) ->
  ExecuteBeforePipeline (mkChannel (hs ++ later)) w ctx data =
    match err with
    | Some e => Ok (w', ctx', data', Some e)
    | None => ExecuteBeforePipeline (mkChannel later) w' ctx' data'
    end.
Proof.
  unfold ExecuteBeforePipeline. cbn [Handlers]. intros H. rewrite before_loop_app, H. cbn.
  by destruct err.
Qed.

End Hooks.
Arguments HandlerTempl : clear implicits.
Arguments AfterHandlerTempl : clear implicits.
Arguments Channel : clear implicits.
Arguments AfterChannel : clear implicits.
Arguments Hooks : clear implicits.

Lemma before_pipeline_short_circuit_witness :
  let fail : HandlerTempl nat unit Z := fun w c d => Ok (S w, c, d, Some (EText "no")) in
  ExecuteBeforePipeline (mkChannel ([fail] ++ [fail])) 0%nat tt 7 =
    Ok (1%nat, tt, 7, Some (EText "no")).
Proof.
  refine (before_pipeline_short_circuit
    [fun w c d => Ok (S w, c, d, Some (EText "no"))] _ 0%nat 1%nat tt tt 7 7
    (Some (EText "no")) _). reflexivity.
Defined.

(** ** [pipeline/default]: the struct validator *)

Section Validator.
Context {W C A : Type}.
(** The go-playground validator's verdict on a value. *)
Variable validate_Struct : A -> option error.

(** [DefaultValidator.Validate]; data is nil or a value, and a failed
    validation drops it. *)
Definition Validate : HandlerTempl W C (option A) :=
  fun w ctx data =>
    match data with
    | None => Ok (w, ctx, None, None)
    | Some v =>
        match validate_Struct v with
        | Some err => Ok (w, ctx, None, Some err)
        | None => Ok (w, ctx, Some v, None)
        end
    end.
End Validator.

End Pipeline.

(** ** [pipeline/plugin]: the rate limiter *)

Module RateLimiter.
Import Pipeline.

(** The fields of the limiter that change or decide; [times] is the
    linked list, front first. *)
Record RateLimiter := mkLimiter {
  limit : Z;
  interval : Z;
  times : list Z;
  forceDisable : bool
}.

(** [NewRateLimiter]. *)
Definition NewRateLimiter (limit interval : Z) (forceDisable : bool) : RateLimiter :=
  mkLimiter limit interval [] forceDisable.

(** [shouldRateLimit]: with no slot taken and none allowed there is no front
    element to look at. *)
Definition shouldRateLimit (r : RateLimiter) (now : Z) : result (RateLimiter * bool) :=
  if Z.of_nat (length (times r)) <? limit r then
    Ok (mkLimiter (limit r) (interval r) (times r ++ [now]) (forceDisable r), false)
  else
    match times r with
    | [] => Panics NilDereference
    | front :: rest =>
        let diff := time_sub now front in
        if diff <? interval r then Ok (r, true)
        else Ok (mkLimiter (limit r) (interval r) (rest ++ [now]) (forceDisable r), false)
    end.

(** [HandleBefore] as a hook on a world with the limiter and the metrics;
    [now] is the clock. *)
Definition HandleBefore {M C A} (reporters : list (Reporter M)) (now : Z)
  : HandlerTempl (RateLimiter * M) C A :=
  fun '(r, m) ctx data =>
    '(r, limited) ← shouldRateLimit r now;
    if limited : bool then
      m ← ReportExceededRateLimiting reporters m;
      if forceDisable r then Ok ((r, m), ctx, data, Some (ESentinel ErrRateLimitExceeded))
      else Ok ((r, m), ctx, data, None)
    else Ok ((r, m), ctx, data, None).

(** *** Properties *)

(** The hook on one request after the other; a request is its arrival time,
    its context and its argument. *)
Fixpoint handle_all {M C A} (reporters : list (Reporter M)) (w : RateLimiter * M) (reqs : list (Z * C * A))
  : result ((RateLimiter * M) * list (C * A * option error)) :=
  match reqs with
  | [] => Ok (w, [])
  | (now, ctx, data) :: reqs =>
      '(w, ctx, data, err) ← HandleBefore reporters now w ctx data;
      '(w, outs) ← handle_all reporters w reqs;
      Ok (w, (ctx, data, err) :: outs)
  end.

(** What the hook is to give: the context and argument as they are, and an
    error for a request over the limit if it is to be refused. *)
Definition verdict {C A} (forceDisable : bool) (req : Z * C * A) (within : bool) : C * A * option error :=
  (req.1.2, req.2,
   if within then None else if forceDisable then Some (ESentinel ErrRateLimitExceeded) else None).

(** How many accepted requests lie in the [d] nanoseconds up to [now],
    [now] included. *)
Definition recent (d now : Z) (acc : list Z) : nat :=
  length (filter (fun t => now - d < t <= now) acc).

(** The sliding window: the limit admits a request exactly when fewer than
    [limit] requests were admitted in the last [interval]. *)
Fixpoint window_spec (limit interval : Z) (acc : list Z) (arrivals : list Z) : list bool :=
  match arrivals with
  | [] => []
  | now :: arrivals =>
      if Z.of_nat (recent interval now acc) <? limit
      then true :: window_spec limit interval (acc ++ [now]) arrivals
      else false :: window_spec limit interval acc arrivals
  end.

(** The limiter remembers the last [limit] accepted times. *)
Definition remembers (r : RateLimiter) (acc : list Z) : Prop :=
  exists old, acc = old ++ times r /\ Z.of_nat (length (times r)) <= limit r /\
    (old <> [] -> Z.of_nat (length (times r)) = limit r).

Lemma recent_app d now l k : recent d now (l ++ k) = (recent d now l + recent d now k)%nat.
Proof. unfold recent. by rewrite filter_app, length_app. Qed.

Lemma recent_le d now l : (recent d now l <= length l)%nat.
Proof. unfold recent. apply length_filter. Qed.

(** With sorted times and no request in the future, the requests of the
    window are a suffix. *)
Lemma recent_all d now l :
  Forall (fun t => now - d < t <= now) l -> recent d now l = length l.
Proof.
  intros H. unfold recent. f_equal. induction H as [|t l Ht Hl IH]; [done|].
  rewrite filter_cons, decide_True by done. by f_equal.
Qed.

Lemma recent_none d now l : Forall (fun t => t <= now - d) l -> recent d now l = 0%nat.
Proof.
  intros H. unfold recent. induction H as [|t l Ht Hl IH]; [done|].
  rewrite filter_cons, decide_False by lia. exact IH.
Qed.

Lemma sorted_bounds (x : Z) l k :
  StronglySorted Z.le (l ++ x :: k) ->
  Forall (fun t => t <= x) l /\ Forall (fun t => x <= t) k.
Proof.
  induction l as [|y l IH]; cbn; intros Hs.
  - split; [constructor|]. by inversion Hs.
  - inversion Hs as [|? ? Hs' Hy]; subst. destruct (IH Hs') as [H1 H2]. split; [|done].
    constructor; [|done]. rewrite Forall_app, Forall_cons in Hy. tauto.
Qed.

(** The test of the limiter is the test of the window. *)
Lemma test_recent r acc now :
  0 < limit r -> 0 <= interval r < 2 ^ 63 -> remembers r acc ->
  StronglySorted Z.le acc -> Forall (fun t => t <= now) acc ->
  (Z.of_nat (length (times r)) < limit r -> Z.of_nat (recent (interval r) now acc) < limit r) /\
  forall front rest, times r = front :: rest -> Z.of_nat (length (times r)) = limit r ->
    (time_sub now front < interval r <-> limit r <= Z.of_nat (recent (interval r) now acc)).
Proof.
  intros Hlim Hint (old & -> & Hle & Hold) Hs Hnow. split.
  - intros Hlt. destruct old as [|x old]; [|by rewrite Hold in Hlt; [lia|]].
    cbn [app]. pose proof (recent_le (interval r) now (times r)). lia.
  - intros front rest E Hlen. rewrite time_sub_lt by done. rewrite E in *.
    rewrite Forall_app, Forall_cons in Hnow. destruct Hnow as (_ & Hf & Hr).
    destruct (sorted_bounds _ _ _ Hs) as [Hold' Hrest].
    rewrite recent_app. split.
    + intros Hd. rewrite (recent_all _ _ (front :: rest)); [lia|].
      constructor; [lia|]. rewrite Forall_forall in Hr, Hrest |- *. intros t Ht.
      specialize (Hr t Ht). specialize (Hrest t Ht). cbn in *. lia.
    + intros Hrec. destruct (decide (now - front < interval r)) as [|Hn]; [done|]. exfalso.
      rewrite recent_none in Hrec
        by (rewrite Forall_forall in Hold' |- *; intros t Ht; specialize (Hold' t Ht); cbn in *; lia).
      unfold recent in Hrec. rewrite filter_cons, decide_False in Hrec by lia.
      pose proof (recent_le (interval r) now rest). unfold recent in *. cbn in Hlen. lia.
Qed.

Lemma remembers_step r acc now :
  0 < limit r -> 0 <= interval r < 2 ^ 63 -> remembers r acc ->
  StronglySorted Z.le acc -> Forall (fun t => t <= now) acc ->
  exists r' limited, shouldRateLimit r now = Ok (r', limited) /\
    limit r' = limit r /\ interval r' = interval r /\ forceDisable r' = forceDisable r /\
    limited = negb (Z.of_nat (recent (interval r) now acc) <? limit r) /\
    remembers r' (if limited then acc else acc ++ [now]).
Proof.
  intros Hlim Hint Hrem Hs Hnow.
  destruct (test_recent r acc now Hlim Hint Hrem Hs Hnow) as [Hroom Hfull].
  destruct Hrem as (old & -> & Hle & Hold).
  unfold shouldRateLimit. destruct (Z.ltb_spec (Z.of_nat (length (times r))) (limit r)) as [Hlt|Hge].
  - do 2 eexists. split; [done|]. split_and!; [done|done|done| |].
    + by rewrite (proj2 (Z.ltb_lt _ _)) by auto.
    + exists old. cbn. rewrite length_app, app_assoc. cbn. split_and!; [done|lia|].
      intros Ho. specialize (Hold Ho). lia.
  - destruct (times r) as [|front rest] eqn:E; [cbn in Hge; lia|].
    assert (Z.of_nat (length (front :: rest)) = limit r) as Hlen by lia.
    specialize (Hfull front rest eq_refl Hlen).
    destruct (Z.ltb_spec (time_sub now front) (interval r)) as [Hd|Hd].
    + do 2 eexists. split; [done|]. split_and!; [done|done|done| |].
      * by rewrite (proj2 (Z.ltb_ge _ _)) by (by apply Hfull).
      * exists old. by rewrite E.
    + do 2 eexists. split; [done|]. split_and!; [done|done|done| |].
      * rewrite (proj2 (Z.ltb_lt _ _)); [done|].
        destruct (Z.lt_ge_cases (Z.of_nat (recent (interval r) now (old ++ front :: rest))) (limit r));
          [done|]. exfalso. rewrite <-Hfull in *. lia.
      * exists (old ++ [front]). cbn in *. rewrite length_app. cbn.
        split_and!; [by rewrite <-!app_assoc|lia|lia].
Qed.

Lemma sorted_snoc (l : list Z) x :
  StronglySorted Z.le l -> Forall (fun t => t <= x) l -> StronglySorted Z.le (l ++ [x]).
Proof.
  intros Hs. induction Hs as [|y l Hs IH Hy]; intros Hx; cbn; [by repeat constructor|].
  inversion Hx; subst. constructor; [auto|]. rewrite Forall_app. auto.
Qed.

(** The requests a window admits, after those of [acc]. *)
Fixpoint admitted (acc arrivals : list Z) (verdicts : list bool) : list Z :=
  match arrivals, verdicts with
  | now :: arrivals, true :: verdicts => admitted (acc ++ [now]) arrivals verdicts
  | _ :: arrivals, false :: verdicts => admitted acc arrivals verdicts
  | _, _ => acc
  end.

Lemma recent_snoc_bound d t now acc :
  0 <= d -> Forall (fun x => x <= now) acc ->
  (recent d t (acc ++ [now]) <= Nat.max (recent d t acc) (S (recent d now acc)))%nat.
Proof.
  intros Hd Hacc. rewrite recent_app. unfold recent at 2. rewrite filter_cons. case_decide as Hin.
  - cbn [length filter list_filter].
    assert (recent d t acc <= recent d now acc)%nat; [|lia].
    unfold recent. induction Hacc as [|x acc Hx Hacc IH]; [done|].
    rewrite !filter_cons. repeat case_decide; cbn; lia.
  - cbn [length filter list_filter]. lia.
Qed.

Lemma window_bound arrivals limit interval : forall acc,
  0 <= interval -> StronglySorted Z.le arrivals ->
  (forall t a, t ∈ acc -> a ∈ arrivals -> t <= a) ->
  (forall t, Z.of_nat (recent interval t acc) <= limit) ->
  forall t, Z.of_nat (recent interval t
    (admitted acc arrivals (window_spec limit interval acc arrivals))) <= limit.
Proof.
  induction arrivals as [|now arrivals IH]; intros acc Hi Hs Hle Hb t; cbn; [apply Hb|].
  inversion Hs as [|? ? Hs' Ha]; subst. rewrite Forall_forall in Ha.
  destruct (Z.ltb_spec (Z.of_nat (recent interval now acc)) limit) as [Hlt|Hge].
  - apply IH; [done|done|set_solver|]. intros t'.
    pose proof (recent_snoc_bound interval t' now acc Hi ltac:(apply Forall_forall; set_solver)).
    specialize (Hb t'). lia.
  - apply IH; [done|done|set_solver|done].
Qed.

Section Hook.
Context {M C A : Type} (reporters : list (Reporter M)).
Hypothesis reports_return : forall m, exists m', ReportExceededRateLimiting reporters m = Ok m'.

(** The reports of the requests over the limit. *)
Definition reported (m : M) (verdicts : list bool) : result M :=
  for_each (fun m (_ : bool) => ReportExceededRateLimiting reporters m) m (filter (fun v => v = false) verdicts).

Lemma handle_all_window (reqs : list (Z * C * A)) : forall r m acc,
  0 < limit r -> 0 <= interval r < 2 ^ 63 -> remembers r acc ->
  StronglySorted Z.le acc -> StronglySorted Z.le (reqs.*1.*1) ->
  (forall t a, t ∈ acc -> a ∈ reqs.*1.*1 -> t <= a) ->
  let verdicts := window_spec (limit r) (interval r) acc (reqs.*1.*1) in
  exists r' m', reported m verdicts = Ok m' /\
    handle_all reporters (r, m) reqs = Ok ((r', m'), zip_with (verdict (forceDisable r)) reqs verdicts).
Proof.
  induction reqs as [|[[now ctx] data] reqs IH]; intros r m acc Hlim Hint Hrem Hacc Hs Hle;
    [do 2 eexists; by split|].
  cbn [fmap list_fmap fst snd] in *.
  assert (Forall (fun t => t <= now) acc) as Hnow by (apply Forall_forall; set_solver).
  inversion Hs as [|? ? Hs' Ha]; subst. rewrite Forall_forall in Ha.
  destruct (remembers_step r acc now) as (r1 & limited & E & Hl & Hi & Hf & Hlm & Hr'); [done..|].
  cbn [handle_all]. unfold HandleBefore at 1. rewrite E. cbn [mbind outcome_bind window_spec].
  rewrite <-Hl, <-Hi, <-Hf in *.
  destruct (Z.of_nat (recent (interval r1) now acc) <? limit r1); cbn [negb] in *; subst limited; cbn [mbind outcome_bind zip_with].
  - destruct (IH r1 m (acc ++ [now])) as (r2 & m2 & Hm & ->);
      [done|done|done|by apply sorted_snoc|done|set_solver|].
    exists r2, m2. split; [|done]. unfold reported in *. by rewrite filter_cons_False.
  - destruct (reports_return m) as [m1 Hm1]. rewrite Hm1. cbn [mbind outcome_bind].
    destruct (IH r1 m1 acc) as (r2 & m2 & Hm & Hh); [done|done|done|done|done|set_solver|].
    exists r2, m2. unfold reported in *. rewrite filter_cons_True by done. cbn [for_each]. rewrite Hm1.
    split; [done|]. unfold verdict at 1. destruct (forceDisable r1); cbn [mbind outcome_bind]; by rewrite Hh.
Qed.

(** C26: the rate limiter is exactly a sliding window: over any sequence of
    requests that come one after the other in time order, with a positive
    limit and reporters that return, the hook [HandleBefore] never fails; a
    request is within the limit if and only if fewer than [limit] requests
    were within it during the [interval] before; no window of that length,
    wherever it ends, holds more than [limit] of them. The hook refuses a
    request over the limit with the declared error when the limiter is
    configured to ([forceDisable]), lets it pass otherwise, and in both cases
    reports it; it changes neither context nor argument. *)
Theorem rate_limiter_is_window (limit interval : Z) (forceDisable : bool) (reqs : list (Z * C * A)) (m : M) :
  0 < limit -> 0 <= interval < 2 ^ 63 -> StronglySorted Z.le (reqs.*1.*1) ->
  let verdicts := window_spec limit interval [] (reqs.*1.*1) in
  (exists r m', reported m verdicts = Ok m' /\
     handle_all reporters (NewRateLimiter limit interval forceDisable, m) reqs =
       Ok ((r, m'), zip_with (verdict forceDisable) reqs verdicts)) /\
  forall t, Z.of_nat (recent interval t (admitted [] (reqs.*1.*1) verdicts)) <= limit.
Proof.
  intros Hlim Hint Hs verdicts. split.
  - apply (handle_all_window reqs (NewRateLimiter limit interval forceDisable) m []); cbn; auto.
    + exists []. cbn. split_and!; [done|lia|done].
    + constructor.
    + set_solver.
  - apply window_bound; [lia|done|set_solver|]. intros t'. cbn. lia.
Qed.

End Hook.

Lemma rate_limiter_is_window_witness :
  exists r, handle_all (A := nat) [] (NewRateLimiter 2 10 true, tt)
      [((0, tt), 1%nat); ((3, tt), 2%nat); ((5, tt), 3%nat); ((11, tt), 4%nat); ((12, tt), 5%nat)] =
    Ok ((r, tt), [(tt, 1%nat, None); (tt, 2%nat, None); (tt, 3%nat, Some (ESentinel ErrRateLimitExceeded));
                  (tt, 4%nat, None); (tt, 5%nat, Some (ESentinel ErrRateLimitExceeded))]).
Proof.
  destruct (rate_limiter_is_window (M := unit) [] ltac:(intros m; by eexists) 2 10 true
    [((0, tt), 1%nat); ((3, tt), 2%nat); ((5, tt), 3%nat); ((11, tt), 4%nat); ((12, tt), 5%nat)] tt)
    as [(r & [] & _ & H) _]; [lia|lia| |by exists r].
  cbn. repeat first [lia | constructor].
Defined.

(** A limiter configured to admit nothing does not refuse requests, it
    crashes: with a limit of zero or less the first request dereferences
    the missing front element. *)
Theorem rate_limiter_zero_panics (limit interval now : Z) (forceDisable : bool) :
  limit <= 0 ->
  shouldRateLimit (NewRateLimiter limit interval forceDisable) now = Panics NilDereference.
Proof.
  intros Hl. unfold shouldRateLimit. cbn [times NewRateLimiter length RateLimiter.limit].
  by rewrite (proj2 (Z.ltb_ge _ _)) by (cbn; lia).
Qed.

Lemma rate_limiter_zero_panics_witness :
  shouldRateLimit (NewRateLimiter 0 1000000000 true) 5 = Panics NilDereference.
Proof. apply rate_limiter_zero_panics. lia. Defined.

End RateLimiter.
