(* ===== verification/Discovery.v ===== *)
(** * Service discovery: [cluster/server.go], [cluster/info_retriever.go] and
    the server maps of [cluster/etcd_service_discovery.go]

    The state keeps the two indexes of the known servers, by id and by type,
    and the calls made on the listeners. The etcd client, the order in which
    the fetching goroutines finish and the order of a [sync.Map] traversal
    are parameters. *)

From S2P Require Import Prelude Utf8 GoJson Errors.

Module Discovery.

(** ** Servers *)

Record Server := mkServer {
  ID : string;
  Type_ : string;
  Metadata : gmap string string;
  Hostname : string
}.

#[export] Instance Server_eq_dec : EqDecision Server.
Proof. solve_decision. Defined.

(** [NewServer]; [hostname] is what [os.Hostname] returned, whose error is
    logged and leaves the name empty. *)
Definition NewServer (id serverType : string) (metadata : list (gmap string string))
    (hostname : result string) : Server :=
  mkServer id serverType (default ∅ (head metadata))
    (match hostname with Ok h => h | _ => EmptyString end).

(** encoding/json on [Server]: [json.Marshal], and [json.Unmarshal] into a
    [*Server], which the document [null] sets to nil. *)
Class ServerJson := {
  sv_marshal : Server -> result string;
  sv_unmarshal : string -> result (option Server)
}.

(** Servers all of whose strings JSON carries unchanged. *)
Definition plain_server (s : Server) : Prop :=
  Utf8.valid_string (ID s) = true /\ Utf8.valid_string (Type_ s) = true /\
  Utf8.valid_string (Hostname s) = true /\ GoJson.utf8_map (Metadata s).

Class ServerJsonLaws (J : ServerJson) := {
  sv_roundtrip s : plain_server s ->
    exists d, sv_marshal s = Ok d /\ sv_unmarshal d = Ok (Some s);
  sv_null : sv_unmarshal "null" = Ok None
}.

(** [infoRetriever]. *)
Record infoRetriever := { region : string }.
Definition NewInfoRetriever (Region : string) : infoRetriever := {| region := Region |}.
Definition Region (c : infoRetriever) : string := region c.

(** ** Configuration *)

(** [config.EtcdServiceDiscoveryConfig], durations in nanoseconds. *)
Record EtcdServiceDiscoveryConfig := {
  Endpoints : list string;
  User : string;
  Pass : string;
  DialTimeout : Z;
  Prefix : string;
  Heartbeat_TTL : Z;
  Heartbeat_Log : bool;
  SyncServers_Interval : Z;
  SyncServers_Parallelism : Z;
  Revoke_Timeout : Z;
  GrantLease_Timeout : Z;
  GrantLease_MaxRetries : Z;
  GrantLease_RetryInterval : Z;
  Shutdown_Delay : Z;
  ServerTypesBlacklist : list string
}.

(** The fields of [etcdServiceDiscovery] that [configure] sets. *)
Record settings := {
  etcdEndpoints : list string;
  etcdUser : string;
  etcdPass : string;
  etcdDialTimeout : Z;
  etcdPrefix : string;
  heartbeatTTL : Z;
  logHeartbeat : bool;
  syncServersInterval : Z;
  revokeTimeout : Z;
  grantLeaseTimeout : Z;
  grantLeaseMaxRetries : Z;
  grantLeaseInterval : Z;
  shutdownDelay : Z;
  serverTypesBlacklist : list string;
  syncServersParallelism : Z
}.

Definition configure (c : EtcdServiceDiscoveryConfig) : settings := {|
  etcdEndpoints := Endpoints c;
  etcdUser := User c;
  etcdPass := Pass c;
  etcdDialTimeout := DialTimeout c;
  etcdPrefix := Prefix c;
  heartbeatTTL := Heartbeat_TTL c;
  logHeartbeat := Heartbeat_Log c;
  syncServersInterval := SyncServers_Interval c;
  revokeTimeout := Revoke_Timeout c;
  grantLeaseTimeout := GrantLease_Timeout c;
  grantLeaseMaxRetries := GrantLease_MaxRetries c;
  grantLeaseInterval := GrantLease_RetryInterval c;
  shutdownDelay := Shutdown_Delay c;
  serverTypesBlacklist := ServerTypesBlacklist c;
  syncServersParallelism := SyncServers_Parallelism c
|}.

(** ** State *)

Inductive Action := ADD | DEL.

(** A listener is known by an identity; [calls] lists the calls made on the
    listeners, in order. *)
Abbreviation SDListener := nat.

Record etcdServiceDiscovery := mkSD {
  conf : settings;
  server : Server;
  cli : bool;
  running : bool;
  leaseID : Z;
  listeners : list SDListener;
  serverMapByType : gmap string (gmap string Server);
  serverMapByID : gmap string Server;
  stopChan_closed : bool;
  stopLeaseChan_closed : bool;
  calls : list (SDListener * Action * Server)
}.

Abbreviation sd := etcdServiceDiscovery.

Definition set_maps (s : sd) (byType : gmap string (gmap string Server))
    (byID : gmap string Server) : sd :=
  mkSD (conf s) (server s) (cli s) (running s) (leaseID s) (listeners s) byType byID
    (stopChan_closed s) (stopLeaseChan_closed s) (calls s).
Definition set_calls (s : sd) (c : list (SDListener * Action * Server)) : sd :=
  mkSD (conf s) (server s) (cli s) (running s) (leaseID s) (listeners s) (serverMapByType s)
    (serverMapByID s) (stopChan_closed s) (stopLeaseChan_closed s) c.
Definition set_run (s : sd) (client run : bool) (lease : Z) (stop stopLease : bool) : sd :=
  mkSD (conf s) (server s) client run lease (listeners s) (serverMapByType s)
    (serverMapByID s) stop stopLease (calls s).

(** [NewEtcdServiceDiscovery]; [client] tells whether a client was given. *)
Definition NewEtcdServiceDiscovery (config : EtcdServiceDiscoveryConfig) (server : Server)
    (client : bool) : sd :=
  mkSD (configure config) server client false 0 [] ∅ ∅ false false [].

Definition AddListener (s : sd) (l : SDListener) : sd :=
  mkSD (conf s) (server s) (cli s) (running s) (leaseID s) (listeners s ++ [l])
    (serverMapByType s) (serverMapByID s) (stopChan_closed s) (stopLeaseChan_closed s) (calls s).

(** ** Adding and deleting servers *)

Definition notifyListeners (s : sd) (act : Action) (sv : Server) : sd :=
  set_calls s (calls s ++ ((fun l => (l, act, sv)) <$> listeners s)).

(** The closures [addServer] and [deleteServer] run under the write lock. *)
Definition index_by_type (sv : Server) (byType : gmap string (gmap string Server))
  : gmap string (gmap string Server) :=
  let mapSvByType := default ∅ (byType !! Type_ sv) in
  <[Type_ sv := <[ID sv := sv]> mapSvByType]> byType.
Definition unindex_by_type (sv : Server) (byType : gmap string (gmap string Server))
  : gmap string (gmap string Server) :=
  match byType !! Type_ sv with
  | Some svMap => <[Type_ sv := delete (ID sv) svMap]> byType
  | None => byType
  end.

(** [addServer]: [LoadOrStore] by id, then the type index, then the
    listeners, unless the server is this one. A nil server panics. *)
Definition addServer (s : sd) (sv : option Server) : result sd :=
  match sv with
  | None => Panics NilDereference
  | Some sv =>
      match serverMapByID s !! ID sv with
      | Some _ => Ok s
      | None =>
          let s := set_maps s (index_by_type sv (serverMapByType s))
                              (<[ID sv := sv]> (serverMapByID s)) in
          Ok (if bool_decide (ID sv <> ID (server s)) then notifyListeners s ADD sv else s)
      end
  end.

Definition deleteServer (s : sd) (serverID : string) : sd :=
  match serverMapByID s !! serverID with
  | Some sv =>
      let s := set_maps s (unindex_by_type sv (serverMapByType s))
                          (delete (ID sv) (serverMapByID s)) in
      notifyListeners s DEL sv
  | None => s
  end.

(** [util.SliceContainsString]. *)
Definition SliceContainsString (slice : list string) (str : string) : bool :=
  existsb (fun value => bool_decide (value = str)) slice.

(** [deleteLocalInvalidServers]; [range] lists the keys in the order the
    traversal of the [sync.Map] visits them. *)
Definition deleteLocalInvalidServers (range : list string) (s : sd) (actualServers : list string)
  : sd :=
  foldl (fun s k => if SliceContainsString actualServers k then s else deleteServer s k) s range.

(** ** Queries *)

Definition GetServersByType (s : sd) (serverType : string) : result (gmap string Server) :=
  match serverMapByType s !! serverType with
  | Some m =>
      if bool_decide (0 < size m)%nat then Ok (map_copy_into m ∅)
      else Err (ESentinel ErrNoServersAvailableOfType)
  | None => Err (ESentinel ErrNoServersAvailableOfType)
  end.

Definition GetServer (s : sd) (id : string) : result Server :=
  match serverMapByID s !! id with
  | Some sv => Ok sv
  | None => Err (ESentinel ErrNoServerWithID)
  end.

Definition GetServers (range : list string) (s : sd) : list Server :=
  omap (fun k => serverMapByID s !! k) range.

(** ** Keys and values in etcd *)

Definition getKey (serverID serverType : string) : string :=
  "servers/" +:+ serverType +:+ "/" +:+ serverID.

(** The separator of the key, a slash. *)
Definition sep : Ascii.ascii := Ascii.ascii_of_nat 47.

Definition parseEtcdKey (key : string) : result (string * string) :=
  match str_split sep key with
  | [_; svType; svID] => Ok (svType, svID)
  | _ => Err (EText ("error parsing etcd key " +:+ key +:+ " (server name can't contain /)"))
  end.

Definition isServerTypeBlacklisted (s : sd) (svType : string) : bool :=
  existsb (fun b => bool_decide (b = svType)) (serverTypesBlacklist (conf s)).

(** A key with its value; [None] is the nil slice of a keys-only answer. *)
Record KeyValue := mkKV { kv_key : string; kv_value : option string }.

(** The etcd client: a get by prefix, keys only or not, and a get by key. *)
Class Etcd := {
  cli_get_prefix : string -> bool -> result (list KeyValue);
  cli_get : string -> result (list KeyValue)
}.

(** The choices of the Go scheduler: the order in which the goroutines of
    the parallel getter finish, and the order of a [sync.Map] traversal. *)
Class Sched := {
  completion : list (option Server) -> list (option Server);
  range_order : gmap string Server -> list string
}.
Class SchedLaws (S : Sched) := {
  completion_perm l : completion l ≡ₚ l;
  range_perm m : range_order m ≡ₚ (map_to_list m).*1
}.

Section WithServices.
Context {J : ServerJson} {E : Etcd} {Sc : Sched}.

(** [AsJSONString]. *)
Definition AsJSONString (s : Server) : string :=
  match sv_marshal s with Ok str => str | _ => EmptyString end.

Definition parseServer (value : option string) : result (option Server) :=
  sv_unmarshal (default EmptyString value).

Definition getServerFromEtcd (serverType serverID : string) : result (option Server) :=
  let svKey := getKey serverID serverType in
  match cli_get svKey with
  | Err err =>
      msg ← error_string err;
      Err (EText ("error getting server: " +:+ svKey +:+ " from etcd, error: " +:+ msg))
  | Panics p => Panics p
  | Ok [] => Err (EText ("didn't found server: " +:+ svKey +:+ " in etcd"))
  | Ok (kv :: _) => parseServer (kv_value kv)
  end.

(** ** The parallel getter *)

Record parallelGetterWork := mkWork {
  serverType : string;
  serverID : string;
  payload : option string
}.

Definition newParallelGetter (numWorkers : Z) : Z :=
  if (numWorkers <=? 0)%Z then 10%Z else numWorkers.

(** The body of a worker on one piece of work: a failure is logged. *)
Definition fetch (work : parallelGetterWork) : result (option Server) :=
  match payload work with
  | None => getServerFromEtcd (serverType work) (serverID work)
  | Some _ => parseServer (payload work)
  end.
Definition worker (res : list (option Server)) (work : parallelGetterWork)
  : result (list (option Server)) :=
  match fetch work with
  | Ok sv => Ok (res ++ [sv])
  | Err _ => Ok res
  | Panics p => Panics p
  end.

Definition waitAndGetResult (works : list parallelGetterWork) : result (list (option Server)) :=
  res ← for_each worker [] works; Ok (completion res).

(** ** Synchronisation *)

(** One key of the answer: it is skipped when it does not parse or its type
    is blacklisted; an unknown id becomes work. *)
Definition sync_key (s : sd) (firstSync : bool) (acc : list string * list parallelGetterWork)
    (kv : KeyValue) : list string * list parallelGetterWork :=
  let '(allIds, works) := acc in
  match parseEtcdKey (kv_key kv) with
  | Ok (svType, svID) =>
      if isServerTypeBlacklisted s svType && bool_decide (svID <> ID (server s)) then acc
      else
        (allIds ++ [svID],
         match serverMapByID s !! svID with
         | Some _ => works
         | None => works ++ [mkWork svType svID (if firstSync then kv_value kv else None)]
         end)
  | _ => acc
  end.

Definition SyncServers (s : sd) (firstSync : bool) : result sd :=
  kvs ← cli_get_prefix "servers/" (negb firstSync);
  let '(allIds, works) := foldl (sync_key s firstSync) ([], []) kvs in
  servers ← waitAndGetResult works;
  s ← for_each addServer s servers;
  Ok (deleteLocalInvalidServers (range_order (serverMapByID s)) s allIds).

(** ** The watcher *)

Inductive EventType := EventTypePut | EventTypeDelete.
Record Event := mkEvent { ev_type : EventType; ev_kv : KeyValue }.

(** One event of a watch response. *)
Definition watch_event (s : sd) (ev : Event) : result sd :=
  match parseEtcdKey (kv_key (ev_kv ev)) with
  | Ok (svType, svID) =>
      if isServerTypeBlacklisted s svType && bool_decide (ID (server s) <> svID) then Ok s
      else
        match ev_type ev with
        | EventTypePut =>
            match parseServer (kv_value (ev_kv ev)) with
            | Ok sv => addServer s sv
            | Err _ => Ok s
            | Panics p => Panics p
            end
        | EventTypeDelete => Ok (deleteServer s svID)
        end
  | Err _ => Ok s
  | Panics p => Panics p
  end.

Definition watch_events (s : sd) (evs : list Event) : result sd := for_each watch_event s evs.

End WithServices.

(** ** The index invariant and the abstract registry *)

(** The two indexes describe the same servers: ids are those of the servers
    they index, and a server is in the index of a type exactly when it is
    known by id and has this type. *)
Definition wf (s : sd) : Prop :=
  (forall id sv, serverMapByID s !! id = Some sv -> ID sv = id) /\
  (forall ty id sv, serverMapByType s !! ty ≫= (.!! id) = Some sv <->
                    serverMapByID s !! id = Some sv /\ Type_ sv = ty).

(** The abstract registry is the map of the known servers by id. *)
Definition reg_add (sv : Server) (m : gmap string Server) : gmap string Server :=
  match m !! ID sv with Some _ => m | None => <[ID sv := sv]> m end.

Lemma lookup_index_by_type sv byType ty id :
  index_by_type sv byType !! ty ≫= (.!! id) =
    (if bool_decide (ty = Type_ sv /\ id = ID sv) then Some sv
     else byType !! ty ≫= (.!! id)).
Proof.
  unfold index_by_type. case_bool_decide as Hd.
  - destruct Hd as [-> ->]. rewrite lookup_insert_eq. cbn. by rewrite lookup_insert_eq.
  - destruct (decide (ty = Type_ sv)) as [->|Hty].
    + rewrite lookup_insert_eq. cbn. rewrite lookup_insert_ne by naive_solver.
      destruct (byType !! Type_ sv); [done|]. cbn. apply lookup_empty.
    + by rewrite lookup_insert_ne.
Qed.

Lemma lookup_unindex_by_type sv byType ty id :
  unindex_by_type sv byType !! ty ≫= (.!! id) =
    (if bool_decide (ty = Type_ sv /\ id = ID sv) then None
     else byType !! ty ≫= (.!! id)).
Proof.
  unfold unindex_by_type. destruct (byType !! Type_ sv) as [m|] eqn:E.
  - case_bool_decide as Hd.
    + destruct Hd as [-> ->]. rewrite lookup_insert_eq. cbn. by rewrite lookup_delete_eq.
    + destruct (decide (ty = Type_ sv)) as [->|Hty].
      * rewrite lookup_insert_eq, E. cbn. by rewrite lookup_delete_ne by naive_solver.
      * by rewrite lookup_insert_ne.
  - case_bool_decide as Hd; [|done]. destruct Hd as [-> ->]. by rewrite E.
Qed.

Lemma notify_maps s act sv :
  serverMapByID (notifyListeners s act sv) = serverMapByID s /\
  serverMapByType (notifyListeners s act sv) = serverMapByType s.
Proof. done. Qed.

Lemma wf_maps s s' :
  serverMapByID s' = serverMapByID s -> serverMapByType s' = serverMapByType s -> wf s -> wf s'.
Proof. unfold wf. by intros -> ->. Qed.

Lemma addServer_wf s sv s' :
  wf s -> addServer s (Some sv) = Ok s' ->
  wf s' /\ serverMapByID s' = reg_add sv (serverMapByID s).
Proof.
  intros [Hid Hty]. unfold addServer, reg_add.
  destruct (serverMapByID s !! ID sv) as [old|] eqn:E; intros [= <-]; [done|].
  split; [|by case_bool_decide].
  eapply wf_maps with (s := set_maps s _ _); [by case_bool_decide..|]. split; cbn.
  - intros id sv'. rewrite lookup_insert_Some. naive_solver.
  - intros ty id sv'. rewrite lookup_index_by_type, lookup_insert_Some.
    case_bool_decide as Hd; [naive_solver|]. rewrite Hty. naive_solver.
Qed.

Lemma deleteServer_wf s id :
  wf s -> wf (deleteServer s id) /\ serverMapByID (deleteServer s id) = delete id (serverMapByID s).
Proof.
  intros [Hid Hty]. unfold deleteServer. destruct (serverMapByID s !! id) as [sv|] eqn:E.
  - pose proof (Hid _ _ E) as <-. split; [|done].
    eapply wf_maps with (s := set_maps s _ _); [done..|]. split; cbn.
    + intros id sv'. rewrite lookup_delete_Some. naive_solver.
    + intros ty id sv'. rewrite lookup_unindex_by_type, lookup_delete_Some.
      case_bool_decide as Hd; [naive_solver|]. rewrite Hty. split; [|tauto].
      intros [Hsv <-]. split; [|done]. split; [|done]. intros Heq. apply Hd.
      rewrite <-Heq in Hsv. rewrite E in Hsv. by injection Hsv as ->.
  - split; [done|]. by rewrite delete_id.
Qed.

Lemma addServer_total s sv : exists s', addServer s (Some sv) = Ok s'.
Proof. unfold addServer. destruct (serverMapByID s !! ID sv); eauto. Qed.

(** What no operation on the servers changes. *)
Definition same_node (s s' : sd) : Prop :=
  conf s' = conf s /\ server s' = server s /\ listeners s' = listeners s /\ running s' = running s /\
  leaseID s' = leaseID s.

#[export] Instance same_node_preorder : PreOrder same_node.
Proof.
  unfold same_node. split; [by intros ?|].
  intros ??? (?&?&?&?&?) (?&?&?&?&?). split_and!; congruence.
Qed.

Lemma addServer_same s sv s' : addServer s sv = Ok s' -> same_node s s'.
Proof.
  unfold addServer. destruct sv as [sv|]; [|done].
  destruct (serverMapByID s !! ID sv); [by intros [= <-]|].
  case_bool_decide; by intros [= <-].
Qed.

Lemma deleteServer_same s id : same_node s (deleteServer s id).
Proof. unfold deleteServer. by destruct (serverMapByID s !! id). Qed.

#[export] Hint Resolve addServer_same deleteServer_same : nrpc.

Lemma deleteLocal_same range actual : forall s, same_node s (deleteLocalInvalidServers range s actual).
Proof.
  unfold deleteLocalInvalidServers. induction range as [|k range IH]; intros s; cbn; [done|].
  destruct (SliceContainsString actual k); [done|]. etrans; [|apply IH]. auto with nrpc.
Qed.

Lemma SliceContainsString_spec l x : SliceContainsString l x = true <-> x ∈ l.
Proof.
  unfold SliceContainsString. rewrite existsb_exists. setoid_rewrite bool_decide_eq_true.
  rewrite list_elem_of_In. naive_solver.
Qed.

(** Deleting the servers not listed keeps exactly the listed ones, in
    whatever order they are visited. *)
Lemma deleteLocal_wf range actual : forall s,
  wf s ->
  wf (deleteLocalInvalidServers range s actual) /\
  forall id, serverMapByID (deleteLocalInvalidServers range s actual) !! id =
    (if bool_decide (id ∈ range /\ id ∉ actual) then None else serverMapByID s !! id).
Proof.
  induction range as [|k range IH]; intros s Hwf; cbn.
  - split; [done|]. intros id. rewrite bool_decide_eq_false_2; [done|]. set_solver.
  - destruct (SliceContainsString actual k) eqn:E.
    + apply SliceContainsString_spec in E. destruct (IH s Hwf) as [Hwf' Hl]. split; [done|].
      intros id. rewrite Hl. rewrite (bool_decide_ext (_ ∈ range /\ _) (id ∈ k :: range /\ id ∉ actual)); [done|].
      set_solver.
    + assert (k ∉ actual) by (rewrite <-SliceContainsString_spec; congruence).
      destruct (deleteServer_wf s k Hwf) as [Hwf' Hd].
      destruct (IH _ Hwf') as [Hwf'' Hl]. split; [done|].
      intros id. rewrite Hl, Hd. destruct (decide (id = k)) as [->|Hne].
      * rewrite lookup_delete_eq. rewrite (bool_decide_eq_true_2 (_ ∈ k :: _ /\ _)) by set_solver.
        by case_bool_decide.
      * rewrite lookup_delete_ne by done.
        rewrite (bool_decide_ext (_ ∈ range /\ _) (id ∈ k :: range /\ id ∉ actual)); [done|].
        set_solver.
Qed.

(** ** Keys *)

Lemma getKey_split id ty :
  str_contains sep id = false -> str_contains sep ty = false ->
  str_split sep (getKey id ty) = ["servers"; ty; id].
Proof.
  intros Hid Hty. unfold getKey.
  change ("servers/" +:+ (ty +:+ ("/" +:+ id))) with ("servers" +:+ String sep (ty +:+ String sep id)).
  rewrite str_split_cons by done. rewrite str_split_cons by done. by rewrite str_split_free.
Qed.

Lemma parse_getKey id ty :
  str_contains sep id = false -> str_contains sep ty = false ->
  parseEtcdKey (getKey id ty) = Ok (ty, id).
Proof. intros Hid Hty. unfold parseEtcdKey. by rewrite getKey_split. Qed.

(** The key of a server determines its type and id: parsing a key gives
    a type and an id exactly when the key is three slash-free segments of
    which they are the last two. So the key written for a server parses
    back to it, and no other key under the same prefix does. *)
Theorem parseEtcdKey_iff (key ty id : string) :
  parseEtcdKey key = Ok (ty, id) <->
  exists p, str_contains sep p = false /\ str_contains sep ty = false /\
    str_contains sep id = false /\ key = p +:+ String sep (ty +:+ String sep id).
Proof.
  unfold parseEtcdKey. split.
  - pose proof (str_join_split sep key) as Hj. pose proof (str_split_pieces sep key) as Hp.
    destruct (str_split sep key) as [|p [|a [|b [|]]]]; try discriminate.
    intros [= -> ->]. inversion Hp as [|? ? H1 Hp1]; subst. inversion Hp1 as [|? ? H2 Hp2]; subst.
    inversion Hp2; subst. exists p. split_and!; done.
  - intros (p & Hp & Hty & Hid & ->). rewrite str_split_cons by done.
    rewrite str_split_cons by done. by rewrite str_split_free.
Qed.

(** ** Synchronisation *)

(** The servers the node wants to know: those of types not blacklisted, and
    itself. *)
Definition visible (s : sd) (sv : Server) : bool :=
  negb (isServerTypeBlacklisted s (Type_ sv) && bool_decide (ID sv <> ID (server s))).

Section Sync.
Context `{JL : ServerJsonLaws} `{E : Etcd} `{SL : SchedLaws}.

(** The content of etcd under the prefix of the servers is the registry [m]:
    one key for each server, with its description. *)
Record etcd_holds (m : gmap string Server) (svs : list Server) : Prop := {
  holds_all : svs ≡ₚ (map_to_list m).*2;
  holds_ids : map_Forall (fun id sv => ID sv = id) m;
  holds_names sv : sv ∈ svs ->
    str_contains sep (ID sv) = false /\ str_contains sep (Type_ sv) = false /\ plain_server sv;
  holds_values : cli_get_prefix "servers/" false =
    Ok ((fun sv => mkKV (getKey (ID sv) (Type_ sv)) (Some (AsJSONString sv))) <$> svs);
  holds_keys : cli_get_prefix "servers/" true =
    Ok ((fun sv => mkKV (getKey (ID sv) (Type_ sv)) None) <$> svs);
  holds_get sv : sv ∈ svs ->
    cli_get (getKey (ID sv) (Type_ sv)) =
      Ok [mkKV (getKey (ID sv) (Type_ sv)) (Some (AsJSONString sv))]
}.

Lemma parse_AsJSON sv : plain_server sv -> parseServer (Some (AsJSONString sv)) = Ok (Some sv).
Proof.
  intros Hp. destruct (sv_roundtrip sv Hp) as (d & Hm & Hu).
  unfold parseServer, AsJSONString. cbn. by rewrite Hm.
Qed.

(** The same while etcd changes: the first answer lists the servers of [m],
    and the get of a key that follows may find another description under it,
    or nothing: [later]. *)
Record etcd_answers (m : gmap string Server) (svs : list Server) (later : Server -> option Server)
  : Prop := {
  answers_all : svs ≡ₚ (map_to_list m).*2;
  answers_ids : map_Forall (fun id sv => ID sv = id) m;
  answers_names sv : sv ∈ svs ->
    str_contains sep (ID sv) = false /\ str_contains sep (Type_ sv) = false /\ plain_server sv;
  answers_values : cli_get_prefix "servers/" false =
    Ok ((fun sv => mkKV (getKey (ID sv) (Type_ sv)) (Some (AsJSONString sv))) <$> svs);
  answers_keys : cli_get_prefix "servers/" true =
    Ok ((fun sv => mkKV (getKey (ID sv) (Type_ sv)) None) <$> svs);
  answers_same_key sv x : sv ∈ svs -> later sv = Some x ->
    ID x = ID sv /\ Type_ x = Type_ sv /\ plain_server x;
  answers_get sv : sv ∈ svs ->
    cli_get (getKey (ID sv) (Type_ sv)) =
      Ok (match later sv with
          | Some x => [mkKV (getKey (ID sv) (Type_ sv)) (Some (AsJSONString x))]
          | None => []
          end)
}.

Lemma holds_answers m svs : etcd_holds m svs -> etcd_answers m svs Some.
Proof.
  intros [H1 H2 H3 H4 H5 H6]. split; try done.
  intros sv x Hin [= <-]. destruct (H3 sv Hin) as (_ & _ & Hp). done.
Qed.

(** What the getter finds for a server of the first answer. *)
Definition found (firstSync : bool) (later : Server -> option Server) (sv : Server) : option Server :=
  if firstSync then Some sv else later sv.

Lemma found_key m svs later firstSync sv x :
  etcd_answers m svs later -> sv ∈ svs -> found firstSync later sv = Some x -> ID x = ID sv.
Proof.
  intros Hm Hin. destruct firstSync; cbn; [by intros [= <-]|]. intros Hx.
  by destruct (answers_same_key _ _ _ Hm sv x Hin Hx).
Qed.

Definition unknown (s : sd) (sv : Server) : bool :=
  visible s sv && bool_decide (serverMapByID s !! ID sv = None).
Definition work_of (firstSync : bool) (sv : Server) : parallelGetterWork :=
  mkWork (Type_ sv) (ID sv) (if firstSync then Some (AsJSONString sv) else None).

Lemma sync_keys s firstSync svs : forall ids works,
  (forall sv, sv ∈ svs -> str_contains sep (ID sv) = false /\ str_contains sep (Type_ sv) = false) ->
  foldl (sync_key s firstSync) (ids, works)
    ((fun sv => mkKV (getKey (ID sv) (Type_ sv))
                  (if firstSync then Some (AsJSONString sv) else None)) <$> svs) =
  (ids ++ (ID <$> filter (fun sv => visible s sv) svs),
   works ++ (work_of firstSync <$> filter (fun sv => unknown s sv) svs)).
Proof.
  induction svs as [|sv svs IH]; intros ids works Hn; [by rewrite !app_nil_r|].
  destruct (Hn sv ltac:(set_solver)) as [H1 H2].
  cbn [fmap list_fmap foldl]. unfold sync_key at 2. cbn [kv_key kv_value].
  rewrite parse_getKey by done. unfold unknown, visible. rewrite !filter_cons. cbn beta.
  destruct (isServerTypeBlacklisted s (Type_ sv) && bool_decide (ID sv <> ID (server s))) eqn:Ev;
    cbn [negb andb].
  - rewrite !decide_False by (by intros []). apply IH. set_solver.
  - rewrite (decide_True (P := Is_true true)) by done. rewrite IH by set_solver.
    destruct (serverMapByID s !! ID sv) eqn:Ek.
    + rewrite decide_False by (rewrite bool_decide_eq_false_2; [by intros []|done]).
      cbn. by rewrite <-!app_assoc.
    + rewrite decide_True by (by rewrite bool_decide_eq_true_2).
      cbn. rewrite <-!app_assoc. by destruct firstSync.
Qed.

Lemma workers_fetch m svs later firstSync l : forall res,
  etcd_answers m svs later -> l ⊆ svs ->
  for_each worker res (work_of firstSync <$> l) =
    Ok (res ++ (Some <$> omap (found firstSync later) l)).
Proof.
  intros res Hm. revert res. induction l as [|sv l IH]; intros res Hl; [by rewrite app_nil_r|].
  assert (sv ∈ svs) as Hsv by set_solver.
  destruct (answers_names _ _ _ Hm sv Hsv) as (_ & _ & Hp).
  cbn [fmap list_fmap for_each omap list_omap].
  assert (worker res (work_of firstSync sv) =
          Ok (res ++ (Some <$> option_list (found firstSync later sv)))) as ->.
  - unfold worker, fetch, found. destruct firstSync; cbn.
    + by rewrite parse_AsJSON.
    + unfold getServerFromEtcd. rewrite (answers_get _ _ _ Hm sv Hsv).
      destruct (later sv) as [x|] eqn:Ex; cbn [kv_value]; [|by rewrite app_nil_r].
      destruct (answers_same_key _ _ _ Hm sv x Hsv Ex) as (_ & _ & Hx). by rewrite parse_AsJSON.
  - cbn [mbind outcome_bind]. rewrite IH by set_solver.
    destruct (found firstSync later sv); cbn; by rewrite <-app_assoc.
Qed.

(** Adding a list of servers with distinct ids. *)
Lemma add_all l : forall s,
  wf s -> NoDup (ID <$> l) ->
  exists s', for_each addServer s (Some <$> l) = Ok s' /\ wf s' /\ same_node s s' /\
    forall id sv, serverMapByID s' !! id = Some sv <->
      serverMapByID s !! id = Some sv \/ (serverMapByID s !! id = None /\ sv ∈ l /\ ID sv = id).
Proof.
  induction l as [|sv l IH]; intros s Hwf Hnd; cbn [fmap list_fmap for_each].
  - exists s. split_and!; [done|done|done|]. set_solver.
  - inversion Hnd as [|? ? Hnot Hnd']; subst. destruct (addServer_total s sv) as (s1 & H1).
    destruct (addServer_wf s sv s1 Hwf H1) as [Hwf1 Hid1].
    destruct (IH s1 Hwf1 Hnd') as (s' & Hs' & Hwf' & Hsame & Hl).
    exists s'. rewrite H1. cbn [mbind outcome_bind]. split_and!; [done|done| |].
    + etrans; [by eapply addServer_same|done].
    + intros id sv'. rewrite Hl, Hid1. unfold reg_add.
      assert (forall x, x ∈ l -> ID x <> ID sv) by (intros x Hx Heq; apply Hnot; rewrite <-Heq; set_solver).
      destruct (serverMapByID s !! ID sv) eqn:Es.
      * split; [set_solver|]. intros [|(Hn & Hin & <-)]; [by left|].
        apply elem_of_cons in Hin as [->|Hin]; [congruence|]. by right.
      * rewrite lookup_insert_Some, lookup_insert_None. set_solver.
Qed.

Lemma elem_of_store m svs later id sv :
  etcd_answers m svs later -> m !! id = Some sv <-> sv ∈ svs /\ ID sv = id.
Proof.
  intros Hm. rewrite (answers_all _ _ _ Hm), list_elem_of_fmap. split.
  - intros Hl. split; [exists (id, sv); by rewrite elem_of_map_to_list|].
    by apply (answers_ids _ _ _ Hm).
  - intros [([id' sv'] & -> & Hin) <-]. apply elem_of_map_to_list in Hin. cbn.
    by rewrite (answers_ids _ _ _ Hm _ _ Hin).
Qed.

Lemma store_ids m svs later : etcd_answers m svs later -> NoDup (ID <$> svs).
Proof.
  intros Hm. rewrite (answers_all _ _ _ Hm).
  assert (ID <$> (map_to_list m).*2 = (map_to_list m).*1) as ->; [|apply NoDup_fst_map_to_list].
  rewrite <-list_fmap_compose. apply list_fmap_ext. intros i [id sv] Hi.
  apply list_elem_of_lookup_2, elem_of_map_to_list in Hi. by apply (answers_ids _ _ _ Hm).
Qed.

Lemma NoDup_ids_filter (P : Server -> Prop) `{forall sv, Decision (P sv)} l :
  NoDup (ID <$> l) -> NoDup (ID <$> filter P l).
Proof. intros Hnd. eapply sublist_NoDup; [done|]. apply fmap_sublist, sublist_filter. Qed.

(** What a synchronisation makes of the registry. *)
Definition synced_with (find : Server -> option Server) (s : sd) (m : gmap string Server)
    (id : string) : option Server :=
  sv ← m !! id;
  if visible s sv then
    match serverMapByID s !! id with Some x => Some x | None => find sv end
  else None.
Definition synced (s : sd) (m : gmap string Server) (id : string) : option Server :=
  sv ← m !! id;
  if visible s sv then Some (default sv (serverMapByID s !! id)) else None.

Lemma synced_found s m id : synced_with Some s m id = synced s m id.
Proof.
  unfold synced_with, synced. destruct (m !! id) as [sv|]; [|done]. cbn. destruct (visible s sv); [|done].
  by destruct (serverMapByID s !! id).
Qed.

Lemma waitAndGetResult_perm m svs later firstSync l :
  etcd_answers m svs later -> l ⊆ svs ->
  exists l', waitAndGetResult (work_of firstSync <$> l) = Ok (Some <$> l') /\
    l' ≡ₚ omap (found firstSync later) l.
Proof.
  intros Hm Hl. unfold waitAndGetResult. rewrite (workers_fetch m svs later) by done.
  cbn [app mbind outcome_bind].
  destruct (Permutation_map_inv _ _ (completion_perm (Some <$> omap (found firstSync later) l)))
    as (l' & Hc & Hp).
  exists l'. split; [|done]. f_equal. exact Hc.
Qed.

Lemma found_ids m svs later firstSync l :
  etcd_answers m svs later -> l ⊆ svs -> NoDup (ID <$> l) ->
  NoDup (ID <$> omap (found firstSync later) l).
Proof.
  intros Hm Hl Hnd. eapply sublist_NoDup; [exact Hnd|]. clear Hnd.
  induction l as [|sv l IH]; cbn; [done|]. specialize (IH ltac:(set_solver)).
  destruct (found firstSync later sv) as [x|] eqn:Ex; cbn; [|by apply sublist_cons].
  rewrite (found_key m svs later firstSync sv x Hm) by (set_solver || done). by apply sublist_skip.
Qed.

Lemma range_elem (m : gmap string Server) id : id ∈ range_order m <-> is_Some (m !! id).
Proof.
  rewrite (range_perm m), list_elem_of_fmap. split.
  - intros ([k x] & -> & Hin%elem_of_map_to_list). eauto.
  - intros [x Hx]. exists (id, x). by rewrite elem_of_map_to_list.
Qed.

(** The servers the getter brings are those found for the unknown ones. *)
Lemma elem_of_found s m svs later firstSync l id x :
  etcd_answers m svs later -> l ≡ₚ omap (found firstSync later) (filter (fun sv => unknown s sv) svs) ->
  x ∈ l /\ ID x = id <->
  exists sv, m !! id = Some sv /\ visible s sv = true /\ serverMapByID s !! id = None /\
    found firstSync later sv = Some x.
Proof.
  intros Hm Hl. rewrite Hl, list_elem_of_omap. unfold unknown.
  setoid_rewrite list_elem_of_filter. setoid_rewrite Is_true_true.
  setoid_rewrite andb_true_iff. setoid_rewrite bool_decide_eq_true. split.
  - intros [(sv & [[Hv Hn] Hin] & Hf) <-]. pose proof (found_key _ _ _ _ _ _ Hm Hin Hf) as ->.
    exists sv. split_and!; [|done..]. by apply (elem_of_store m svs later _ _ Hm).
  - intros (sv & Hl' & Hv & Hn & Hf). apply (elem_of_store m svs later _ _ Hm) in Hl' as [Hin <-].
    pose proof (found_key _ _ _ _ _ _ Hm Hin Hf). naive_solver.
Qed.

Lemma synced_iff s m svs later firstSync l s1 id x :
  etcd_answers m svs later -> l ≡ₚ omap (found firstSync later) (filter (fun sv => unknown s sv) svs) ->
  (forall id sv, serverMapByID s1 !! id = Some sv <->
    serverMapByID s !! id = Some sv \/ (serverMapByID s !! id = None /\ sv ∈ l /\ ID sv = id)) ->
  serverMapByID s1 !! id = Some x /\ (exists sv, m !! id = Some sv /\ visible s sv = true) <->
  synced_with (found firstSync later) s m id = Some x.
Proof.
  intros Hm Hl Hids. rewrite Hids, (elem_of_found s m svs later firstSync l id x Hm Hl). unfold synced_with.
  destruct (m !! id) as [sv|]; cbn; [|naive_solver].
  destruct (visible s sv) eqn:Ev, (serverMapByID s !! id) as [y|]; cbn; naive_solver congruence.
Qed.

Lemma SyncServers_answers s firstSync m svs later :
  wf s -> etcd_answers m svs later ->
  exists s', SyncServers s firstSync = Ok s' /\ wf s' /\ same_node s s' /\
    forall id, serverMapByID s' !! id = synced_with (found firstSync later) s m id.
Proof.
  intros Hwf Hm. unfold SyncServers.
  assert (cli_get_prefix "servers/" (negb firstSync) = Ok ((fun sv => mkKV (getKey (ID sv) (Type_ sv))
    (if firstSync then Some (AsJSONString sv) else None)) <$> svs)) as ->
    by (destruct firstSync; [apply (answers_values _ _ _ Hm)|apply (answers_keys _ _ _ Hm)]).
  cbn [mbind outcome_bind].
  rewrite sync_keys by (intros sv Hsv; destruct (answers_names _ _ _ Hm sv Hsv); tauto). cbn [app].
  assert (filter (fun sv => unknown s sv) svs ⊆ svs) as Hsub
    by (intros x; rewrite list_elem_of_filter; tauto).
  destruct (waitAndGetResult_perm m svs later firstSync _ Hm Hsub) as (l & -> & Hl).
  cbn [mbind outcome_bind].
  destruct (add_all l s Hwf) as (s1 & -> & Hwf1 & Hsame & Hids).
  { rewrite Hl. eapply found_ids; [done|done|]. eapply NoDup_ids_filter, store_ids, Hm. }
  cbn [mbind outcome_bind].
  destruct (deleteLocal_wf (range_order (serverMapByID s1))
              (ID <$> filter (fun sv => visible s sv) svs) s1 Hwf1) as [Hwf2 Hdel].
  eexists. split_and!; [done|done|etrans; [done|apply deleteLocal_same]|].
  intros id. rewrite Hdel. apply option_eq. intros sv.
  rewrite <-(synced_iff s m svs later firstSync l s1 id sv Hm Hl Hids).
  assert (id ∈ (ID <$> filter (fun sv => visible s sv) svs) <->
          exists sv, m !! id = Some sv /\ visible s sv = true) as Ha.
  { rewrite list_elem_of_fmap. setoid_rewrite list_elem_of_filter.
    setoid_rewrite (elem_of_store m svs later id _ Hm). setoid_rewrite Is_true_true. naive_solver. }
  case_bool_decide as Hd; rewrite <-Ha; [naive_solver|].
  split; [|tauto]. intros Hsv. split; [done|]. rewrite range_elem in Hd.
  destruct (decide (id ∈ (ID <$> filter (fun sv => visible s sv) svs))); [done|].
  exfalso. apply Hd. split; [|done]. eauto.
Qed.

Lemma SyncServers_spec s firstSync m svs :
  wf s -> etcd_holds m svs ->
  exists s', SyncServers s firstSync = Ok s' /\ wf s' /\ same_node s s' /\
    forall id, serverMapByID s' !! id = synced s m id.
Proof.
  intros Hwf Hm. destruct (SyncServers_answers s firstSync m svs Some Hwf (holds_answers m svs Hm))
    as (s' & Hs & Hwf' & Hsame & Hl).
  exists s'. split_and!; [done..|]. intros id. rewrite Hl, <-synced_found. unfold synced_with.
  by destruct firstSync.
Qed.


(** A server description that is the JSON document [null] takes the
    watcher down: it decodes to a nil server without an error, and adding it
    dereferences the nil pointer. *)
Theorem watch_null_panics (s : sd) (ty id : string) :
  str_contains sep ty = false -> str_contains sep id = false ->
  isServerTypeBlacklisted s ty = false ->
  watch_event s (mkEvent EventTypePut (mkKV (getKey id ty) (Some "null"))) =
    Panics NilDereference.
Proof.
  intros Hty Hid Hb. unfold watch_event. cbn [ev_kv kv_key kv_value ev_type].
  rewrite parse_getKey by done. rewrite Hb. unfold parseServer. cbn. by rewrite sv_null.
Qed.

End Sync.

(** ** Whole steps *)

Section Reach.
Context `{J : ServerJson}.

(** The node handles a batch of watch events, or synchronises, whatever etcd
    answers and however goroutines and traversals are scheduled. *)
Inductive step : sd -> sd -> Prop :=
| step_watch evs s s' : watch_events s evs = Ok s' -> step s s'
| step_sync (E : Etcd) (S : Sched) firstSync s s' :
    SyncServers s firstSync = Ok s' -> step s s'.

(** A node before it is initialised: its listeners are registered. *)
Definition fresh_node (config : EtcdServiceDiscoveryConfig) (self : Server) (client : bool)
    (ls : list SDListener) : sd :=
  foldl AddListener (NewEtcdServiceDiscovery config self client) ls.

(** Every step is a composition of additions and deletions of servers. *)
Lemma step_ind_ops (P : sd -> Prop) s s' :
  (forall s sv s', P s -> addServer s (Some sv) = Ok s' -> P s') ->
  (forall s id, P s -> P (deleteServer s id)) ->
  step s s' -> P s -> P s'.
Proof.
  intros Hadd Hdel Hs HP.
  assert (forall s sv s', P s -> addServer s sv = Ok s' -> P s') as Hadd'
    by (intros ? [sv|] ?; [apply Hadd|done]).
  destruct Hs as [evs s s' Hw|E S firstSync s s' Hy].
  - eapply for_each_invariant; [|exact HP|exact Hw]. clear -Hadd' Hdel.
    intros s ev s' HP. unfold watch_event.
    destruct (parseEtcdKey _) as [[ty id]| |]; [|by intros [= <-]|done].
    destruct (_ && _); [by intros [= <-]|]. destruct (ev_type ev).
    + destruct (parseServer _) as [sv| |]; [by apply Hadd'|by intros [= <-]|done].
    + intros [= <-]. auto.
  - unfold SyncServers in Hy. outcome_inv. destruct (foldl _ _ _) as [allIds works]. outcome_inv.
    match goal with H : for_each addServer s _ = Ok ?s1 |- _ =>
      assert (P s1) as HP1 by (eapply for_each_invariant; [|exact HP|exact H]; eauto) end.
    unfold deleteLocalInvalidServers. clear -HP1 Hdel.
    match goal with |- P (foldl _ ?s ?r) => revert HP1; generalize s, r end.
    intros s r. revert s. induction r as [|k r IH]; intros s HP; cbn; [done|].
    apply IH. destruct (SliceContainsString _ _); auto.
Qed.

Lemma fresh_node_fields config self client ls :
  let s := fresh_node config self client ls in
  serverMapByID s = ∅ /\ serverMapByType s = ∅ /\ calls s = [] /\ server s = self /\
  listeners s = ls.
Proof.
  unfold fresh_node. assert (forall ls s, let s' := foldl AddListener s ls in
    serverMapByID s' = serverMapByID s /\ serverMapByType s' = serverMapByType s /\
    calls s' = calls s /\ server s' = server s /\ listeners s' = listeners s ++ ls) as Hf.
  { clear. induction ls as [|l ls IH]; intros s; cbn; [by rewrite app_nil_r|].
    destruct (IH (AddListener s l)) as (-> & -> & -> & -> & ->). cbn. by rewrite <-app_assoc. }
  apply (Hf ls (NewEtcdServiceDiscovery config self client)).
Qed.

Lemma wf_empty s : serverMapByID s = ∅ -> serverMapByType s = ∅ -> wf s.
Proof.
  intros H1 H2. unfold wf. rewrite H1, H2. split; intros *; rewrite !lookup_empty; naive_solver.
Qed.

(** The servers of a type, from the abstract registry. *)
Definition of_type (ty : string) (m : gmap string Server) : gmap string Server :=
  filter (fun '(_, sv) => Type_ sv = ty) m.

Lemma GetServersByType_spec s ty :
  wf s ->
  GetServersByType s ty =
    (if decide (of_type ty (serverMapByID s) = ∅) then Err (ESentinel ErrNoServersAvailableOfType)
     else Ok (of_type ty (serverMapByID s))).
Proof.
  intros [Hid Hty]. unfold GetServersByType.
  assert (default ∅ (serverMapByType s !! ty) = of_type ty (serverMapByID s)) as Hm.
  { apply map_eq. intros id. apply option_eq. intros sv. unfold of_type.
    rewrite map_lookup_filter_Some, <-Hty.
    destruct (serverMapByType s !! ty); [done|]. cbn. by rewrite lookup_empty. }
  destruct (serverMapByType s !! ty) as [m|]; cbn in Hm; rewrite <-Hm.
  - rewrite map_copy_into_union, (right_id_L ∅ (∪)). case_bool_decide as Hs; case_decide as He;
      [|done|done|]; exfalso; [rewrite He, map_size_empty in Hs; lia|].
    apply He, map_size_empty_inv. lia.
  - by rewrite decide_True.
Qed.

(** ** What a listener sees *)

(** The servers a listener knows after the calls made on it. *)
Definition apply_call (act : Action) (sv : Server) (m : gmap string Server) : gmap string Server :=
  match act with ADD => <[ID sv := sv]> m | DEL => delete (ID sv) m end.
Definition replay (l : SDListener) (c : list (SDListener * Action * Server))
  : gmap string Server :=
  foldl (fun m '(l', act, sv) => if decide (l' = l) then apply_call act sv m else m) ∅ c.

Lemma apply_call_idemp act sv m : apply_call act sv (apply_call act sv m) = apply_call act sv m.
Proof. destruct act; cbn; [apply insert_insert_eq|apply delete_delete_eq]. Qed.

Lemma replay_notify s act sv l :
  l ∈ listeners s ->
  replay l (calls (notifyListeners s act sv)) = apply_call act sv (replay l (calls s)).
Proof.
  intros Hl. unfold replay. cbn. rewrite foldl_app. generalize (foldl (fun m '(l', act, sv) =>
    if decide (l' = l) then apply_call act sv m else m) ∅ (calls s)). intros m.
  assert (forall ls m, foldl (fun m '(l', act, sv) => if decide (l' = l) then apply_call act sv m
    else m) m ((fun l => (l, act, sv)) <$> ls) = if decide (l ∈ ls) then apply_call act sv m else m) as ->.
  { clear. induction ls as [|l' ls IH]; intros m; cbn; [done|]. rewrite IH.
    repeat case_decide; subst; try set_solver. apply apply_call_idemp. }
  by rewrite decide_True.
Qed.

Definition listener_ok (l : SDListener) (s : sd) : Prop :=
  wf s /\ l ∈ listeners s /\ replay l (calls s) = delete (ID (server s)) (serverMapByID s).

Lemma listener_add l s sv s' :
  listener_ok l s -> addServer s (Some sv) = Ok s' -> listener_ok l s'.
Proof.
  intros (Hwf & Hl & Hv) Ha. destruct (addServer_wf s sv s' Hwf Ha) as [Hwf' Hid].
  destruct (addServer_same _ _ _ Ha) as (_ & Hsv & Hls & _).
  split_and!; [done|by rewrite Hls|]. rewrite Hid, Hsv. unfold addServer, reg_add in *.
  destruct (serverMapByID s !! ID sv); [by injection Ha as <-|].
  case_bool_decide as Hself; injection Ha as <-.
  - rewrite replay_notify by done. cbn [calls set_maps server apply_call] in *.
    rewrite Hv. by rewrite delete_insert_ne.
  - cbn [calls set_maps server] in *. rewrite Hv, Hself. by rewrite delete_insert_eq.
Qed.

Lemma listener_delete l s id : listener_ok l s -> listener_ok l (deleteServer s id).
Proof.
  intros (Hwf & Hl & Hv). destruct (deleteServer_wf s id Hwf) as [Hwf' Hid].
  destruct (deleteServer_same s id) as (_ & Hsv & Hls & _).
  split_and!; [done|by rewrite Hls|]. rewrite Hid, Hsv. unfold deleteServer.
  destruct (serverMapByID s !! id) as [sv|] eqn:E.
  - rewrite replay_notify by done. cbn [calls set_maps server apply_call]. rewrite Hv.
    rewrite (proj1 Hwf _ _ E). apply delete_delete.
  - by rewrite Hv, (delete_id (serverMapByID s) id).
Qed.

End Reach.

(** ** encoding/json on [Server]

    The texts of errors are arguments. *)

Section Go.
Import GoJson.
Variable syntax_text type_text : string -> string.

(** The fields in the order of the struct, under the names of their tags. *)
Definition server_json (s : Server) : json :=
  JObj [("id", JStr (ID s)); ("type", JStr (Type_ s));
        ("metadata", JObj (sorted (string_members (Metadata s)))); ("hostname", JStr (Hostname s))].

(** [foldName]: names are matched without regard to case, and U+017F and
    U+212A are cases of s and k. *)
Definition fold_code (a : Z) : Z := if (65 <=? a)%Z && (a <=? 90)%Z then (a + 32)%Z else a.
Fixpoint fold_codes (l : list Z) : list Z :=
  match l with
  | [] => []
  | a :: l1 =>
      match l1 with
      | b :: l2 =>
          if (a =? 197)%Z && (b =? 191)%Z then 115%Z :: fold_codes l2
          else match l2 with
               | c :: l3 =>
                   if (a =? 226)%Z && (b =? 132)%Z && (c =? 170)%Z then 107%Z :: fold_codes l3
                   else fold_code a :: fold_codes l1
               | [] => fold_code a :: fold_codes l1
               end
      | [] => [fold_code a]
      end
  end.
Definition foldName (k : string) : string := Utf8.string_of (fold_codes (Utf8.codes k)).

(** A string field: [null] leaves it, any other type is an error. *)
Definition string_field (old : string) (j : json) : option string :=
  match j with JStr s => Some s | JNull => Some old | _ => None end.

(** The metadata: members are added to the map it has; a member that is
    [null] is the empty string. *)
Fixpoint metadata_members (m : gmap string string) (l : list (string * json))
  : option (gmap string string) :=
  match l with
  | [] => Some m
  | (k, j) :: l =>
      match string_field EmptyString j with
      | Some v => metadata_members (<[k := v]> m) l
      | None => None
      end
  end.
Definition metadata_field (m : gmap string string) (j : json) : option (gmap string string) :=
  match j with JObj l => metadata_members m l | JNull => Some ∅ | _ => None end.

(** One member of the document; a name that is no field is skipped. *)
Definition store_field (s : Server) (kj : string * json) : option Server :=
  let name := foldName kj.1 in
  if decide (name = "id") then
    (fun v => mkServer v (Type_ s) (Metadata s) (Hostname s)) <$> string_field (ID s) kj.2
  else if decide (name = "type") then
    (fun v => mkServer (ID s) v (Metadata s) (Hostname s)) <$> string_field (Type_ s) kj.2
  else if decide (name = "metadata") then
    (fun v => mkServer (ID s) (Type_ s) v (Hostname s)) <$> metadata_field (Metadata s) kj.2
  else if decide (name = "hostname") then
    (fun v => mkServer (ID s) (Type_ s) (Metadata s) v) <$> string_field (Hostname s) kj.2
  else Some s.

Fixpoint store_fields (s : Server) (l : list (string * json)) : option Server :=
  match l with
  | [] => Some s
  | kj :: l => match store_field s kj with Some s => store_fields s l | None => None end
  end.

Definition go_server_json : ServerJson := {|
  sv_marshal s := Ok (Utf8.string_of (print (server_json s)));
  sv_unmarshal d :=
    match parse (Utf8.codes d) with
    | None => Err (EText (syntax_text d))
    | Some JNull => Ok None
    | Some (JObj l) =>
        match store_fields (mkServer EmptyString EmptyString ∅ EmptyString) l with
        | Some s => Ok (Some s)
        | None => Err (EText (type_text d))
        end
    | Some _ => Err (EText (type_text d))
    end
|}.

Lemma metadata_members_union m l :
  NoDup l.*1 -> metadata_members m (prod_map id JStr <$> l) = Some (list_to_map l ∪ m).
Proof.
  revert m. induction l as [|[k v] l IH]; intros m Hl; [cbn; by rewrite (left_id_L ∅ (∪))|].
  cbn in Hl. apply NoDup_cons in Hl as [Hk Hl]. cbn. rewrite IH by done. f_equal.
  rewrite <-insert_union_r by (by apply not_elem_of_list_to_map). by rewrite insert_union_l.
Qed.

Lemma metadata_back m : metadata_field ∅ (JObj (sorted (string_members m))) = Some m.
Proof.
  assert (exists l, l ≡ₚ map_to_list m /\ sorted (string_members m) = prod_map id JStr <$> l)
    as (l & Hl & E).
  { pose proof (sorted_perm (string_members m)) as Hp. unfold string_members in Hp at 2.
    rewrite map_to_list_fmap in Hp. apply Permutation_map_inv in Hp as (l & E & Hl).
    exists l. split; [by symmetry|exact E]. }
  cbn [metadata_field]. rewrite E, metadata_members_union.
  - rewrite (right_id_L ∅ (∪)). f_equal. etransitivity; [|apply list_to_map_to_list].
    symmetry. apply list_to_map_proper; [apply NoDup_fst_map_to_list|by symmetry].
  - rewrite Hl. apply NoDup_fst_map_to_list.
Qed.

Lemma store_server s :
  store_fields (mkServer EmptyString EmptyString ∅ EmptyString)
    [("id", JStr (ID s)); ("type", JStr (Type_ s));
     ("metadata", JObj (sorted (string_members (Metadata s)))); ("hostname", JStr (Hostname s))] = Some s.
Proof.
  set (j := JObj _). destruct s as [i t m h]. cbn [ID Type_ Metadata Hostname] in *.
  assert (store_field (mkServer i t ∅ EmptyString) ("metadata", j) = Some (mkServer i t m EmptyString)) as E.
  { unfold store_field. change (foldName _) with "metadata". cbn [decide]. subst j.
    rewrite !decide_False, decide_True by done. cbn [Metadata snd]. by rewrite metadata_back. }
  change (match store_field (mkServer i t ∅ EmptyString) ("metadata", j) with
          | Some s => store_fields s [("hostname", JStr h)] | None => None end = Some (mkServer i t m h)).
  by rewrite E.
Qed.

#[export] Instance go_server_json_laws : ServerJsonLaws go_server_json.
Proof.
  split; [|done]. intros s (Hi & Ht & Hh & Hm). eexists. split; [reflexivity|].
  cbn [sv_unmarshal go_server_json]. rewrite Utf8.codes_string_of by apply print_range.
  rewrite parse_print.
  - unfold server_json. by rewrite store_server.
  - cbn -[Utf8.valid_string]. rewrite Hi, Ht, Hh. pose proof (wf_strings _ Hm) as Hw.
    cbn [wf_json] in Hw. by rewrite Hw.
  - pose proof (depth_strings (Metadata s)). unfold server_json.
    cbn [depth fmap list_fmap foldr snd] in *. unfold maxNestingDepth. lia.
Qed.

(** A server is found as it was announced: what [parseServer] reads from
    the JSON text of a server, written and parsed byte by byte the way
    encoding/json does, is the server, for all servers whose strings are valid
    UTF-8, quotes, control characters, HTML characters and any metadata
    included; so no two of them have the same text. *)
Theorem server_string_roundtrip (s s' : Server) :
  plain_server s -> plain_server s' ->
  parseServer (J := go_server_json) (Some (AsJSONString (J := go_server_json) s)) = Ok (Some s) /\
  (AsJSONString (J := go_server_json) s = AsJSONString (J := go_server_json) s' -> s = s').
Proof.
  assert (forall s, plain_server s ->
    parseServer (J := go_server_json) (Some (AsJSONString (J := go_server_json) s)) = Ok (Some s)) as H.
  { intros x Hx. destruct (sv_roundtrip (J := go_server_json) x Hx) as (d & Hd & Hu). unfold AsJSONString. by rewrite Hd. }
  intros Hs Hs'. split; [by apply H|]. intros E. apply H in Hs, Hs'. rewrite E in Hs. congruence.
Qed.

End Go.

(** ** Concrete services, for the witnesses *)

#[export] Instance ex_server_json : ServerJson :=
  go_server_json (fun _ => "invalid character") (fun _ => "cannot unmarshal").
#[export] Instance ex_server_json_laws : ServerJsonLaws ex_server_json := go_server_json_laws _ _.

Definition in_order : Sched := {| completion l := l; range_order m := (map_to_list m).*1 |}.
#[export] Instance in_order_laws : SchedLaws in_order.
Proof. by split. Qed.

(** An etcd that holds these servers. *)
Definition etcd_of (svs : list Server) : Etcd := {|
  cli_get_prefix _ keysOnly :=
    Ok ((fun sv => mkKV (getKey (ID sv) (Type_ sv))
          (if keysOnly then None else Some (AsJSONString sv))) <$> svs);
  cli_get key := Ok ((fun sv => mkKV (getKey (ID sv) (Type_ sv)) (Some (AsJSONString sv))) <$>
    filter (fun sv => getKey (ID sv) (Type_ sv) = key) svs)
|}.

Definition ex_config : EtcdServiceDiscoveryConfig := {|
  Endpoints := ["localhost:2379"]; User := EmptyString; Pass := EmptyString;
  DialTimeout := 5000000000; Prefix := "nrpc/"; Heartbeat_TTL := 60000000000;
  Heartbeat_Log := false; SyncServers_Interval := 120000000000; SyncServers_Parallelism := 10;
  Revoke_Timeout := 5000000000; GrantLease_Timeout := 60000000000; GrantLease_MaxRetries := 15;
  GrantLease_RetryInterval := 5000000000; Shutdown_Delay := 300000000;
  ServerTypesBlacklist := ["bot"]
|}.
Definition sv_game := mkServer "g1" "game" ∅ "h1".
Definition sv_chat := mkServer "c1" "chat" ∅ "h2".
Definition sv_bot := mkServer "b1" "bot" ∅ "h3".
Definition ex_store : gmap string Server := {["g1" := sv_game; "c1" := sv_chat; "b1" := sv_bot]}.
Definition ex_node : sd := fresh_node ex_config sv_game true [7%nat].

Lemma ex_holds : etcd_holds (E := etcd_of (map_to_list ex_store).*2) ex_store (map_to_list ex_store).*2.
Proof.
  split; [done|by apply (bool_decide_unpack _); vm_compute| |done|done|].
  - intros sv Hsv. assert (sv ∈ [sv_game; sv_chat; sv_bot]) as H.
    { revert Hsv. vm_compute. set_solver. }
    repeat (apply elem_of_cons in H as [->|H]; [by repeat split|]). by apply elem_of_nil in H.
  - intros sv Hsv. assert (sv ∈ [sv_game; sv_chat; sv_bot]) as H.
    { revert Hsv. vm_compute. set_solver. }
    repeat (apply elem_of_cons in H as [->|H]; [by vm_compute|]). by apply elem_of_nil in H.
Qed.

Lemma ex_node_wf : wf ex_node.
Proof. apply wf_empty; reflexivity. Qed.


Lemma server_string_roundtrip_witness :
  parseServer (Some (AsJSONString (mkServer "g<1>" "game" {["id" := "g<1>"]} "h1"))) =
    Ok (Some (mkServer "g<1>" "game" {["id" := "g<1>"]} "h1")).
Proof.
  refine (proj1 (server_string_roundtrip _ _ (mkServer "g<1>" "game" {["id" := "g<1>"]} "h1") sv_game _ _)).
  - split_and!; [reflexivity..|]. intros k v. cbn. rewrite lookup_singleton_Some. intros [<- <-]. by split.
  - by repeat split.
Defined.

Lemma watch_null_panics_witness :
  watch_event ex_node (mkEvent EventTypePut (mkKV (getKey "c2" "chat") (Some "null"))) =
    Panics NilDereference.
Proof. by apply watch_null_panics. Defined.

End Discovery.
