(* ===== verification/Watching.v ===== *)
(** * The goroutines of a service discovery

    The registry of a node is changed by the goroutine of
    [watchEtcdChanges] and by the goroutines that call [SyncServers]
    ([cluster/etcd_service_discovery.go]). Here each of them moves by single
    actions: a message of the channel [syncServersRunning], an answer of
    etcd, one key of a list, one [Load], [LoadOrStore] or [Delete] of the
    [sync.Map], one update of the index by type under its lock, one call of
    a listener. In between the others move. *)

From S2P Require Import Prelude Utf8 Errors Discovery.
Import Discovery.

Module Watching.

(** ** Updates, action by action *)

(** What is left to do of an [addServer] that has stored its server by id,
    and of a [deleteServer] that has loaded it. *)
Inductive update :=
| Indexing (sv : Server)
| Deleting (sv : Server)
| Unindexing (sv : Server)
| Notifying (act : Action) (sv : Server) (ls : list SDListener).

Definition begin_add (sv : Server) (s : sd) : option update * sd :=
  match serverMapByID s !! ID sv with
  | Some _ => (None, s)
  | None => (Some (Indexing sv), set_maps s (serverMapByType s) (<[ID sv := sv]> (serverMapByID s)))
  end.

Definition begin_delete (serverID : string) (s : sd) : option update * sd :=
  match serverMapByID s !! serverID with
  | Some sv => (Some (Deleting sv), s)
  | None => (None, s)
  end.

Definition update_next (u : update) (s : sd) : option update * sd :=
  match u with
  | Indexing sv =>
      (if bool_decide (ID sv <> ID (server s)) then Some (Notifying ADD sv (listeners s)) else None,
       set_maps s (index_by_type sv (serverMapByType s)) (serverMapByID s))
  | Deleting sv => (Some (Unindexing sv), set_maps s (serverMapByType s) (delete (ID sv) (serverMapByID s)))
  | Unindexing sv =>
      (Some (Notifying DEL sv (listeners s)),
       set_maps s (unindex_by_type sv (serverMapByType s)) (serverMapByID s))
  | Notifying act sv (l :: ls) => (Some (Notifying act sv ls), set_calls s (calls s ++ [(l, act, sv)]))
  | Notifying act sv [] => (None, s)
  end.

(** The rest of an update at once. *)
Definition complete (u : option update) (s : sd) : sd :=
  match u with
  | None => s
  | Some (Indexing sv) =>
      let s := set_maps s (index_by_type sv (serverMapByType s)) (serverMapByID s) in
      if bool_decide (ID sv <> ID (server s)) then notifyListeners s ADD sv else s
  | Some (Deleting sv) =>
      notifyListeners (set_maps s (unindex_by_type sv (serverMapByType s)) (delete (ID sv) (serverMapByID s))) DEL sv
  | Some (Unindexing sv) =>
      notifyListeners (set_maps s (unindex_by_type sv (serverMapByType s)) (serverMapByID s)) DEL sv
  | Some (Notifying act sv ls) => set_calls s (calls s ++ ((fun l => (l, act, sv)) <$> ls))
  end.

Lemma set_calls_id s : set_calls s (calls s) = s.
Proof. by destruct s. Qed.

Lemma begin_add_complete sv s u s' : begin_add sv s = (u, s') -> addServer s (Some sv) = Ok (complete u s').
Proof. unfold begin_add, addServer. destruct (serverMapByID s !! ID sv); intros [= <- <-]; done. Qed.

Lemma begin_delete_complete id s u s' : begin_delete id s = (u, s') -> deleteServer s id = complete u s'.
Proof. unfold begin_delete, deleteServer. destruct (serverMapByID s !! id); intros [= <- <-]; done. Qed.

(** An action of an update leaves what the update comes to. *)
Lemma update_next_complete u s u' s' : update_next u s = (u', s') -> complete u' s' = complete (Some u) s.
Proof.
  destruct u as [sv|sv|sv|act sv [|l ls]]; cbn [update_next]; intros [= <- <-].
  - cbn. by destruct (bool_decide _).
  - done.
  - done.
  - cbn. by rewrite app_nil_r, set_calls_id.
  - cbn. unfold set_calls. cbn. by rewrite <-app_assoc.
Qed.

(** ** The goroutines *)

Section Goroutines.
Context `{J : ServerJson}.

(** The watcher: in its [select], in the loop that waits for a
    synchronisation to end, handling the events of a response, returned. *)
Inductive watching := WSelect | WAwait | WEvents (evs : list Event) (u : option update) | WReturned.

(** A synchronisation, after it has announced itself: to list the keys, at a
    key of the list, adding the servers it got, deleting servers, about to
    announce its end. *)
Inductive phase :=
| Listing
| Gathering (kvs : list KeyValue) (allIds : list string) (works : list parallelGetterWork)
| Adding (servers : list (option Server)) (u : option update) (allIds : list string)
| Ranging (range : list string) (u : option update) (allIds : list string)
| Ending.

(** What etcd answers to a synchronisation and how its getter and its
    traversal are scheduled. *)
Record sync := mkSync { answers : Etcd; sched : Sched; first : bool; at_phase : phase }.

(** One event: the update it begins, or nothing when it is ignored. A
    server that is nil ends the process. *)
Definition event_next (ev : Event) (s : sd) : option (option update * sd) :=
  match parseEtcdKey (kv_key (ev_kv ev)) with
  | Ok (svType, svID) =>
      if isServerTypeBlacklisted s svType && bool_decide (ID (server s) <> svID) then Some (None, s)
      else
        match ev_type ev with
        | EventTypePut =>
            match parseServer (kv_value (ev_kv ev)) with
            | Ok (Some sv) => Some (begin_add sv s)
            | Ok None => None
            | Err _ => Some (None, s)
            | Panics _ => None
            end
        | EventTypeDelete => Some (begin_delete svID s)
        end
  | Err _ => Some (None, s)
  | Panics _ => None
  end.

(** The next action of the watcher on a response, and of a
    synchronisation. *)
Definition watch_next (evs : list Event) (u : option update) (s : sd)
  : option (list Event * option update * sd) :=
  match u, evs with
  | Some u, _ => let '(u, s) := update_next u s in Some (evs, u, s)
  | None, ev :: evs => '(u, s) ← event_next ev s; Some (evs, u, s)
  | None, [] => None
  end.

Definition sync_next (y : sync) (s : sd) : option (phase * sd) :=
  match at_phase y with
  | Listing =>
      match @cli_get_prefix (answers y) "servers/" (negb (first y)) with
      | Ok kvs => Some (Gathering kvs [] [], s)
      | Err _ => Some (Ending, s)
      | Panics _ => None
      end
  | Gathering (kv :: kvs) allIds works =>
      let '(allIds, works) := sync_key s (first y) (allIds, works) kv in Some (Gathering kvs allIds works, s)
  | Gathering [] allIds works =>
      match waitAndGetResult (E := answers y) (Sc := sched y) works with
      | Ok servers => Some (Adding servers None allIds, s)
      | Err _ => Some (Ending, s)
      | Panics _ => None
      end
  | Adding servers (Some u) allIds => let '(u, s) := update_next u s in Some (Adding servers u allIds, s)
  | Adding (Some sv :: servers) None allIds =>
      let '(u, s) := begin_add sv s in Some (Adding servers u allIds, s)
  | Adding (None :: _) None _ => None
  | Adding [] None allIds => Some (Ranging (@range_order (sched y) (serverMapByID s)) None allIds, s)
  | Ranging range (Some u) allIds => let '(u, s) := update_next u s in Some (Ranging range u allIds, s)
  | Ranging (k :: range) None allIds =>
      if SliceContainsString allIds k then Some (Ranging range None allIds, s)
      else let '(u, s) := begin_delete k s in Some (Ranging range u allIds, s)
  | Ranging [] None _ => Some (Ending, s)
  | Ending => None
  end.

(** A node: its registry, the field [running], the watcher and the
    synchronisations in progress. *)
Record node := mkNode { reg : sd; up : bool; watcher : watching; syncs : list sync }.

(** The test of [running] in front of the [select]. *)
Definition again (m : node) : watching := if up m then WSelect else WReturned.

(** A synchronisation announces its start to the watcher, moves, announces
    its end; the watcher gets a response, moves, comes back to its [select];
    its watch is closed, which may make another one; it is stopped; another
    goroutine sets [running]. *)
Inductive step : node -> node -> Prop :=
| sync_starts m E Sc firstSync : watcher m = WSelect \/ watcher m = WAwait ->
    step m (mkNode (reg m) (up m) WAwait (syncs m ++ [mkSync E Sc firstSync Listing]))
| sync_moves m i y ph s : syncs m !! i = Some y -> sync_next y (reg m) = Some (ph, s) ->
    step m (mkNode s (up m) (watcher m) (<[i := mkSync (answers y) (sched y) (first y) ph]> (syncs m)))
| sync_ends m i y : watcher m = WSelect \/ watcher m = WAwait -> syncs m !! i = Some y -> at_phase y = Ending ->
    step m (mkNode (reg m) (up m) (again m) (delete i (syncs m)))
| watch_gets m evs : watcher m = WSelect -> step m (mkNode (reg m) (up m) (WEvents evs None) (syncs m))
| watch_moves m evs u evs' u' s : watcher m = WEvents evs u -> watch_next evs u (reg m) = Some (evs', u', s) ->
    step m (mkNode s (up m) (WEvents evs' u') (syncs m))
| watch_handled m : watcher m = WEvents [] None -> step m (mkNode (reg m) (up m) (again m) (syncs m))
| watch_closed m : watcher m = WSelect -> step m (mkNode (reg m) (up m) (again m) (syncs m))
| watch_stops m : watcher m = WSelect -> step m (mkNode (reg m) (up m) WReturned (syncs m))
| sets_running m b : step m (mkNode (reg m) b (watcher m) (syncs m)).

(** Steps after which at most one synchronisation is in progress. *)
Definition sole (m m' : node) : Prop := step m m' /\ (length (syncs m') <= 1)%nat.

Definition initial (s : sd) : node := mkNode s true WSelect [].

(** The update that is half done, when synchronisations do not overlap, and
    the id it is about. *)
Definition phase_update (ph : phase) : option update :=
  match ph with Adding _ u _ | Ranging _ u _ => u | _ => None end.
Definition half_done (m : node) : option update :=
  match watcher m, syncs m with
  | WEvents _ u, _ => u
  | _, y :: _ => phase_update (at_phase y)
  | _, [] => None
  end.
Definition changing (u : update) : string :=
  match u with Indexing sv | Deleting sv | Unindexing sv | Notifying _ sv _ => ID sv end.

(** ** What is left of a goroutine's work, at once *)

Definition sync_rest (y : sync) (s : sd) : result sd :=
  match at_phase y with
  | Listing => SyncServers (E := answers y) (Sc := sched y) s (first y)
  | Gathering kvs allIds works =>
      let '(allIds, works) := foldl (sync_key s (first y)) (allIds, works) kvs in
      servers ← waitAndGetResult (E := answers y) (Sc := sched y) works;
      s ← for_each addServer s servers;
      Ok (deleteLocalInvalidServers (@range_order (sched y) (serverMapByID s)) s allIds)
  | Adding servers u allIds =>
      s ← for_each addServer (complete u s) servers;
      Ok (deleteLocalInvalidServers (@range_order (sched y) (serverMapByID s)) s allIds)
  | Ranging range u allIds => Ok (deleteLocalInvalidServers range (complete u s) allIds)
  | Ending => Ok s
  end.

Lemma event_next_complete ev s u s' : event_next ev s = Some (u, s') -> watch_event s ev = Ok (complete u s').
Proof.
  unfold event_next, watch_event. destruct (parseEtcdKey _) as [[ty id]| |]; [|by intros [= <- <-]|done].
  destruct (_ && _); [by intros [= <- <-]|]. destruct (ev_type ev).
  - destruct (parseServer _) as [[sv|]| |]; [|done|by intros [= <- <-]|done].
    intros [= H]. by apply begin_add_complete.
  - intros [= H]. f_equal. by apply begin_delete_complete.
Qed.

Lemma watch_next_rest evs u s evs' u' s' : watch_next evs u s = Some (evs', u', s') ->
  watch_events (complete u' s') evs' = watch_events (complete u s) evs.
Proof.
  unfold watch_next. destruct u as [u|].
  - destruct (update_next u s) as [u1 s1] eqn:E. intros [= <- <- <-]. by rewrite (update_next_complete _ _ _ _ E).
  - destruct evs as [|ev evs]; [done|]. destruct (event_next ev s) as [[u1 s1]|] eqn:E; [|done].
    intros [= <- <- <-]. apply event_next_complete in E. unfold watch_events. cbn. by rewrite E.
Qed.

(** Until it adds servers a synchronisation leaves the registry. *)
Definition reading (y : sync) : Prop :=
  match at_phase y with Listing | Gathering _ _ _ => True | _ => False end.

Lemma sync_next_rest y s ph s' : sync_next y s = Some (ph, s') ->
  let y' := mkSync (answers y) (sched y) (first y) ph in
  (reading y' -> reading y /\ s' = s) /\
  (sync_rest y' s' = sync_rest y s \/ ph = Ending /\ reading y /\ s' = s).
Proof.
  destruct y as [E Sc fs ph0]. unfold sync_next, sync_rest, reading. cbn [at_phase answers sched first].
  destruct ph0 as [|[|kv kvs] ids works|[|[sv|] svs] [u|] ids|[|k range] [u|] ids|]; cbn zeta.
  - destruct (cli_get_prefix _ _) as [kvs| |] eqn:Eg; intros [= <- <-]; [|naive_solver].
    split; [done|]. left. unfold SyncServers. by rewrite Eg.
  - destruct (waitAndGetResult works) as [svs| |] eqn:Ew; intros [= <- <-]; [|naive_solver].
    split; [done|]. left. cbn [foldl]. by rewrite Ew.
  - destruct (sync_key s fs (ids, works) kv) as [ids1 works1] eqn:Ek. intros [= <- <-].
    split; [done|]. left. cbn [foldl]. by rewrite Ek.
  - destruct (update_next u s) as [u1 s1] eqn:Eu. intros [= <- <-]. split; [done|]. left.
    by rewrite (update_next_complete _ _ _ _ Eu).
  - intros [= <- <-]. split; [done|]. by left.
  - destruct (update_next u s) as [u1 s1] eqn:Eu. intros [= <- <-]. split; [done|]. left.
    by rewrite (update_next_complete _ _ _ _ Eu).
  - destruct (begin_add sv s) as [u1 s1] eqn:Eu. intros [= <- <-]. split; [done|]. left.
    cbn [for_each complete]. by rewrite (begin_add_complete _ _ _ _ Eu).
  - destruct (update_next u s) as [u1 s1] eqn:Eu. intros [= <- <-]. split; [done|]. left.
    by rewrite (update_next_complete _ _ _ _ Eu).
  - done.
  - destruct (update_next u s) as [u1 s1] eqn:Eu. intros [= <- <-]. split; [done|]. left.
    by rewrite (update_next_complete _ _ _ _ Eu).
  - intros [= <- <-]. split; [done|]. by left.
  - destruct (update_next u s) as [u1 s1] eqn:Eu. intros [= <- <-]. split; [done|]. left.
    by rewrite (update_next_complete _ _ _ _ Eu).
  - destruct (SliceContainsString ids k) eqn:Ec.
    + intros [= <- <-]. split; [done|]. left. cbn. by rewrite Ec.
    + destruct (begin_delete k s) as [u1 s1] eqn:Eu. intros [= <- <-]. split; [done|]. left.
      cbn. by rewrite Ec, <-(begin_delete_complete _ _ _ _ Eu).
  - done.
Qed.

(** ** The whole steps behind the actions

    [s0] is the registry the node begins with. *)

Section Invariant.
Variable s0 : sd.

Definition sync_ok (y : sync) (s : sd) : Prop :=
  match at_phase y with
  | Ending => rtc Discovery.step s0 s
  | _ => exists s1, rtc Discovery.step s0 s1 /\
      SyncServers (E := answers y) (Sc := sched y) s1 (first y) = sync_rest y s /\ (reading y -> s = s1)
  end.

Definition node_ok (m : node) : Prop :=
  match syncs m with
  | [] =>
      match watcher m with
      | WEvents evs u => exists s1 evs1, rtc Discovery.step s0 s1 /\
          watch_events s1 evs1 = watch_events (complete u (reg m)) evs
      | _ => rtc Discovery.step s0 (reg m)
      end
  | [y] => watcher m = WAwait /\ sync_ok y (reg m)
  | _ => False
  end.

Lemma sync_ok_next y s ph s' : sync_ok y s -> sync_next y s = Some (ph, s') ->
  sync_ok (mkSync (answers y) (sched y) (first y) ph) s'.
Proof.
  intros Hok Hn. destruct (sync_next_rest _ _ _ _ Hn) as [Hread Hrest].
  assert (exists s1, rtc Discovery.step s0 s1 /\
    SyncServers (E := answers y) (Sc := sched y) s1 (first y) = sync_rest y s /\ (reading y -> s = s1))
    as (s1 & Hr & Hs & Hs1).
  { unfold sync_ok in Hok. unfold sync_next in Hn. by destruct (at_phase y). }
  assert (ph = Ending \/ exists s1, rtc Discovery.step s0 s1 /\
    SyncServers (E := answers y) (Sc := sched y) s1 (first y) =
      sync_rest (mkSync (answers y) (sched y) (first y) ph) s' /\
    (reading (mkSync (answers y) (sched y) (first y) ph) -> s' = s1)) as [->|H].
  { destruct Hrest as [Hrest|[-> _]]; [right|by left]. exists s1. split; [done|]. split; [by rewrite Hrest|].
    intros [Hry ->]%Hread. by apply Hs1. }
  - unfold sync_ok. cbn. destruct Hrest as [Hrest|(_ & Hry & ->)]; [|by rewrite Hs1].
    eapply rtc_r; [exact Hr|]. eapply step_sync. rewrite Hs, <-Hrest. done.
  - unfold sync_ok. cbn. destruct ph; try exact H. destruct H as (s2 & Hr2 & Hs2 & _).
    eapply rtc_r; [exact Hr2|]. eapply step_sync. by rewrite Hs2.
Qed.

Lemma again_ok m : rtc Discovery.step s0 (reg m) -> node_ok (mkNode (reg m) (up m) (again m) []).
Proof. intros H. unfold node_ok, again. cbn. by destruct (up m). Qed.

Lemma sole_ok m m' : sole m m' -> node_ok m -> node_ok m'.
Proof.
  intros [Hs Hlen] Hok. destruct Hs as [m E Sc fs Hw|m i y ph s Hi Hn|m i y Hw Hi He|m evs Hw
    |m evs u evs' u' s Hw Hn|m Hw|m Hw|m Hw|m b]; unfold node_ok in Hok.
  - destruct (syncs m) as [|y [|]] eqn:Es; cbn in Hlen; rewrite ?Es in Hlen; cbn in Hlen; [|lia|done].
    unfold node_ok. cbn. rewrite ?Es. split; [done|]. unfold sync_ok. cbn. exists (reg m).
    split_and!; [by destruct Hw as [Hw|Hw]; rewrite Hw in Hok|done|done].
  - destruct (syncs m) as [|z [|]] eqn:Es; [done| |done].
    apply list_lookup_singleton_Some in Hi as [-> ->]. unfold node_ok. cbn. rewrite ?Es. cbn.
    split; [apply Hok|]. by eapply sync_ok_next; [apply Hok|].
  - destruct (syncs m) as [|z [|]] eqn:Es; [done| |done].
    apply list_lookup_singleton_Some in Hi as [-> ->]. rewrite ?Es. cbn. apply again_ok.
    destruct Hok as [_ Hok]. unfold sync_ok in Hok. by rewrite He in Hok.
  - destruct (syncs m) as [|z [|]] eqn:Es; [|destruct Hok; congruence|done]. unfold node_ok. cbn. rewrite ?Es.
    rewrite Hw in Hok. exists (reg m), evs. done.
  - destruct (syncs m) as [|z [|]] eqn:Es; [|destruct Hok; congruence|done]. unfold node_ok. cbn. rewrite ?Es.
    rewrite Hw in Hok. destruct Hok as (s1 & evs1 & Hr & He). exists s1, evs1. split; [done|].
    by rewrite He, (watch_next_rest _ _ _ _ _ _ Hn).
  - destruct (syncs m) as [|z [|]] eqn:Es; [|destruct Hok; congruence|done]. rewrite ?Es. apply again_ok.
    rewrite Hw in Hok. destruct Hok as (s1 & evs1 & Hr & He). eapply rtc_r; [exact Hr|]. by eapply step_watch.
  - destruct (syncs m) as [|z [|]] eqn:Es; [|destruct Hok; congruence|done]. rewrite ?Es. apply again_ok.
    by rewrite Hw in Hok.
  - destruct (syncs m) as [|z [|]] eqn:Es; [|destruct Hok; congruence|done]. unfold node_ok. cbn. rewrite ?Es.
    by rewrite Hw in Hok.
  - exact Hok.
Qed.

Lemma sole_reachable_ok m : rtc sole (initial s0) m -> node_ok m.
Proof.
  intros H. assert (node_ok (initial s0)) as H0 by (unfold node_ok; cbn; done). revert H0.
  induction H as [|x y z Hs _ IH]; [done|]. intros Hx. by apply IH, (sole_ok x).
Qed.

(** What additions and deletions of servers keep holds of the registry with
    the half-done update completed. *)
Section Kept.
Variable P : sd -> Prop.
Hypothesis keeps_add : forall s sv s', P s -> addServer s (Some sv) = Ok s' -> P s'.
Hypothesis keeps_delete : forall s id, P s -> P (deleteServer s id).

Lemma update_next_kept u s u' s' : update_next u s = (u', s') -> P (complete (Some u) s) -> P (complete u' s').
Proof. intros H. by rewrite (update_next_complete _ _ _ _ H). Qed.

Lemma begin_add_kept sv s u s' : begin_add sv s = (u, s') -> P s -> P (complete u s').
Proof. intros H HP. eapply keeps_add; [exact HP|]. by apply begin_add_complete. Qed.

Lemma begin_delete_kept id s u s' : begin_delete id s = (u, s') -> P s -> P (complete u s').
Proof. intros H HP. rewrite <-(begin_delete_complete _ _ _ _ H). by apply keeps_delete. Qed.

Lemma watch_next_kept evs u s evs' u' s' : watch_next evs u s = Some (evs', u', s') ->
  P (complete u s) -> P (complete u' s').
Proof.
  unfold watch_next, event_next. destruct u as [u|].
  - destruct (update_next u s) as [u1 s1] eqn:E. intros [= <- <- <-]. by apply update_next_kept.
  - destruct evs as [|ev evs]; [done|]. destruct (parseEtcdKey _) as [[ty id]| |]; cbn; [|by intros [= <- <- <-]|done].
    destruct (_ && _); cbn; [by intros [= <- <- <-]|]. destruct (ev_type ev).
    + destruct (parseServer _) as [[sv|]| |]; cbn; [|done|by intros [= <- <- <-]|done].
      destruct (begin_add sv s) as [u1 s1] eqn:E. intros [= <- <- <-]. by apply (begin_add_kept sv s).
    + destruct (begin_delete id s) as [u1 s1] eqn:E. intros [= <- <- <-]. by apply (begin_delete_kept id s).
Qed.

Lemma sync_next_kept y s ph s' : sync_next y s = Some (ph, s') ->
  P (complete (phase_update (at_phase y)) s) -> P (complete (phase_update ph) s').
Proof.
  unfold sync_next.
  destruct (at_phase y) as [|[|kv kvs] ids works|[|[sv|] svs] [u|] ids|[|k range] [u|] ids|]; cbn [phase_update];
    try done;
    try (destruct (update_next u s) as [u1 s1] eqn:E; intros [= <- <-]; by apply update_next_kept).
  - destruct (cli_get_prefix _ _); by intros [= <- <-].
  - destruct (waitAndGetResult works); by intros [= <- <-].
  - destruct (sync_key _ _ _ _). by intros [= <- <-].
  - by intros [= <- <-].
  - destruct (begin_add sv s) as [u1 s1] eqn:E. intros [= <- <-]. by apply (begin_add_kept sv s).
  - by intros [= <- <-].
  - destruct (SliceContainsString ids k); [by intros [= <- <-]|].
    destruct (begin_delete k s) as [u1 s1] eqn:E. intros [= <- <-]. by apply (begin_delete_kept k s).
Qed.

Lemma again_kept m : P (reg m) -> P (complete (half_done (mkNode (reg m) (up m) (again m) [])) (reg m)).
Proof. unfold half_done, again. cbn. by destruct (up m). Qed.

Lemma sole_kept m m' : sole m m' -> node_ok m ->
  P (complete (half_done m) (reg m)) -> P (complete (half_done m') (reg m')).
Proof.
  intros [Hs Hlen] Hok. destruct Hs as [m E Sc fs Hw|m i y ph s Hi Hn|m i y Hw Hi He|m evs Hw
    |m evs u evs' u' s Hw Hn|m Hw|m Hw|m Hw|m b]; unfold node_ok, half_done in *;
    cbn [watcher syncs reg up] in *.
  - destruct (syncs m) as [|y [|]]; cbn in Hlen |- *; [|lia|done]. by destruct Hw as [-> | ->].
  - destruct (syncs m) as [|z [|]]; [done| |done].
    apply list_lookup_singleton_Some in Hi as [-> ->]. destruct Hok as [-> _]. cbn. by apply sync_next_kept.
  - destruct (syncs m) as [|z [|]]; [done| |done].
    apply list_lookup_singleton_Some in Hi as [-> ->]. destruct Hok as [-> _]. rewrite He. cbn.
    intros HP. by apply (again_kept m) in HP.
  - rewrite Hw in *. destruct (syncs m) as [|z [|]]; [done|destruct Hok; congruence|done].
  - rewrite Hw in *. intros HP. by eapply watch_next_kept.
  - rewrite Hw in *. destruct (syncs m) as [|z [|]]; [|destruct Hok; congruence|done].
    intros HP. by apply (again_kept m) in HP.
  - rewrite Hw in *. destruct (syncs m) as [|z [|]]; [|destruct Hok; congruence|done].
    intros HP. by apply (again_kept m) in HP.
  - rewrite Hw in *. destruct (syncs m) as [|z [|]]; [done|destruct Hok; congruence|done].
  - done.
Qed.

Lemma reachable_kept m : P s0 -> rtc sole (initial s0) m -> P (complete (half_done m) (reg m)).
Proof.
  intros H0 H. cut (node_ok m /\ P (complete (half_done m) (reg m))); [by intros []|].
  assert (node_ok (initial s0) /\ P (complete (half_done (initial s0)) (reg (initial s0)))) as Hi
    by (split; [unfold node_ok; cbn; done|done]).
  revert Hi. induction H as [|x y z Hs _ IH]; [done|]. intros [Hx HP]. apply IH.
  split; [by apply (sole_ok x)|by apply (sole_kept x)].
Qed.

End Kept.
End Invariant.

(** ** Every whole step is a run of actions *)

Definition update_step (p q : option update * sd) : Prop := exists u, p.1 = Some u /\ update_next u p.2 = q.

Lemma update_runs u s : rtc update_step (u, s) (None, complete u s).
Proof.
  destruct u as [u|]; [|done].
  assert (forall ls act sv s, rtc update_step (Some (Notifying act sv ls), s)
    (None, complete (Some (Notifying act sv ls)) s)) as Hn.
  { clear. induction ls as [|l ls IH]; intros act sv s; (eapply rtc_l; [by eexists|]); cbn [update_next].
    - cbn. by rewrite app_nil_r, set_calls_id.
    - rewrite <-(update_next_complete (Notifying act sv (l :: ls)) s _ _ eq_refl). apply IH. }
  destruct u as [sv|sv|sv|act sv ls]; [| | |apply Hn].
  - eapply rtc_l; [by eexists|]. cbn. destruct (bool_decide _); [apply Hn|done].
  - eapply rtc_l; [by eexists|]. eapply rtc_l; [by eexists|]. apply Hn.
  - eapply rtc_l; [by eexists|]. apply Hn.
Qed.

(** An update of the watcher and of a synchronisation that is alone. *)
Lemma watch_update b evs u s :
  rtc sole (mkNode s b (WEvents evs u) []) (mkNode (complete u s) b (WEvents evs None) []).
Proof.
  apply (rtc_congruence (R := update_step) (fun p => mkNode p.2 b (WEvents evs p.1) []) sole (u, s) (None, complete u s));
    [|apply update_runs].
  intros [u1 s1] [u2 s2] (v & Hv & Hu). cbn [fst snd] in *. subst u1. split; [|cbn; lia].
  apply (watch_moves (mkNode s1 b (WEvents evs (Some v)) []) evs (Some v)); [done|]. cbn. by rewrite Hu.
Qed.

Definition alone (b : bool) (E : Etcd) (Sc : Sched) (fs : bool) (ph : phase) (s : sd) : node :=
  mkNode s b WAwait [mkSync E Sc fs ph].

Lemma alone_moves b E Sc fs ph s ph' s' : sync_next (mkSync E Sc fs ph) s = Some (ph', s') ->
  sole (alone b E Sc fs ph s) (alone b E Sc fs ph' s').
Proof.
  intros H. split; [|cbn; lia]. apply (sync_moves (alone b E Sc fs ph s) 0 (mkSync E Sc fs ph)); done.
Qed.

Lemma adding_update b E Sc fs svs u ids s :
  rtc sole (alone b E Sc fs (Adding svs u ids) s) (alone b E Sc fs (Adding svs None ids) (complete u s)).
Proof.
  apply (rtc_congruence (R := update_step) (fun p => alone b E Sc fs (Adding svs p.1 ids) p.2) sole (u, s) (None, complete u s));
    [|apply update_runs].
  intros [u1 s1] [u2 s2] (v & Hv & Hu). cbn [fst snd] in *. subst u1.
  apply alone_moves. unfold sync_next. cbn [at_phase fst snd]. rewrite Hu. by destruct svs as [|[]].
Qed.

Lemma ranging_update b E Sc fs range u ids s :
  rtc sole (alone b E Sc fs (Ranging range u ids) s) (alone b E Sc fs (Ranging range None ids) (complete u s)).
Proof.
  apply (rtc_congruence (R := update_step) (fun p => alone b E Sc fs (Ranging range p.1 ids) p.2) sole (u, s) (None, complete u s));
    [|apply update_runs].
  intros [u1 s1] [u2 s2] (v & Hv & Hu). cbn [fst snd] in *. subst u1.
  apply alone_moves. unfold sync_next. cbn [at_phase fst snd]. rewrite Hu. by destruct range.
Qed.

Lemma event_next_total s ev s' : watch_event s ev = Ok s' -> exists u s1, event_next ev s = Some (u, s1).
Proof.
  unfold watch_event, event_next. destruct (parseEtcdKey _) as [[ty id]| |]; [|by eauto|done].
  destruct (_ && _); [by eauto|]. destruct (ev_type ev).
  - destruct (parseServer _) as [[sv|]| |]; [|done|by eauto|done]. destruct (begin_add sv s). eauto.
  - destruct (begin_delete id s). eauto.
Qed.

Lemma watch_events_run b evs : forall s s', watch_events s evs = Ok s' ->
  rtc sole (mkNode s b (WEvents evs None) []) (mkNode s' b (WEvents [] None) []).
Proof.
  induction evs as [|ev evs IH]; intros s s'; unfold watch_events; cbn; [by intros [= <-]|].
  destruct (watch_event s ev) as [s1| |] eqn:E; [|done..]. cbn. intros Hs.
  destruct (event_next_total _ _ _ E) as (u & s2 & Hn).
  pose proof (event_next_complete _ _ _ _ Hn) as E2. rewrite E in E2. injection E2 as ->.
  eapply rtc_l; [|etrans; [apply (watch_update b evs u s2)|by apply IH]].
  split; [|cbn; lia]. apply (watch_moves (mkNode s b (WEvents (ev :: evs) None) []) (ev :: evs) None); [done|].
  cbn. by rewrite Hn.
Qed.

Lemma adding_run b E Sc fs ids svs : forall s s', for_each addServer s svs = Ok s' ->
  rtc sole (alone b E Sc fs (Adding svs None ids) s) (alone b E Sc fs (Adding [] None ids) s').
Proof.
  induction svs as [|[sv|] svs IH]; intros s s'; cbn [for_each]; [by intros [= <-]| |done].
  destruct (addServer s (Some sv)) as [s1| |] eqn:Ea; [|done..]. cbn. intros Hs.
  destruct (begin_add sv s) as [u s2] eqn:Eb. pose proof (begin_add_complete _ _ _ _ Eb) as E2.
  rewrite Ea in E2. injection E2 as ->.
  eapply rtc_l; [apply alone_moves; cbn; by rewrite Eb|]. etrans; [apply adding_update|by apply IH].
Qed.

Lemma ranging_run b E Sc fs ids range : forall s,
  rtc sole (alone b E Sc fs (Ranging range None ids) s)
    (alone b E Sc fs (Ranging [] None ids) (deleteLocalInvalidServers range s ids)).
Proof.
  induction range as [|k range IH]; intros s; [done|]. cbn.
  destruct (SliceContainsString ids k) eqn:Ec.
  - eapply rtc_l; [apply alone_moves; cbn; by rewrite Ec|]. apply IH.
  - destruct (begin_delete k s) as [u s2] eqn:Eb. rewrite (begin_delete_complete _ _ _ _ Eb).
    eapply rtc_l; [apply alone_moves; cbn; by rewrite Ec, Eb|]. etrans; [apply ranging_update|]. apply IH.
Qed.

Lemma gathering_run b E Sc fs s kvs : forall ids works,
  rtc sole (alone b E Sc fs (Gathering kvs ids works) s)
    (let '(ids, works) := foldl (sync_key s fs) (ids, works) kvs in alone b E Sc fs (Gathering [] ids works) s).
Proof.
  induction kvs as [|kv kvs IH]; intros ids works; [done|]. cbn [foldl].
  destruct (sync_key s fs (ids, works) kv) as [ids1 works1] eqn:E1.
  eapply rtc_l; [apply alone_moves; cbn [sync_next at_phase first]; by rewrite E1|]. apply IH.
Qed.

Lemma sync_run b (E : Etcd) (Sc : Sched) fs s s' : SyncServers s fs = Ok s' ->
  rtc sole (alone b E Sc fs Listing s) (alone b E Sc fs Ending s').
Proof.
  unfold SyncServers. destruct (cli_get_prefix _ _) as [kvs| |] eqn:Eg; [|done..]. cbn [mbind outcome_bind].
  destruct (foldl (sync_key s fs) ([], []) kvs) as [ids works] eqn:Ef.
  destruct (waitAndGetResult works) as [svs| |] eqn:Ew; [|done..]. cbn [mbind outcome_bind].
  destruct (for_each addServer s svs) as [s1| |] eqn:Ea; [|done..]. intros [= <-].
  eapply rtc_l; [apply alone_moves; cbn; by rewrite Eg|].
  etrans; [apply gathering_run|]. rewrite Ef. eapply rtc_l; [apply alone_moves; cbn; by rewrite Ew|].
  etrans; [by apply adding_run|]. eapply rtc_l; [by apply alone_moves|].
  etrans; [apply ranging_run|]. by apply rtc_once, alone_moves.
Qed.

Lemma whole_step_run s s' : Discovery.step s s' -> rtc sole (initial s) (initial s').
Proof.
  intros [evs s1 s2 Hw|E Sc fs s1 s2 Hy].
  - eapply rtc_l; [split; [by apply (watch_gets (initial s1) evs)|cbn; lia]|].
    eapply rtc_r; [by apply watch_events_run|]. split; [by apply (watch_handled (mkNode s2 true (WEvents [] None) []))|cbn; lia].
  - eapply rtc_l; [split; [apply (sync_starts (initial s1) E Sc fs); by left|cbn; lia]|].
    eapply rtc_r; [by apply (sync_run true E Sc fs)|].
    split; [|cbn; lia]. apply (sync_ends (alone true E Sc fs Ending s2) 0 (mkSync E Sc fs Ending)); [by right|done|done].
Qed.

(** ** What holds in between *)

(** The half-done update concerns one id only. *)
Lemma complete_off u s id : changing u <> id ->
  serverMapByID (complete (Some u) s) !! id = serverMapByID s !! id /\
  forall ty, serverMapByType (complete (Some u) s) !! ty ≫= (.!! id) = serverMapByType s !! ty ≫= (.!! id).
Proof.
  intros Hne. destruct u as [sv|sv|sv|act sv ls]; cbn in *; [| | |done].
  - destruct (bool_decide _); cbn; (split; [done|]); intros ty;
      rewrite lookup_index_by_type, bool_decide_eq_false_2 by naive_solver; done.
  - rewrite lookup_delete_ne by done. split; [done|]. intros ty.
    rewrite lookup_unindex_by_type, bool_decide_eq_false_2 by naive_solver. done.
  - split; [done|]. intros ty. rewrite lookup_unindex_by_type, bool_decide_eq_false_2 by naive_solver. done.
Qed.

Lemma listed_iff s ty id sv :
  (exists ms, GetServersByType s ty = Ok ms /\ ms !! id = Some sv) <->
  serverMapByType s !! ty ≫= (.!! id) = Some sv.
Proof.
  unfold GetServersByType. destruct (serverMapByType s !! ty) as [ms|]; cbn; [|naive_solver].
  rewrite map_copy_into_union, (right_id_L ∅ (∪)). case_bool_decide as Hs; [naive_solver|].
  split; [by intros (? & ? & _)|]. intros H. exfalso. apply Hs.
  assert (size ms <> 0%nat); [|lia]. rewrite map_size_non_empty_iff. intros ->. by rewrite lookup_empty in H.
Qed.

Lemma found_iff s id sv : GetServer s id = Ok sv <-> serverMapByID s !! id = Some sv.
Proof. unfold GetServer. destruct (serverMapByID s !! id); naive_solver. Qed.

Lemma reachable_wf config self client ls m :
  rtc sole (initial (fresh_node config self client ls)) m -> wf (complete (half_done m) (reg m)).
Proof.
  apply reachable_kept.
  - intros s1 sv s2 Hwf Ha. by apply (addServer_wf s1 sv s2).
  - intros s1 id Hwf. by apply deleteServer_wf.
  - destruct (fresh_node_fields config self client ls) as (H1 & H2 & _). by apply wf_empty.
Qed.

(** C11: the two indexes implement one registry of servers by id: whatever the
    watcher and the synchronisations, one at a time, have done and wherever
    they are, a server is listed under a type exactly when it is found by its
    id, with that id and type, for every id but the one whose addition or
    deletion is half done; when none is, the servers of a type are exactly
    the registered servers with that type, and a type with none gives the
    error. *)
Theorem registry_refined (config : EtcdServiceDiscoveryConfig) (self : Server) (client : bool)
    (ls : list SDListener) (m : node) :
  rtc sole (initial (fresh_node config self client ls)) m ->
  (forall id ty sv, (forall u, half_done m = Some u -> changing u <> id) ->
     (exists ms, GetServersByType (reg m) ty = Ok ms /\ ms !! id = Some sv) <->
     GetServer (reg m) id = Ok sv /\ ID sv = id /\ Type_ sv = ty) /\
  (half_done m = None -> forall ty, GetServersByType (reg m) ty =
     (if decide (of_type ty (serverMapByID (reg m)) = ∅)
      then Err (ESentinel ErrNoServersAvailableOfType)
      else Ok (of_type ty (serverMapByID (reg m))))).
Proof.
  intros Hr. apply reachable_wf in Hr. split.
  - intros id ty sv Hoff. rewrite listed_iff, found_iff. destruct Hr as [Hid Hty].
    specialize (Hid id sv). specialize (Hty ty id sv).
    destruct (half_done m) as [u|]; [|cbn in *; naive_solver].
    destruct (complete_off u (reg m) id (Hoff u eq_refl)) as [E1 E2]. rewrite E1, E2 in *. naive_solver.
  - intros E ty. rewrite E in Hr. by apply GetServersByType_spec.
Qed.

(** What a listener knows of an id does not depend on the calls about
    another. *)
Lemma replay_off l c c' id : Forall (fun x => ID x.2 <> id) c' -> replay l (c ++ c') !! id = replay l c !! id.
Proof.
  unfold replay. rewrite foldl_app. generalize (foldl (fun mp '(l', act, sv) =>
    if decide (l' = l) then apply_call act sv mp else mp) ∅ c). intros mp H. revert mp.
  induction H as [|[[l' act] sv] c' Hne _ IH]; intros mp; [done|]. cbn. rewrite IH. case_decide; [|done].
  cbn in Hne. destruct act; cbn; [by rewrite lookup_insert_ne|by rewrite lookup_delete_ne].
Qed.

Lemma complete_calls_off u s id l : changing u <> id ->
  replay l (calls (complete (Some u) s)) !! id = replay l (calls s) !! id.
Proof.
  intros Hne.
  assert (forall act sv (ls : list SDListener), ID sv <> id ->
    Forall (fun x : SDListener * Action * Server => ID x.2 <> id) ((fun l => (l, act, sv)) <$> ls)) as Hf
    by (intros act sv ls' H; apply Forall_fmap, Forall_true; done).
  destruct u as [sv|sv|sv|act sv ls]; cbn in *; [destruct (bool_decide _); [|done]| | |]; apply replay_off, Hf; done.
Qed.

(** C32: a listener registered before the node starts knows the other servers:
    whatever the watcher and the synchronisations, one at a time, have done
    and wherever they are, applying the calls made on it, in order, gives for
    every id but the one whose addition or deletion is half done what the
    node finds by that id, the node itself left out. *)
Theorem listener_view (config : EtcdServiceDiscoveryConfig) (self : Server) (client : bool)
    (ls : list SDListener) (m : node) (l : SDListener) (id : string) :
  rtc sole (initial (fresh_node config self client ls)) m -> l ∈ ls ->
  (forall u, half_done m = Some u -> changing u <> id) ->
  replay l (calls (reg m)) !! id = if decide (id = ID self) then None else serverMapByID (reg m) !! id.
Proof.
  intros Hr Hl Hoff.
  assert (listener_ok l (complete (half_done m) (reg m)) /\ server (complete (half_done m) (reg m)) = self)
    as [(_ & _ & Hv) Hself].
  { revert Hr. apply (reachable_kept _ (fun s => listener_ok l s /\ server s = self)).
    - intros s1 sv s2 [Hok <-] Ha. split; [by eapply listener_add|].
      by destruct (addServer_same _ _ _ Ha) as (_ & ? & _).
    - intros s1 k [Hok <-]. split; [by apply listener_delete|].
      by destruct (deleteServer_same s1 k) as (_ & ? & _).
    - destruct (fresh_node_fields config self client ls) as (H1 & H2 & H3 & H4 & H5).
      split; [|done]. split_and!; [by apply wf_empty|by rewrite H5|]. rewrite H1, H3. cbn. by rewrite delete_empty. }
  rewrite Hself in Hv. apply (f_equal (.!! id)) in Hv.
  assert (delete (ID self) (serverMapByID (complete (half_done m) (reg m))) !! id =
    if decide (id = ID self) then None else serverMapByID (complete (half_done m) (reg m)) !! id) as E
    by (case_decide; [subst; apply lookup_delete_eq|by apply lookup_delete_ne]).
  rewrite E in Hv. destruct (half_done m) as [u|]; [|exact Hv].
  destruct (complete_off u (reg m) id (Hoff u eq_refl)) as [E1 _].
  by rewrite complete_calls_off, E1 in Hv by (by apply Hoff).
Qed.

(** C16: synchronisations and batches of watch events are atomic as long as
    synchronisations do not overlap: the registries a node has when it is at
    rest, after any interleaving of the actions of its goroutines, are those
    that whole batches of events and whole synchronisations, one after the
    other, lead to. *)
Theorem actions_refine_steps (s s' : sd) :
  (exists m, rtc sole (initial s) m /\ syncs m = [] /\ (forall evs u, watcher m <> WEvents evs u) /\ reg m = s') <->
  rtc Discovery.step s s'.
Proof.
  split.
  - intros (m & Hr & Hs & Hw & <-). apply sole_reachable_ok in Hr. unfold node_ok in Hr. rewrite Hs in Hr.
    destruct (watcher m) eqn:E; try done. by destruct (Hw _ _ eq_refl).
  - intros H. exists (initial s'). split_and!; try done.
    induction H as [|x y z Hs _ IH]; [done|]. etrans; [by apply whole_step_run|exact IH].
Qed.

End Goroutines.

(** ** Witnesses *)

(** The watcher of the game node has got the event of the chat server and
    stored it by id, not yet by type; then it has handled the event. *)
Definition chat_event : Event := mkEvent EventTypePut (mkKV (getKey "c1" "chat") (Some (AsJSONString sv_chat))).
Definition stored : sd := (begin_add sv_chat ex_node).2.
Definition in_between : node := mkNode stored true (WEvents [] (Some (Indexing sv_chat))) [].
Definition handled : node := mkNode (complete (Some (Indexing sv_chat)) stored) true (WEvents [] None) [].

Lemma ex_stored : rtc sole (initial ex_node) in_between.
Proof.
  eapply rtc_l; [split; [by apply (watch_gets (initial ex_node) [chat_event])|cbn; lia]|].
  apply rtc_once. split; [|cbn; lia].
  by apply (watch_moves (mkNode ex_node true (WEvents [chat_event] None) []) [chat_event] None).
Qed.

Lemma ex_handled : rtc sole (initial ex_node) handled.
Proof. etrans; [exact ex_stored|]. apply watch_update. Qed.

Lemma registry_refined_witness :
  GetServersByType (reg handled) "chat" = Ok {["c1" := sv_chat]} /\
  (exists sv, GetServer (reg in_between) "c1" = Ok sv) /\
  (exists e, GetServersByType (reg in_between) "chat" = Err e) /\
  ~ (exists ms, GetServersByType (reg in_between) "game" = Ok ms /\ ms !! "g1" = Some sv_game).
Proof.
  split; [rewrite (proj2 (registry_refined ex_config sv_game true [7%nat] handled ex_handled) eq_refl "chat");
    by vm_compute|].
  split; [eexists; by vm_compute|]. split; [eexists; by vm_compute|].
  rewrite (proj1 (registry_refined ex_config sv_game true [7%nat] in_between ex_stored) "g1" "game" sv_game);
    [by intros [H _]; vm_compute in H|by intros u [= <-]].
Defined.

Lemma listener_view_witness : replay 7%nat (calls (reg handled)) !! "c1" = Some sv_chat.
Proof.
  rewrite (listener_view ex_config sv_game true [7%nat] handled 7%nat "c1" ex_handled); [by vm_compute|set_solver|done].
Defined.

End Watching.
