(* ===== verification/Getter.v ===== *)
(** * The parallel getter of [cluster/etcd_service_discovery.go], with its
    goroutines

    The producer is [SyncServers], which adds work and then waits; the
    workers receive work from a channel without a buffer, fetch, append to
    the result under its mutex and count the wait group down. A step is one
    of these operations. *)

From S2P Require Import Prelude Errors Discovery.
Import Discovery.

Module Getter.

(** A worker: at its [range], with work, with a server to append, about to
    call [Done], or past its loop. *)
Inductive worker_state :=
| Idle
| Fetching (w : parallelGetterWork)
| Appending (sv : option Server)
| Finishing
| Gone.

(** The producer: with work left to add, sending work, or returned. *)
Inductive producer :=
| Feeding (ws : list parallelGetterWork)
| Sending (w : parallelGetterWork) (ws : list parallelGetterWork)
| Returned (servers : list (option Server)).

Record getter := mkGetter {
  workers : list worker_state;
  prod_ : producer;
  wg : nat;
  result_ : list (option Server);
  workChan_closed : bool
}.

Inductive action :=
| AddWork
| Send (i : nat)
| Fetch (i : nat)
| Append (i : nat)
| Done (i : nat)
| Wait
| Leave (i : nat).

(** [newParallelGetter], for [SyncServers] with this work to add. *)
Definition new_getter (numWorkers : Z) (works : list parallelGetterWork) : getter :=
  mkGetter (replicate (Z.to_nat (newParallelGetter numWorkers)) Idle) (Feeding works) 0 [] false.

Section Getter.
Context {J : ServerJson} {E : Etcd}.

Definition set_worker (s : getter) (i : nat) (w : worker_state) : list worker_state := <[i := w]> (workers s).

(** [addWork] and [addWorkWithPayload]: the count goes up before the send. *)
Definition add_work (s : getter) : option (outcome error getter) :=
  match prod_ s with
  | Feeding (w :: ws) =>
      Some (Ok (mkGetter (workers s) (Sending w ws) (S (wg s)) (result_ s) (workChan_closed s)))
  | _ => None
  end.
Definition send (s : getter) (i : nat) : option (outcome error getter) :=
  match prod_ s, workers s !! i with
  | Sending w ws, Some Idle =>
      Some (Ok (mkGetter (set_worker s i (Fetching w)) (Feeding ws) (wg s) (result_ s) (workChan_closed s)))
  | _, _ => None
  end.

(** [waitAndGetResult]. *)
Definition wait (s : getter) : option (outcome error getter) :=
  match prod_ s, wg s with
  | Feeding [], O => Some (Ok (mkGetter (workers s) (Returned (result_ s)) 0 (result_ s) true))
  | _, _ => None
  end.

(** The body of a worker: an error is logged and the work is done. *)
Definition fetch_step (s : getter) (i : nat) : option (outcome error getter) :=
  match workers s !! i with
  | Some (Fetching w) =>
      let go st := Some (Ok (mkGetter (set_worker s i st) (prod_ s) (wg s) (result_ s) (workChan_closed s))) in
      match fetch w with
      | Ok sv => go (Appending sv)
      | Err _ => go Finishing
      | Panics p => Some (Panics p)
      end
  | _ => None
  end.
Definition append_step (s : getter) (i : nat) : option (outcome error getter) :=
  match workers s !! i with
  | Some (Appending sv) =>
      Some (Ok (mkGetter (set_worker s i Finishing) (prod_ s) (wg s) (result_ s ++ [sv]) (workChan_closed s)))
  | _ => None
  end.
Definition done_step (s : getter) (i : nat) : option (outcome error getter) :=
  match workers s !! i with
  | Some Finishing =>
      match wg s with
      | S n => Some (Ok (mkGetter (set_worker s i Idle) (prod_ s) n (result_ s) (workChan_closed s)))
      | O => Some (Panics (PanicMessage "sync: negative WaitGroup counter"))
      end
  | _ => None
  end.
Definition leave (s : getter) (i : nat) : option (outcome error getter) :=
  match workers s !! i, workChan_closed s with
  | Some Idle, true => Some (Ok (mkGetter (set_worker s i Gone) (prod_ s) (wg s) (result_ s) true))
  | _, _ => None
  end.

Definition step (s : getter) (a : action) : option (outcome error getter) :=
  match a with
  | AddWork => add_work s
  | Send i => send s i
  | Fetch i => fetch_step s i
  | Append i => append_step s i
  | Done i => done_step s i
  | Wait => wait s
  | Leave i => leave s i
  end.

Fixpoint run (s : getter) (acts : list action) : option (outcome error getter) :=
  match acts with
  | [] => Some (Ok s)
  | a :: acts => match step s a with Some (Ok s) => run s acts | r => r end
  end.

(** ** What is conserved *)

(** The servers a piece of work gives, a worker and the producer still will,
    and the share of a worker in the wait group. *)
Definition gives (w : parallelGetterWork) : list (option Server) :=
  match fetch w with Ok sv => [sv] | _ => [] end.
Definition will_give (w : worker_state) : list (option Server) :=
  match w with Fetching w => gives w | Appending sv => [sv] | _ => [] end.
Definition producer_gives (p : producer) : list (option Server) :=
  match p with
  | Feeding ws => concat (gives <$> ws)
  | Sending w ws => gives w ++ concat (gives <$> ws)
  | Returned _ => []
  end.
Definition counted (w : worker_state) : list unit :=
  match w with Fetching _ | Appending _ | Finishing => [tt] | _ => [] end.
Definition producer_counts (p : producer) : nat := match p with Sending _ _ => 1 | _ => 0 end.

Definition flat {A} (f : worker_state -> list A) (ws : list worker_state) : list A := concat (f <$> ws).
#[local] Arguments flat : simpl never.

(** The part of the other workers. *)
Definition others (i : nat) (ws : list worker_state) : list worker_state := take i ws ++ drop (S i) ws.

Lemma flat_update {A} (f : worker_state -> list A) ws i w w' :
  ws !! i = Some w ->
  flat f ws ≡ₚ f w ++ flat f (others i ws) /\ flat f (<[i := w']> ws) ≡ₚ f w' ++ flat f (others i ws).
Proof.
  intros H. assert (forall x l1 l2, flat f (l1 ++ x :: l2) ≡ₚ f x ++ flat f (l1 ++ l2)) as Hm.
  { intros x l1 l2. unfold flat. rewrite !fmap_app, !concat_app. cbn. solve_Permutation. }
  unfold others. split.
  - by rewrite <-(take_drop_middle ws i w H) at 1.
  - by rewrite (insert_take_drop ws i w') by (by eapply lookup_lt_Some).
Qed.

Record good (n : nat) (total : list (option Server)) (s : getter) : Prop := {
  good_workers : length (workers s) = n;
  good_total : result_ s ++ flat will_give (workers s) ++ producer_gives (prod_ s) ≡ₚ total;
  good_wg : wg s = (length (flat counted (workers s)) + producer_counts (prod_ s))%nat;
  good_returned : forall r, prod_ s = Returned r -> r = result_ s /\ flat counted (workers s) = [];
  good_closed : workChan_closed s = match prod_ s with Returned _ => true | _ => false end;
  good_gone : workChan_closed s = false -> Forall (fun w => w <> Gone) (workers s)
}.

Lemma good_new n works :
  good (Z.to_nat (newParallelGetter n)) (concat (gives <$> works)) (new_getter n works).
Proof.
  assert (forall A (f : worker_state -> list A) k, f Idle = [] -> flat f (replicate k Idle) = []) as Hr.
  { intros A f k Hf. unfold flat. induction k as [|k IH]; [done|]. cbn. by rewrite Hf, IH. }
  split; cbn [new_getter workers prod_ wg result_ workChan_closed producer_gives producer_counts];
    rewrite ?Hr by done; try done.
  - apply length_replicate.
  - intros _. by apply Forall_replicate.
Qed.

(** The producer has not returned. *)
Definition active (p : producer) : Prop := match p with Returned _ => False | _ => True end.

(** A worker changes before the producer returns: servers and counts move
    between it, the producer and the result. *)
Lemma update_good n total ws i w w' p p' k k' res res' cl :
  good n total (mkGetter ws p k res cl) -> ws !! i = Some w -> w' <> Gone -> active p -> active p' ->
  res' ++ will_give w' ++ producer_gives p' ≡ₚ res ++ will_give w ++ producer_gives p ->
  (k' + length (counted w) + producer_counts p = k + length (counted w') + producer_counts p')%nat ->
  good n total (mkGetter (<[i := w']> ws) p' k' res' cl).
Proof.
  intros [Hn Ht Hw Hr Hc Hg] Hi Hw' Hp Hp' Hgive Hcount. cbn in *.
  destruct (flat_update will_give ws i w w' Hi) as [Hf Hf'].
  destruct (flat_update counted ws i w w' Hi) as [Hk%Permutation_length Hk'%Permutation_length].
  rewrite length_app in Hk, Hk'. split; cbn.
  - by rewrite length_insert.
  - rewrite <-Ht, Hf, Hf'. transitivity (flat will_give (others i ws) ++ (res' ++ will_give w' ++ producer_gives p'));
      [solve_Permutation|]. rewrite Hgive. solve_Permutation.
  - lia.
  - intros r ->. done.
  - rewrite Hc. by destruct p, p'.
  - intros H. apply Forall_insert; auto.
Qed.

Lemma active_busy n total ws p k res cl i w :
  good n total (mkGetter ws p k res cl) -> ws !! i = Some w -> counted w <> [] -> active p.
Proof.
  intros [_ _ _ Hr _ _] Hi Hc. cbn in *. destruct p as [| |r]; [done..|].
  destruct (Hr r eq_refl) as [_ Hf]. destruct (flat_update counted ws i w w Hi) as [H _].
  rewrite Hf in H. apply Permutation_nil_l in H. symmetry in H. apply app_nil in H as [H _]. done.
Qed.

Lemma getter_step_good n total s a s' : good n total s -> step s a = Some (Ok s') -> good n total s'.
Proof.
  intros Hgood. pose proof Hgood as [Hn Ht Hw Hr Hc Hg]. destruct s as [ws p k res cl].
  unfold step, set_worker in *. cbn [workers prod_ wg result_ workChan_closed] in *.
  destruct a as [|i|i|i|i| |i].
  - unfold add_work. cbn. destruct p as [[|w ws']| |]; try done. intros [= <-]. split; cbn in *; try done; lia.
  - unfold send. cbn. destruct p as [|w ws'|]; try done. destruct (ws !! i) as [[]|] eqn:Hi; try done.
    intros [= <-]. eapply update_good; [exact Hgood|exact Hi|done..|]. cbn. lia.
  - unfold fetch_step. cbn. destruct (ws !! i) as [[]|] eqn:Hi; try done.
    assert (active p) as Hp by (by eapply active_busy).
    destruct (fetch w) as [sv|e|pa] eqn:Ef; intros [= <-];
      (eapply update_good; [exact Hgood|exact Hi|done|done|done| |cbn; lia]);
      cbn; unfold gives; by rewrite Ef.
  - unfold append_step. cbn. destruct (ws !! i) as [[]|] eqn:Hi; try done.
    assert (active p) as Hp by (by eapply active_busy). intros [= <-].
    eapply update_good; [exact Hgood|exact Hi|done|done|done| |cbn; lia]. cbn. by rewrite <-app_assoc.
  - unfold done_step. cbn. destruct (ws !! i) as [[]|] eqn:Hi; try done.
    assert (active p) as Hp by (by eapply active_busy). destruct k as [|k]; [done|]. intros [= <-].
    eapply update_good; [exact Hgood|exact Hi|done|done|done|done|cbn; lia].
  - unfold wait. cbn. destruct p as [[|]| |]; try done. destruct k; [|done]. intros [= <-].
    split; cbn in *; try done; try lia. intros r [= <-]. split; [done|]. apply nil_length_inv. lia.
  - unfold leave. cbn. destruct (ws !! i) as [[]|] eqn:Hi; try done. destruct cl; [|done]. intros [= <-].
    destruct p as [| |r]; try done.
    destruct (flat_update will_give ws i Idle Gone Hi) as [Hf Hf'].
    destruct (flat_update counted ws i Idle Gone Hi) as [Hk Hk']. cbn [will_give counted app] in *.
    split; unfold set_worker; cbn; try done.
    + by rewrite length_insert.
    + by rewrite <-Ht, Hf, Hf'.
    + cbn in Hw. rewrite Hw. apply Permutation_length in Hk, Hk'. lia.
    + intros r' [= <-]. destruct (Hr r eq_refl) as [-> Hr0]. split; [done|].
      rewrite Hr0 in Hk. apply Permutation_nil_l in Hk. rewrite <-Hk in Hk'. by apply Permutation_nil_r in Hk'.
Qed.

Lemma getter_run_good n total s acts s' : good n total s -> run s acts = Some (Ok s') -> good n total s'.
Proof.
  revert s. induction acts as [|a acts IH]; intros s Hg; cbn; [by intros [= <-]|].
  destruct (step s a) as [[s1|e|p]|] eqn:Es; [|done..]. apply IH. by eapply getter_step_good.
Qed.

(** When it returns, the result has every server that could be fetched, once. *)
Lemma returned_result n works acts s res :
  run (new_getter n works) acts = Some (Ok s) -> prod_ s = Returned res ->
  res ≡ₚ concat (gives <$> works).
Proof.
  intros H Hp. destruct (getter_run_good _ _ _ _ _ (good_new n works) H) as [_ Ht _ Hr _ _].
  destruct (Hr res Hp) as [-> Hk]. rewrite <-Ht, Hp. cbn.
  assert (flat will_give (workers s) = []) as ->; [|cbn; by rewrite !app_nil_r].
  clear -Hk. unfold flat in *. induction (workers s) as [|w ws IH]; [done|]. cbn in *.
  apply app_nil in Hk as [Hw Hk]. rewrite (IH Hk). by destruct w.
Qed.

(** The sequential reference: what the work gives, one after the other. *)
Lemma for_each_gives works res :
  (forall w, w ∈ works -> forall p, fetch w <> Panics p) ->
  for_each worker res works = Ok (res ++ concat (gives <$> works)).
Proof.
  revert res. induction works as [|w works IH]; intros res Hp; [cbn; by rewrite app_nil_r|].
  cbn [for_each fmap list_fmap concat]. unfold gives at 1.
  assert (forall w, w ∈ works -> forall p, fetch w <> Panics p) as Hp' by set_solver.
  destruct (fetch w) as [sv|e|p] eqn:Ef.
  - assert (worker res w = Ok (res ++ [sv])) as -> by (unfold worker; by rewrite Ef).
    cbn [mbind outcome_bind]. rewrite IH by done. by rewrite <-app_assoc.
  - assert (worker res w = Ok res) as -> by (unfold worker; by rewrite Ef). by apply IH.
  - by destruct (Hp w ltac:(set_solver) p).
Qed.

(** C12: the goroutines refine the definition [SyncServers] is proved against:
    whatever they do and in whatever order, what the parallel getter returns
    is what the sequential definition gives under some order of completion
    that a scheduler may choose. *)
Theorem getter_refines (n : Z) (works : list parallelGetterWork) (acts : list action) (s : getter)
    (res : list (option Server)) :
  (forall w, w ∈ works -> forall p, fetch w <> Panics p) ->
  run (new_getter n works) acts = Some (Ok s) -> prod_ s = Returned res ->
  exists (Sc : Sched) (L : SchedLaws Sc), waitAndGetResult works = Ok res.
Proof.
  intros Hf H Hp. pose proof (returned_result n works acts s res H Hp) as Hperm.
  set (all := concat (gives <$> works)) in *.
  exists {| completion l := if decide (l = all) then res else l; range_order m := (map_to_list m).*1 |}.
  eexists.
  { split; cbn; [|done]. intros l. by case_decide; subst. }
  unfold waitAndGetResult. rewrite for_each_gives by done. cbn. by rewrite decide_True.
Qed.

(** ** It ends *)

Definition load (w : worker_state) : nat :=
  match w with Idle => 1 | Fetching _ => 4 | Appending _ => 3 | Finishing => 2 | Gone => 0 end.
Definition producer_load (p : producer) : nat :=
  match p with
  | Feeding ws => 1 + 6 * length ws
  | Sending _ ws => 6 + 6 * length ws
  | Returned _ => 0
  end.
Definition left (s : getter) : nat := length (flat (fun w => replicate (load w) tt) (workers s)) + producer_load (prod_ s).

Lemma load_update ws i w w' : ws !! i = Some w ->
  (length (flat (fun w => replicate (load w) tt) (<[i := w']> ws)) + load w =
   length (flat (fun w => replicate (load w) tt) ws) + load w')%nat.
Proof.
  intros Hi. destruct (flat_update (fun w => replicate (load w) tt) ws i w w' Hi)
    as [H%Permutation_length H'%Permutation_length].
  rewrite length_app, length_replicate in H, H'. lia.
Qed.

Lemma step_left s a s' : step s a = Some (Ok s') -> (left s' < left s)%nat.
Proof.
  destruct s as [ws p k res cl]. unfold left.
  destruct a as [|i|i|i|i| |i]; cbn [step];
    unfold add_work, send, fetch_step, append_step, done_step, wait, leave, set_worker;
    cbn [workers prod_ wg result_ workChan_closed]; intros H;
    repeat case_match; simplify_eq; cbn [workers prod_];
    repeat match goal with
    | Hi : ws !! i = Some ?w |- context [<[i := ?w']> ws] =>
        pose proof (load_update ws i w w' Hi); clear Hi
    end; cbn [load producer_load length] in *; lia.
Qed.

Lemma run_left s acts s' : run s acts = Some (Ok s') -> (length acts + left s' <= left s)%nat.
Proof.
  revert s. induction acts as [|a acts IH]; intros s; cbn [run length]; [intros [= <-]; lia|].
  destruct (step s a) as [[s1|e|p]|] eqn:Es; [|done..]. intros H%IH.
  apply step_left in Es. lia.
Qed.

(** A busy worker can make its next step. *)
Lemma busy_steps n total s i w :
  (forall w p, fetch w <> Panics p) -> good n total s ->
  workers s !! i = Some w -> counted w <> [] -> exists a s', step s a = Some (Ok s').
Proof.
  intros Hf Hg Hi Hw. destruct w as [|w|sv| |]; try done.
  - exists (Fetch i). cbn. unfold fetch_step. rewrite Hi.
    destruct (fetch w) as [sv|e|p] eqn:Ef; [eauto..|]. by destruct (Hf w p).
  - exists (Append i). cbn. unfold append_step. rewrite Hi. eauto.
  - exists (Done i). cbn. unfold done_step. rewrite Hi.
    destruct (wg s) as [|k] eqn:Ek; [|eauto]. rewrite (good_wg _ _ _ Hg) in Ek.
    destruct (flat_update counted (workers s) i Finishing Finishing Hi) as [H%Permutation_length _].
    cbn in H. lia.
Qed.

(** With no busy worker before the return, every worker waits for work. *)
Lemma not_busy_idle ws :
  Forall (fun w => w <> Gone) ws -> ~ Exists (fun w => counted w <> []) ws ->
  Forall (fun w => w = Idle) ws /\ flat counted ws = [].
Proof.
  induction 1 as [|w ws Hw Hws IH]; [done|]. rewrite Exists_cons. intros Hno.
  destruct IH as [IH Hf]; [tauto|]. assert (w = Idle) as -> by (destruct w; cbn in *; naive_solver).
  split; [by constructor|]. exact Hf.
Qed.

Lemma newParallelGetter_positive n : (0 < newParallelGetter n)%Z.
Proof. unfold newParallelGetter. destruct (Z.leb_spec n 0); lia. Qed.

Lemma idle_steps n total s :
  good (Z.to_nat (newParallelGetter n)) total s -> active (prod_ s) ->
  Forall (fun w => w = Idle) (workers s) -> flat counted (workers s) = [] ->
  exists a s', step s a = Some (Ok s').
Proof.
  intros Hg Hp Hidle Hf. destruct (prod_ s) as [[|w ws]|w ws|] eqn:Ep; [| | |done].
  - exists Wait. cbn. unfold wait. rewrite Ep, (good_wg _ _ _ Hg), Hf, Ep. cbn. eauto.
  - exists AddWork. cbn. unfold add_work. rewrite Ep. eauto.
  - exists (Send 0). cbn. unfold send. rewrite Ep.
    pose proof (good_workers _ _ _ Hg). pose proof (newParallelGetter_positive n).
    destruct (workers s) as [|x xs]; cbn in *; [lia|].
    apply Forall_cons in Hidle as [-> _]. eauto.
Qed.

(** C13: the parallel getter always returns: there is a bound on the number of
    steps it can make, and as long as the producer has not returned some
    goroutine can make a step, which does not fail. The number of workers is
    positive whatever is configured, and the wait group never goes below
    zero. *)
Theorem getter_returns (n : Z) (works : list parallelGetterWork) (acts : list action) (s : getter) :
  (forall w p, fetch w <> Panics p) ->
  run (new_getter n works) acts = Some (Ok s) ->
  (length acts <= left (new_getter n works))%nat /\
  (active (prod_ s) -> exists a s', step s a = Some (Ok s')).
Proof.
  intros Hf H. pose proof (getter_run_good _ _ _ _ _ (good_new n works) H) as Hg.
  apply run_left in H. split; [lia|]. intros Hp.
  destruct (decide (Exists (fun w => counted w <> []) (workers s))) as [Hb|Hb].
  - apply Exists_exists in Hb as (w & [i Hi]%list_elem_of_lookup & Hw). by eapply busy_steps.
  - assert (workChan_closed s = false) as Hc by (rewrite (good_closed _ _ _ Hg); by destruct (prod_ s)).
    destruct (not_busy_idle _ (good_gone _ _ _ Hg Hc) Hb) as [Hi Hk]. by eapply idle_steps.
Qed.

End Getter.

(** ** Witnesses *)

(** An etcd that holds one server; a second key is not there. *)
Definition ex_server : Server := mkServer "a" "room" ∅ "host".
Definition ex_etcd : Etcd := {|
  cli_get_prefix _ _ := Ok [];
  cli_get k := if decide (k = getKey "a" "room")
               then Ok [mkKV k (Some (AsJSONString ex_server))] else Ok []
|}.
Definition ex_works : list parallelGetterWork := [mkWork "room" "gone" None; mkWork "room" "a" None].
(** Two workers; the second one receives the first piece of work. *)
Definition ex_acts : list action :=
  [AddWork; Send 1; AddWork; Send 0; Fetch 0; Append 0; Fetch 1; Done 1; Done 0; Wait; Leave 1].

Lemma ex_fetch_returns w p : fetch (E := ex_etcd) w <> Panics p.
Proof.
  assert (forall d, sv_unmarshal d <> Panics p) as Hd.
  { intros d. cbn. repeat case_match; done. }
  unfold fetch, getServerFromEtcd, parseServer. destruct (payload w); [apply Hd|].
  cbn [cli_get ex_etcd]. case_decide; [apply Hd|done].
Qed.

Lemma getter_refines_witness :
  exists (Sc : Sched) (L : SchedLaws Sc), waitAndGetResult (E := ex_etcd) ex_works = Ok [Some ex_server].
Proof.
  eapply (getter_refines (E := ex_etcd) 2 ex_works ex_acts);
    [intros; apply ex_fetch_returns|vm_compute; reflexivity|reflexivity].
Defined.

Lemma getter_returns_witness :
  exists s, run (E := ex_etcd) (new_getter 2 ex_works) (take 4 ex_acts) = Some (Ok s) /\
    (exists a s', step (E := ex_etcd) s a = Some (Ok s')).
Proof.
  eexists. split; [vm_compute; reflexivity|].
  apply (getter_returns (E := ex_etcd) 2 ex_works (take 4 ex_acts));
    [exact ex_fetch_returns|vm_compute; reflexivity|exact I].
Defined.

End Getter.
