(* ===== verification/Lease.v ===== *)
(** * Life of the service discovery: the lease, start, shutdown and the
    watcher's loop of [cluster/etcd_service_discovery.go]

    The answers of etcd to the attempts of the node are inputs of the
    model; the watcher is a state machine over the messages of its
    channels. *)

From S2P Require Import Prelude Errors Duration Discovery.
Import Discovery.

Module Lease.

Section Lease.
Context {J : ServerJson}.

(** What happens during one attempt to get a lease: the answers of [Grant]
    to the time to live asked for, of [KeepAlive] and [Put], the content etcd shows to the synchronisation,
    its schedule, and whether the timer of [renewLease] fires first. *)
Record attempt := {
  at_grant : Z -> result Z;
  at_keepalive : result unit;
  at_put : string -> string -> Z -> result unit;
  at_etcd : Etcd;
  at_sched : Sched;
  at_timeout : bool
}.

(** ** Lease *)

(** [int64(sd.heartbeatTTL.Seconds())], the time to live in seconds. *)
Definition lease_ttl (s : sd) : Z := Duration.int_seconds (heartbeatTTL (conf s)).

(** [grantLease]: the lease is recorded before it is kept alive. On [Ok] a
    goroutine running [watchLeaseChan] has been started. *)
Definition grantLease (a : attempt) (s : sd) : sd * result unit :=
  match at_grant a (lease_ttl s) with
  | Err e => (s, Err e)
  | Panics p => (s, Panics p)
  | Ok l =>
      let s := set_run s (cli s) (running s) l (stopChan_closed s) (stopLeaseChan_closed s) in
      (s, at_keepalive a)
  end.

Definition addServerIntoEtcd (a : attempt) (s : sd) (server : Server) : result unit :=
  at_put a (getKey (ID server) (Type_ server)) (AsJSONString server) (leaseID s).

(** [bootstrapServer]: the error of the synchronisation is dropped. *)
Definition bootstrapServer (a : attempt) (s : sd) (server : Server) : sd * result unit :=
  match addServerIntoEtcd a s server with
  | Ok _ =>
      match SyncServers (E := at_etcd a) (Sc := at_sched a) s true with
      | Ok s => (s, Ok tt)
      | Err _ => (s, Ok tt)
      | Panics p => (s, Panics p)
      end
  | Err e => (s, Err e)
  | Panics p => (s, Panics p)
  end.

Definition bootstrap (a : attempt) (s : sd) : sd * result unit :=
  match grantLease a s with
  | (s, Ok _) => bootstrapServer a s (server s)
  | (s, r) => (s, r)
  end.

(** [renewLease]: the goroutine does the work of [bootstrap]; the caller
    stops waiting for it when the timer fires. *)
Definition renewLease (a : attempt) (s : sd) : sd * result unit :=
  let '(s, r) := bootstrap a s in
  (s, if at_timeout a then Err (ESentinel ErrEtcdGrantLeaseTimeout) else r).

(** How the goroutine that watches the lease ends: told to stop, replaced
    by the goroutine of a new lease, or after telling the application to
    die. *)
Inductive lease_exit := LeaseStopped | LeaseReplaced | AppDies.

(** The inner loop of [watchLeaseChan] over the coming attempts; [None] when
    they are exhausted and the loop is still trying. *)
Fixpoint renew_loop (attempts : list attempt) (failedGrantLeaseAttempts : Z) (s : sd)
  : outcome error (sd * option lease_exit) :=
  match attempts with
  | [] => Ok (s, None)
  | a :: attempts =>
      match renewLease a s with
      | (s, Ok _) => Ok (s, Some LeaseReplaced)
      | (s, Panics p) => Panics p
      | (s, Err e) =>
          let failedGrantLeaseAttempts := (failedGrantLeaseAttempts + 1)%Z in
          if bool_decide (e = ESentinel ErrEtcdGrantLeaseTimeout) then Ok (s, Some AppDies)
          else if (grantLeaseMaxRetries (conf s) <=? failedGrantLeaseAttempts)%Z
          then Ok (s, Some AppDies)
          else renew_loop attempts failedGrantLeaseAttempts s
      end
  end.

(** The messages [watchLeaseChan] selects from: a closed stop channel, a
    keep-alive answer, or nothing (a nil answer or the closed channel). *)
Inductive lease_event := StopClosed | KeptAlive | LeaseLost.

(** [watchLeaseChan]. *)
Fixpoint watchLeaseChan (evs : list lease_event) (attempts : list attempt) (s : sd)
  : outcome error (sd * option lease_exit) :=
  match evs with
  | [] => Ok (s, None)
  | StopClosed :: _ => Ok (s, Some LeaseStopped)
  | KeptAlive :: evs => watchLeaseChan evs attempts s
  | LeaseLost :: _ => renew_loop attempts 0 s
  end.

(** ** Start *)

(** [InitETCDClient]; [dial] is the result of [clientv3.New]. *)
Definition InitETCDClient (dial : result unit) (s : sd) : sd * result unit :=
  match dial with
  | Ok _ => (set_run s true (running s) (leaseID s) (stopChan_closed s) (stopLeaseChan_closed s), Ok tt)
  | r => (s, r)
  end.

(** [Init]: on [Ok] the watcher and the goroutine that synchronises
    periodically are running. *)
Definition Init (dial : result unit) (a : attempt) (s : sd) : sd * result unit :=
  let s := set_run s (cli s) true (leaseID s) (stopChan_closed s) (stopLeaseChan_closed s) in
  match (if cli s then (s, Ok tt) else InitETCDClient dial s) with
  | (s, Ok _) => bootstrap a s
  | (s, r) => (s, r)
  end.

(** ** Shutdown *)

(** A call that may never return. *)
Inductive call (A : Type) := Returns (a : A) | Blocks.
Arguments Returns {A} a.
Arguments Blocks {A}.

(** [revoke]: without a client nothing is ever sent on the channel it waits
    on. [answer] is the result of [cli.Revoke]. *)
Definition revoke (answer : result unit) (s : sd) : call (sd * result unit) :=
  if stopLeaseChan_closed s then Returns (s, Panics CloseOfClosedChannel)
  else
    let s := set_run s (cli s) (running s) (leaseID s) (stopChan_closed s) true in
    if cli s then Returns (s, answer) else Blocks.

(** [BeforeShutdown]: the error of [revoke] is dropped. *)
Definition BeforeShutdown (answer : result unit) (s : sd) : call (sd * result unit) :=
  match revoke answer s with
  | Returns (s, Panics p) => Returns (s, Panics p)
  | Returns (s, _) => Returns (s, Ok tt)
  | Blocks => Blocks
  end.

Definition Shutdown (s : sd) : sd * result unit :=
  let s := set_run s (cli s) false (leaseID s) (stopChan_closed s) (stopLeaseChan_closed s) in
  if stopChan_closed s then (s, Panics CloseOfClosedChannel)
  else (set_run s (cli s) (running s) (leaseID s) true (stopLeaseChan_closed s), Ok tt).

(** ** The watcher's loop *)

(** Where the loop of [watchEtcdChanges] is: in the [select] of the outer
    loop, in the inner loop that waits for a synchronisation to end, or
    returned. The watch attempts that failed are counted. *)
Inductive watcher := Selecting (failed : Z) | AwaitingSync (failed : Z) | Returned.

(** A message: a synchronisation announces its start or end, the watch
    channel gives a response (or is closed, [None]), the stop channel is
    closed. [WClosed] carries the result of the reconnection the loop makes
    after more than ten failures. *)
Inductive watch_msg :=
| SyncState (syncing : bool)
| WResp (evs : list Event)
| WClosed (reinit : result unit)
| WStop.

(** One message received by the loop; [None] when the loop is not ready to
    receive it. The outer loop tests [running] before it selects again. *)
Definition again (s : sd) (failed : Z) : watcher :=
  if running s then Selecting failed else Returned.

Definition watch_loop (w : watcher) (s : sd) (m : watch_msg) : option (outcome error (watcher * sd)) :=
  match w, m with
  | Selecting failed, SyncState true => Some (Ok (AwaitingSync failed, s))
  | Selecting failed, SyncState false => Some (Ok (again s failed, s))
  | AwaitingSync failed, SyncState true => Some (Ok (AwaitingSync failed, s))
  | AwaitingSync failed, SyncState false => Some (Ok (again s failed, s))
  | Selecting _, WResp evs => Some (s ← watch_events s evs; Ok (again s 0, s))
  | Selecting failed, WClosed reinit =>
      let failed := (failed + 1)%Z in
      if (10 <? failed)%Z then
        match InitETCDClient reinit s with
        | (s, Panics p) => Some (Panics p)
        | (s, _) => Some (Ok (again s 0, s))
        end
      else Some (Ok (again s failed, s))
  | Selecting _, WStop => Some (Ok (Returned, s))
  | _, _ => None
  end.

(** The loop on a sequence of messages. *)
Fixpoint watch_run (w : watcher) (s : sd) (ms : list watch_msg)
  : option (outcome error (watcher * sd)) :=
  match ms with
  | [] => Some (Ok (w, s))
  | m :: ms =>
      match watch_loop w s m with
      | Some (Ok (w, s)) => watch_run w s ms
      | r => r
      end
  end.

(** ** The lease is renewed or given up in bounded time *)

Lemma SyncServers_same (E : Etcd) (Sc : Sched) s firstSync s' :
  SyncServers s firstSync = Ok s' -> same_node s s'.
Proof.
  intros Hs. apply (step_ind_ops (same_node s) s s'); [| |by eapply step_sync|done].
  - intros s1 sv s2 H1 H2. etrans; [done|]. by eapply addServer_same.
  - intros s1 id H1. etrans; [done|]. apply deleteServer_same.
Qed.

Lemma renewLease_conf a s : conf (renewLease a s).1 = conf s.
Proof.
  unfold renewLease, bootstrap, grantLease. destruct (at_grant a _); [|done..].
  destruct (at_keepalive a); [|done..]. unfold bootstrapServer.
  destruct (addServerIntoEtcd _ _ _); [|done..].
  destruct (SyncServers _ _) as [s'| |] eqn:E; [|done..].
  by destruct (SyncServers_same _ _ _ _ _ E) as (? & _).
Qed.

(** The attempts that are made at most, after [failed] of them failed. *)
Definition attempts_left (s : sd) (failed : Z) : nat :=
  Z.to_nat (Z.max 1 (grantLeaseMaxRetries (conf s) - failed)).

Lemma renew_loop_bounded attempts : forall failed s,
  (attempts_left s failed <= length attempts)%nat ->
  (forall a s p, a ∈ attempts -> (renewLease a s).2 <> Panics p) ->
  exists s' e, renew_loop attempts failed s = Ok (s', Some e) /\
    renew_loop (take (attempts_left s failed) attempts) failed s = Ok (s', Some e) /\
    ((forall a s0, a ∈ take (attempts_left s failed) attempts ->
        is_ok (renewLease a s0).2 = false) -> e = AppDies).
Proof.
  induction attempts as [|a attempts IH]; intros failed s Hlen Hnp.
  - cbn in Hlen. unfold attempts_left in Hlen. lia.
  - destruct (attempts_left s failed) as [|n] eqn:En; [unfold attempts_left in En; lia|].
    cbn [take renew_loop]. pose proof (renewLease_conf a s) as Hc.
    destruct (renewLease a s) as [s1 r] eqn:Er. cbn in Hc. destruct r as [[]|e|p].
    + do 2 eexists. split_and!; [done|done|]. intros Hf.
      specialize (Hf a s). rewrite Er in Hf. cbn in Hf. set_solver.
    + case_bool_decide; [do 2 eexists; by split_and!|].
      destruct (Z.leb_spec (grantLeaseMaxRetries (conf s1)) (failed + 1)) as [|Hlt];
        [do 2 eexists; by split_and!|].
      assert (attempts_left s1 (failed + 1) = n) as Hn
        by (unfold attempts_left in *; rewrite Hc in *; lia).
      destruct (IH (failed + 1)%Z s1) as (s' & e' & H1 & H2 & H3); [cbn in Hlen; lia|set_solver|].
      rewrite Hn in H2. exists s', e'. split_and!; [done|done|]. intros Hf. apply H3.
      intros a' s'' Hin. apply Hf. rewrite Hn in Hin. set_solver.
    + exfalso. apply (Hnp a s p); [set_solver|]. by rewrite Er.
Qed.

(** C27: when the lease is lost the node does not retry forever: within the
    configured number of attempts (one, if it is not positive) the loop
    ends, with a new lease or by telling the application to die, and it
    tells it to die when every attempt failed. *)
Theorem lease_retries_bounded (attempts : list attempt) (s : sd) :
  let n := Z.to_nat (Z.max 1 (grantLeaseMaxRetries (conf s))) in
  (n <= length attempts)%nat ->
  (forall a s p, a ∈ attempts -> (renewLease a s).2 <> Panics p) ->
  exists s' e, watchLeaseChan [LeaseLost] attempts s = Ok (s', Some e) /\
    watchLeaseChan [LeaseLost] (take n attempts) s = Ok (s', Some e) /\
    ((forall a s0, a ∈ take n attempts -> is_ok (renewLease a s0).2 = false) -> e = AppDies).
Proof.
  intros n Hn Hnp.
  assert (n = attempts_left s 0) as Hl by (unfold n, attempts_left; f_equal; lia).
  rewrite Hl in *. by apply renew_loop_bounded.
Qed.

(** ** The watcher and the synchronisations *)

(** Every synchronisation of the sequence starts after the previous one
    ended; [b] tells whether one is in progress. *)
Fixpoint one_at_a_time (b : bool) (ms : list watch_msg) : Prop :=
  match ms with
  | [] => True
  | SyncState true :: ms => b = false /\ one_at_a_time true ms
  | SyncState false :: ms => b = true /\ one_at_a_time false ms
  | _ :: ms => one_at_a_time b ms
  end.

(** How many synchronisations are in progress after the messages. *)
Fixpoint in_progress (ms : list watch_msg) : Z :=
  match ms with
  | [] => 0
  | SyncState true :: ms => 1 + in_progress ms
  | SyncState false :: ms => in_progress ms - 1
  | _ :: ms => in_progress ms
  end%Z.

(** The watcher waits exactly while a synchronisation is in progress. *)
Definition awaits (w : watcher) (b : bool) : Prop :=
  match w with AwaitingSync _ => b = true | Selecting _ => b = false | Returned => True end.

Lemma again_awaits s f : awaits (again s f) false.
Proof. unfold again. by destruct (running s). Qed.

Lemma watch_loop_awaits w s m b ms w' s' :
  awaits w b -> one_at_a_time b (m :: ms) -> watch_loop w s m = Some (Ok (w', s')) ->
  exists b', awaits w' b' /\ one_at_a_time b' ms /\
    (in_progress [m] + (if b then 1 else 0) = (if b' then 1 else 0))%Z.
Proof.
  pose proof again_awaits as Ha.
  destruct w as [f|f|], m as [[]|evs|re|]; cbn; intros Hw Ho Hr; try done; subst.
  - injection Hr as <- <-. exists true. naive_solver.
  - naive_solver.
  - injection Hr as Hr. outcome_inv. exists false. naive_solver.
  - exists false. destruct (10 <? f + 1)%Z; [|injection Hr as <- <-; naive_solver].
    destruct (InitETCDClient re s) as [s1 []]; try done; injection Hr as <- <-; naive_solver.
  - injection Hr as <- <-. exists false. naive_solver.
  - naive_solver.
  - injection Hr as <- <-. exists false. naive_solver.
Qed.

Lemma watch_run_exclusive pre : forall w s b evs post r,
  awaits w b -> one_at_a_time b (pre ++ WResp evs :: post) ->
  watch_run w s (pre ++ WResp evs :: post) = Some (Ok r) ->
  (in_progress pre + (if b then 1 else 0) = 0)%Z.
Proof.
  induction pre as [|m pre IH]; intros w s b evs post r Hw Ho Hr.
  - cbn in Hr. destruct w; [|done..]. cbn in Hw. by subst.
  - change ((m :: pre) ++ WResp evs :: post) with (m :: (pre ++ WResp evs :: post)) in *.
    cbn [watch_run] in Hr. destruct (watch_loop w s m) as [[[w' s']| |]|] eqn:E; [|done..].
    destruct (watch_loop_awaits _ _ _ _ _ _ _ Hw Ho E) as (b' & Hw' & Ho' & Hp).
    specialize (IH _ _ _ _ _ _ Hw' Ho' Hr).
    assert (in_progress (m :: pre) = in_progress [m] + in_progress pre)%Z as ->
      by (destruct m as [[]| | |]; cbn; lia). lia.
Qed.

(** C29: watch events are not handled during a synchronisation, as long as
    synchronisations do not overlap: in any sequence of messages the
    watcher's loop goes through, each watch response is received when as
    many synchronisations have ended as have started. *)
Theorem watcher_excludes_sync (s : sd) (failed : Z) (pre post : list watch_msg)
    (evs : list Event) (r : watcher * sd) :
  one_at_a_time false (pre ++ WResp evs :: post) ->
  watch_run (Selecting failed) s (pre ++ WResp evs :: post) = Some (Ok r) ->
  in_progress pre = 0%Z.
Proof.
  intros Ho Hr. pose proof (watch_run_exclusive pre (Selecting failed) s false evs post r eq_refl Ho Hr).
  cbn in *. lia.
Qed.

(** The two updates of [addServer], which other goroutines can separate. *)
Definition addServer_by_id (sv : Server) (s : sd) : sd :=
  set_maps s (serverMapByType s) (<[ID sv := sv]> (serverMapByID s)).
Definition addServer_by_type (sv : Server) (s : sd) : sd :=
  set_maps s (index_by_type sv (serverMapByType s)) (serverMapByID s).

(** C30: the exclusion fails when two synchronisations overlap (the periodic
    one and the one of a lease renewal): the end of one releases the watcher
    while the other is in progress, and a deletion handled between the two
    updates of [addServer] leaves a server that is offered by its type, is
    not found by its id, and that no later deletion removes. *)
Theorem overlapping_syncs_leave_ghost (s : sd) (failed : Z) (sv : Server) :
  running s = true -> serverMapByID s !! ID sv = None ->
  (exists s1, addServer s (Some sv) = Ok s1 /\
     serverMapByID s1 = serverMapByID (addServer_by_type sv (addServer_by_id sv s)) /\
     serverMapByType s1 = serverMapByType (addServer_by_type sv (addServer_by_id sv s))) /\
  let race := [SyncState true; SyncState true; SyncState false] in
  in_progress race = 1%Z /\
  watch_run (Selecting failed) s race = Some (Ok (Selecting failed, s)) /\
  let s' := addServer_by_type sv (deleteServer (addServer_by_id sv s) (ID sv)) in
  GetServer s' (ID sv) = Err (ESentinel ErrNoServerWithID) /\
  (exists m, GetServersByType s' (Type_ sv) = Ok m /\ m !! ID sv = Some sv) /\
  deleteServer s' (ID sv) = s'.
Proof.
  intros Hrun Hnew. split.
  { unfold addServer. rewrite Hnew. eexists. split; [done|]. by case_bool_decide. }
  intros race. split; [done|]. split; [cbn; unfold again; by rewrite Hrun|].
  intros s'.
  assert (serverMapByID s' !! ID sv = None) as Hid.
  { unfold s', deleteServer. cbn. rewrite lookup_insert_eq. cbn. by rewrite lookup_delete_eq. }
  assert (exists byType, serverMapByType s' = index_by_type sv byType) as [byType Hty]
    by (eexists; reflexivity).
  split_and!.
  - unfold GetServer. by rewrite Hid.
  - unfold GetServersByType. rewrite Hty. unfold index_by_type. rewrite lookup_insert_eq.
    rewrite bool_decide_eq_true_2, map_copy_into_union, (right_id_L ∅ (∪)).
    + eexists. split; [done|]. by rewrite lookup_insert_eq.
    + assert (forall (m : gmap string Server), size (<[ID sv := sv]> m) <> 0%nat) as Hs;
        [|match goal with |- (0 < size (<[_ := _]> ?m))%nat => specialize (Hs m) end; lia].
      intros m. rewrite map_size_non_empty_iff. apply insert_non_empty.
  - unfold deleteServer. by rewrite Hid.
Qed.

End Lease.

(** ** Witnesses *)

Definition failing : attempt := {|
  at_grant _ := Err (ELib "etcdserver" "unavailable"); at_keepalive := Ok tt;
  at_put _ _ _ := Ok tt; at_etcd := etcd_of []; at_sched := in_order; at_timeout := false
|}.

Lemma lease_retries_bounded_witness :
  exists s', watchLeaseChan [LeaseLost] (repeat failing 20) ex_node = Ok (s', Some AppDies).
Proof.
  destruct (lease_retries_bounded (repeat failing 20) ex_node) as (s' & e & H1 & _ & H3).
  - vm_compute. lia.
  - intros a s p Ha%list_elem_of_In. apply repeat_spec in Ha as ->. done.
  - exists s'. rewrite H1. rewrite H3; [done|].
    intros a s0 Ha%subseteq_take%list_elem_of_In. by apply repeat_spec in Ha as ->.
Defined.

Lemma watcher_excludes_sync_witness :
  in_progress [SyncState true; SyncState false] = 0%Z.
Proof.
  apply (watcher_excludes_sync
           (Init (Ok tt) failing ex_node).1 0 [SyncState true; SyncState false] [] []
           (Selecting 0, (Init (Ok tt) failing ex_node).1)).
  - cbn. auto.
  - reflexivity.
Defined.

Lemma overlapping_syncs_leave_ghost_witness :
  let s := (Init (Ok tt) failing ex_node).1 in
  let s' := addServer_by_type sv_chat (deleteServer (addServer_by_id sv_chat s) "c1") in
  GetServer s' "c1" = Err (ESentinel ErrNoServerWithID) /\ deleteServer s' "c1" = s'.
Proof.
  intros s s'. destruct (overlapping_syncs_leave_ghost s 0 sv_chat) as (_ & _ & _ & H1 & _ & H2);
    [reflexivity|reflexivity|]. by split.
Defined.

End Lease.
