(* ===== verification/Router.v ===== *)
(** * Routing of calls to servers: [router/router.go] and the interface of
    [cluster/service_discovery.go]

    The router is proved against an interface of service discovery, which
    the etcd service discovery implements. *)

From S2P Require Import Prelude Errors Message Route Context Discovery.
From Stdlib Require Import Strings.Byte.
Import Discovery.

Module Router.

(** ** The interface of service discovery *)

Class ServiceDiscovery := {
  sd_GetServersByType : string -> result (gmap string Server);
  sd_GetServer : string -> result Server
}.

(** What a client relies on: the servers of a type are given under their
    ids, have this type and there is at least one, and a failure is one of
    the two declared errors. *)
Class ServiceDiscoveryLaws (D : ServiceDiscovery) := {
  by_type_nonempty ty m : sd_GetServersByType ty = Ok m -> m <> ∅;
  by_type_servers ty m id sv :
    sd_GetServersByType ty = Ok m -> m !! id = Some sv -> ID sv = id /\ Type_ sv = ty;
  by_type_total ty :
    (exists m, sd_GetServersByType ty = Ok m) \/
    sd_GetServersByType ty = Err (ESentinel ErrNoServersAvailableOfType);
  get_server_id id sv : sd_GetServer id = Ok sv -> ID sv = id;
  by_type_get ty m id sv : sd_GetServersByType ty = Ok m -> m !! id = Some sv -> sd_GetServer id = Ok sv
}.

(** The etcd service discovery in a state. *)
Definition of_node (s : sd) : ServiceDiscovery := {|
  sd_GetServersByType := GetServersByType s;
  sd_GetServer := GetServer s
|}.

Lemma of_node_laws s : wf s -> ServiceDiscoveryLaws (of_node s).
Proof.
  intros Hwf. split; cbn.
  - intros ty m. rewrite GetServersByType_spec by done. case_decide; [done|]. by intros [= <-].
  - intros ty m id sv. rewrite GetServersByType_spec by done. case_decide; [done|].
    intros [= <-]. unfold of_type. rewrite map_lookup_filter_Some. intros [Hl Ht].
    split; [by apply Hwf|done].
  - intros ty. rewrite GetServersByType_spec by done. case_decide; eauto.
  - intros id sv. unfold GetServer. destruct (serverMapByID s !! id) as [x|] eqn:E; [|done].
    intros [= <-]. by apply Hwf.
  - intros ty m id sv. rewrite GetServersByType_spec by done. case_decide; [done|].
    intros [= <-]. unfold of_type, GetServer. rewrite map_lookup_filter_Some. by intros [-> _].
Qed.

(** ** The router *)

(** A routing function returns a context and a server or an error. *)
Abbreviation RoutingFunc :=
  (option Ctx.ctx -> Route.Route -> list byte -> gmap string Server ->
   option Ctx.ctx * result (option Server)).

Record Router := mkRouter {
  serviceDiscovery : option ServiceDiscovery;
  routesMap : gmap string RoutingFunc
}.

Definition New : Router := mkRouter None ∅.

Definition SetServiceDiscovery (r : Router) (sd : option ServiceDiscovery) : Router :=
  mkRouter sd (routesMap r).

(** The choices of the runtime: the order of a map traversal, and
    [rnd.Intn(n)] for a positive [n]. *)
Class Choice := {
  map_order : gmap string Server -> list Server;
  intn : nat -> nat
}.
Class ChoiceLaws (C : Choice) := {
  map_order_perm m : map_order m ≡ₚ (map_to_list m).*2;
  intn_lt n : (0 < n)%nat -> (intn n < n)%nat
}.

Section Choose.
Context {C : Choice}.

(** [defaultRoute]; [Intn] panics for a bound that is not positive. *)
Definition defaultRoute (servers : gmap string Server) : result Server :=
  let srvList := map_order servers in
  if bool_decide (length srvList = 0)%nat
  then Panics (PanicMessage "invalid argument to Intn")
  else go_index srvList (intn (length srvList)).

(** [Route]. *)
Definition Route (r : Router) (ctx : option Ctx.ctx) (svType : string) (route : Route.Route)
    (msg : option Message.Message) : option Ctx.ctx * result (option Server) :=
  match serviceDiscovery r with
  | None => (ctx, Err (ESentinel ErrServiceDiscoveryNotInitialized))
  | Some D =>
      match sd_GetServersByType svType with
      | Err err => (ctx, Err err)
      | Panics p => (ctx, Panics p)
      | Ok serversOfType =>
          match routesMap r !! svType with
          | None => (ctx, server ← defaultRoute serversOfType; Ok (Some server))
          | Some routeFunc =>
              match msg with
              | None => (ctx, Panics NilDereference)
              | Some msg => routeFunc ctx route (Message.Data msg) serversOfType
              end
          end
      end
  end.

(** [AddRoute]. *)
Definition AddRoute (r : Router) (serverType : string) (routingFunction : RoutingFunc) : Router :=
  mkRouter (serviceDiscovery r) (<[serverType := routingFunction]> (routesMap r)).

Context {CL : ChoiceLaws C}.

Lemma defaultRoute_member servers :
  servers <> ∅ -> exists id sv, defaultRoute servers = Ok sv /\ servers !! id = Some sv.
Proof.
  intros Hne. unfold defaultRoute. rewrite bool_decide_eq_false_2.
  - destruct (map_order servers !! intn (length (map_order servers))) as [sv|] eqn:E.
    + rewrite (go_index_ok _ _ sv E). apply list_elem_of_lookup_2 in E.
      rewrite (map_order_perm servers), list_elem_of_fmap in E.
      destruct E as ([id x] & -> & Hin%elem_of_map_to_list). eauto.
    + apply lookup_ge_None in E. exfalso.
      destruct (decide (length (map_order servers) = 0%nat)) as [H0|H0].
      * apply Hne. apply map_to_list_empty_iff, length_zero_iff_nil.
        by rewrite (map_order_perm servers), length_fmap in H0.
      * pose proof (intn_lt (length (map_order servers))). lia.
  - rewrite (map_order_perm servers), length_fmap. intros H0%length_zero_iff_nil.
    by apply Hne, map_to_list_empty_iff.
Qed.

(** The choice does not look at the message. *)
Lemma Route_default_uniform (r : Router) (D : ServiceDiscovery) (svType : string) (route : Route.Route) :
  ServiceDiscoveryLaws D -> serviceDiscovery r = Some D -> routesMap r !! svType = None ->
  (exists m sv, sd_GetServersByType svType = Ok m /\ m !! ID sv = Some sv /\ Type_ sv = svType /\
     forall ctx msg, Route r ctx svType route msg = (ctx, Ok (Some sv))) \/
  (sd_GetServersByType svType = Err (ESentinel ErrNoServersAvailableOfType) /\
     forall ctx msg, Route r ctx svType route msg = (ctx, Err (ESentinel ErrNoServersAvailableOfType))).
Proof.
  intros Hlaws Hr Hroute. unfold Route. rewrite Hr.
  destruct (by_type_total svType) as [[m Hm]|Hm]; rewrite Hm; [left|by right]. rewrite Hroute.
  destruct (defaultRoute_member m) as (id & sv & -> & Hl); [by eapply by_type_nonempty|].
  destruct (by_type_servers svType m id sv Hm Hl) as [<- Hty]. by exists m, sv.
Qed.

Lemma Route_default_spec (r : Router) (D : ServiceDiscovery) (ctx : option Ctx.ctx)
    (svType : string) (route : Route.Route) (msg : option Message.Message) :
  ServiceDiscoveryLaws D -> serviceDiscovery r = Some D -> routesMap r !! svType = None ->
  (exists m sv, sd_GetServersByType svType = Ok m /\ m !! ID sv = Some sv /\ Type_ sv = svType /\
     Route r ctx svType route msg = (ctx, Ok (Some sv))) \/
  (sd_GetServersByType svType = Err (ESentinel ErrNoServersAvailableOfType) /\
     Route r ctx svType route msg = (ctx, Err (ESentinel ErrNoServersAvailableOfType))).
Proof.
  intros HD Hr Hm. destruct (Route_default_uniform r D svType route HD Hr Hm) as [(m & sv & H)|H]; [left|right].
  - exists m, sv. naive_solver.
  - naive_solver.
Qed.

(** A call is routed to a live server of the requested type: over any
    lawful service discovery, routing without a custom function returns the
    context it was given and either a server the discovery lists under the
    requested type, or, when there is none, the declared error; it never
    panics, whatever the random choice and the order of the map. *)
Theorem Route_default_correct (r : Router) (D : ServiceDiscovery) (ctx : option Ctx.ctx)
    (svType : string) (route : Route.Route) (msg : option Message.Message) :
  ServiceDiscoveryLaws D -> serviceDiscovery r = Some D -> routesMap r !! svType = None ->
  (exists m sv, sd_GetServersByType svType = Ok m /\ m !! ID sv = Some sv /\ Type_ sv = svType /\
     Route r ctx svType route msg = (ctx, Ok (Some sv))) \/
  (sd_GetServersByType svType = Err (ESentinel ErrNoServersAvailableOfType) /\
     Route r ctx svType route msg = (ctx, Err (ESentinel ErrNoServersAvailableOfType))).
Proof. apply Route_default_spec. Qed.

(** A custom routing function decides: after [AddRoute] a call to that
    type is given to the function, with the data of the message and the
    servers of the type, and calls to other types are routed as before. *)
Theorem AddRoute_correct (r : Router) (D : ServiceDiscovery) (f : RoutingFunc)
    (ctx : option Ctx.ctx) (ty : string) (route : Route.Route) (msg : Message.Message)
    (m : gmap string Server) :
  serviceDiscovery r = Some D -> sd_GetServersByType ty = Ok m ->
  Route (AddRoute r ty f) ctx ty route (Some msg) = f ctx route (Message.Data msg) m /\
  forall ty' msg', ty' <> ty ->
    Route (AddRoute r ty f) ctx ty' route msg' = Route r ctx ty' route msg'.
Proof.
  intros HD Hm. unfold Route, AddRoute. cbn [serviceDiscovery routesMap]. rewrite HD, Hm. split.
  - by rewrite lookup_insert_eq.
  - intros ty' msg' Hne. by rewrite lookup_insert_ne.
Qed.

End Choose.

(** ** Witnesses *)

Definition first_choice : Choice := {| map_order m := (map_to_list m).*2; intn _ := 0%nat |}.
#[export] Instance first_choice_laws : ChoiceLaws first_choice.
Proof. split; [done|]. cbn. lia. Qed.

Definition chat_node : sd :=
  match addServer ex_node (Some sv_chat) with Ok s => s | _ => ex_node end.
Lemma chat_node_wf : wf chat_node.
Proof. by apply (addServer_wf ex_node sv_chat); [apply ex_node_wf|]. Qed.

Definition a_route : Route.Route := Route.NewRoute "chat" "room" "join".

Lemma Route_default_correct_witness :
  Route (C := first_choice) (SetServiceDiscovery New (Some (of_node chat_node))) None "chat" a_route None =
    (None, Ok (Some sv_chat)).
Proof.
  destruct (Route_default_correct (C := first_choice)
    (SetServiceDiscovery New (Some (of_node chat_node))) (of_node chat_node)
    None "chat" a_route None (of_node_laws _ chat_node_wf) eq_refl eq_refl)
    as [(m & sv & Hm & Hl & _ & ->)|[Hm _]].
  - assert (m = {["c1" := sv_chat]}) as ->
      by (vm_compute in Hm; injection Hm as <-; reflexivity).
    apply lookup_singleton_Some in Hl as [_ <-]. done.
  - by vm_compute in Hm.
Defined.

Definition refuse : RoutingFunc := fun ctx _ _ _ => (ctx, Err (ESentinel ErrServerNotFound)).

Lemma AddRoute_correct_witness :
  Route (C := first_choice) (AddRoute (SetServiceDiscovery New (Some (of_node chat_node))) "chat" refuse)
    None "chat" a_route (Some (Message.New [])) = (None, Err (ESentinel ErrServerNotFound)).
Proof.
  apply (AddRoute_correct (C := first_choice) (SetServiceDiscovery New (Some (of_node chat_node)))
    (of_node chat_node) refuse None "chat" a_route (Message.New []) {["c1" := sv_chat]}); reflexivity.
Defined.

End Router.
