(* ===== verification/Cluster.v ===== *)
(** * Several servers and one etcd

    The composition of the service discoveries of all processes with the etcd
    they share. etcd is the history of what was put under and deleted from
    the keys of servers; a server's watch is a position in that history, from
    which it receives the changes in order. Servers join, register, register
    again with another description, lose their lease, synchronise, receive
    changes and lose their watch in any order. *)

From S2P Require Import Prelude Utf8 Errors Message Route Context Discovery Router.
Import Discovery.

Module Cluster.

(** ** etcd *)

(** [addServerIntoEtcd] puts a description, the end of a lease deletes it. *)
Inductive change := Put (sv : Server) | Deleted (sv : Server).
Definition about (ch : change) : Server := match ch with Put sv | Deleted sv => sv end.

Definition store_change (m : gmap string Server) (ch : change) : gmap string Server :=
  match ch with Put sv => <[ID sv := sv]> m | Deleted sv => delete (ID sv) m end.
Definition replay (log : list change) : gmap string Server := foldl store_change ∅ log.

(** Names that can be part of a key, and text that JSON carries. *)
Definition named (sv : Server) : Prop :=
  str_contains sep (ID sv) = false /\ str_contains sep (Type_ sv) = false /\ plain_server sv.

Lemma replay_snoc log ch : replay (log ++ [ch]) = store_change (replay log) ch.
Proof. unfold replay. by rewrite foldl_app. Qed.

Lemma replay_ids m log id sv : (forall id sv, m !! id = Some sv -> ID sv = id) ->
  foldl store_change m log !! id = Some sv -> ID sv = id.
Proof.
  revert m. induction log as [|ch log IH]; intros m Hm; cbn; [by apply Hm|]. apply IH.
  intros k y. destruct ch; cbn; [rewrite lookup_insert_Some|rewrite lookup_delete_Some]; naive_solver.
Qed.

Lemma replay_id log id sv : replay log !! id = Some sv -> ID sv = id.
Proof. apply replay_ids. intros k y. by rewrite lookup_empty. Qed.

(** ** Presence: whether an id is in a registry *)

Definition present (m : gmap string Server) (id : string) : bool := bool_decide (is_Some (m !! id)).

Lemma present_Some m id sv : m !! id = Some sv -> present m id = true.
Proof. intros H. unfold present. rewrite H. by apply bool_decide_eq_true_2. Qed.
Lemma present_None m id : m !! id = None -> present m id = false.
Proof. intros H. unfold present. rewrite H. apply bool_decide_eq_false_2. by intros []. Qed.
Lemma present_true m id : present m id = true -> exists sv, m !! id = Some sv.
Proof. unfold present. intros [sv Hsv]%bool_decide_eq_true. by exists sv. Qed.

(** What a change, and a sequence of changes, does to the presence of an id. *)
Definition mark (id : string) (b : bool) (ch : change) : bool :=
  if decide (ID (about ch) = id) then match ch with Put _ => true | Deleted _ => false end else b.
Definition marks (id : string) (l : list change) (b : bool) : bool := foldl (mark id) b l.

Lemma marks_app id l l' b : marks id (l ++ l') b = marks id l' (marks id l b).
Proof. apply foldl_app. Qed.

Lemma mark_store m ch id : mark id (present m id) ch = present (store_change m ch) id.
Proof.
  unfold mark. destruct ch as [sv|sv]; cbn [about store_change]; destruct (decide (ID sv = id)) as [<-|Hne].
  - symmetry. eapply present_Some, lookup_insert_eq.
  - unfold present. by rewrite lookup_insert_ne.
  - symmetry. apply present_None, lookup_delete_eq.
  - unfold present. by rewrite lookup_delete_ne.
Qed.

Lemma marks_store m l id : marks id l (present m id) = present (foldl store_change m l) id.
Proof.
  revert m. induction l as [|ch l IH]; intros m; [done|].
  unfold marks in *. cbn. by rewrite mark_store, IH.
Qed.

(** A sequence of changes that does not touch an id leaves it; any other one
    decides by itself. *)
Definition untouched (id : string) (l : list change) : Prop := Forall (fun ch => ID (about ch) <> id) l.

Lemma marks_untouched id l b : untouched id l -> marks id l b = b.
Proof.
  unfold marks. intros H. revert b. induction H as [|ch l Hch _ IH]; intros b; [done|]. cbn.
  unfold mark at 2. by rewrite decide_False, IH.
Qed.

Lemma marks_touched id l b b' : ~ untouched id l -> marks id l b = marks id l b'.
Proof.
  unfold untouched. intros H. revert b b'. induction l as [|ch l IH]; intros b b'; [by destruct H|].
  unfold marks in *. cbn. unfold mark at 2 4. destruct (decide (ID (about ch) = id)) as [E|E]; [done|].
  apply IH. intros Hl. by apply H, Forall_cons.
Qed.

(** ** Pieces of the history *)

Definition seg (i j : nat) (log : list change) : list change := drop i (take j log).

Lemma seg_split i k j log : (i <= k <= j)%nat -> seg i j log = seg i k log ++ seg k j log.
Proof.
  intros H. unfold seg. rewrite <-(take_drop k (take j log)) at 1. rewrite drop_app, take_take.
  rewrite (Nat.min_l k j) by lia. f_equal. rewrite length_take.
  destruct (decide (k <= length log)%nat).
  - by rewrite Nat.min_l, (proj2 (Nat.sub_0_le i k)) by lia.
  - rewrite (drop_ge (take j log) k) by (rewrite length_take; lia). apply drop_nil.
Qed.

Lemma replay_seg i j log : (i <= j)%nat ->
  replay (take j log) = foldl store_change (replay (take i log)) (seg i j log).
Proof.
  intros H. unfold replay, seg. rewrite <-foldl_app. f_equal.
  rewrite <-(take_drop i (take j log)) at 1. by rewrite take_take, (Nat.min_l i j).
Qed.

Lemma marks_seg id i j log : (i <= j)%nat ->
  marks id (seg i j log) (present (replay (take i log)) id) = present (replay (take j log)) id.
Proof. intros H. by rewrite marks_store, <-replay_seg. Qed.

Lemma take_app_old (log : list change) l n : (n <= length log)%nat -> take n (log ++ l) = take n log.
Proof. intros H. by rewrite take_app_le. Qed.

Lemma seg_app i j log l : (j <= length log)%nat -> seg i j (log ++ l) = seg i j log.
Proof. intros H. unfold seg. by rewrite take_app_old. Qed.

Lemma seg_cons i j log ch : (i < j <= length log)%nat -> log !! i = Some ch ->
  seg i j log = ch :: seg (S i) j log.
Proof. intros H Hi. unfold seg. apply drop_S. rewrite lookup_take_lt by lia. done. Qed.

Lemma seg_nil i lg : seg i i lg = [].
Proof. unfold seg. apply drop_ge. rewrite length_take. lia. Qed.

Lemma replay_S i log ch : log !! i = Some ch ->
  replay (take (S i) log) = store_change (replay (take i log)) ch.
Proof. intros H. rewrite (take_S_r _ _ ch) by done. apply replay_snoc. Qed.

(** A description that has been in etcd, and ids under which only one has. *)
Definition registered (lg : list change) (sv : Server) : Prop :=
  exists q, (q <= length lg)%nat /\ replay (take q lg) !! ID sv = Some sv.
Definition unreplaced (lg : list change) (id : string) : Prop :=
  forall sv sv', registered lg sv -> registered lg sv' -> ID sv = id -> ID sv' = id -> sv = sv'.

Lemma registered_now lg id sv : replay lg !! id = Some sv -> registered lg sv.
Proof.
  intros H. exists (length lg). split; [done|]. rewrite firstn_all, (replay_id _ _ _ H). done.
Qed.

Lemma registered_app lg l sv : registered lg sv -> registered (lg ++ l) sv.
Proof.
  intros (q & Hq & Hs). exists q. rewrite length_app, take_app_old by done. split; [lia|done].
Qed.

(** ** The nodes *)

Section Nodes.
Context `{JL : ServerJsonLaws}.

(** The type a server of an id is configured with. *)
Variable kind : string -> string.

(** A change that may come next: a server that keeps the type of its id puts
    its description, the first one or another, and what is there is
    deleted. *)
Definition proper (sv : Server) : Prop := named sv /\ Type_ sv = kind (ID sv).
Definition allowed (m : gmap string Server) (ch : change) : Prop :=
  proper (about ch) /\
  match ch with Put _ => True | Deleted sv => m !! ID sv = Some sv end.

(** What a watch sends for a change. *)
Definition event_of (ch : change) : Event :=
  match ch with
  | Put sv => mkEvent EventTypePut (mkKV (getKey (ID sv) (Type_ sv)) (Some (AsJSONString sv)))
  | Deleted sv => mkEvent EventTypeDelete (mkKV (getKey (ID sv) (Type_ sv)) None)
  end.

(** What a change does to the entry a node has of an id. *)
Definition entry (vis : Server -> bool) (id : string) (x : option Server) (ch : change) : option Server :=
  if vis (about ch) && bool_decide (ID (about ch) = id)
  then match ch with Put sv => Some (default sv x) | Deleted _ => None end
  else x.

Lemma watch_change s ch : wf s -> named (about ch) ->
  exists s', watch_event s (event_of ch) = Ok s' /\ wf s' /\ same_node s s' /\
    forall id, serverMapByID s' !! id = entry (visible s) id (serverMapByID s !! id) ch.
Proof.
  intros Hwf (Hi & Ht & Hp).
  assert (forall k, parseEtcdKey (kv_key (ev_kv (event_of ch))) = k ->
    k = Ok (Type_ (about ch), ID (about ch))) as Hk
    by (intros k <-; destruct ch; by apply parse_getKey).
  unfold watch_event. rewrite (Hk _ eq_refl).
  rewrite (bool_decide_ext (ID (server s) <> ID (about ch)) (ID (about ch) <> ID (server s))) by naive_solver.
  unfold entry, visible. destruct (_ && _); cbn [negb andb]; [by exists s|].
  destruct ch as [sv|sv]; cbn [event_of ev_type ev_kv kv_value about] in *.
  - rewrite parse_AsJSON by done. destruct (addServer_total s sv) as (s' & Hs).
    destruct (addServer_wf s sv s' Hwf Hs) as [Hwf' Hr]. exists s'.
    split_and!; [done|done|by eapply addServer_same|]. intros id. rewrite Hr. unfold reg_add.
    case_bool_decide as Hid; [subst id|].
    + destruct (serverMapByID s !! ID sv) eqn:E; [by rewrite E|by rewrite lookup_insert_eq].
    + destruct (serverMapByID s !! ID sv) eqn:E; [done|by rewrite lookup_insert_ne].
  - destruct (deleteServer_wf s (ID sv) Hwf) as [Hwf' Hr]. eexists.
    split_and!; [done|done|apply deleteServer_same|]. intros id. rewrite Hr.
    case_bool_decide as Hid; [subst id; by rewrite lookup_delete_eq|by rewrite lookup_delete_ne].
Qed.

(** The ids a node does not ignore. *)
Definition shows (s : sd) (id : string) : bool :=
  negb (isServerTypeBlacklisted s (kind id) && bool_decide (id <> ID (server s))).

Lemma visible_shows s sv : proper sv -> visible s sv = shows s (ID sv).
Proof. intros [_ Ht]. unfold visible, shows. by rewrite Ht. Qed.

Lemma visible_same s s' sv : same_node s s' -> visible s' sv = visible s sv.
Proof. intros (Hc & Hs & _). unfold visible, isServerTypeBlacklisted. by rewrite Hc, Hs. Qed.
Lemma shows_same s s' id : same_node s s' -> shows s' id = shows s id.
Proof. intros (Hc & Hs & _). unfold shows, isServerTypeBlacklisted. by rewrite Hc, Hs. Qed.

Lemma entry_mark s id x ch : proper (about ch) -> shows s id = true ->
  bool_decide (is_Some (entry (visible s) id x ch)) = mark id (bool_decide (is_Some x)) ch.
Proof.
  intros Hp Hid. unfold entry, mark. rewrite (visible_shows s) by done.
  destruct (decide (ID (about ch) = id)) as [<-|Hne].
  - rewrite Hid, (bool_decide_eq_true_2 (_ = _)) by done. cbn.
    destruct ch; [by apply bool_decide_eq_true_2|apply bool_decide_eq_false_2; by intros []].
  - by rewrite (bool_decide_eq_false_2 _ Hne), andb_false_r.
Qed.

(** A node: its service discovery, how many changes its watch has received,
    and how long the history was when its last synchronisation ended, if it
    has synchronised under this watch. *)
Record node := mkNode { nd : sd; pos : nat; synced_at : option nat }.
Record cluster := mkCluster { log : list change; nodes : list node }.

(** What a synchronisation reads: the list of the servers after [p] changes,
    and the description under a key after [p] changes or more. *)
Definition reads (E : Etcd) (lg : list change) (p : nat) : Prop :=
  exists svs later, etcd_answers (replay (take p lg)) svs later /\
    forall sv, sv ∈ svs -> exists q, (p <= q <= length lg)%nat /\
      later sv = (x ← replay (take q lg) !! ID sv; if decide (Type_ x = Type_ sv) then Some x else None).

(** A server joins, with its watch at the end of the history; a key changes;
    a node receives the next change; a node synchronises, while its watch
    waits; a watch dies and another one is made, which does not receive what
    happened in between; a node changes the fields of its lease, its client
    and its channels. *)
Inductive cstep : cluster -> cluster -> Prop :=
| join lg ns config self client ls :
    cstep (mkCluster lg ns) (mkCluster lg (ns ++ [mkNode (fresh_node config self client ls) (length lg) None]))
| changes lg ns ch :
    allowed (replay lg) ch -> cstep (mkCluster lg ns) (mkCluster (lg ++ [ch]) ns)
| deliver lg ns i n ch s' :
    ns !! i = Some n -> lg !! pos n = Some ch -> watch_event (nd n) (event_of ch) = Ok s' ->
    cstep (mkCluster lg ns) (mkCluster lg (<[i := mkNode s' (S (pos n)) (synced_at n)]> ns))
| synchronise lg ns i n p (E : Etcd) (Sc : Sched) (SL : SchedLaws Sc) firstSync s' :
    ns !! i = Some n -> (pos n <= p <= length lg)%nat ->
    reads E lg p -> SyncServers (nd n) firstSync = Ok s' ->
    cstep (mkCluster lg ns) (mkCluster lg (<[i := mkNode s' (pos n) (Some (length lg))]> ns))
| rewatch lg ns i n :
    ns !! i = Some n ->
    cstep (mkCluster lg ns) (mkCluster lg (<[i := mkNode (nd n) (length lg) None]> ns))
| runs lg ns i n client run lease stop stopLease :
    ns !! i = Some n ->
    cstep (mkCluster lg ns)
      (mkCluster lg (<[i := mkNode (set_run (nd n) client run lease stop stopLease) (pos n) (synced_at n)]> ns)).

Definition start : cluster := mkCluster [] [].

(** ** The invariant *)

(** All changes are proper. A node knows servers it does not ignore, with
    descriptions that have been in etcd. The ids a node knows, brought
    forward by the changes it is still to receive up to its last
    synchronisation, are those etcd had. *)
Definition node_ok (lg : list change) (n : node) : Prop :=
  let known := serverMapByID (nd n) in
  wf (nd n) /\ (pos n <= length lg)%nat /\
  (forall id sv, known !! id = Some sv -> shows (nd n) id = true /\ registered lg sv) /\
  match synced_at n with
  | Some f =>
      (f <= length lg)%nat /\ let g := Nat.max (pos n) f in
      forall id, shows (nd n) id = true ->
        marks id (seg (pos n) g lg) (present known id) = present (replay (take g lg)) id
  | None => True
  end.
Definition cluster_ok (c : cluster) : Prop :=
  Forall (fun ch => proper (about ch)) (log c) /\ Forall (node_ok (log c)) (nodes c).

Lemma replay_proper lg id sv : Forall (fun ch => proper (about ch)) lg -> replay lg !! id = Some sv -> proper sv.
Proof.
  induction lg as [|ch lg IH] using rev_ind; [intros _; unfold replay; cbn; by rewrite lookup_empty|].
  rewrite Forall_app, Forall_singleton, replay_snoc. intros [Hl Hch]. destruct ch as [y|y]; cbn [store_change].
  - rewrite lookup_insert_Some. intros [[_ <-]|[_ H]]; [done|by apply IH].
  - rewrite lookup_delete_Some. intros [_ H]. by apply IH.
Qed.

Lemma registered_proper lg sv : Forall (fun ch => proper (about ch)) lg -> registered lg sv -> proper sv.
Proof. intros Hl (q & _ & H). eapply replay_proper; [|exact H]. by apply Forall_take. Qed.

Lemma node_ok_log lg l n : node_ok lg n -> node_ok (lg ++ l) n.
Proof.
  intros (Hwf & Hp & Hk & Hs). unfold node_ok. rewrite length_app. split_and!; [done|lia| |].
  - intros id sv Hid. destruct (Hk id sv Hid). split; [done|by apply registered_app].
  - destruct (synced_at n) as [f|]; [|done].
    destruct Hs as [Hf Hs]. split; [lia|]. cbn zeta. intros id. rewrite seg_app, take_app_old by lia. apply Hs.
Qed.

Lemma node_ok_deliver lg n ch s' : Forall (fun ch => proper (about ch)) lg -> node_ok lg n ->
  lg !! pos n = Some ch -> watch_event (nd n) (event_of ch) = Ok s' ->
  node_ok lg (mkNode s' (S (pos n)) (synced_at n)).
Proof.
  intros Hl (Hwf & Hp & Hk & Hs) Hch He. pose proof (lookup_lt_Some _ _ _ Hch) as Hlt.
  pose proof (proj1 (Forall_lookup _ _) Hl _ _ Hch) as Hpr.
  destruct (watch_change (nd n) ch Hwf (proj1 Hpr)) as (s1 & H1 & Hwf' & Hsame & Hent).
  rewrite He in H1. injection H1 as <-. unfold node_ok. cbn [nd pos synced_at].
  split_and!; [done|lia| |].
  - intros id sv. rewrite Hent, (shows_same (nd n) s') by done. unfold entry.
    destruct (visible (nd n) (about ch) && _) eqn:Ev; [|apply Hk].
    apply andb_true_iff in Ev as [Ev Hid%bool_decide_eq_true]. destruct ch as [y|y]; [|done]. cbn [about] in *.
    rewrite (visible_shows (nd n) y Hpr), Hid in Ev. intros [= Hsv]. split; [done|].
    destruct (serverMapByID (nd n) !! id) as [x|] eqn:Ex; cbn in Hsv; subst sv; [by apply (Hk id)|].
    exists (S (pos n)). split; [done|]. rewrite (replay_S _ _ (Put y)) by done. apply lookup_insert_eq.
  - destruct (synced_at n) as [f|]; [|done]. destruct Hs as [Hf Hs]. split; [done|]. cbn zeta. intros id.
    rewrite (shows_same (nd n) s') by done. intros Hid. specialize (Hs id Hid).
    assert (present (serverMapByID s') id = mark id (present (serverMapByID (nd n)) id) ch) as ->
      by (unfold present; rewrite Hent; by apply entry_mark).
    destruct (decide (f <= pos n)%nat).
    + rewrite Nat.max_l in Hs |- * by lia. rewrite seg_nil in Hs |- *. cbn in *.
      rewrite Hs, (replay_S _ _ ch) by done. apply mark_store.
    + rewrite Nat.max_r in Hs |- * by lia. by rewrite (seg_cons _ _ _ ch) in Hs by (done || lia).
Qed.

(** What a synchronisation leaves of an id. *)
Lemma synced_presence (E : Etcd) lg p svs later s firstSync id :
  Forall (fun ch => proper (about ch)) lg -> etcd_answers (replay (take p lg)) svs later ->
  (forall sv, sv ∈ svs -> exists q, (p <= q <= length lg)%nat /\
     later sv = (x ← replay (take q lg) !! ID sv; if decide (Type_ x = Type_ sv) then Some x else None)) ->
  shows s id = true ->
  exists q, (p <= q <= length lg \/ q = p)%nat /\
    bool_decide (is_Some (synced_with (found firstSync later) s (replay (take p lg)) id)) =
      present (replay (take p lg)) id && (present (serverMapByID s) id || firstSync || present (replay (take q lg)) id).
Proof.
  intros Hl Hm Hlater Hid. unfold synced_with.
  destruct (replay (take p lg) !! id) as [sv|] eqn:Esv; cbn.
  2: { exists p. split; [by right|]. by rewrite (present_None _ _ Esv). }
  rewrite (present_Some _ _ _ Esv). cbn.
  assert (proper sv) as Hpr by (eapply replay_proper; [by apply Forall_take|exact Esv]).
  pose proof (replay_id _ _ _ Esv) as Hsvid. rewrite (visible_shows s sv Hpr), Hsvid, Hid.
  destruct (proj1 (elem_of_store _ _ _ _ _ Hm) Esv) as [Hin _].
  destruct (Hlater sv Hin) as (q & Hq & Hl2). exists q. split; [by left|].
  destruct (serverMapByID s !! id) as [x|] eqn:Ex.
  { by rewrite (present_Some _ _ _ Ex). }
  rewrite (present_None _ _ Ex). cbn. unfold found. destruct firstSync; cbn; [done|].
  rewrite Hl2, Hsvid. destruct (replay (take q lg) !! id) as [y|] eqn:Ey; cbn.
  - rewrite (present_Some _ _ _ Ey).
    assert (proper y) as [_ Hy] by (eapply replay_proper; [by apply Forall_take|exact Ey]).
    rewrite decide_True; [done|].
    rewrite Hy, (proj2 Hpr), (replay_id _ _ _ Ey), Hsvid. done.
  - rewrite (present_None _ _ Ey). done.
Qed.

Lemma node_ok_sync lg n p E Sc (SL : SchedLaws Sc) firstSync s' :
  Forall (fun ch => proper (about ch)) lg -> node_ok lg n -> (pos n <= p <= length lg)%nat ->
  reads E lg p -> SyncServers (nd n) firstSync = Ok s' ->
  node_ok lg (mkNode s' (pos n) (Some (length lg))).
Proof.
  intros Hl (Hwf & _ & Hk & _) Hp (svs & later & Hm & Hlater) Hs.
  destruct (SyncServers_answers (nd n) firstSync _ svs later Hwf Hm) as (s1 & H1 & Hwf' & Hsame & Hent).
  rewrite Hs in H1. injection H1 as <-. unfold node_ok. cbn [nd pos synced_at].
  split_and!; [done|lia| |done|].
  - intros id sv. rewrite Hent, (shows_same (nd n) s') by done. unfold synced_with.
    destruct (replay (take p lg) !! id) as [y|] eqn:Ey; [|done]. cbn.
    assert (proper y) as Hpr by (eapply replay_proper; [by apply Forall_take|exact Ey]).
    pose proof (replay_id _ _ _ Ey) as Hyid. rewrite (visible_shows (nd n) y Hpr), Hyid.
    destruct (shows (nd n) id) eqn:Eid; [|done].
    destruct (serverMapByID (nd n) !! id) as [x|] eqn:Ex; [intros [= ->]; split; [done|by apply (Hk id)]|].
    intros Hf. split; [done|]. destruct firstSync; cbn in Hf.
    + injection Hf as ->. exists p. split; [lia|]. by rewrite Hyid.
    + destruct (proj1 (elem_of_store _ _ _ _ _ Hm) Ey) as [Hin _].
      destruct (Hlater y Hin) as (q & Hq & Hq2). rewrite Hq2 in Hf.
      destruct (replay (take q lg) !! ID y) as [z|] eqn:Ez; [|done]. cbn in Hf.
      case_decide; [|done]. injection Hf as ->. exists q. split; [lia|]. by rewrite (replay_id _ _ _ Ez).
  - cbn zeta. rewrite Nat.max_r by lia. intros id. rewrite (shows_same (nd n) s') by done. intros Hid.
    unfold present at 1. rewrite Hent.
    destruct (synced_presence E lg p svs later (nd n) firstSync id Hl Hm Hlater Hid) as (q & Hq & ->).
    destruct (decide (untouched id (seg (pos n) (length lg) lg))) as [Hu|Hu].
    + rewrite marks_untouched by done.
      assert (forall j, (pos n <= j <= length lg)%nat ->
        present (replay (take j lg)) id = present (replay (take (length lg) lg)) id) as Hj.
      { intros j Hj. rewrite (seg_split _ j) in Hu by lia. apply Forall_app in Hu as [_ Hu].
        rewrite <-(marks_seg id j (length lg)) by lia. by rewrite marks_untouched. }
      rewrite (Hj p), (Hj q) by lia.
      destruct (present (replay _) id); [by rewrite orb_true_r|done].
    + rewrite (marks_touched _ _ _ (present (replay (take (pos n) lg)) id) Hu). by apply marks_seg; lia.
Qed.

Lemma node_ok_join lg config self client ls : node_ok lg (mkNode (fresh_node config self client ls) (length lg) None).
Proof.
  destruct (fresh_node_fields config self client ls) as (H1 & H2 & _). unfold node_ok. cbn [nd pos synced_at].
  split_and!; [by apply wf_empty|done| |done]. intros id sv. by rewrite H1, lookup_empty.
Qed.

Lemma cstep_ok c c' : cstep c c' -> cluster_ok c -> cluster_ok c'.
Proof.
  intros Hs [Hl Hn]. unfold cluster_ok.
  destruct Hs as [lg ns config self client ls|lg ns ch Ha|lg ns i n ch s' Hi Hch He
    |lg ns i n p E Sc SL firstSync s' Hi Hp Hr Hy|lg ns i n Hi|lg ns i n client run lease stop stopLease Hi];
    cbn [log nodes] in *; try (pose proof (proj1 (Forall_lookup _ _) Hn i n Hi) as Hni).
  - split; [done|]. apply Forall_app. split; [done|]. constructor; [|done]. apply node_ok_join.
  - split; [apply Forall_app; split; [done|]; constructor; [apply Ha|done]|].
    eapply Forall_impl; [exact Hn|]. intros n. apply node_ok_log.
  - split; [done|]. apply Forall_insert; [done|]. by eapply node_ok_deliver.
  - split; [done|]. apply Forall_insert; [done|]. by eapply node_ok_sync.
  - split; [done|]. apply Forall_insert; [done|]. destruct Hni as (Hwf & Hp & Hk & _).
    by split_and!.
  - split; [done|]. apply Forall_insert; [done|]. exact Hni.
Qed.

Lemma reachable_ok c : rtc cstep start c -> cluster_ok c.
Proof.
  intros H. assert (cluster_ok start) as H0 by (split; constructor). revert H0.
  induction H as [|x y z Hs _ IH]; [done|]. intros Hx. by apply IH, (cstep_ok x).
Qed.

Lemma reachable_node c i n : rtc cstep start c -> nodes c !! i = Some n ->
  Forall (fun ch => proper (about ch)) (log c) /\ node_ok (log c) n.
Proof. intros Hr Hi. destruct (reachable_ok c Hr) as [Hl Hn]. split; [done|]. by eapply Forall_lookup_1. Qed.

(** ** What the nodes agree on *)

(** The servers of etcd that a node does not ignore. *)
Definition view (s : sd) (m : gmap string Server) : gmap string Server :=
  filter (fun '(_, sv) => visible s sv) m.

Lemma view_lookup s m id : view s m !! id = (sv ← m !! id; if visible s sv then Some sv else None).
Proof.
  unfold view. rewrite map_lookup_filter. destruct (m !! id) as [sv|]; [|done]. cbn.
  destruct (visible s sv); cbn; [by rewrite option_guard_True|by rewrite option_guard_False by (by intros [])].
Qed.

Lemma view_same s s' m : same_node s s' -> view s' m = view s m.
Proof.
  intros H. apply map_eq. intros id. rewrite !view_lookup. destruct (m !! id); [|done]. cbn.
  by rewrite (visible_same s s').
Qed.

(** A node that has synchronised and received all changes knows the ids of
    etcd that it does not ignore. *)
Lemma caught_up_dom lg n f : Forall (fun ch => proper (about ch)) lg -> node_ok lg n ->
  synced_at n = Some f -> pos n = length lg ->
  dom (serverMapByID (nd n)) = dom (view (nd n) (replay lg)).
Proof.
  intros Hl (_ & _ & Hk & Hs) Hf Hp. rewrite Hf in Hs. destruct Hs as [Hle Hs]. cbn in Hs.
  rewrite Nat.max_l, seg_nil, Hp, firstn_all in Hs by lia.
  apply set_eq. intros id. rewrite !elem_of_dom, view_lookup. split.
  - intros [sv Hsv]. destruct (Hk id sv Hsv) as [Hid _]. specialize (Hs id Hid). cbn in Hs.
    rewrite (present_Some _ _ _ Hsv) in Hs. symmetry in Hs. apply present_true in Hs as [y Hy].
    rewrite Hy. cbn. rewrite (visible_shows (nd n) y) by (by eapply replay_proper).
    by rewrite (replay_id _ _ _ Hy), Hid.
  - destruct (replay lg !! id) as [y|] eqn:Hy; [|by intros []]. cbn.
    rewrite (visible_shows (nd n) y) by (by eapply replay_proper). rewrite (replay_id _ _ _ Hy).
    destruct (shows (nd n) id) eqn:Hid; [|by intros []]. intros _. specialize (Hs id Hid). cbn in Hs.
    rewrite (present_Some _ _ _ Hy) in Hs. apply present_true in Hs as [x Hx]. by exists x.
Qed.

(** What such a node knows: the ids of etcd that it does not ignore, with
    their types, each with a description that has been in etcd under it, the
    one that is there now when it has never been another one. *)
Definition agrees (lg : list change) (s : sd) : Prop := forall id,
  match view s (replay lg) !! id with
  | Some sv => exists sv', serverMapByID s !! id = Some sv' /\ ID sv' = id /\ Type_ sv' = Type_ sv /\ registered lg sv' /\ (unreplaced lg id -> sv' = sv)
  | None => serverMapByID s !! id = None
  end.

Lemma caught_up_entry lg n f : Forall (fun ch => proper (about ch)) lg -> node_ok lg n ->
  synced_at n = Some f -> pos n = length lg -> agrees lg (nd n).
Proof.
  intros Hl Hn Hf Hp id. pose proof (caught_up_dom lg n f Hl Hn Hf Hp) as Hd.
  destruct Hn as (Hwf & _ & Hk & _).
  destruct (view (nd n) (replay lg) !! id) as [sv|] eqn:Ev.
  - assert (id ∈ dom (serverMapByID (nd n))) as [sv' Hsv']%elem_of_dom by (rewrite Hd; by apply elem_of_dom).
    apply map_lookup_filter_Some in Ev as [Ev _]. destruct (Hk id sv' Hsv') as [_ Hr].
    pose proof (proj1 Hwf _ _ Hsv') as Hid. pose proof (replay_id _ _ _ Ev) as Hid'. exists sv'. split_and!; try done.
    + rewrite (proj2 (registered_proper _ _ Hl Hr)), (proj2 (replay_proper _ _ _ Hl Ev)). congruence.
    + intros Hu. apply Hu; [done|by eapply registered_now|done|done].
  - apply not_elem_of_dom. rewrite Hd. by apply not_elem_of_dom.
Qed.

Lemma agrees_type lg s ty : agrees lg s ->
  dom (of_type ty (serverMapByID s)) = dom (of_type ty (view s (replay lg))).
Proof.
  intros Ha. apply set_eq. intros id. unfold of_type. rewrite !elem_of_dom. specialize (Ha id).
  unfold is_Some. setoid_rewrite map_lookup_filter_Some.
  destruct (view s (replay lg) !! id) as [sv|].
  - destruct Ha as (sv' & -> & _ & Ht & _). split; intros (x & [= <-] & Hx); cbn in Hx; (eexists; split; [done|]); cbn; congruence.
  - rewrite Ha. naive_solver.
Qed.

(** Receiving the rest of the history. *)
Lemma deliver_rest k : forall c i n, cluster_ok c -> nodes c !! i = Some n -> length (log c) = (pos n + k)%nat ->
  exists s', same_node (nd n) s' /\ let n' := mkNode s' (length (log c)) (synced_at n) in
    rtc cstep c (mkCluster (log c) (<[i := n']> (nodes c))) /\ node_ok (log c) n'.
Proof.
  induction k as [|k IH]; intros c i n Hok Hi Hk.
  - exists (nd n). split; [done|]. cbn zeta. rewrite Hk, Nat.add_0_r. destruct n as [s p f]. cbn in *.
    rewrite list_insert_id by done. destruct c as [lg ns]. split; [done|].
    destruct Hok as [_ Hn]. by eapply (proj1 (Forall_lookup _ _) Hn).
  - destruct (lookup_lt_is_Some_2 (log c) (pos n)) as [ch Hch]; [lia|].
    destruct Hok as [Hl Hn]. pose proof (proj1 (Forall_lookup _ _) Hn i n Hi) as (Hwf & _).
    pose proof (proj1 (Forall_lookup _ _) Hl _ _ Hch) as [Hna _].
    destruct (watch_change (nd n) ch Hwf Hna) as (s1 & H1 & _ & Hsame & _).
    assert (cstep c (mkCluster (log c) (<[i := mkNode s1 (S (pos n)) (synced_at n)]> (nodes c)))) as Hs
      by (destruct c; by eapply deliver).
    destruct (IH _ i (mkNode s1 (S (pos n)) (synced_at n)) (cstep_ok _ _ Hs (conj Hl Hn)))
      as (s' & Hsame' & Hr & Hok').
    { cbn. apply list_lookup_insert_eq. by eapply lookup_lt_Some. }
    { cbn. lia. }
    cbn [log nodes nd synced_at] in *. rewrite list_insert_insert_eq in Hr.
    exists s'. split; [by etrans|]. split; [|done]. by eapply rtc_l.
Qed.


(** C10: every node catches up: in any state the servers and etcd reach, with
    the synchronisations of a node one at a time and every id used with one
    type, a node whose watch is alive may start a synchronisation, first or later, that lists etcd after what
    its watch has received; whatever it reads, with the keys changing
    meanwhile, it returns; then the changes the node has still to receive can
    be delivered one after the other, none of them panics or blocks it, and
    after the last one the node agrees with etcd. *)
Theorem catches_up (c : cluster) (i : nat) (n : node) (p : nat) (firstSync : bool)
    (E : Etcd) (Sc : Sched) (SL : SchedLaws Sc) :
  rtc cstep start c -> nodes c !! i = Some n -> (pos n <= p <= length (log c))%nat -> reads E (log c) p ->
  exists s, SyncServers (nd n) firstSync = Ok s /\
  let c1 := mkCluster (log c) (<[i := mkNode s (pos n) (Some (length (log c)))]> (nodes c)) in
  cstep c c1 /\
  exists s', rtc cstep c1
      (mkCluster (log c) (<[i := mkNode s' (length (log c)) (Some (length (log c)))]> (nodes c))) /\
    agrees (log c) s'.
Proof.
  intros Hr Hi Hp Hreads. destruct (reachable_node c i n Hr Hi) as [Hl Hok].
  destruct Hreads as (svs & later & Hm & Hlater).
  destruct (SyncServers_answers (nd n) firstSync _ svs later (proj1 Hok) Hm) as (s & Hs & _).
  exists s. split; [done|]. cbn zeta.
  assert (cstep c (mkCluster (log c) (<[i := mkNode s (pos n) (Some (length (log c)))]> (nodes c)))) as Hstep.
  { destruct c as [lg ns]. eapply (synchronise lg ns i n p E Sc SL firstSync s); try done. by exists svs, later. }
  split; [done|].
  destruct (deliver_rest (length (log c) - pos n) _ i (mkNode s (pos n) (Some (length (log c))))
    (cstep_ok _ _ Hstep (reachable_ok c Hr))) as (s' & _ & Hs' & Hok').
  { cbn. apply list_lookup_insert_eq. by eapply lookup_lt_Some. }
  { cbn. lia. }
  cbn [log nodes synced_at nd] in *. rewrite list_insert_insert_eq in Hs'.
  exists s'. split; [exact Hs'|]. by eapply (caught_up_entry _ _ (length (log c)) Hl Hok').
Qed.


(** C31: a description is never replaced: when a server writes another
    description under the id it has, as a process that restarts before its
    lease has expired does, a node that knows the old one keeps it, through
    the event and through every synchronisation, and answers with it. *)
Theorem description_stays (s : sd) (old new : Server) (firstSync : bool) (m : gmap string Server)
    (svs : list Server) `{E : Etcd} `{SL : SchedLaws} :
  wf s -> serverMapByID s !! ID old = Some old -> ID new = ID old -> named new -> visible s new = true ->
  m !! ID new = Some new -> etcd_holds m svs ->
  watch_event s (event_of (Put new)) = Ok s /\
  exists s', SyncServers s firstSync = Ok s' /\ GetServer s' (ID new) = Ok old.
Proof.
  intros Hwf Hold Hid Hn Hv Hm Hh. split.
  - unfold watch_event. cbn [event_of ev_kv kv_key kv_value ev_type]. destruct Hn as (Hi & Ht & Hp).
    rewrite parse_getKey by done. unfold visible in Hv.
    rewrite (bool_decide_ext (ID (server s) <> ID new) (ID new <> ID (server s))) by naive_solver.
    apply negb_true_iff in Hv as ->. rewrite parse_AsJSON by done. unfold addServer. by rewrite Hid, Hold.
  - destruct (SyncServers_spec s firstSync m svs Hwf Hh) as (s' & Hs & _ & _ & Hl). exists s'. split; [done|].
    unfold GetServer. rewrite Hl. unfold synced. rewrite Hm. cbn. by rewrite Hv, Hid, Hold.
Qed.


End Nodes.

(** ** Witnesses *)

(** The chat server registers, the game node joins, it and a bot register,
    the node synchronises before it has received anything, the chat server
    comes back under its id with another host name, leaves, and another takes
    its place. *)
Definition sv_chat_moved := mkServer "c1" "chat" ∅ "h9".
Definition sv_chat2 := mkServer "c2" "chat" ∅ "h4".
Definition ex_kind (id : string) : string :=
  if String.prefix "g" id then "game" else if String.prefix "c" id then "chat" else "bot".
Definition ex_log : list change := [Put sv_chat; Put sv_game; Put sv_bot].
Definition ex_svs : list Server := (map_to_list ex_store).*2.
Definition ex_history : list change := ex_log ++ [Put sv_chat_moved; Deleted sv_chat_moved; Put sv_chat2].

Lemma put_step kind lg ns sv : proper kind sv -> cstep kind (mkCluster lg ns) (mkCluster (lg ++ [Put sv]) ns).
Proof. intros Hn. apply changes. by split. Qed.

Lemma ex_reads : reads (etcd_of ex_svs) ex_log 3.
Proof.
  assert (replay (take 3 ex_log) = ex_store) as E by (by vm_compute).
  exists ex_svs, Some. rewrite E. split; [apply holds_answers, ex_holds|].
  intros sv Hsv. exists 3%nat. split; [cbn; lia|]. rewrite E.
  rewrite (proj2 (elem_of_store ex_store ex_svs Some (ID sv) sv (holds_answers _ _ ex_holds)) (conj Hsv eq_refl)).
  cbn. by rewrite decide_True.
Qed.

Lemma ex_begins : rtc (cstep ex_kind) start (mkCluster ex_log [mkNode ex_node 1 None]).
Proof.
  apply (rtc_l _ _ (mkCluster [Put sv_chat] [])); [apply (put_step _ [] []); by repeat split|].
  apply (rtc_l _ _ (mkCluster [Put sv_chat] [mkNode ex_node 1 None])); [apply (join _ [Put sv_chat] [])|].
  apply (rtc_l _ _ (mkCluster [Put sv_chat; Put sv_game] [mkNode ex_node 1 None]));
    [apply (put_step _ [Put sv_chat]); by repeat split|].
  apply rtc_once, (put_step _ [Put sv_chat; Put sv_game]); by repeat split.
Qed.

Lemma ex_run : exists s, same_node ex_node s /\
  rtc (cstep ex_kind) start (mkCluster ex_history [mkNode s 1 (Some 3%nat)]).
Proof.
  destruct (SyncServers_answers (E := etcd_of ex_svs) (SL := in_order_laws) ex_node true
    ex_store ex_svs Some ex_node_wf (holds_answers _ _ ex_holds)) as (s & E & _ & Hsame & _).
  exists s. split; [exact Hsame|]. etrans; [exact ex_begins|].
  apply (rtc_l _ _ (mkCluster ex_log [mkNode s 1 (Some 3%nat)]));
    [apply (synchronise _ ex_log [mkNode ex_node 1 None] 0 (mkNode ex_node 1 None) 3
       (etcd_of ex_svs) in_order in_order_laws true s); [reflexivity|cbn; lia|exact ex_reads|exact E]|].
  eapply rtc_l; [apply (put_step _ _ _ sv_chat_moved); by repeat split|].
  eapply rtc_l; [apply (changes _ _ _ (Deleted sv_chat_moved)); split; [by repeat split|by vm_compute]|].
  apply rtc_once, (put_step _ (ex_log ++ [Put sv_chat_moved; Deleted sv_chat_moved])); by repeat split.
Qed.

Lemma ex_caught_up : exists s, same_node ex_node s /\
  rtc (cstep ex_kind) start (mkCluster ex_history [mkNode s 6 (Some 3%nat)]).
Proof.
  destruct ex_run as (s & Hsame & Hr).
  destruct (deliver_rest ex_kind 5 _ 0 _ (reachable_ok _ _ Hr) eq_refl eq_refl) as (s' & Hsame' & Hr' & _).
  exists s'. split; [by etrans|]. by etrans.
Qed.

Lemma ex_view s : same_node ex_node s ->
  view s (replay ex_history) = {["g1" := sv_game; "c2" := sv_chat2]}.
Proof. intros H. rewrite (view_same _ _ _ H). by vm_compute. Qed.

(** Nothing but its present description has been registered under "c2". *)
Lemma ex_unreplaced : unreplaced ex_history "c2".
Proof.
  intros x y (q & Hq & Hx) (r & Hr & Hy) Ex Ey. rewrite Ex in Hx. rewrite Ey in Hy. cbn in Hq, Hr.
  do 7 (destruct q as [|q]; [vm_compute in Hx; try done|]); try lia.
  do 7 (destruct r as [|r]; [vm_compute in Hy; try done|]); try lia. congruence.
Qed.


Lemma catches_up_witness : exists s,
  rtc (cstep ex_kind) start (mkCluster ex_log [mkNode ex_node 1 None]) /\
  rtc (cstep ex_kind) (mkCluster ex_log [mkNode ex_node 1 None]) (mkCluster ex_log [mkNode s 3 (Some 3%nat)]) /\
  agrees ex_log s.
Proof.
  destruct (catches_up ex_kind _ 0 (mkNode ex_node 1 None) 3 true (etcd_of ex_svs) in_order in_order_laws
    ex_begins eq_refl ltac:(cbn; lia) ex_reads) as (s & _ & Hs & s' & Hs' & Ha).
  exists s'. split; [exact ex_begins|]. split; [|exact Ha]. eapply rtc_l; [exact Hs|exact Hs'].
Defined.


(** Etcd holds the new description of the chat server. *)
Definition ex_moved : gmap string Server := {["c1" := sv_chat_moved]}.

Lemma ex_moved_holds : etcd_holds (E := etcd_of [sv_chat_moved]) ex_moved [sv_chat_moved].
Proof.
  split; [done|by apply (bool_decide_unpack _); vm_compute| |done|done|];
    intros sv Hsv; apply list_elem_of_singleton in Hsv as ->; [by repeat split|by vm_compute].
Qed.

Lemma description_stays_witness : exists s s',
  watch_event s (event_of (Put sv_chat_moved)) = Ok s /\
  SyncServers (E := etcd_of [sv_chat_moved]) (Sc := in_order) s false = Ok s' /\ GetServer s' "c1" = Ok sv_chat.
Proof.
  destruct (description_stays Router.chat_node sv_chat sv_chat_moved false ex_moved [sv_chat_moved]
    (E := etcd_of [sv_chat_moved]) (SL := in_order_laws) Router.chat_node_wf) as (H & s' & Hs & Hg);
    [by vm_compute|done|by repeat split|by vm_compute|by vm_compute|exact ex_moved_holds|].
  exists Router.chat_node, s'. split; [exact H|]. split; [exact Hs|exact Hg].
Defined.

End Cluster.
