(* ===== verification/Leases.v ===== *)
(** * Leases over time: crashed servers are forgotten

    The cluster of [Cluster.v] with a clock and the leases of etcd. A server
    is registered under the lease its node got from [grantLease]; etcd drops
    a lease, and the keys put under it, when it has not been kept alive for
    its time to live, or when the node revokes it. Nodes crash at any time
    and say nothing from then on; a process may start again under the id of
    one that runs or has crashed. Time is in seconds. *)

From S2P Require Import Prelude Utf8 Errors Message Route Context Duration Discovery Router Lease Cluster.
Import Discovery Cluster Lease.

Module Leases.

Local Open Scope Z_scope.

(** A lease of etcd: its time to live and when it was last kept alive. *)
Record lease := mkLease { ttl : Z; refreshed : Z }.

(** What etcd answers to a put under a lease (none for 0) and to the
    revocation of a lease. *)
Definition no_lease : error := ELib "etcdserver" "requested lease not found".
Definition put_answer (ls : gmap Z lease) (l : Z) : result unit :=
  if bool_decide (l = 0 \/ is_Some (ls !! l)) then Ok tt else Err no_lease.
Definition revoke_answer (ls : gmap Z lease) (l : Z) : result unit :=
  if bool_decide (is_Some (ls !! l)) then Ok tt else Err no_lease.

(** The answers of etcd when the put it received is [k], [v] under [l]. *)
Definition sent (ls : gmap Z lease) (k v : string) (l : Z) : string -> string -> Z -> result unit :=
  fun k' v' l' => if bool_decide ((k', v', l') = (k, v, l)) then put_answer ls l else Err no_lease.

(** The cluster; the clock; the leases there are; the node every lease was
    given to; the lease of the key of a server; the nodes that have been
    granted a lease and are to put their server; when nodes crashed. *)
Record timed := mkTimed {
  clus : cluster;
  now : Z;
  leases : gmap Z lease;
  owners : gmap Z nat;
  attached : gmap string Z;
  registering : gset nat;
  dead : gmap nat Z
}.

Definition tstart : timed := mkTimed start 0 ∅ ∅ ∅ ∅ ∅.

Definition alive (s : timed) (i : nat) (n : node) : Prop :=
  nodes (clus s) !! i = Some n /\ dead s !! i = None.

(** The servers of the nodes and their configuration, which no step
    changes, and the leases the nodes have recorded. *)
Definition profile (s : timed) : list (Server * settings) :=
  (fun n => (server (nd n), conf (nd n))) <$> nodes (clus s).
Definition recorded (s : timed) : list Z := (fun n => leaseID (nd n)) <$> nodes (clus s).

(** The state with another cluster, and with another state of a node. *)
Definition with_clus (s : timed) (c : cluster) : timed :=
  mkTimed c (now s) (leases s) (owners s) (attached s) (registering s) (dead s).
Definition with_node (s : timed) (i : nat) (n : node) : timed :=
  with_clus s (mkCluster (log (clus s)) (<[i := n]> (nodes (clus s)))).

(** The end of a lease deletes the servers put under it. *)
Definition lost (s : timed) (l : Z) : list Server :=
  filter (fun sv => attached s !! ID sv = Some l) (map_to_list (replay (log (clus s)))).*2.
Definition drop_lease (s : timed) (l : Z) : timed :=
  mkTimed (mkCluster (log (clus s) ++ (Deleted <$> lost s l)) (nodes (clus s))) (now s)
    (delete l (leases s)) (owners s) (attached s) (registering s) (dead s).

Section Timed.
Context `{JL : ServerJsonLaws}.

(** The type a server of an id is configured with. *)
Variable kind : string -> string.

(** The time to live etcd gives when one is asked for, and how long it may
    take to notice that a lease is due. *)
Variables (server_ttl : Z -> Z) (slack : Z).
Hypothesis server_ttl_nonneg : forall t, 0 <= server_ttl t.
Hypothesis slack_nonneg : 0 <= slack.

(** ** Steps

    A process joins, under a new id or under one that is or was in use; it is
    granted a lease that was never given; having been granted one it puts its
    server, which etcd accepts or not; etcd hears from a node that keeps a lease alive; a lease that is
    due ends; a node revokes its lease; a node crashes; time passes, but a
    lease that is due ends before [slack] has passed; a node that has not
    crashed receives a change or synchronises, one synchronisation at a time;
    its watch dies and another one is made. *)
Inductive tstep : timed -> timed -> Prop :=
| joins s config self client ls :
    proper kind self ->
    tstep s (with_clus s (mkCluster (log (clus s))
      (nodes (clus s) ++ [mkNode (fresh_node config self client ls) (length (log (clus s))) None])))
| grants s i n a l s' r :
    alive s i n -> at_grant a (lease_ttl (nd n)) = Ok l -> l <> 0 -> owners s !! l = None ->
    grantLease a (nd n) = (s', r) ->
    tstep s (mkTimed (clus (with_node s i (mkNode s' (pos n) (synced_at n)))) (now s)
      (<[l := mkLease (server_ttl (lease_ttl (nd n))) (now s)]> (leases s)) (<[l := i]> (owners s))
      (attached s) (if is_ok r then {[i]} ∪ registering s else registering s) (dead s))
| puts s i n a sv l :
    alive s i n -> i ∈ registering s -> named sv ->
    at_put a = sent (leases s) (getKey (ID sv) (Type_ sv)) (AsJSONString sv) l ->
    addServerIntoEtcd a (nd n) (server (nd n)) = Ok tt ->
    tstep s (mkTimed (mkCluster (log (clus s) ++ [Put sv]) (nodes (clus s))) (now s) (leases s) (owners s)
      (if decide (l = 0) then delete (ID sv) (attached s) else <[ID sv := l]> (attached s))
      (registering s ∖ {[i]}) (dead s))
| put_fails s i n a e :
    alive s i n -> i ∈ registering s -> addServerIntoEtcd a (nd n) (server (nd n)) = Err e ->
    tstep s (mkTimed (clus s) (now s) (leases s) (owners s) (attached s) (registering s ∖ {[i]}) (dead s))
| keeps_alive s i n l L :
    alive s i n -> owners s !! l = Some i -> leases s !! l = Some L ->
    tstep s (mkTimed (clus s) (now s) (<[l := mkLease (ttl L) (now s)]> (leases s)) (owners s)
      (attached s) (registering s) (dead s))
| expires s l L :
    leases s !! l = Some L -> refreshed L + ttl L <= now s -> tstep s (drop_lease s l)
| revokes s i n s' :
    let answer := revoke_answer (leases s) (leaseID (nd n)) in
    alive s i n -> revoke answer (nd n) = Returns _ (s', answer) ->
    tstep s (drop_lease (with_node s i (mkNode s' (pos n) (synced_at n))) (leaseID (nd n)))
| crashes s i n :
    alive s i n ->
    tstep s (mkTimed (clus s) (now s) (leases s) (owners s) (attached s) (registering s)
      (<[i := now s]> (dead s)))
| passes s d :
    0 <= d -> (forall l L, leases s !! l = Some L -> now s + d <= refreshed L + ttl L + slack) ->
    tstep s (mkTimed (clus s) (now s + d) (leases s) (owners s) (attached s) (registering s) (dead s))
| receives s i n ch s' :
    alive s i n -> log (clus s) !! pos n = Some ch -> watch_event (nd n) (event_of ch) = Ok s' ->
    tstep s (with_node s i (mkNode s' (S (pos n)) (synced_at n)))
| syncs s i n p (E : Etcd) (Sc : Sched) (SL : SchedLaws Sc) firstSync s' :
    alive s i n -> (pos n <= p <= length (log (clus s)))%nat ->
    reads E (log (clus s)) p -> SyncServers (nd n) firstSync = Ok s' ->
    tstep s (with_node s i (mkNode s' (pos n) (Some (length (log (clus s))))))
| rewatches s i n :
    alive s i n -> tstep s (with_node s i (mkNode (nd n) (length (log (clus s))) None)).

(** ** The end of a lease *)

Lemma elem_of_lost s l sv :
  sv ∈ lost s l <-> attached s !! ID sv = Some l /\ replay (log (clus s)) !! ID sv = Some sv.
Proof.
  unfold lost. rewrite list_elem_of_filter, list_elem_of_fmap. split.
  - intros [Ha ([k x] & -> & Hx%elem_of_map_to_list)]. cbn in *. by rewrite <-(replay_id _ _ _ Hx) in Hx.
  - intros [Ha Hx]. split; [done|]. exists (ID sv, sv). split; [done|]. by apply elem_of_map_to_list.
Qed.

Lemma lost_NoDup s l : NoDup (ID <$> lost s l).
Proof.
  apply NoDup_fmap_2_strong.
  - intros x y [_ Hx]%elem_of_lost [_ Hy]%elem_of_lost E. rewrite E in Hx. congruence.
  - apply NoDup_filter, NoDup_fmap_2_strong; [|apply NoDup_map_to_list].
    intros [k x] [k' y] Hx%elem_of_map_to_list Hy%elem_of_map_to_list E. cbn in E. subst y.
    f_equal. by rewrite <-(replay_id _ _ _ Hx), <-(replay_id _ _ _ Hy).
Qed.

Lemma deleted_steps ns svs : forall lg, NoDup (ID <$> svs) ->
  (forall sv, sv ∈ svs -> proper kind sv /\ replay lg !! ID sv = Some sv) ->
  rtc (cstep kind) (mkCluster lg ns) (mkCluster (lg ++ (Deleted <$> svs)) ns) /\
  forall id, replay (lg ++ (Deleted <$> svs)) !! id =
    if decide (id ∈ ID <$> svs) then None else replay lg !! id.
Proof.
  induction svs as [|sv svs IH]; intros lg Hnd Hin; cbn [fmap list_fmap] in *.
  - rewrite app_nil_r. split; [done|]. intros id. rewrite decide_False by apply not_elem_of_nil. done.
  - apply NoDup_cons in Hnd as [Hni Hnd]. destruct (Hin sv) as [Hna Hsv]; [set_solver|].
    rewrite cons_middle, app_assoc.
    destruct (IH (lg ++ [Deleted sv]) Hnd) as [Hr Hl].
    { intros y Hy. destruct (Hin y) as [Hn Hl]; [set_solver|]. split; [done|]. rewrite replay_snoc. cbn.
      rewrite lookup_delete_ne; [done|]. intros E. apply Hni. rewrite E. by apply list_elem_of_fmap_2. }
    split; [eapply rtc_l, Hr; by apply changes|]. intros id. rewrite Hl, replay_snoc. cbn.
    destruct (decide (id = ID sv)) as [->|Hne].
    + rewrite (decide_True (P := ID sv ∈ _ :: _)) by set_solver. rewrite lookup_delete_eq. by case_decide.
    + rewrite lookup_delete_ne by done.
      by rewrite (decide_ext (id ∈ ID sv :: (ID <$> svs)) (id ∈ ID <$> svs)) by set_solver.
Qed.

(** ** The invariant *)

(** A lease that is there: its node, which is not configured otherwise, has
    kept it alive before it crashed, and it is not overdue. *)
Definition lease_ok (s : timed) (l : Z) (L : lease) : Prop :=
  exists i sv cf, owners s !! l = Some i /\ profile s !! i = Some (sv, cf) /\
    ttl L = server_ttl (Duration.int_seconds (heartbeatTTL cf)) /\
    refreshed L <= now s <= refreshed L + ttl L + slack /\
    forall T, dead s !! i = Some T -> refreshed L <= T.

Record timed_ok (s : timed) : Prop := {
  ok_reach : rtc (cstep kind) start (clus s);
  ok_named : forall i sv cf, profile s !! i = Some (sv, cf) -> proper kind sv;
  ok_zero : owners s !! 0 = None;
  ok_recorded : forall i l, recorded s !! i = Some l -> l = 0 \/ owners s !! l = Some i;
  ok_registering : forall i, i ∈ registering s -> exists l, recorded s !! i = Some l /\ l <> 0;
  ok_registered : forall id sv, replay (log (clus s)) !! id = Some sv ->
    exists i cf l L, profile s !! i = Some (sv, cf) /\ attached s !! id = Some l /\
      leases s !! l = Some L /\ owners s !! l = Some i;
  ok_leases : forall l L, leases s !! l = Some L -> lease_ok s l L;
  ok_dead : forall i T, dead s !! i = Some T -> T <= now s
}.

Lemma profile_node s i n : nodes (clus s) !! i = Some n -> profile s !! i = Some (server (nd n), conf (nd n)).
Proof. intros H. unfold profile. by rewrite list_lookup_fmap, H. Qed.

Lemma profile_inv s i sv cf : profile s !! i = Some (sv, cf) ->
  exists n, nodes (clus s) !! i = Some n /\ server (nd n) = sv /\ conf (nd n) = cf.
Proof.
  unfold profile. rewrite list_lookup_fmap. destruct (nodes (clus s) !! i) as [n|]; [|done].
  intros [= <- <-]. by exists n.
Qed.

Lemma recorded_node s i n : nodes (clus s) !! i = Some n -> recorded s !! i = Some (leaseID (nd n)).
Proof. intros H. unfold recorded. by rewrite list_lookup_fmap, H. Qed.

Lemma profile_with s i n n' : nodes (clus s) !! i = Some n ->
  server (nd n') = server (nd n) -> conf (nd n') = conf (nd n) -> profile (with_node s i n') = profile s.
Proof.
  intros Hi Hs Hc. unfold profile, with_node, with_clus. cbn. rewrite list_fmap_insert, Hs, Hc.
  apply list_insert_id. by rewrite list_lookup_fmap, Hi.
Qed.

Lemma recorded_with s i n n' : nodes (clus s) !! i = Some n -> leaseID (nd n') = leaseID (nd n) ->
  recorded (with_node s i n') = recorded s.
Proof.
  intros Hi Hl. unfold recorded, with_node, with_clus. cbn. rewrite list_fmap_insert, Hl.
  apply list_insert_id. by rewrite list_lookup_fmap, Hi.
Qed.

(** What is lost with a lease. *)
Lemma drop_steps s l : timed_ok s ->
  rtc (cstep kind) (clus s) (clus (drop_lease s l)) /\
  forall id sv, replay (log (clus (drop_lease s l))) !! id = Some sv <->
    replay (log (clus s)) !! id = Some sv /\ attached s !! id <> Some l.
Proof.
  intros Hok. destruct (deleted_steps (nodes (clus s)) (lost s l) (log (clus s)) (lost_NoDup s l)) as [Hr Hl].
  { intros sv [_ Hsv]%elem_of_lost. split; [|done].
    destruct (ok_registered s Hok _ _ Hsv) as (i & cf & _ & _ & Hp & _). by eapply ok_named. }
  split; [destruct (clus s) eqn:E; unfold drop_lease; rewrite E in *; exact Hr|].
  intros id sv. cbn. rewrite Hl. case_decide as Hd; rewrite list_elem_of_fmap in Hd; split.
  - done.
  - intros [Hsv Hne]. destruct Hd as (y & -> & [Ha Hy]%elem_of_lost). congruence.
  - intros Hsv. split; [done|]. intros Ha. apply Hd. exists sv. pose proof (replay_id _ _ _ Hsv) as <-.
    split; [done|]. by apply elem_of_lost.
  - by intros [? _].
Qed.

(** A state that agrees on what the invariant is about. *)
Lemma ok_drop s l : timed_ok s -> timed_ok (drop_lease s l).
Proof.
  intros Hok. destruct (drop_steps s l Hok) as [Hr Hl]. destruct Hok as [Hreach Hn H0 Hrd Hg Hreg Hls Hd].
  split; try done.
  - by etrans.
  - intros id sv [Hsv Hne]%Hl. destruct (Hreg id sv Hsv) as (i & cf & l' & L & Hp & Ha & HL & Ho).
    exists i, cf, l', L. split_and!; [done..| |done]. cbn. rewrite lookup_delete_ne; [done|]. congruence.
  - intros l' L. cbn. rewrite lookup_delete_Some. intros [_ HL]. exact (Hls l' L HL).
Qed.

(** A node that goes on with the same server, configuration and lease. *)
Lemma ok_node s i n n' : timed_ok s -> nodes (clus s) !! i = Some n ->
  rtc (cstep kind) (clus s) (clus (with_node s i n')) ->
  server (nd n') = server (nd n) -> conf (nd n') = conf (nd n) -> leaseID (nd n') = leaseID (nd n) ->
  timed_ok (with_node s i n').
Proof.
  intros [Hreach Hn H0 Hrd Hg Hreg Hls Hd] Hin Hr Hs Hc Hl.
  pose proof (profile_with s i n n' Hin Hs Hc) as Hp. pose proof (recorded_with s i n n' Hin Hl) as Hrec.
  split; unfold lease_ok; rewrite ?Hp, ?Hrec; try done. by etrans.
Qed.

(** ** The steps keep it *)

Lemma watch_event_same s ev s' : watch_event s ev = Ok s' -> same_node s s'.
Proof.
  intros Hs. apply (step_ind_ops (same_node s) s s'); [| |apply (step_watch [ev]); cbn; by rewrite Hs|done].
  - intros s1 sv s2 H1 H2. etrans; [done|]. by eapply addServer_same.
  - intros s1 id H1. etrans; [done|]. apply deleteServer_same.
Qed.

(** A step of the cluster that gives a node another state. *)
Lemma ok_same s i n n' : timed_ok s -> nodes (clus s) !! i = Some n -> same_node (nd n) (nd n') ->
  cstep kind (clus s) (clus (with_node s i n')) -> timed_ok (with_node s i n').
Proof. intros Hok Hi (Hc & Hs & _ & _ & Hl) Hr. eapply ok_node; eauto using rtc_once. Qed.

Lemma runs_step s i n client run l stop stopLease : nodes (clus s) !! i = Some n ->
  cstep kind (clus s)
    (clus (with_node s i (mkNode (set_run (nd n) client run l stop stopLease) (pos n) (synced_at n)))).
Proof. intros Hi. unfold with_node, with_clus. cbn. destruct (clus s). by apply runs. Qed.

Lemma fresh_node_lease config self client ls : leaseID (fresh_node config self client ls) = 0.
Proof.
  unfold fresh_node. change 0 with (leaseID (NewEtcdServiceDiscovery config self client)) at 1.
  generalize (NewEtcdServiceDiscovery config self client). induction ls as [|l ls IH]; intros s; [done|].
  cbn. by rewrite IH.
Qed.

Lemma ok_joins s config self client ls : timed_ok s ->
  proper kind self ->
  timed_ok (with_clus s (mkCluster (log (clus s))
    (nodes (clus s) ++ [mkNode (fresh_node config self client ls) (length (log (clus s))) None]))).
Proof.
  intros [Hreach Hn H0 Hrd Hg Hreg Hls Hd] Hself. set (n := mkNode _ _ _).
  set (s' := with_clus s _). assert (server (nd n) = self) as Hserver by apply fresh_node_fields.
  assert (profile s' = profile s ++ [(self, conf (nd n))]) as Hp
    by (unfold profile, s', with_clus; cbn [clus nodes]; rewrite fmap_app, <-Hserver; done).
  assert (recorded s' = recorded s ++ [leaseID (nd n)]) as Hrec
    by (unfold recorded, s', with_clus; cbn [clus nodes]; by rewrite fmap_app).
  split; unfold lease_ok; rewrite ?Hp, ?Hrec; try done.
  - eapply rtc_r; [done|]. unfold s', with_clus, n. cbn. destruct (clus s). apply join.
  - intros i sv cf [H|[_ H]]%lookup_app_Some; [by eapply Hn|].
    apply list_lookup_singleton_Some in H as [_ [= <- _]]. done.
  - intros i l [H|[_ H]]%lookup_app_Some; [by apply Hrd|].
    apply list_lookup_singleton_Some in H as [_ <-]. left. apply fresh_node_lease.
  - intros i Hin. destruct (Hg i Hin) as (l & Hl & ?). exists l. split; [by apply lookup_app_l_Some|done].
  - intros id sv Hsv. destruct (Hreg id sv Hsv) as (i & cf & l & L & ? & ?). exists i, cf, l, L.
    split; [by apply lookup_app_l_Some|done].
  - intros l L HL. destruct (Hls l L HL) as (i & sv & cf & Ho & Hpi & ?). exists i, sv, cf.
    split_and!; [done|by apply lookup_app_l_Some|naive_solver..].
Qed.

(** The lease etcd grants is the one that is recorded. *)
Lemma grantLease_recorded a s l s' r : at_grant a (lease_ttl s) = Ok l -> grantLease a s = (s', r) ->
  s' = set_run s (cli s) (running s) l (stopChan_closed s) (stopLeaseChan_closed s) /\ r = at_keepalive a.
Proof. unfold grantLease. intros ->. by intros [= <- <-]. Qed.

Lemma ok_grants s i n a l s' r : timed_ok s -> alive s i n ->
  at_grant a (lease_ttl (nd n)) = Ok l -> l <> 0 -> owners s !! l = None -> grantLease a (nd n) = (s', r) ->
  timed_ok (mkTimed (clus (with_node s i (mkNode s' (pos n) (synced_at n)))) (now s)
    (<[l := mkLease (server_ttl (lease_ttl (nd n))) (now s)]> (leases s)) (<[l := i]> (owners s))
    (attached s) (if is_ok r then {[i]} ∪ registering s else registering s) (dead s)).
Proof.
  intros [Hreach Hn H0 Hrd Hg Hreg Hls Hd] [Hin Ha] Hl Hl0 Hfresh Hgr.
  destruct (grantLease_recorded _ _ _ _ _ Hl Hgr) as [Hs' _].
  set (n' := mkNode s' (pos n) (synced_at n)).
  assert (profile (with_node s i n') = profile s) as Hp by (apply (profile_with s i n); [done|by subst s'..]).
  assert (recorded (with_node s i n') = <[i := l]> (recorded s)) as Hrec.
  { unfold recorded, with_node, with_clus. cbn. rewrite list_fmap_insert. by subst s'. }
  pose proof (profile_node s i n Hin) as Hpi.
  assert (forall l' L, leases s !! l' = Some L -> l' <> l) as Hne
    by (intros l' L HL ->; destruct (Hls l L HL) as (? & ? & ? & ? & _); congruence).
  split; unfold lease_ok; cbn [clus now leases owners attached registering dead];
    change (profile _) with (profile (with_node s i n')); change (recorded _) with (recorded (with_node s i n'));
    rewrite ?Hp, ?Hrec; try done.
  - eapply rtc_r; [done|]. unfold n'. rewrite Hs'. by apply runs_step.
  - by rewrite lookup_insert_ne.
  - intros j k. rewrite list_lookup_insert_Some. intros [(<- & <- & _)|[Hji Hk]]; [right; apply lookup_insert_eq|].
    destruct (Hrd j k Hk) as [|Ho]; [by left|right]. rewrite lookup_insert_ne; [done|congruence].
  - assert (i < length (recorded s))%nat as Hlt
      by (unfold recorded; rewrite length_fmap; by eapply lookup_lt_Some).
    intros j Hjr. destruct (decide (j = i)) as [->|Hji].
    + exists l. by rewrite list_lookup_insert_eq.
    + destruct (Hg j) as (k & Hk & Hk0); [destruct (is_ok r); set_solver|]. exists k.
      by rewrite list_lookup_insert_ne.
  - intros id sv Hsv. destruct (Hreg id sv Hsv) as (j & cf & l' & L & ? & ? & HL & ?).
    pose proof (Hne l' L HL). exists j, cf, l', L. by rewrite !lookup_insert_ne by done.
  - intros l' L. rewrite lookup_insert_Some. intros [[<- <-]|[Hll HL]].
    + exists i, (server (nd n)), (conf (nd n)). rewrite lookup_insert_eq. cbn [ttl refreshed].
      split_and!; [done|done|done|lia| |congruence].
      pose proof (server_ttl_nonneg (lease_ttl (nd n))). lia.
    + rewrite lookup_insert_ne by done. exact (Hls l' L HL).
Qed.

(** The put that etcd accepts is of the node's own server, under the lease
    the node has recorded. *)
Lemma put_sent s a (d : sd) sv l : named sv -> named (server d) ->
  at_put a = sent (leases s) (getKey (ID sv) (Type_ sv)) (AsJSONString sv) l ->
  addServerIntoEtcd a d (server d) = Ok tt ->
  sv = server d /\ l = leaseID d /\ put_answer (leases s) l = Ok tt.
Proof.
  intros (_ & _ & Hp) (_ & _ & Hp') Ha. unfold addServerIntoEtcd, sent in *. rewrite Ha.
  case_bool_decide as E; [|done]. intros Hput. injection E as _ Hv <-. split_and!; [|done|done].
  apply parse_AsJSON in Hp, Hp'. rewrite Hv in Hp'. congruence.
Qed.

Lemma put_answer_lease ls l : l <> 0 -> put_answer ls l = Ok tt -> exists L, ls !! l = Some L.
Proof.
  unfold put_answer. intros Hl. case_bool_decide as H; [|done].
  intros _. destruct H as [|[L HL]]; [done|]. eauto.
Qed.

Lemma ok_puts s i n a sv l : timed_ok s -> alive s i n -> i ∈ registering s -> named sv ->
  at_put a = sent (leases s) (getKey (ID sv) (Type_ sv)) (AsJSONString sv) l ->
  addServerIntoEtcd a (nd n) (server (nd n)) = Ok tt ->
  timed_ok (mkTimed (mkCluster (log (clus s) ++ [Put sv]) (nodes (clus s))) (now s) (leases s) (owners s)
    (if decide (l = 0) then delete (ID sv) (attached s) else <[ID sv := l]> (attached s))
    (registering s ∖ {[i]}) (dead s)).
Proof.
  intros Hok [Hin _] Hri Hna Ha Hput. pose proof (profile_node s i n Hin) as Hpi.
  destruct (put_sent s a (nd n) sv l Hna (proj1 (ok_named s Hok _ _ _ Hpi)) Ha Hput) as (-> & -> & Hans).
  destruct Hok as [Hreach Hn H0 Hrd Hg Hreg Hls Hd]. destruct (Hg i Hri) as (l & Hl & Hl0).
  rewrite (recorded_node s i n Hin) in Hl. injection Hl as <-.
  destruct (Hrd i _ (recorded_node s i n Hin)) as [|Ho]; [done|].
  destruct (put_answer_lease _ _ Hl0 Hans) as [L HL]. rewrite decide_False by done.
  split; try done.
  - eapply rtc_r; [done|]. cbn. destruct (clus s) as [lg ns] eqn:E. cbn in *. apply changes. split; [|done].
    exact (Hn _ _ _ Hpi).
  - intros j Hj. apply Hg. cbn in Hj. set_solver.
  - cbn. intros id sv. rewrite replay_snoc. cbn. rewrite lookup_insert_Some. intros [[<- <-]|[Hne Hsv]].
    + exists i, (conf (nd n)), (leaseID (nd n)), L. by rewrite lookup_insert_eq.
    + destruct (Hreg id sv Hsv) as (j & cf & l' & L' & ?). exists j, cf, l', L'. by rewrite lookup_insert_ne.
Qed.

Lemma ok_keeps s i n l L : timed_ok s -> alive s i n -> owners s !! l = Some i -> leases s !! l = Some L ->
  timed_ok (mkTimed (clus s) (now s) (<[l := mkLease (ttl L) (now s)]> (leases s)) (owners s)
    (attached s) (registering s) (dead s)).
Proof.
  intros [Hreach Hn H0 Hrd Hg Hreg Hls Hd] [Hin Ha] Ho HL. split; try done; cbn [leases clus attached owners].
  - intros id sv Hsv. destruct (Hreg id sv Hsv) as (j & cf & l' & L' & ? & ? & ? & ?).
    destruct (decide (l = l')) as [<-|Hne]; [|exists j, cf, l', L'; by rewrite lookup_insert_ne].
    eexists j, cf, l, _. by rewrite lookup_insert_eq.
  - intros l' L'. rewrite lookup_insert_Some. intros [[<- <-]|[_ HL']]; [|exact (Hls l' L' HL')].
    destruct (Hls l L HL) as (j & sv & cf & Ho' & Hp & Ht & Hnow & _). simplify_eq.
    exists i, sv, cf. cbn. split_and!; [done|done|done|lia| |congruence].
    pose proof (server_ttl_nonneg (Duration.int_seconds (heartbeatTTL cf))). lia.
Qed.

Lemma ok_crashes s i n : timed_ok s -> alive s i n ->
  timed_ok (mkTimed (clus s) (now s) (leases s) (owners s) (attached s) (registering s)
    (<[i := now s]> (dead s))).
Proof.
  intros [Hreach Hn H0 Hrd Hg Hreg Hls Hd] [Hin Ha]. split; try done; cbn [dead now].
  - intros l L HL. destruct (Hls l L HL) as (j & sv & cf & Ho & Hp & Ht & Hnow & Hdead).
    exists j, sv, cf. cbn. split_and!; [done|done|done|lia|lia|]. intros T.
    rewrite lookup_insert_Some. intros [[<- <-]|[_ HT]]; [lia|by apply Hdead].
  - intros j T. rewrite lookup_insert_Some. intros [[_ <-]|[_ HT]]; [lia|by eapply Hd].
Qed.

Lemma ok_passes s d : timed_ok s -> 0 <= d ->
  (forall l L, leases s !! l = Some L -> now s + d <= refreshed L + ttl L + slack) ->
  timed_ok (mkTimed (clus s) (now s + d) (leases s) (owners s) (attached s) (registering s) (dead s)).
Proof.
  intros [Hreach Hn H0 Hrd Hg Hreg Hls Hd] Hd0 Hdue. split; try done; cbn [dead now].
  - intros l L HL. specialize (Hdue l L HL).
    destruct (Hls l L HL) as (j & sv & cf & Ho & Hp & Ht & Hnow & Hdead).
    exists j, sv, cf. cbn. split_and!; [done|done|done|lia|lia|done].
  - intros j T HT. specialize (Hd j T HT). lia.
Qed.

(** Revoking closes the channel of the lease and nothing else. *)
Lemma revoke_returns answer s s' r : revoke answer s = Returns _ (s', r) -> (forall p, r <> Panics p) ->
  stopLeaseChan_closed s = false /\
  s' = set_run s (cli s) (running s) (leaseID s) (stopChan_closed s) true.
Proof.
  unfold revoke. intros H Hp. destruct (stopLeaseChan_closed s); [injection H as <- <-; by destruct (Hp _ eq_refl)|].
  cbn in H. destruct (cli s); [|done]. by injection H as <- _.
Qed.

Lemma revoke_answer_no_panic ls l p : revoke_answer ls l <> Panics p.
Proof. unfold revoke_answer. by case_bool_decide. Qed.

Lemma ok_revokes s i n s' : timed_ok s -> alive s i n ->
  revoke (revoke_answer (leases s) (leaseID (nd n))) (nd n) =
    Returns _ (s', revoke_answer (leases s) (leaseID (nd n))) ->
  timed_ok (with_node s i (mkNode s' (pos n) (synced_at n))).
Proof.
  intros Hok [Hin _] Hr. apply revoke_returns in Hr as [_ ->]; [|apply revoke_answer_no_panic].
  eapply ok_node; [done|done|apply rtc_once; by apply runs_step|done..].
Qed.

Lemma tstep_ok s s' : tstep s s' -> timed_ok s -> timed_ok s'.
Proof.
  intros Hs Hok. destruct Hs as [| | |s i n a e Ha Hi He| | |s i n s' answer Ha Hr| | |s i n ch s' [Hi _] Hch He
    |s i n p E Sc SL fs s' [Hi _] Hp Hr Hy|s i n [Hi _]].
  - by apply ok_joins.
  - by eapply ok_grants.
  - by eapply ok_puts.
  - destruct Hok as [? ? ? ? Hg]. split; try done. intros j Hj. apply Hg. cbn in Hj. set_solver.
  - by eapply ok_keeps.
  - by apply ok_drop.
  - by eapply ok_drop, ok_revokes.
  - by eapply ok_crashes.
  - by apply ok_passes.
  - eapply ok_same; [done|done|by eapply watch_event_same|]. unfold with_node, with_clus. cbn.
    destruct (clus s). by eapply deliver.
  - eapply ok_same; [done|done|by eapply SyncServers_same|]. unfold with_node, with_clus. cbn.
    destruct (clus s). by eapply synchronise.
  - eapply ok_same; [done|done|done|]. unfold with_node, with_clus. cbn. destruct (clus s). by apply rewatch.
Qed.

Lemma reachable_timed s : rtc tstep tstart s -> timed_ok s.
Proof.
  intros H. assert (timed_ok tstart) as H0.
  { split; cbn; [done|by intros [|?] ? ?|done|by intros [|?] ?|set_solver|..];
      intros ? ?; by rewrite lookup_empty. }
  revert H0. induction H as [|x y z Hs _ IH]; [done|]. intros Hx. by apply IH, (tstep_ok x).
Qed.

(** ** Time can always pass *)

(** The lease that is due first. *)
Lemma first_due (ls : gmap Z lease) : ls <> ∅ ->
  exists l L, ls !! l = Some L /\ forall l' L', ls !! l' = Some L' -> refreshed L + ttl L <= refreshed L' + ttl L'.
Proof.
  induction ls as [|l L ls Hl IH] using map_ind; [done|]. intros _.
  destruct (decide (ls = ∅)) as [->|Hne].
  { exists l, L. rewrite lookup_insert_eq. split; [done|]. intros l' L'.
    rewrite lookup_insert_Some. intros [[_ <-]|[_ H]]; [lia|by rewrite lookup_empty in H]. }
  destruct (IH Hne) as (k & K & HK & Hmin).
  destruct (Z.le_ge_cases (refreshed L + ttl L) (refreshed K + ttl K)) as [Hle|Hge].
  - exists l, L. rewrite lookup_insert_eq. split; [done|]. intros l' L'. rewrite lookup_insert_Some.
    intros [[_ <-]|[_ H]]; [lia|]. specialize (Hmin l' L' H). lia.
  - exists k, K. rewrite lookup_insert_ne by congruence. split; [done|]. intros l' L'.
    rewrite lookup_insert_Some. intros [[_ <-]|[_ H]]; [lia|by eapply Hmin].
Qed.

(** From every reachable state the clock gets as far as one likes: the leases
    that become due end one after the other. *)
Lemma time_can_pass k : forall s t, timed_ok s -> size (leases s) = k -> now s <= t ->
  exists s', rtc tstep s s' /\ now s' = t /\ dead s' = dead s /\ profile s' = profile s.
Proof.
  induction k as [|k IH]; intros s t Hok Hk Ht.
  - eexists. split; [apply rtc_once, (passes s (t - now s)); [lia|]|cbn; split_and!; [lia|done|done]].
    apply map_size_empty_inv in Hk. intros l L. by rewrite Hk, lookup_empty.
  - destruct (first_due (leases s)) as (l & L & HL & Hmin).
    { intros E. rewrite E, map_size_empty in Hk. done. }
    pose proof (fun l L HL => ok_leases s Hok l L HL) as Hls.
    assert (forall l' L', leases s !! l' = Some L' -> now s <= refreshed L' + ttl L' + slack) as Hnow
      by (intros l' L' HL'; destruct (Hls l' L' HL') as (? & ? & ? & _ & _ & _ & ? & _); lia).
    destruct (Z.le_gt_cases t (refreshed L + ttl L)) as [Hle|Hgt].
    + eexists. split; [apply rtc_once, (passes s (t - now s)); [lia|]|cbn; split_and!; [lia|done|done]].
      intros l' L' HL'. specialize (Hmin l' L' HL'). lia.
    + set (u := Z.max (now s) (refreshed L + ttl L)). set (s1 := mkTimed (clus s) (now s + (u - now s))
        (leases s) (owners s) (attached s) (registering s) (dead s)).
      assert (tstep s s1) as H1.
      { apply passes; [lia|]. intros l' L' HL'. specialize (Hmin l' L' HL'). specialize (Hnow l' L' HL'). lia. }
      assert (tstep s1 (drop_lease s1 l)) as H2 by (eapply expires; [exact HL|cbn; lia]).
      destruct (IH (drop_lease s1 l) t) as (s' & Hr & ? & ? & ?);
        [by eapply tstep_ok, tstep_ok|cbn; rewrite map_size_delete, HL; cbn; lia|cbn; lia|].
      exists s'. split; [by eapply rtc_l, rtc_l|done].
Qed.

(** ** What the leases promise *)

(** A server in etcd is that of a node that kept the lease it is registered
    under alive no longer than the time to live and the delay ago. *)
Lemma registered_recently s id sv : timed_ok s -> replay (log (clus s)) !! id = Some sv ->
  exists i cf l L, profile s !! i = Some (sv, cf) /\ attached s !! id = Some l /\ leases s !! l = Some L /\
    owners s !! l = Some i /\ ttl L = server_ttl (Duration.int_seconds (heartbeatTTL cf)) /\
    now s <= refreshed L + ttl L + slack /\ forall T, dead s !! i = Some T -> refreshed L <= T.
Proof.
  intros Hok Hsv. destruct (ok_registered s Hok id sv Hsv) as (i & cf & l & L & Hp & Ha & HL & Ho).
  destruct (ok_leases s Hok l L HL) as (j & sv' & cf' & Ho' & Hp' & Ht & Hnow & Hdead). simplify_eq.
  exists i, cf, l, L. split_and!; try done. lia.
Qed.

(** A server a node does not know is not picked for a call. *)
Lemma not_routed `{CL : Router.ChoiceLaws} d id r ctx ty route msg sv : wf d -> serverMapByID d !! id = None ->
  Router.serviceDiscovery r = Some (Router.of_node d) -> Router.routesMap r !! ty = None ->
  (Router.Route r ctx ty route msg).2 = Ok (Some sv) -> ID sv <> id.
Proof.
  intros Hwf Hnone HD Hroute Hres E.
  destruct (Router.Route_default_spec r _ ctx ty route msg (Router.of_node_laws d Hwf) HD Hroute)
    as [(ms & sv' & Hms & Hl & _ & HR)|[_ HR]]; rewrite HR in Hres; [|done]. injection Hres as ->.
  cbn in Hms. rewrite GetServersByType_spec in Hms by done. case_decide; [done|]. injection Hms as <-.
  unfold of_type in Hl. apply map_lookup_filter_Some in Hl as [Hl _]. rewrite E in Hl. congruence.
Qed.

(** A put that changes what is registered under an id is that of a node
    configured with the id, under its own lease. *)
Lemma put_key s j m a y k id sv : timed_ok s -> alive s j m -> j ∈ registering s -> named y ->
  at_put a = sent (leases s) (getKey (ID y) (Type_ y)) (AsJSONString y) k ->
  addServerIntoEtcd a (nd m) (server (nd m)) = Ok tt ->
  replay (log (clus s)) !! id = Some sv -> replay (log (clus s) ++ [Put y]) !! id <> Some sv ->
  y = server (nd m) /\ k = leaseID (nd m) /\ ID (server (nd m)) = id /\
  leaseID (nd m) <> 0 /\ owners s !! leaseID (nd m) = Some j.
Proof.
  intros Hok [Hj _] Hreg Hna Hat Hput Hsv. rewrite replay_snoc. cbn.
  destruct (put_sent s a (nd m) y k Hna (proj1 (ok_named s Hok _ _ _ (profile_node s j m Hj))) Hat Hput)
    as (-> & -> & _). intros Hgone.
  destruct (decide (ID (server (nd m)) = id)) as [E|E]; [|by rewrite lookup_insert_ne in Hgone].
  destruct (ok_registering s Hok j Hreg) as (l & Hl & Hl0).
  rewrite (recorded_node s j m Hj) in Hl. injection Hl as <-.
  destruct (ok_recorded s Hok j _ (recorded_node s j m Hj)); by split_and!.
Qed.

(** What the end of a lease takes away was put under it. *)
Lemma dropped s l id sv : timed_ok s -> replay (log (clus s)) !! id = Some sv ->
  replay (log (clus (drop_lease s l))) !! id <> Some sv ->
  attached s !! id = Some l /\ replay (log (clus (drop_lease s l))) !! id = None.
Proof.
  intros Hok Hsv Hgone. destruct (drop_steps s l Hok) as [_ Hl].
  assert (attached s !! id = Some l) as Ha
    by (destruct (decide (attached s !! id = Some l)); [done|]; exfalso; apply Hgone; by apply Hl).
  split; [done|]. destruct (replay (log (clus (drop_lease s l))) !! id) as [x|] eqn:E; [|done].
  by apply Hl in E as [_ E].
Qed.

(** C15: crashed servers are forgotten: however processes joined, under new
    ids or under ids in use, registered, renewed their leases, lost their
    watch and synchronised, one synchronisation of a node at a time and every
    id used with one type, when all processes that were configured with an id have crashed, each so long ago
    that the time to live etcd gives for its configured heartbeat and the time
    etcd takes to notice have passed, no server is in etcd under that id, and
    every node that has synchronised under its watch and received all changes
    does not find it and routes no call to it for a type without a custom
    routing function. *)
Theorem crashed_servers_forgotten `{CL : Router.ChoiceLaws} (s : timed) (id : string) :
  rtc tstep tstart s ->
  (forall i n, nodes (clus s) !! i = Some n -> ID (server (nd n)) = id ->
     exists T z, dead s !! i = Some T /\ heartbeatTTL (conf (nd n)) = z * Duration.Second /\ 0 <= z < 2 ^ 53 /\
       T + server_ttl z + slack < now s) ->
  replay (log (clus s)) !! id = None /\
  forall j m f, nodes (clus s) !! j = Some m -> synced_at m = Some f -> pos m = length (log (clus s)) ->
    GetServer (nd m) id = Err (ESentinel ErrNoServerWithID) /\
    forall r ctx ty route msg sv,
      Router.serviceDiscovery r = Some (Router.of_node (nd m)) -> Router.routesMap r !! ty = None ->
      (Router.Route r ctx ty route msg).2 = Ok (Some sv) -> ID sv <> id.
Proof.
  intros Hr Hcrashed. pose proof (reachable_timed s Hr) as Hok.
  assert (replay (log (clus s)) !! id = None) as Hgone.
  { destruct (replay _ !! _) as [sv|] eqn:E; [exfalso|done].
    destruct (registered_recently s _ _ Hok E) as (j & cf & l & L & Hp & _ & _ & _ & Ht & Hnow & Hdead).
    destruct (profile_inv s j sv cf Hp) as (n & Hj & <- & <-).
    destruct (Hcrashed j n Hj (replay_id _ _ _ E)) as (T & z & HT & Hz & Hz0 & Hlate).
    rewrite Hz, Duration.int_seconds_whole in Ht by done. specialize (Hdead T HT). lia. }
  split; [done|]. intros j m f Hj Hf Hpos.
  destruct (reachable_node kind (clus s) j m (ok_reach s Hok) Hj) as [Hl Hm].
  assert (serverMapByID (nd m) !! id = None) as Hnone.
  { pose proof (caught_up_entry kind _ _ f Hl Hm Hf Hpos id) as Ha. by rewrite view_lookup, Hgone in Ha. }
  split; [unfold GetServer; by rewrite Hnone|]. intros r ctx ty route msg sv HD Hroute Hres.
  by eapply (not_routed (nd m) id r ctx ty route msg sv (proj1 Hm) Hnone).
Qed.

(** C33: a server leaves etcd only when it is due: a step after which the
    description registered under an id is no longer registered is the end of
    the lease that its own node got and that the node has not kept alive for
    the time to live, or the revocation of that lease by the node as it shuts
    down, or a process that was configured with the same id puts its own
    description there; in particular the end of a lease that was replaced by
    a renewal takes nothing away. *)
Theorem leaves_only_when_due (s s' : timed) (id : string) (sv : Server) :
  rtc tstep tstart s -> tstep s s' ->
  replay (log (clus s)) !! id = Some sv -> replay (log (clus s')) !! id <> Some sv ->
  (exists i n l L, nodes (clus s) !! i = Some n /\ server (nd n) = sv /\ attached s !! id = Some l /\
    leases s !! l = Some L /\ owners s !! l = Some i /\ replay (log (clus s')) !! id = None /\
    (refreshed L + ttl L <= now s \/
     dead s !! i = None /\ leaseID (nd n) = l /\ stopLeaseChan_closed (nd n) = false /\
     exists n', nodes (clus s') !! i = Some n' /\ stopLeaseChan_closed (nd n') = true)) \/
  (exists j m, alive s j m /\ ID (server (nd m)) = id /\ replay (log (clus s')) !! id = Some (server (nd m)) /\
    attached s' !! id = Some (leaseID (nd m)) /\ owners s' !! leaseID (nd m) = Some j).
Proof.
  intros Hr Hs Hsv Hgone. pose proof (reachable_timed s Hr) as Hok.
  pose proof (reachable_timed s' ltac:(by eapply rtc_r)) as Hok'.
  destruct (ok_registered s Hok id sv Hsv) as (i & cf & l & L & Hp & Ha & HL & Ho).
  destruct (profile_inv s i sv cf Hp) as (n & Hi & Hn & _).
  destruct Hs as [| |s j m a y k Hal Hreg Hna Hat Hput| | |s k K HK Hdue|s j m s' answer [Hj Hdead] Hrev| | | | |];
    try done.
  - right. destruct (put_key s j m a y k id sv Hok Hal Hreg Hna Hat Hput Hsv Hgone) as (-> & -> & Hid & Hk0 & Hk).
    exists j, m. cbn. rewrite replay_snoc. cbn. rewrite decide_False, <-Hid, !lookup_insert_eq by done. done.
  - left. exists i, n, l, L. destruct (dropped s k id sv Hok Hsv Hgone) as [Hk Hnone].
    split_and!; [done..|]. left. congruence.
  - left. pose proof (ok_revokes s j m s' Hok (conj Hj Hdead) Hrev) as Hokn.
    destruct (dropped (with_node s j (mkNode s' (pos m) (synced_at m))) (leaseID (nd m)) id sv Hokn Hsv Hgone) as [Hk Hnone].
    cbn in Hk. rewrite Ha in Hk. injection Hk as ->.
    destruct (ok_recorded s Hok j _ (recorded_node s j m Hj)) as [H0|Ho'];
      [by rewrite H0, (ok_zero s Hok) in Ho|]. simplify_eq.
    destruct (revoke_returns _ _ _ _ Hrev (revoke_answer_no_panic _ _)) as [Hopen ->].
    eexists _, _, _, L. split_and!; [done..|]. right. split_and!; [done..|]. eexists.
    split; [cbn; apply list_lookup_insert_eq; by eapply lookup_lt_Some|reflexivity].
Qed.

Lemma list_bound {A} (f : nat -> A -> Z) (l : list A) : exists t, forall i x, l !! i = Some x -> f i x <= t.
Proof.
  induction l as [|x l [t Ht]] using rev_ind; [by exists 0|]. exists (Z.max t (f (length l) x)).
  intros i y [H|[Hi H]]%lookup_app_Some; [specialize (Ht i y H); lia|].
  apply list_lookup_singleton_Some in H as [H <-]. assert (i = length l) as -> by lia. lia.
Qed.

(** In some continuation the id of crashed processes is gone: nothing keeps
    time from passing, and their leases from ending. *)
Lemma crashed_server_leaves s id : rtc tstep tstart s ->
  (forall i n, nodes (clus s) !! i = Some n -> ID (server (nd n)) = id -> is_Some (dead s !! i)) ->
  exists s', rtc tstep s s' /\ replay (log (clus s')) !! id = None.
Proof.
  intros Hr Hcrashed. pose proof (reachable_timed s Hr) as Hok.
  destruct (list_bound (fun i n => default 0 (dead s !! i) + server_ttl (lease_ttl (nd n)) + slack)
    (nodes (clus s))) as [t Ht].
  destruct (time_can_pass (size (leases s)) s (Z.max (now s) (t + 1)) Hok eq_refl ltac:(lia))
    as (s' & Hr' & Hnow & Hdead & Hprof).
  exists s'. split; [done|]. destruct (replay _ !! _) as [sv|] eqn:E; [exfalso|done].
  pose proof (reachable_timed s' ltac:(by etrans)) as Hok'.
  destruct (registered_recently s' _ _ Hok' E) as (j & cf & l & L & Hp & _ & _ & _ & Hl & Hlate & HT').
  rewrite Hprof in Hp. destruct (profile_inv s j sv cf Hp) as (n & Hj & <- & <-).
  destruct (Hcrashed j n Hj (replay_id _ _ _ E)) as [T HT]. specialize (Ht j n Hj). rewrite HT in Ht.
  rewrite Hdead in HT'. specialize (HT' T HT). unfold lease_ttl in *. cbn in Ht. lia.
Qed.

End Timed.

(** ** Witnesses *)

(** The game node synchronises while etcd is empty. The chat server joins,
    is granted lease 7 and registers; the game node hears of it. The chat
    server crashes; after a minute its lease ends and the game node hears of
    that; more time passes. *)
Definition or_self (r : result sd) : sd := match r with Ok s => s | _ => ex_node end.
Definition game1 : sd := or_self (SyncServers (E := etcd_of []) (Sc := in_order) ex_node true).
Definition game2 : sd := or_self (watch_event game1 (event_of (Put sv_chat))).
Definition game3 : sd := or_self (watch_event game2 (event_of (Deleted sv_chat))).
Definition chat0 : sd := fresh_node ex_config sv_chat true [].
Definition chat1 : sd := set_run chat0 true false 7 false false.

Definition lease7 : lease := mkLease (Z.max 2 (lease_ttl chat0)) 0.
Definition granted : attempt := {|
  at_grant _ := Ok 7; at_keepalive := Ok tt;
  at_put := sent {[7 := lease7]} (getKey "c1" "chat") (AsJSONString sv_chat) 7;
  at_etcd := etcd_of []; at_sched := in_order; at_timeout := false
|}.

Definition t1 : timed := with_clus tstart (mkCluster [] [mkNode ex_node 0 None]).
Definition t2 : timed := with_node t1 0 (mkNode game1 0 (Some 0%nat)).
Definition t3 : timed := with_clus t2 (mkCluster [] [mkNode game1 0 (Some 0%nat); mkNode chat0 0 None]).
Definition t4 : timed :=
  mkTimed (clus (with_node t3 1 (mkNode chat1 0 None))) 0 {[7 := lease7]} {[7 := 1%nat]} ∅ ({[1%nat]} ∪ ∅) ∅.
Definition t5 : timed :=
  mkTimed (mkCluster [Put sv_chat] (nodes (clus t4))) 0 (leases t4) (owners t4) {["c1" := 7]}
    (registering t4 ∖ {[1%nat]}) ∅.
Definition t6 : timed := with_node t5 0 (mkNode game2 1 (Some 0%nat)).
Definition t7 : timed :=
  mkTimed (clus t6) 0 (leases t6) (owners t6) (attached t6) (registering t6) {[1%nat := 0]}.
Definition t8 : timed :=
  mkTimed (clus t7) 60 (leases t7) (owners t7) (attached t7) (registering t7) (dead t7).
Definition t9 : timed := drop_lease t8 7.
Definition t10 : timed := with_node t9 0 (mkNode game3 2 (Some 0%nat)).
Definition t11 : timed :=
  mkTimed (clus t10) 70 (leases t10) (owners t10) (attached t10) (registering t10) (dead t10).

Lemma ex_reads_empty : reads (etcd_of []) [] 0.
Proof.
  exists [], Some. split; [|set_solver]. apply holds_answers. split; try done; try set_solver.
Qed.

Lemma ex_expiry : tstep ex_kind (Z.max 2) 1 t8 t9.
Proof. apply (expires _ _ _ t8 7 lease7); [reflexivity|by vm_compute]. Qed.

Lemma ex_to_t8 : rtc (tstep ex_kind (Z.max 2) 1) tstart t8.
Proof.
  apply (rtc_l _ _ t1); [apply (joins _ _ _ tstart ex_config sv_game true [7%nat]); by repeat split|].
  apply (rtc_l _ _ t2); [apply (syncs _ _ _ t1 0 (mkNode ex_node 0 None) 0 (etcd_of []) in_order in_order_laws true game1);
    [by split|cbn; lia|exact ex_reads_empty|by vm_compute]|].
  apply (rtc_l _ _ t3); [apply (joins _ _ _ t2 ex_config sv_chat true []); by repeat split|].
  apply (rtc_l _ _ t4); [apply (grants ex_kind (Z.max 2) 1 t3 1 (mkNode chat0 0 None) granted 7 chat1 (Ok tt)); by try split|].
  apply (rtc_l _ _ t5); [apply (puts _ _ _ t4 1 (mkNode chat1 0 None) granted sv_chat 7);
    [by split|set_solver|by repeat split|done|by vm_compute]|].
  apply (rtc_l _ _ t6); [apply (receives _ _ _ t5 0 (mkNode game1 0 (Some 0%nat)) (Put sv_chat) game2);
    [by split|done|by vm_compute]|].
  apply (rtc_l _ _ t7); [apply (crashes _ _ _ t6 1 (mkNode chat1 0 None)); by split|].
  apply rtc_once, (passes _ _ _ t7 60); [lia|]. intros l L. cbn. rewrite lookup_singleton_Some. intros [_ <-]. by vm_compute.
Qed.

Lemma ex_to_t11 : rtc (tstep ex_kind (Z.max 2) 1) tstart t11.
Proof.
  etrans; [exact ex_to_t8|]. apply (rtc_l _ _ t9); [exact ex_expiry|].
  apply (rtc_l _ _ t10); [apply (receives _ _ _ t9 0 (mkNode game2 1 (Some 0%nat)) (Deleted sv_chat) game3);
    [by split|by vm_compute|by vm_compute]|].
  apply rtc_once, (passes _ _ _ t10 10); [lia|]. intros l L.
  assert (leases t10 = ∅) as -> by (by vm_compute). by rewrite lookup_empty.
Qed.

Lemma crashed_servers_forgotten_witness :
  rtc (tstep ex_kind (Z.max 2) 1) tstart t11 /\ replay (log (clus t7)) !! "c1" = Some sv_chat /\
  GetServer game2 "c1" = Ok sv_chat /\ GetServer game3 "c1" = Err (ESentinel ErrNoServerWithID).
Proof.
  split; [exact ex_to_t11|]. split; [by vm_compute|]. split; [by vm_compute|].
  destruct (crashed_servers_forgotten (CL := Router.first_choice_laws) ex_kind (Z.max 2) 1 ltac:(lia) ltac:(lia)
    t11 "c1" ex_to_t11) as [_ H].
  { intros [|[|i]] n; [by intros [= <-]| |done]. intros [= <-] _. exists 0, 60. split_and!; [done|done|lia|lia|by vm_compute]. }
  exact (proj1 (H 0%nat (mkNode game3 2 (Some 0%nat)) 0%nat eq_refl eq_refl eq_refl)).
Defined.

Lemma leaves_only_when_due_witness : exists L, leases t8 !! 7 = Some L /\ refreshed L + ttl L <= 60.
Proof.
  destruct (leaves_only_when_due ex_kind (Z.max 2) 1 ltac:(lia) ltac:(lia) t8 t9 "c1" sv_chat ex_to_t8 ex_expiry)
    as [(i & n & l & L & _ & _ & Ha & HL & Ho & _ & Hdue)|(j & m & _ & _ & H & _)];
    [by vm_compute|by vm_compute| |by vm_compute in H].
  assert (l = 7) as -> by (by vm_compute in Ha; injection Ha). exists L. split; [exact HL|].
  destruct Hdue as [Hdue|[Hd _]]; [exact Hdue|]. exfalso.
  assert (i = 1%nat) as -> by (by vm_compute in Ho; injection Ho). by vm_compute in Hd.
Defined.

End Leases.
