(* ===== verification/WorkerPool.v ===== *)
(** * Worker pool: [cluster/worker_pool.go]

    Tasks of one share id go through one queue, whose worker goroutine runs
    them one after the other. The goroutines are the dispatchers of the RPC
    server (which call [Submit] one request after the other), the workers of
    the queues, the cleaner and the caller of [Stop]. Each of them is a
    program counter, and an event is one operation of one goroutine on the
    shared state: a lock, a channel operation, an access of the map. *)

From S2P Require Import Prelude GoStd.
From Stdlib Require Import Strings.Byte.

Module WorkerPool.

Local Open Scope Z_scope.

(** ** The queue of a share id *)

(** [hash]: 32-bit FNV-1a, as an [int]. *)
Definition fnv_step (h : Z) (b : byte) : Z := u32 (Z.lxor h (byte_to_Z b) * 16777619).
Definition hash (uid : string) : Z := foldl fnv_step 2166136261 (str_bytes uid).

(** A task submitted for a share id. *)
Record task := mkTask { share : string; tid : nat }.
#[export] Instance task_eq_dec : EqDecision task.
Proof. solve_decision. Defined.

(** Where the goroutine of [start] is: at the receive of its loop, in the
    task, before [mu.Lock], before [mu.Unlock], before [wg.Done], or past
    the loop. *)
Inductive stage :=
| Receiving
| Running (t : task)
| Locking (t : task)
| Unlocking (t : task)
| Signalling (t : task)
| Exited.

(** A queue: its channel (the buffered tasks, and whether it is closed), its
    mutex, wait group, last use and worker. *)
Record WorkerQueue := mkQueue {
  taskChan : list task;
  closed : bool;
  lastActive : Z;
  mu : bool;
  wg : nat;
  worker : stage
}.

Definition NewWorkerQueue (now : Z) : WorkerQueue := mkQueue [] false now false 0 Receiving.

(** The operations on the fields of a queue. *)
Definition set_worker (g : stage) (q : WorkerQueue) : WorkerQueue :=
  mkQueue (taskChan q) (closed q) (lastActive q) (mu q) (wg q) g.
Definition set_mu (b : bool) (q : WorkerQueue) : WorkerQueue :=
  mkQueue (taskChan q) (closed q) (lastActive q) b (wg q) (worker q).
Definition touch (now : Z) (q : WorkerQueue) : WorkerQueue :=
  mkQueue (taskChan q) (closed q) now (mu q) (wg q) (worker q).
Definition set_wg (n : nat) (q : WorkerQueue) : WorkerQueue :=
  mkQueue (taskChan q) (closed q) (lastActive q) (mu q) n (worker q).
Definition send (t : task) (q : WorkerQueue) : WorkerQueue :=
  mkQueue (taskChan q ++ [t]) (closed q) (lastActive q) (mu q) (wg q) (worker q).
Definition close_chan (q : WorkerQueue) : WorkerQueue :=
  mkQueue (taskChan q) true (lastActive q) (mu q) (wg q) (worker q).

(** ** The pool *)

(** [queues] maps a key to a queue, known by its index in the store. *)
Record WorkerPool := mkPool {
  queueNum : Z;
  queueSize : Z;
  clearInterval : Z;
  clearTimePass : Z;
  queues : gmap string nat;
  quit : bool
}.

Definition NewWorkerPool (queueNum queueSize clearInterval clearTimePass : Z) : WorkerPool :=
  mkPool queueNum queueSize clearInterval clearTimePass ∅ false.

(** The key under which [getQueue] looks for the queue of a share id. *)
Definition getQueue_key (queueNum : Z) (uid : string) : string :=
  if 0 <? queueNum then GoStd.FormatInt (hash uid mod queueNum) else uid.

(** Where a call of [Submit] is: at the load and the store of [getQueue], at
    [mu.Lock], [mu.Unlock], [wg.Add] and the send of the queue's [Submit]. *)
Inductive submission :=
| SLoad (t : task)
| SStore (t : task) (n : nat)
| SLock (t : task) (n : nat)
| SUnlock (t : task) (n : nat)
| SAdd (t : task) (n : nat)
| SSend (t : task) (n : nat).

(** Where the cleaner is at a queue: before [mu.Lock], the test of its age,
    [wg.Wait] and [close] of [Stop], the deletion and [mu.Unlock]. *)
Inductive phase := CLock | CTest | CWait | CClose | CDelete | CUnlock.
Inductive cleaner_state :=
| CNone
| CSelect
| CRange (now : Z) (visited : list string)
| CAt (ph : phase) (now : Z) (visited : list string) (k : string) (n : nat)
| CExited.

(** Where the caller of [Stop] is; at a queue it is at [wg.Wait], or at
    [close] when [waited] is set. *)
Inductive stop_state :=
| TNone
| TRange (visited : list string)
| TAt (waited : bool) (visited : list string) (n : nat)
| TDone.

(** The shared state and the goroutines. [calls] and [started] record the
    calls of [Submit] with their dispatcher, and the tasks that were started,
    in order. *)
Record state := mkState {
  pool : WorkerPool;
  store : list WorkerQueue;
  subs : gmap nat submission;
  cleaner : cleaner_state;
  stopper : stop_state;
  calls : list (nat * task);
  started : list task;
  crashed : option panic
}.

(** [Start]: the cleaner runs when its times are positive. *)
Definition Start (m : WorkerPool) : state :=
  mkState m [] ∅
    (if (0 <? clearInterval m) && (0 <? clearTimePass m) then CSelect else CNone)
    TNone [] [] None.

Definition set_pool (m : WorkerPool) (s : state) : state :=
  mkState m (store s) (subs s) (cleaner s) (stopper s) (calls s) (started s) (crashed s).
Definition set_queues (f : gmap string nat -> gmap string nat) (s : state) : state :=
  let m := pool s in
  set_pool (mkPool (queueNum m) (queueSize m) (clearInterval m) (clearTimePass m)
              (f (queues m)) (quit m)) s.
Definition set_store (l : list WorkerQueue) (s : state) : state :=
  mkState (pool s) l (subs s) (cleaner s) (stopper s) (calls s) (started s) (crashed s).
Definition set_queue (n : nat) (q : WorkerQueue) (s : state) : state :=
  set_store (<[n := q]> (store s)) s.
Definition set_subs (m : gmap nat submission) (s : state) : state :=
  mkState (pool s) (store s) m (cleaner s) (stopper s) (calls s) (started s) (crashed s).
Definition set_sub (i : nat) (u : submission) (s : state) : state :=
  set_subs (<[i := u]> (subs s)) s.
Definition set_cleaner (c : cleaner_state) (s : state) : state :=
  mkState (pool s) (store s) (subs s) c (stopper s) (calls s) (started s) (crashed s).
Definition set_stopper (c : stop_state) (s : state) : state :=
  mkState (pool s) (store s) (subs s) (cleaner s) c (calls s) (started s) (crashed s).
Definition log_call (i : nat) (t : task) (s : state) : state :=
  mkState (pool s) (store s) (subs s) (cleaner s) (stopper s) (calls s ++ [(i, t)]) (started s)
    (crashed s).
Definition log_start (t : task) (s : state) : state :=
  mkState (pool s) (store s) (subs s) (cleaner s) (stopper s) (calls s) (started s ++ [t])
    (crashed s).
Definition crash (p : panic) (s : state) : state :=
  mkState (pool s) (store s) (subs s) (cleaner s) (stopper s) (calls s) (started s) (Some p).

Definition key (s : state) (t : task) : string := getQueue_key (queueNum (pool s)) (share t).

(** ** The goroutines *)

(** The channel takes a task: there is room, or the worker is receiving. *)
Definition can_send (size : Z) (q : WorkerQueue) : bool :=
  (Z.of_nat (length (taskChan q)) <? size) ||
  match worker q, taskChan q with Receiving, [] => true | _, _ => false end.

Definition SendOnClosed : panic := PanicMessage "send on closed channel".

(** The load of [getQueue]; a queue that is missing is created, and its
    worker started. *)
Definition getQueue (i : nat) (t : task) (now : Z) (s : state) : state :=
  match queues (pool s) !! key s t with
  | Some n => set_sub i (SLock t n) s
  | None =>
      if queueSize (pool s) <? 0 then crash (PanicMessage "makechan: size out of range") s
      else set_sub i (SStore t (length (store s))) (set_store (store s ++ [NewWorkerQueue now]) s)
  end.

(** One operation of the call of [Submit] a dispatcher is in, [None] when it
    has to wait. *)
Definition Submit (i : nat) (now : Z) (s : state) : option state :=
  u ← subs s !! i;
  match u with
  | SLoad t => Some (getQueue i t now s)
  | SStore t n => Some (set_sub i (SLock t n) (set_queues <[key s t := n]> s))
  | SLock t n =>
      q ← store s !! n;
      if mu q then None
      else Some (set_sub i (SUnlock t n) (set_queue n (touch now (set_mu true q)) s))
  | SUnlock t n => q ← store s !! n; Some (set_sub i (SAdd t n) (set_queue n (set_mu false q) s))
  | SAdd t n => q ← store s !! n; Some (set_sub i (SSend t n) (set_queue n (set_wg (S (wg q)) q) s))
  | SSend t n =>
      q ← store s !! n;
      if closed q then Some (crash SendOnClosed s)
      else if can_send (queueSize (pool s)) q
      then Some (set_subs (delete i (subs s)) (set_queue n (send t q) s))
      else None
  end.

(** One operation of the worker of a queue. *)
Definition start (n : nat) (now : Z) (s : state) : option state :=
  q ← store s !! n;
  match worker q with
  | Receiving =>
      match taskChan q with
      | t :: rest =>
          Some (log_start t (set_queue n
            (mkQueue rest (closed q) (lastActive q) (mu q) (wg q) (Running t)) s))
      | [] => if closed q then Some (set_queue n (set_worker Exited q) s) else None
      end
  | Running t => Some (set_queue n (set_worker (Locking t) q) s)
  | Locking t =>
      if mu q then None
      else Some (set_queue n (set_worker (Unlocking t) (touch now (set_mu true q))) s)
  | Unlocking t => Some (set_queue n (set_worker (Signalling t) (set_mu false q)) s)
  | Signalling t =>
      match wg q with
      | O => Some (crash (PanicMessage "sync: negative WaitGroup counter") s)
      | S k => Some (set_queue n (set_worker Receiving (set_wg k q)) s)
      end
  | Exited => None
  end.

(** One operation of the cleaner at a queue. *)
Definition clean_queue (s : state) : option state :=
  match cleaner s with
  | CAt ph now vis k n =>
      q ← store s !! n;
      match ph with
      | CLock =>
          if mu q then None
          else Some (set_cleaner (CAt CTest now vis k n) (set_queue n (set_mu true q) s))
      | CTest =>
          Some (set_cleaner
            (CAt (if clearTimePass (pool s) <? GoStd.time_sub now (lastActive q) then CWait else CUnlock)
               now vis k n) s)
      | CWait =>
          if bool_decide (wg q = 0%nat) then Some (set_cleaner (CAt CClose now vis k n) s) else None
      | CClose =>
          if closed q then Some (crash CloseOfClosedChannel s)
          else Some (set_cleaner (CAt CDelete now vis k n) (set_queue n (close_chan q) s))
      | CDelete => Some (set_cleaner (CAt CUnlock now vis k n) (set_queues (delete k) s))
      | CUnlock => Some (set_cleaner (CRange now vis) (set_queue n (set_mu false q) s))
      end
  | _ => None
  end.

(** The traversal of the map by [Range], in the cleaner and in [Stop]: it
    goes to a key of the map it has not visited. *)
Definition visit (k : string) (vis : list string) (s : state) : option nat :=
  if bool_decide (k ∈ vis) then None else queues (pool s) !! k.
Definition clean_visit (k : string) (s : state) : option state :=
  match cleaner s with
  | CRange now vis => n ← visit k vis s; Some (set_cleaner (CAt CLock now (k :: vis) k n) s)
  | _ => None
  end.

(** [Stop]: the end of the cleaner is asked for, then every queue is stopped;
    a second call closes the channel again. *)
Definition Stop (s : state) : option state :=
  match stopper s with
  | TNone | TDone =>
      let m := pool s in
      if quit m then Some (crash CloseOfClosedChannel s)
      else Some (set_stopper (TRange []) (set_pool
             (mkPool (queueNum m) (queueSize m) (clearInterval m) (clearTimePass m) (queues m) true) s))
  | _ => None
  end.
Definition stop_visit (k : string) (s : state) : option state :=
  match stopper s with
  | TRange vis => n ← visit k vis s; Some (set_stopper (TAt false (k :: vis) n) s)
  | _ => None
  end.
Definition stop_queue (s : state) : option state :=
  match stopper s with
  | TAt waited vis n =>
      q ← store s !! n;
      if waited then
        if closed q then Some (crash CloseOfClosedChannel s)
        else Some (set_stopper (TRange vis) (set_queue n (close_chan q) s))
      else if bool_decide (wg q = 0%nat) then Some (set_stopper (TAt true vis n) s) else None
  | _ => None
  end.

(** An event: the operation of one goroutine. *)
Inductive event :=
| Call (i : nat) (t : task)
| Dispatch (i : nat) (now : Z)
| Work (n : nat) (now : Z)
| Tick (now : Z)
| CleanVisit (k : string)
| CleanQueue
| CleanRangeEnd
| CleanQuit
| StopCall
| StopVisit (k : string)
| StopQueue
| StopRangeEnd.

Definition exec (e : event) (s : state) : option state :=
  match crashed s with
  | Some _ => None
  | None =>
      match e with
      | Call i t =>
          match subs s !! i with
          | None => Some (set_sub i (SLoad t) (log_call i t s))
          | Some _ => None
          end
      | Dispatch i now => Submit i now s
      | Work n now => start n now s
      | Tick now =>
          match cleaner s with CSelect => Some (set_cleaner (CRange now []) s) | _ => None end
      | CleanVisit k => clean_visit k s
      | CleanQueue => clean_queue s
      | CleanRangeEnd =>
          match cleaner s with CRange _ _ => Some (set_cleaner CSelect s) | _ => None end
      | CleanQuit =>
          match cleaner s with
          | CSelect => if quit (pool s) then Some (set_cleaner CExited s) else None
          | _ => None
          end
      | StopCall => Stop s
      | StopVisit k => stop_visit k s
      | StopQueue => stop_queue s
      | StopRangeEnd =>
          match stopper s with TRange _ => Some (set_stopper TDone s) | _ => None end
      end
  end.

Definition step (s s' : state) : Prop := exists e, exec e s = Some s'.

(** A run of given events. *)
Fixpoint run (es : list event) (s : state) : option state :=
  match es with [] => Some s | e :: es => s ← exec e s; run es s end.

Lemma run_steps es s s' : run es s = Some s' -> rtc step s s'.
Proof.
  revert s. induction es as [|e es IH]; cbn; intros s H; [by simplify_eq|].
  destruct (exec e s) as [s1|] eqn:E; [|done]. eapply rtc_l; [by exists e|]. by apply IH.
Qed.

(** ** Number of queues *)

Lemma u32_range z : 0 <= u32 z < 2 ^ 32.
Proof. unfold u32. apply Z.mod_pos_bound. lia. Qed.

Lemma hash_range uid : 0 <= hash uid < 2 ^ 32.
Proof.
  unfold hash. assert (forall l h, 0 <= h < 2 ^ 32 -> 0 <= foldl fnv_step h l < 2 ^ 32) as H.
  { induction l as [|b l IH]; intros h Hh; cbn; [done|]. apply IH, u32_range. }
  apply H. lia.
Qed.

(** The published vectors of FNV-1a: the empty string, and foobar. *)
Example hash_empty : hash EmptyString = 0x811c9dc5. Proof. reflexivity. Qed.
Example hash_foobar : hash "foobar" = 0xbf9cf968. Proof. reflexivity. Qed.

(** A positive number of queues bounds the goroutines of the pool: every
    share id is served by one of the keys [0 .. n - 1], the same one every
    time. *)
Theorem queue_key_bounded (n : Z) (uid : string) :
  0 < n -> exists i, 0 <= i < n /\ getQueue_key n uid = GoStd.FormatInt i.
Proof.
  intros Hn. unfold getQueue_key. rewrite (proj2 (Z.ltb_lt _ _) Hn).
  exists (hash uid mod n). split; [|done]. by apply Z.mod_pos_bound.
Qed.

(** ** Tasks of a share id run in order, one at a time *)

(** The task a worker has in hand, and the tasks a queue still has to do. *)
Definition current (q : WorkerQueue) : list task :=
  match worker q with
  | Receiving | Exited => []
  | Running t | Locking t | Unlocking t | Signalling t => [t]
  end.
Definition tasks (q : WorkerQueue) : list task := taskChan q ++ current q.
Definition load (q : WorkerQueue) : nat := length (tasks q).

Definition sub_task (u : submission) : task :=
  match u with
  | SLoad t | SStore t _ | SLock t _ | SUnlock t _ | SAdd t _ | SSend t _ => t
  end.

(** The queue a submission has in hand. *)
Definition held (u : submission) : option nat :=
  match u with
  | SLoad _ => None
  | SStore _ n | SLock _ n | SUnlock _ n | SAdd _ n | SSend _ n => Some n
  end.

(** The queue the cleaner, or [Stop], has decided to close. *)
Definition closing (s : state) (n : nat) : Prop :=
  match cleaner s with CAt (CWait | CClose | CDelete) _ _ _ n' => n' = n | _ => False end \/
  match stopper s with TAt _ _ n' => n' = n | _ => False end.

(** No submission has a queue in hand that is closed or about to be. *)
Definition calm (s : state) : Prop :=
  forall i u n q, subs s !! i = Some u -> held u = Some n -> store s !! n = Some q ->
    ~ closing s n /\ closed q = false.

(** The steps that lead to calm states. *)
Definition calm_step (s s' : state) : Prop := step s s' /\ calm s'.

(** The tasks of one queue come from one dispatcher. *)
Definition partitioned (s : state) : Prop :=
  forall i j t u, (i, t) ∈ calls s -> (j, u) ∈ calls s -> key s t = key s u -> i = j.

(** The tasks of a key: those that wait in its channel, and the one that is
    being submitted. *)
Definition of_key (s : state) (k : string) (l : list task) : list task :=
  filter (fun t => key s t = k) l.
Definition waiting (s : state) (k : string) : list task :=
  match queues (pool s) !! k ≫= (fun n => store s !! n) with Some q => taskChan q | None => [] end.
Definition pending (s : state) (k : string) (l : list task) : Prop :=
  match l with
  | [] => forall i u, subs s !! i = Some u -> key s (sub_task u) <> k
  | [t] => exists i u, subs s !! i = Some u /\ sub_task u = t /\ key s t = k
  | _ => False
  end.

#[local] Arguments of_key : simpl never.
#[local] Arguments load : simpl never.

(** What holds of a submission, of the cleaner and of the caller of [Stop]
    by where they are. *)
Definition sub_ok (s : state) (u : submission) : Prop :=
  match u with
  | SLoad _ => True
  | SStore t n => queues (pool s) !! key s t = None /\ is_Some (store s !! n) /\
      forall k, queues (pool s) !! k <> Some n
  | SLock t n | SUnlock t n | SAdd t n => queues (pool s) !! key s t = Some n
  | SSend t n => queues (pool s) !! key s t = Some n /\
      forall q, store s !! n = Some q -> (S (load q) <= wg q)%nat
  end.
Definition cleaner_ok (s : state) (c : cleaner_state) : Prop :=
  match c with
  | CAt CUnlock _ _ _ _ => True
  | CAt ph _ _ k n => queues (pool s) !! k = Some n /\
      match ph with
      | CClose | CDelete => forall q, store s !! n = Some q -> load q = 0%nat
      | _ => True
      end
  | _ => True
  end.
Definition stopper_ok (s : state) (c : stop_state) : Prop :=
  match c with
  | TAt true _ n => forall q, store s !! n = Some q -> load q = 0%nat
  | _ => True
  end.
Definition queue_ok (s : state) (n : nat) (q : WorkerQueue) : Prop :=
  (load q <= wg q)%nat /\ (closed q = true -> load q = 0%nat) /\
  forall t, t ∈ tasks q -> queues (pool s) !! key s t = Some n.

Record inv (s : state) : Prop := {
  i_map k n : queues (pool s) !! k = Some n -> is_Some (store s !! n);
  i_inj k1 k2 n : queues (pool s) !! k1 = Some n -> queues (pool s) !! k2 = Some n -> k1 = k2;
  i_queue n q : store s !! n = Some q -> queue_ok s n q;
  i_sub i u : subs s !! i = Some u -> (i, sub_task u) ∈ calls s /\ sub_ok s u;
  i_new i j t u n : subs s !! i = Some (SStore t n) -> subs s !! j = Some (SStore u n) -> i = j;
  i_cleaner : cleaner_ok s (cleaner s);
  i_stopper : stopper_ok s (stopper s);
  i_order k : exists l, of_key s k (calls s).*2 = of_key s k (started s) ++ waiting s k ++ l /\
    pending s k l;
  i_crash : crashed s <> Some SendOnClosed
}.

Lemma inv_Start m : queues m = ∅ -> inv (Start m).
Proof.
  intros Hm. split; cbn; try (intros; rewrite ?Hm in *; simplify_map_eq; done).
  - by destruct (_ && _).
  - intros k. exists []. unfold waiting. cbn. by rewrite Hm, lookup_empty.
Qed.

Lemma lookup_put (l : list WorkerQueue) n q q' m x :
  l !! n = Some q -> <[n := q']> l !! m = Some x -> (m = n /\ x = q') \/ (m <> n /\ l !! m = Some x).
Proof.
  intros Hn H. destruct (decide (m = n)) as [->|Hne]; [left|right].
  - rewrite list_lookup_insert_eq in H by (by eapply lookup_lt_Some). by simplify_eq.
  - by rewrite list_lookup_insert_ne in H by done.
Qed.

Lemma is_Some_put (l : list WorkerQueue) n q' m :
  is_Some (l !! m) -> is_Some (<[n := q']> l !! m).
Proof. rewrite !lookup_lt_is_Some, length_insert. done. Qed.

(** Waiting tasks when the channel of a queue changes, or does not. *)
Lemma waiting_put s n q q' k :
  store s !! n = Some q -> taskChan q' = taskChan q -> waiting (set_queue n q' s) k = waiting s k.
Proof.
  intros Hn Hc. unfold waiting. cbn. destruct (queues (pool s) !! k) as [m|]; [cbn|done].
  destruct (decide (m = n)) as [->|Hne].
  - rewrite list_lookup_insert_eq by (by eapply lookup_lt_Some). by rewrite Hn.
  - by rewrite list_lookup_insert_ne.
Qed.

(** A queue may change its lock, its time, and the progress of its worker; it
    may be closed when it has no tasks. *)
Lemma inv_queue s n q q' :
  inv s -> store s !! n = Some q -> taskChan q' = taskChan q ->
  (current q' = current q \/ current q' = []) -> (closed q' = closed q \/ load q = 0%nat) ->
  (load q' + wg q <= load q + wg q')%nat -> inv (set_queue n q' s).
Proof.
  intros [H1 H2 H3 H4 H5 H6 H7 H8 H9] Hn Hc Hcur Hcl Hw.
  assert (forall t, t ∈ tasks q' -> t ∈ tasks q) as Ht.
  { intros t. unfold tasks. rewrite Hc, !elem_of_app. destruct Hcur as [->| ->]; set_solver. }
  assert (load q' <= load q)%nat as Hl.
  { unfold load, tasks. rewrite Hc, !length_app. destruct Hcur as [->| ->]; cbn; lia. }
  assert (forall m x, <[n := q']> (store s) !! m = Some x ->
    exists y, store s !! m = Some y /\ (load x <= load y)%nat) as Hle.
  { intros m x Hx. destruct (lookup_put _ _ _ _ _ _ Hn Hx) as [[-> ->]|[_ ?]]; eauto. }
  split; cbn; [|done| | |done| | | |done].
  - intros k m Hk. by eapply is_Some_put, H1.
  - intros m x Hx. destruct (lookup_put _ _ _ _ _ _ Hn Hx) as [[-> ->]|[_ Hm]]; [|by apply H3].
    destruct (H3 _ _ Hn) as (Q1 & Q2 & Q3). split_and!; [lia| |by intros t Htt; apply (Q3 t), Ht].
    intros Hq'. assert (load q = 0%nat) by (destruct Hcl as [Hcl|]; [rewrite Hcl in *; auto|done]). lia.
  - intros i u Hu. destruct (H4 i u Hu) as [Hi Hok]. split; [done|]. destruct u as [| | | | |t m]; try done.
    + cbn in *. destruct Hok as (? & ? & ?). split_and!; [done|by apply is_Some_put|done].
    + destruct Hok as [Hk Hs]. split; [done|]. cbn. intros x Hx.
      destruct (lookup_put _ _ _ _ _ _ Hn Hx) as [[-> ->]|[_ Hm]]; [|auto]. specialize (Hs _ Hn). lia.
  - destruct (cleaner s) as [| | |[]|]; cbn in *; try done; destruct H6 as [? H6]; (split; [done|]);
      intros x Hx; destruct (Hle _ _ Hx) as (y & Hy & ?); specialize (H6 y Hy); lia.
  - destruct (stopper s) as [| |[]|]; cbn in *; try done.
    intros x Hx. destruct (Hle _ _ Hx) as (y & Hy & ?). specialize (H7 y Hy). lia.
  - intros k. destruct (H8 k) as (l & Hl1 & Hl2). exists l. split; [|done].
    by rewrite (waiting_put s n q) by done.
Qed.

Lemma pending_set_sub s i u u' k l :
  subs s !! i = Some u -> sub_task u' = sub_task u -> pending s k l -> pending (set_sub i u' s) k l.
Proof.
  intros Hu Ht Hl. destruct l as [|t [|]]; cbn in *; [| |done].
  - intros j v. rewrite lookup_insert_Some. intros [[<- <-]|[_ Hv]]; [|by eapply Hl].
    change (key s (sub_task u') <> k). rewrite Ht. by apply (Hl i).
  - destruct Hl as (j & v & Hj & <- & Hk). destruct (decide (j = i)) as [->|Hne].
    + exists i, u'. rewrite lookup_insert_eq, Hu in *. simplify_eq. by rewrite Ht.
    + exists j, v. by rewrite lookup_insert_ne.
Qed.

(** The program counters: a submission goes on with its task, the cleaner
    and the caller of [Stop] go on. *)
Lemma inv_set_sub s i u u' :
  inv s -> subs s !! i = Some u -> sub_task u' = sub_task u -> sub_ok s u' ->
  (forall t n, u' <> SStore t n) -> inv (set_sub i u' s).
Proof.
  intros [H1 H2 H3 H4 H5 H6 H7 H8 H9] Hu Ht Hok Hns. split; cbn; [done..| | |done|done| |done].
  - intros j v. rewrite lookup_insert_Some. intros [[<- <-]|[_ Hv]]; [|by apply H4].
    split; [|done]. rewrite Ht. by apply (H4 i u).
  - intros j1 j2 t v n. rewrite !lookup_insert_Some. naive_solver.
  - intros k. destruct (H8 k) as (l & Hl1 & Hl2). exists l. split; [done|].
    by apply (pending_set_sub s i u).
Qed.

Lemma inv_set_cleaner s c : inv s -> cleaner_ok s c -> inv (set_cleaner c s).
Proof. intros [] Hc. by split. Qed.

Lemma inv_set_stopper s c : inv s -> stopper_ok s c -> inv (set_stopper c s).
Proof. intros [] Hc. by split. Qed.

Lemma inv_crash s p : inv s -> p <> SendOnClosed -> inv (crash p s).
Proof. intros [] Hp. split; try done. cbn. congruence. Qed.

Lemma of_key_snoc s k l t :
  of_key s k (l ++ [t]) = of_key s k l ++ (if decide (key s t = k) then [t] else []).
Proof. unfold of_key. by rewrite filter_app. Qed.

(** One dispatcher submits for a key. *)
Lemma one_submission s i j u v :
  inv s -> partitioned s -> subs s !! i = Some u -> subs s !! j = Some v ->
  key s (sub_task u) = key s (sub_task v) -> i = j /\ u = v.
Proof.
  intros Hi Hp Hu Hv Hk. assert (i = j) as ->; [|by rewrite Hu in Hv; simplify_eq].
  eapply Hp; [apply (i_sub _ Hi _ _ Hu)|apply (i_sub _ Hi _ _ Hv)|done].
Qed.

Lemma inv_call s i t :
  inv s -> partitioned (log_call i t s) -> subs s !! i = None ->
  inv (set_sub i (SLoad t) (log_call i t s)).
Proof.
  intros Hi Hp Hn. pose proof Hi as [H1 H2 H3 H4 H5 H6 H7 H8 H9].
  split; cbn; [done..| | |done|done| |done].
  - intros j v. rewrite lookup_insert_Some, elem_of_app. intros [[<- <-]|[_ Hv]].
    + split; [right; by left|done].
    + destruct (H4 _ _ Hv). auto.
  - intros j1 j2 u v n. rewrite !lookup_insert_Some. naive_solver.
  - intros k. destruct (H8 k) as (l & Hl1 & Hl2). rewrite fmap_app. cbn.
    change (of_key _ k) with (of_key s k). rewrite of_key_snoc, Hl1. case_decide as Hk.
    + exists [t]. split; [|exists i, (SLoad t); cbn; by rewrite lookup_insert_eq].
      destruct l as [|t' [|]]; [by rewrite app_nil_r, app_assoc| |done].
      destruct Hl2 as (j & v & Hj & <- & Hk'). assert (j = i) as ->; [|congruence].
      eapply (Hp j i (sub_task v) t); [| |by transitivity k]; cbn; apply elem_of_app.
      * left. by apply H4.
      * right. by left.
    + exists l. split; [by rewrite app_nil_r|].
      destruct l as [|t' [|]]; cbn in *; [| |done].
      * intros j v. rewrite lookup_insert_Some. intros [[<- <-]|[_ Hv]]; [done|]. by eapply Hl2.
      * destruct Hl2 as (j & v & Hj & Ht & Hk'). exists j, v.
        rewrite lookup_insert_ne by congruence. done.
Qed.

Lemma lookup_new (l : list WorkerQueue) q m x :
  (l ++ [q]) !! m = Some x -> l !! m = Some x \/ (m = length l /\ x = q).
Proof.
  intros H. apply lookup_app_Some in H as [?|[? H]]; [auto|]. right.
  apply list_lookup_singleton_Some in H as [? <-]. split; [lia|done].
Qed.

(** A queue that is created: nothing refers to it yet. *)
Lemma inv_create s i t now :
  inv s -> subs s !! i = Some (SLoad t) -> queues (pool s) !! key s t = None ->
  inv (set_sub i (SStore t (length (store s))) (set_store (store s ++ [NewWorkerQueue now]) s)).
Proof.
  intros Hi Hu Hk. pose proof Hi as [H1 H2 H3 H4 H5 H6 H7 H8 H9].
  assert (forall m, is_Some (store s !! m) -> m <> length (store s)) as Hold.
  { intros m Hm ->. apply lookup_lt_is_Some in Hm. lia. }
  assert (forall m, is_Some (store s !! m) -> is_Some ((store s ++ [NewWorkerQueue now]) !! m)) as Hext.
  { intros m [x Hx]. exists x. by apply lookup_app_l_Some. }
  assert (forall k n x, queues (pool s) !! k = Some n ->
    (store s ++ [NewWorkerQueue now]) !! n = Some x -> store s !! n = Some x) as Hmap.
  { intros k n x Hn Hx. apply lookup_new in Hx as [?|[-> _]]; [done|]. by destruct (Hold _ (H1 _ _ Hn)). }
  split; cbn; [by eauto|done| | | | | | |done].
  - intros m x Hx. apply lookup_new in Hx as [Hx|[-> ->]]; [by apply H3|].
    unfold queue_ok, load, tasks. cbn. split_and!; [lia|done|]. intros u Hin. by apply elem_of_nil in Hin.
  - intros j v. rewrite lookup_insert_Some. intros [[<- <-]|[_ Hv]].
    + split; [by apply (H4 i (SLoad t))|]. split_and!; [done| |].
      * cbn. rewrite lookup_app_r, Nat.sub_diag by lia. by eexists.
      * intros k Hk'. by destruct (Hold _ (H1 _ _ Hk')).
    + destruct (H4 _ _ Hv) as [Hc Hok]. split; [done|]. destruct v; cbn in *; [done| |done..|].
      * destruct Hok as (? & ? & ?). auto.
      * destruct Hok as [Hq Hs]. split; [done|]. intros q Hq'. eauto.
  - intros j1 j2 u v n. rewrite !lookup_insert_Some.
    intros [[<- He1]|[Hj1 Hv1]] [[<- He2]|[Hj2 Hv2]]; simplify_eq; [done| | |by eauto].
    + destruct (H4 _ _ Hv2) as [_ (_ & Hs & _)]. by destruct (Hold _ Hs).
    + destruct (H4 _ _ Hv1) as [_ (_ & Hs & _)]. by destruct (Hold _ Hs).
  - destruct (cleaner s) as [| | |[]|]; cbn in *; try done; destruct H6 as [? H6]; (split; [done|]);
      eauto.
  - destruct (stopper s) as [| |[] vis n|]; cbn in *; try done. intros x Hx.
    apply lookup_new in Hx as [?|[-> ->]]; [auto|done].
  - intros k. destruct (H8 k) as (l & Hl1 & Hl2). exists l. split.
    + change (of_key _ k) with (of_key s k). rewrite Hl1. do 2 f_equal. unfold waiting. cbn.
      destruct (queues (pool s) !! k) as [m|] eqn:E; [cbn|done].
      destruct (H1 _ _ E) as [x Hx]. by rewrite Hx, (lookup_app_l_Some _ _ _ _ Hx).
    + by apply (pending_set_sub (set_store _ s) i (SLoad t)).
Qed.

(** A queue that is not in the map has no tasks. *)
Lemma unmapped_empty s n q :
  inv s -> store s !! n = Some q -> (forall k, queues (pool s) !! k <> Some n) -> tasks q = [].
Proof.
  intros Hi Hq Hk. destruct (tasks q) as [|t l] eqn:E; [done|].
  destruct (i_queue _ Hi _ _ Hq) as (_ & _ & Ht). destruct (Hk (key s t)).
  apply Ht. rewrite E. by left.
Qed.

Lemma no_tasks_chan q : load q = 0%nat -> taskChan q = [].
Proof. unfold load, tasks. rewrite length_app. destruct (taskChan q); [done|cbn; lia]. Qed.

Lemma inv_store s i t n :
  inv s -> partitioned s -> subs s !! i = Some (SStore t n) ->
  inv (set_sub i (SLock t n) (set_queues <[key s t := n]> s)).
Proof.
  intros Hi Hp Hu. pose proof Hi as [H1 H2 H3 H4 H5 H6 H7 H8 H9].
  destruct (H4 _ _ Hu) as [Hc (Hnone & [q Hq] & Hfresh)].
  assert (forall k m, queues (pool s) !! k = Some m -> <[key s t := n]> (queues (pool s)) !! k = Some m)
    as Hkeep by (intros k m Hk; rewrite lookup_insert_ne; congruence).
  split; cbn; [| | | | | |done| |done].
  - intros k m. rewrite lookup_insert_Some. intros [[<- <-]|[_ Hk]]; eauto.
  - intros k1 k2 m. rewrite !lookup_insert_Some. intros [[<- <-]|[_ Hk1]] [[<- He]|[_ Hk2]]; subst; eauto.
    + by destruct (Hfresh k2).
    + by destruct (Hfresh k1).
  - intros m x Hx. destruct (H3 _ _ Hx) as (Q1 & Q2 & Q3). split_and!; [done..|].
    intros t' Ht'. by apply Hkeep, Q3.
  - intros j v. rewrite lookup_insert_Some. intros [[<- <-]|[Hne Hv]].
    + split; [done|]. apply lookup_insert_eq.
    + destruct (H4 _ _ Hv) as [Hcv Hok]. split; [done|]. destruct v; cbn in *; [done| |by apply Hkeep..|].
      * destruct Hok as (N1 & N2 & N3). split_and!; [|done|].
        -- rewrite lookup_insert_ne; [done|]. intros Hk.
           by destruct (one_submission s i j _ _ Hi Hp Hu Hv Hk).
        -- intros k. rewrite lookup_insert_Some. intros [[_ <-]|[_ Hk]]; [|by eapply N3].
           by destruct Hne; eapply H5.
      * destruct Hok. split; [by apply Hkeep|done].
  - intros j1 j2 u v m. rewrite !lookup_insert_Some. naive_solver.
  - destruct (cleaner s) as [| | |[]|]; cbn in *; try done; destruct H6; (split; [by apply Hkeep|done]).
  - intros k. destruct (H8 k) as (l & Hl1 & Hl2). exists l. split.
    + change (of_key _ k) with (of_key s k). rewrite Hl1. do 2 f_equal. unfold waiting. cbn.
      destruct (decide (k = key s t)) as [->|Hne]; [|by rewrite lookup_insert_ne].
      rewrite lookup_insert_eq, Hnone. cbn. rewrite Hq. symmetry. apply no_tasks_chan.
      unfold load. by rewrite (unmapped_empty s n q).
    + by apply (pending_set_sub (set_queues _ s) i (SStore t n)).
Qed.

(** A task that is sent moves from the pending to the waiting ones. *)
Lemma send_order s i t n q k :
  inv s -> partitioned s -> subs s !! i = Some (SSend t n) -> store s !! n = Some q ->
  let s' := set_subs (delete i (subs s)) (set_queue n (send t q) s) in
  exists l, of_key s' k (calls s').*2 = of_key s' k (started s') ++ waiting s' k ++ l /\ pending s' k l.
Proof.
  intros Hi Hp Hu Hq. cbn. destruct (i_order _ Hi k) as (l & Hl1 & Hl2).
  destruct (i_sub _ Hi _ _ Hu) as [_ [Hk _]]. change (of_key _ k) with (of_key s k).
  unfold waiting in *. cbn. destruct (decide (k = key s t)) as [->|Hne].
  - rewrite Hk in *. cbn in *. rewrite Hq in Hl1. rewrite list_lookup_insert_eq by (by eapply lookup_lt_Some).
    exists []. cbn. rewrite app_nil_r. split.
    + rewrite Hl1. f_equal. destruct l as [|t' [|]]; cbn in *; [| |done].
      * by destruct (Hl2 i (SSend t n)).
      * destruct Hl2 as (j & v & Hj & <- & Hkv).
        by destruct (one_submission s i j _ _ Hi Hp Hu Hj) as [_ <-].
    + intros j v. rewrite lookup_delete_Some. intros [Hne Hv] Hkv. change (key s (sub_task v) = key s t) in Hkv.
      by destruct (one_submission s i j _ _ Hi Hp Hu Hv).
  - exists l. split.
    + rewrite Hl1. do 2 f_equal. destruct (queues (pool s) !! k) as [m|] eqn:E; [cbn|done].
      rewrite list_lookup_insert_ne; [done|]. intros <-. by destruct Hne; eapply (i_inj _ Hi).
    + destruct l as [|t' [|]]; cbn in *; [| |done].
      * intros j v. rewrite lookup_delete_Some. intros [_ Hv]. by eapply Hl2.
      * destruct Hl2 as (j & v & Hj & <- & Hkv). exists j, v. rewrite lookup_delete_ne; [done|].
        intros <-. by simplify_eq.
Qed.

Lemma inv_send s i t n q :
  inv s -> partitioned s -> subs s !! i = Some (SSend t n) -> store s !! n = Some q ->
  closed q = false -> ~ closing s n ->
  inv (set_subs (delete i (subs s)) (set_queue n (send t q) s)).
Proof.
  intros Hi Hp Hu Hq Hcl Hnc. pose proof Hi as [H1 H2 H3 H4 H5 H6 H7 H8 H9].
  destruct (H4 _ _ Hu) as [Hc [Hk Hw]]. specialize (Hw _ Hq).
  assert (load (send t q) = S (load q)) as Hload.
  { unfold load, tasks. cbn. rewrite !length_app. cbn. unfold current. cbn. lia. }
  split; cbn; [| done | | | | | | | done].
  - intros k m Hm. by eapply is_Some_put, H1.
  - intros m x Hx. destruct (lookup_put _ _ _ _ _ _ Hq Hx) as [[-> ->]|[_ Hm]]; [|by apply H3].
    destruct (H3 _ _ Hq) as (Q1 & Q2 & Q3). split_and!; [cbn; lia|cbn; congruence|].
    intros t' Ht'. assert (t' ∈ tasks q \/ t' = t) as [Hin| ->]; [|by apply Q3|done].
    unfold tasks in *. cbn in *. set_solver.
  - intros j v. rewrite lookup_delete_Some. intros [Hne Hv]. destruct (H4 _ _ Hv) as [Hcv Hok].
    split; [done|]. destruct v as [| | | | |t' n']; cbn in *; [done| |done..|].
    + destruct Hok as (? & ? & ?). split_and!; [done|by apply is_Some_put|done].
    + destruct Hok as [Hk' Hw']. split; [done|]. intros x Hx.
      destruct (lookup_put _ _ _ _ _ _ Hq Hx) as [[-> ->]|[_ Hm]]; [|auto].
      destruct (one_submission s i j _ _ Hi Hp Hu Hv); [|done]. by eapply H2.
  - intros j1 j2 u v m. rewrite !lookup_delete_Some. naive_solver.
  - unfold closing in Hnc. destruct (cleaner s) as [| | |[]|]; cbn in *; try done; destruct H6 as [? H6];
      (split; [done|]); intros x Hx; (destruct (lookup_put _ _ _ _ _ _ Hq Hx) as [[-> ->]|[_ Hm]];
      [by destruct Hnc; left|auto]).
  - unfold closing in Hnc. destruct (stopper s) as [| |[]|]; cbn in *; try done.
    intros x Hx. destruct (lookup_put _ _ _ _ _ _ Hq Hx) as [[-> ->]|[_ Hm]]; [|auto].
    by destruct Hnc; right.
  - intros k. by apply (send_order s i t n q k).
Qed.

(** A worker that receives a task moves it from the waiting to the started
    ones. *)
Lemma inv_receive s n q t rest :
  inv s -> store s !! n = Some q -> worker q = Receiving -> taskChan q = t :: rest ->
  inv (log_start t (set_queue n
    (mkQueue rest (closed q) (lastActive q) (mu q) (wg q) (Running t)) s)).
Proof.
  intros Hi Hq Hw Hc. pose proof Hi as [H1 H2 H3 H4 H5 H6 H7 H8 H9].
  set (q' := mkQueue _ _ _ _ _ _).
  destruct (H3 _ _ Hq) as (Q1 & Q2 & Q3).
  assert (load q' = load q) as Hload.
  { unfold load, tasks, current. rewrite Hw, Hc, !length_app. cbn. lia. }
  assert (forall t', t' ∈ tasks q' -> t' ∈ tasks q) as Hin.
  { intros t'. unfold tasks, current. rewrite Hw, Hc. cbn. set_solver. }
  assert (queues (pool s) !! key s t = Some n) as Hk by (apply Q3; unfold tasks; rewrite Hc; by left).
  assert (forall m x, <[n := q']> (store s) !! m = Some x ->
    exists y, store s !! m = Some y /\ load x = load y /\ wg x = wg y) as Hsame.
  { intros m x Hx. destruct (lookup_put _ _ _ _ _ _ Hq Hx) as [[-> ->]|[_ ?]]; eauto. }
  split; cbn; [|done| | |done| | | |done].
  - intros k m Hm. by eapply is_Some_put, H1.
  - intros m x Hx. destruct (lookup_put _ _ _ _ _ _ Hq Hx) as [[-> ->]|[_ Hm]]; [|by apply H3].
    split_and!; [cbn; lia|rewrite Hload; exact Q2|]. intros t' Ht'. by apply Q3, Hin.
  - intros j v Hv. destruct (H4 _ _ Hv) as [Hcv Hok]. split; [done|].
    destruct v as [| | | | |t' n']; cbn in *; [done| |done..|].
    + destruct Hok as (? & ? & ?). split_and!; [done|by apply is_Some_put|done].
    + destruct Hok as [Hk' Hw']. split; [done|]. intros x Hx.
      destruct (Hsame _ _ Hx) as (y & Hy & -> & ->). auto.
  - destruct (cleaner s) as [| | |[]|]; cbn in *; try done; destruct H6 as [? H6]; (split; [done|]);
      intros x Hx; destruct (Hsame _ _ Hx) as (y & Hy & -> & _); auto.
  - destruct (stopper s) as [| |[]|]; cbn in *; try done.
    intros x Hx. destruct (Hsame _ _ Hx) as (y & Hy & -> & _). auto.
  - intros k. destruct (H8 k) as (l & Hl1 & Hl2). exists l. split; [|done].
    change (of_key _ k) with (of_key s k). rewrite of_key_snoc, Hl1, <-app_assoc. f_equal.
    unfold waiting. cbn. case_decide as Hd.
    + rewrite <-Hd, Hk. cbn. rewrite Hq, list_lookup_insert_eq by (by eapply lookup_lt_Some). by rewrite Hc.
    + destruct (queues (pool s) !! k) as [m|] eqn:E; [cbn|done].
      rewrite list_lookup_insert_ne; [done|]. intros <-. by destruct Hd; eapply H2.
Qed.

(** The cleaner deletes a queue without tasks that no submission has. *)
Lemma inv_delete s now vis k n :
  inv s -> calm s -> cleaner s = CAt CDelete now vis k n ->
  inv (set_cleaner (CAt CUnlock now vis k n) (set_queues (delete k) s)).
Proof.
  intros Hi Hcalm Hc. pose proof Hi as [H1 H2 H3 H4 H5 H6 H7 H8 H9].
  rewrite Hc in H6. destruct H6 as [Hk Hload]. destruct (H1 _ _ Hk) as [q Hq].
  specialize (Hload _ Hq).
  assert (forall i u, subs s !! i = Some u -> held u <> Some n) as Hheld.
  { intros i u Hu Hh. destruct (Hcalm _ _ _ _ Hu Hh Hq) as [Hx _]. apply Hx. left. by rewrite Hc. }
  assert (forall k' m, m <> n -> queues (pool s) !! k' = Some m -> delete k (queues (pool s)) !! k' = Some m)
    as Hkeep by (intros k' m Hm Hk'; rewrite lookup_delete_ne; congruence).
  split; cbn; [| | | |done|done|done| |done].
  - intros k' m. rewrite lookup_delete_Some. intros [_ ?]. eauto.
  - intros k1 k2 m. rewrite !lookup_delete_Some. intros [_ ?] [_ ?]. eauto.
  - intros m x Hx. destruct (H3 _ _ Hx) as (Q1 & Q2 & Q3). split_and!; [done..|].
    intros t Ht. apply Hkeep; [|by apply Q3]. intros ->. simplify_eq.
    unfold load in Hload. destruct (tasks q); [by apply elem_of_nil in Ht|done].
  - intros j v Hv. destruct (H4 _ _ Hv) as [Hcv Hok]. split; [done|].
    specialize (Hheld _ _ Hv). destruct v; cbn in *; [done| |apply Hkeep; [congruence|done]..|].
    + destruct Hok as (N1 & N2 & N3). split_and!; [|done|].
      * rewrite lookup_delete_None. auto.
      * intros k'. rewrite lookup_delete_Some. intros [_ ?]. by eapply N3.
    + destruct Hok. split; [|done]. apply Hkeep; [congruence|done].
  - intros k'. destruct (H8 k') as (l & Hl1 & Hl2). exists l. split; [|done].
    change (of_key _ k') with (of_key s k'). rewrite Hl1. do 2 f_equal. unfold waiting. cbn.
    destruct (decide (k = k')) as [<-|Hne]; [|by rewrite lookup_delete_ne].
    rewrite Hk, lookup_delete_eq. cbn. rewrite Hq. by apply no_tasks_chan.
Qed.

Lemma load_current q q' : taskChan q' = taskChan q -> current q' = current q -> load q' = load q.
Proof. unfold load, tasks. by intros -> ->. Qed.

(** The steps of the goroutines keep the invariant. *)
Lemma Submit_inv i now s s' :
  inv s -> calm s -> partitioned s -> Submit i now s = Some s' -> inv s'.
Proof.
  intros Hi Hcalm Hp H. unfold Submit in H.
  destruct (subs s !! i) as [u|] eqn:Hu; cbn in H; [|done].
  destruct (i_sub _ Hi _ _ Hu) as [_ Hok].
  destruct u as [t|t n|t n|t n|t n|t n]; cbn in H; [| |destruct (store s !! n) as [q|] eqn:Hq; [cbn in H|done]..].
  - simplify_eq. unfold getQueue. destruct (queues (pool s) !! key s t) as [n|] eqn:Hk.
    + by apply (inv_set_sub s i (SLoad t)).
    + destruct (_ <? 0); [by apply inv_crash|]. by apply inv_create.
  - simplify_eq. by apply inv_store.
  - destruct (mu q); [done|]. simplify_eq. eapply inv_set_sub; [|exact Hu|done|exact Hok|done].
    apply (inv_queue s n q); auto.
  - simplify_eq. eapply inv_set_sub; [|exact Hu|done|exact Hok|done]. apply (inv_queue s n q); auto.
  - simplify_eq. eapply inv_set_sub; [|exact Hu|done| |done].
    + apply (inv_queue s n q); auto. rewrite (load_current q) by done. cbn. lia.
    + split; [exact Hok|]. intros x Hx. destruct (lookup_put _ _ _ _ _ _ Hq Hx) as [[_ ->]|[? _]]; [|done].
      rewrite (load_current q) by done. destruct (i_queue _ Hi _ _ Hq). cbn. lia.
  - destruct (Hcalm _ _ _ _ Hu eq_refl Hq) as [Hnc Hcl]. rewrite Hcl in H.
    destruct (can_send _ q); [|done]. simplify_eq. by apply inv_send.
Qed.

Lemma start_inv n now s s' : inv s -> start n now s = Some s' -> inv s'.
Proof.
  intros Hi H. unfold start in H. destruct (store s !! n) as [q|] eqn:Hq; cbn in H; [|done].
  destruct (worker q) as [|t|t|t|t|] eqn:Hw; [| | | | |done].
  - destruct (taskChan q) as [|t rest] eqn:Hc.
    + destruct (closed q) eqn:Hcl; [|done]. simplify_eq.
      apply (inv_queue s n q); auto. unfold load, tasks, current. cbn. rewrite Hw. cbn. lia.
    + simplify_eq. by apply inv_receive.
  - simplify_eq. assert (current (set_worker (Locking t) q) = current q) as Hc
      by (unfold current; cbn; by rewrite Hw).
    apply (inv_queue s n q); auto. by rewrite (load_current q).
  - destruct (mu q); [done|]. simplify_eq.
    assert (current (set_worker (Unlocking t) (touch now (set_mu true q))) = current q) as Hc
      by (unfold current; cbn; by rewrite Hw).
    apply (inv_queue s n q); auto. by rewrite (load_current q).
  - simplify_eq. assert (current (set_worker (Signalling t) (set_mu false q)) = current q) as Hc
      by (unfold current; cbn; by rewrite Hw).
    apply (inv_queue s n q); auto. by rewrite (load_current q).
  - destruct (wg q) as [|k] eqn:Hg; simplify_eq; [by apply inv_crash|].
    apply (inv_queue s n q); auto. unfold load, tasks, current. rewrite Hw, !length_app. cbn. lia.
Qed.

Lemma clean_inv s s' : inv s -> calm s -> clean_queue s = Some s' -> inv s'.
Proof.
  intros Hi Hcalm H. unfold clean_queue in H. destruct (cleaner s) as [| | |ph now vis k n|] eqn:Hc; try done.
  destruct (store s !! n) as [q|] eqn:Hq; cbn in H; [|done].
  pose proof (i_cleaner _ Hi) as Hok. rewrite Hc in Hok.
  destruct ph; cbn in H, Hok.
  - destruct (mu q); [done|]. simplify_eq. apply inv_set_cleaner; [|exact Hok].
    apply (inv_queue s n q); auto.
  - simplify_eq. apply inv_set_cleaner; [done|]. by destruct (_ <? _).
  - case_bool_decide as Hg; [|done]. simplify_eq. apply inv_set_cleaner; [done|]. split; [apply Hok|].
    intros x Hx. simplify_eq. destruct (i_queue _ Hi _ _ Hq). lia.
  - destruct (closed q); simplify_eq; [by apply inv_crash|]. destruct Hok as [Hk Hl].
    apply inv_set_cleaner; [apply (inv_queue s n q); auto|]. split; [done|].
    intros x Hx. cbn in Hx. destruct (lookup_put _ _ _ _ _ _ Hq Hx) as [[_ ->]|[? _]]; [|done].
    rewrite (load_current q) by done. auto.
  - simplify_eq. by apply inv_delete.
  - simplify_eq. apply inv_set_cleaner; [|done]. apply (inv_queue s n q); auto.
Qed.

Lemma stop_inv s s' : inv s -> stop_queue s = Some s' -> inv s'.
Proof.
  intros Hi H. unfold stop_queue in H. destruct (stopper s) as [| |waited vis n|] eqn:Hc; try done.
  destruct (store s !! n) as [q|] eqn:Hq; cbn in H; [|done].
  pose proof (i_stopper _ Hi) as Hok. rewrite Hc in Hok. destruct waited; cbn in Hok.
  - destruct (closed q); simplify_eq; [by apply inv_crash|].
    apply inv_set_stopper; [|done]. apply (inv_queue s n q); auto.
  - case_bool_decide as Hg; [|done]. simplify_eq. apply inv_set_stopper; [done|].
    intros x Hx. simplify_eq. destruct (i_queue _ Hi _ _ Hq). lia.
Qed.

Lemma Stop_inv s s' : inv s -> Stop s = Some s' -> inv s'.
Proof.
  intros Hi H. unfold Stop in H.
  assert (quit (pool s) = true \/ quit (pool s) = false) as [E|E] by (by destruct (quit _); auto);
    rewrite E in H; destruct (stopper s); simplify_eq; try (by apply inv_crash);
    (apply inv_set_stopper; [destruct Hi; by split|done]).
Qed.

(** The cases in which an operation is possible. *)
Ltac exec_inv := repeat match goal with
  | H : _ ≫= _ = Some _ |- _ => apply bind_Some in H as (? & ? & ?)
  | H : match ?x with _ => _ end = Some _ |- _ => destruct x eqn:?
  | H : Some _ = Some _ |- _ => injection H as H; subst
  | H : None = Some _ |- _ => discriminate H
  end.

(** The calls of [Submit] are recorded, and the number of queues is fixed. *)
Lemma exec_calls e s s' :
  exec e s = Some s' -> calls s `prefix_of` calls s' /\ queueNum (pool s') = queueNum (pool s).
Proof.
  unfold exec, Submit, getQueue, start, clean_visit, clean_queue, Stop, stop_visit, stop_queue, visit.
  intros H. exec_inv; repeat case_match; cbn; try done. split; [by eexists|done].
Qed.

Lemma partitioned_back e s s' : exec e s = Some s' -> partitioned s' -> partitioned s.
Proof.
  intros H Hp i j t u Hi Hj Hk. apply exec_calls in H as [[l Hl] Hn].
  apply (Hp i j t u); [rewrite Hl, elem_of_app; by left..|]. unfold key in *. by rewrite Hn.
Qed.

Lemma inv_step e s s' :
  inv s -> calm s -> partitioned s' -> exec e s = Some s' -> inv s'.
Proof.
  intros Hi Hcalm Hp' H. pose proof (partitioned_back e s s' H Hp') as Hp.
  unfold exec in H. destruct (crashed s); [done|].
  destruct e as [i t|i now|n now|now|k| | | | |k| |].
  - destruct (subs s !! i) eqn:Hu; [done|]. simplify_eq. by apply inv_call.
  - by apply (Submit_inv i now s).
  - by eapply start_inv.
  - destruct (cleaner s); try done. simplify_eq. by apply inv_set_cleaner.
  - unfold clean_visit, visit in H. destruct (cleaner s); try done. case_bool_decide; [done|].
    destruct (queues (pool s) !! k) eqn:E; [|done]. cbn in H. simplify_eq. by apply inv_set_cleaner.
  - by eapply clean_inv.
  - destruct (cleaner s); try done. simplify_eq. by apply inv_set_cleaner.
  - destruct (cleaner s); try done. destruct (quit (pool s)); [|done]. simplify_eq. by apply inv_set_cleaner.
  - by apply (Stop_inv s).
  - unfold stop_visit, visit in H. destruct (stopper s); try done. case_bool_decide; [done|].
    destruct (queues (pool s) !! k) eqn:E; [|done]. cbn in H. simplify_eq. by apply inv_set_stopper.
  - by eapply stop_inv.
  - destruct (stopper s); try done. simplify_eq. by apply inv_set_stopper.
Qed.

Lemma calm_Start m : calm (Start m).
Proof. intros i u n q Hi. cbn in Hi. by rewrite lookup_empty in Hi. Qed.

Lemma steps_partitioned s s' : rtc calm_step s s' -> partitioned s' -> partitioned s.
Proof.
  induction 1 as [|x y z [[e He] _] _ IH]; [done|]. intros Hp. eapply partitioned_back; eauto.
Qed.

Lemma inv_reachable s s' :
  inv s -> calm s -> rtc calm_step s s' -> partitioned s' -> inv s'.
Proof.
  intros Hi Hc Hr Hp. induction Hr as [|x y z [[e He] Hy] Hr IH]; [done|]. apply IH; [|done|done].
  eapply inv_step; [done|done| |done]. by eapply steps_partitioned.
Qed.

Lemma started_in_order (n size interval pass : Z) (s : state) (id : string) :
  rtc calm_step (Start (NewWorkerPool n size interval pass)) s -> partitioned s ->
  filter (fun t => share t = id) (started s) `prefix_of` filter (fun t => share t = id) (calls s).*2 /\
  (forall n1 n2 q1 q2 t1 t2,
    store s !! n1 = Some q1 -> store s !! n2 = Some q2 ->
    worker q1 = Running t1 -> worker q2 = Running t2 ->
    share t1 = id -> share t2 = id -> n1 = n2) /\
  crashed s <> Some SendOnClosed.
Proof.
  intros Hr Hp.
  pose proof (inv_reachable _ _ (inv_Start (NewWorkerPool n size interval pass) eq_refl) (calm_Start _) Hr Hp) as Hi.
  split_and!; [| |by apply i_crash].
  - assert (forall l, filter (fun t => share t = id) l = filter (fun t => share t = id)
      (of_key s (getQueue_key (queueNum (pool s)) id) l)) as Hf.
    { intros l. unfold of_key, key. rewrite list_filter_filter. apply list_filter_iff. naive_solver. }
    destruct (i_order _ Hi (getQueue_key (queueNum (pool s)) id)) as (l & Hl & _).
    rewrite (Hf (started s)), (Hf (calls s).*2), Hl, filter_app. by apply prefix_app_r.
  - intros n1 n2 q1 q2 t1 t2 Hq1 Hq2 Hw1 Hw2 Hs1 Hs2.
    assert (queues (pool s) !! key s t1 = Some n1 /\ queues (pool s) !! key s t2 = Some n2) as [E1 E2].
    { split; (eapply (i_queue _ Hi); [done|]); unfold tasks, current; [rewrite Hw1|rewrite Hw2];
        apply elem_of_app; right; by left. }
    unfold key in *. rewrite Hs1 in E1. rewrite Hs2 in E2. congruence.
Qed.

(** C14: the tasks of a share id are run in the order in which [Submit] was
    called for them and never two at a time, whatever the interleaving of
    dispatchers, workers, cleaner and [Stop], as long as the tasks of a
    queue come from one dispatcher and no queue is closed while a call of
    [Submit] has it in hand; and nothing is sent on a closed channel then. *)
Theorem tasks_in_order (n size interval pass : Z) (s : state) (id : string) :
  rtc calm_step (Start (NewWorkerPool n size interval pass)) s -> partitioned s ->
  filter (fun t => share t = id) (started s) `prefix_of` filter (fun t => share t = id) (calls s).*2 /\
  (forall n1 n2 q1 q2 t1 t2,
    store s !! n1 = Some q1 -> store s !! n2 = Some q2 ->
    worker q1 = Running t1 -> worker q2 = Running t2 ->
    share t1 = id -> share t2 = id -> n1 = n2) /\
  crashed s <> Some SendOnClosed.
Proof. apply started_in_order. Qed.

(** ** The cleaner can block a queue for ever *)

(** The cleaner waits, with the lock, for a queue that has unfinished tasks
    and whose worker has not passed the lock. *)
Definition stuck (n : nat) (s : state) : Prop :=
  (exists now vis k, cleaner s = CAt CWait now vis k n) /\
  (exists q, store s !! n = Some q /\ mu q = true /\ (0 < wg q)%nat /\
     forall t, worker q <> Unlocking t /\ worker q <> Signalling t) /\
  forall i t, subs s !! i <> Some (SUnlock t n).

Lemma stuck_put n m q q' s :
  stuck n s -> store s !! m = Some q ->
  (m = n -> mu q' = mu q /\ (wg q <= wg q')%nat /\
     forall t, worker q' <> Unlocking t /\ worker q' <> Signalling t) ->
  stuck n (set_queue m q' s).
Proof.
  intros (H1 & (x & Hx & Hmu & Hw & Hst) & H3) Hq H. split_and!; [done| |done]. cbn.
  destruct (decide (m = n)) as [->|Hne].
  - simplify_eq. destruct (H eq_refl) as (E & ? & ?). exists q'. rewrite list_lookup_insert_eq
      by (by eapply lookup_lt_Some). split_and!; [done|congruence|lia|done].
  - exists x. by rewrite list_lookup_insert_ne.
Qed.

Lemma stuck_sub n i u s :
  stuck n s -> (forall t, u <> SUnlock t n) -> stuck n (set_sub i u s).
Proof.
  intros (H1 & H2 & H3) Hu. split_and!; [done|done|]. intros j t. cbn.
  rewrite lookup_insert_Some. intros [[_ ?]|[_ ?]]; [by eapply Hu|by eapply H3].
Qed.

(** The operations of dispatchers and workers leave the cleaner waiting. *)
Lemma stuck_Submit n i now s s' :
  stuck n s -> Submit i now s = Some s' ->
  stuck n s' /\ forall j t, subs s !! j = Some (SLock t n) -> subs s' !! j = Some (SLock t n).
Proof.
  intros Hs H. unfold Submit in H. destruct (subs s !! i) as [u|] eqn:Hu; cbn in H; [|done].
  pose proof Hs as (H1 & (q & Hq & Hmu & Hw & Hst) & H3).
  assert (forall v j t, (forall t, u <> SLock t n) -> subs s !! j = Some (SLock t n) ->
    <[i := v]> (subs s) !! j = Some (SLock t n)) as Hother.
  { intros v j t Hne Hj. rewrite lookup_insert_ne; [done|]. intros <-. rewrite Hu in Hj. simplify_eq.
    by eapply Hne. }
  destruct u as [t|t m|t m|t m|t m|t m]; cbn in H;
    [| |destruct (store s !! m) as [x|] eqn:Hx; [cbn in H|done]..].
  - simplify_eq. unfold getQueue. repeat case_match; cbn.
    + split; [by apply stuck_sub|]. intros j t' Hj. by apply Hother.
    + done.
    + split; [|intros j t' Hj; by apply Hother]. apply stuck_sub; [|done].
      split_and!; [done| |done]. exists q. cbn. by rewrite (lookup_app_l_Some _ _ _ _ Hq).
  - simplify_eq. split; [by apply stuck_sub|]. intros j t' Hj. by apply Hother.
  - destruct (mu x) eqn:Hm; [done|]. simplify_eq. assert (m <> n) by congruence. split.
    + apply stuck_sub; [|congruence]. by apply (stuck_put n m x).
    + intros j t' Hj. apply Hother; [congruence|done].
  - simplify_eq. assert (m <> n) by (intros ->; by eapply H3). split.
    + apply stuck_sub; [|done]. by apply (stuck_put n m x).
    + intros j t' Hj. by apply Hother.
  - simplify_eq. split; [|intros j t' Hj; by apply Hother]. apply stuck_sub; [|done].
    apply (stuck_put n m x); [done..|]. intros ->. simplify_eq. cbn. split_and!; [done|lia|done].
  - repeat case_match; simplify_eq; [done|]. split.
    + split_and!; [done| |].
      * apply (stuck_put n m x); [done..|]. intros ->. by simplify_eq.
      * intros j t'. cbn. rewrite lookup_delete_Some. intros [_ ?]. by eapply H3.
    + intros j t' Hj. cbn. rewrite lookup_delete_ne; [done|]. intros <-. congruence.
Qed.

Lemma stuck_start n m now s s' :
  stuck n s -> start m now s = Some s' -> stuck n s' /\ subs s' = subs s.
Proof.
  intros Hs H. unfold start in H. pose proof Hs as (H1 & (q & Hq & Hmu & Hw & Hst) & H3).
  destruct (store s !! m) as [x|] eqn:Hx; cbn in H; [|done].
  destruct (worker x) as [|t|t|t|t|] eqn:Hwk; [| | | | |done].
  - destruct (taskChan x); [destruct (closed x); [|done]|]; simplify_eq; (split; [|done]);
      apply (stuck_put n m x); try done; intros _; by split_and!.
  - simplify_eq. split; [|done]. apply (stuck_put n m x); [done..|]. intros _. by split_and!.
  - destruct (mu x) eqn:Hm; [done|]. simplify_eq. split; [|done]. apply (stuck_put n m x); [done..|].
    intros ->. congruence.
  - simplify_eq. split; [|done]. apply (stuck_put n m x); [done..|]. intros ->. simplify_eq.
    by destruct (Hst t).
  - destruct (wg x); simplify_eq; (split; [|done]); [done|]. apply (stuck_put n m x); [done..|].
    intros ->. simplify_eq. by destruct (Hst t).
Qed.

Lemma stuck_step n s s' :
  step s s' -> stuck n s ->
  stuck n s' /\ forall j t, subs s !! j = Some (SLock t n) -> subs s' !! j = Some (SLock t n).
Proof.
  intros [e H] Hs. pose proof Hs as ((now & vis & k & Hc) & (q & Hq & Hmu & Hw & Hst) & H3).
  unfold exec in H. destruct (crashed s); [done|].
  destruct e as [i t|i now'|m now'|now'|k'| | | | |k'| |].
  - destruct (subs s !! i) eqn:Hi; [done|]. simplify_eq. split; [by apply stuck_sub|].
    intros j t' Hj. cbn. rewrite lookup_insert_ne; [done|]. congruence.
  - by apply (stuck_Submit n i now').
  - destruct (stuck_start n m now' s s' Hs H) as [? ->]. done.
  - by rewrite Hc in H.
  - unfold clean_visit in H. by rewrite Hc in H.
  - unfold clean_queue in H. rewrite Hc, Hq in H. cbn in H. rewrite bool_decide_false in H by lia. done.
  - by rewrite Hc in H.
  - by rewrite Hc in H.
  - unfold Stop in H. exec_inv; done.
  - unfold stop_visit in H. exec_inv. done.
  - unfold stop_queue in H. exec_inv; [done| |done]. split; [|done].
    eapply (stuck_put n); [done..|]. intros ->. simplify_eq. done.
  - exec_inv. done.
Qed.

(** C38: cleaning a queue whose task is still running blocks it for ever: the
    cleaner waits for the task with the queue's lock, and the worker needs
    this lock to finish the task. From then on the cleaner never goes on,
    the tasks of the queue are never finished, and a dispatcher that submits
    to the queue never returns. *)
Theorem cleanup_deadlock (n : nat) (s s' : state) :
  stuck n s -> rtc step s s' ->
  stuck n s' /\ forall i t, subs s !! i = Some (SLock t n) -> subs s' !! i = Some (SLock t n).
Proof.
  intros Hst Hr. induction Hr as [|x y z Hs Hr IH]; [done|].
  destruct (stuck_step n x y Hs Hst) as [Hy Hb]. destruct (IH Hy) as [Hz Hb']. split; [done|]. auto.
Qed.

(** ** Races of the code as written *)

(** The pool of the default configuration: 128 queues of 256 tasks, looked at
    every 30 seconds and released after 300. *)
Definition default_pool : WorkerPool := NewWorkerPool 128 256 30000000000 300000000000.

Definition t1 := mkTask "u1" 1.
Definition t2 := mkTask "u1" 2.

(** The operations of one call of [Submit], with or without a new queue. *)
Definition submit_new (i : nat) (now : Z) : list event := replicate 6 (Dispatch i now).
Definition submit_old (i : nat) (now : Z) : list event := replicate 5 (Dispatch i now).

(** Two dispatchers that submit for a new share id at the same time can
    each find no queue and store their own; its two tasks then run at the
    same time in two workers. *)
Theorem race_breaks_exclusion :
  exists es s n1 n2 q1 q2, run es (Start default_pool) = Some s /\
    store s !! n1 = Some q1 /\ store s !! n2 = Some q2 /\ n1 <> n2 /\
    worker q1 = Running t1 /\ worker q2 = Running t2 /\ share t1 = share t2.
Proof.
  exists ([Call 1 t1; Call 2 t2; Dispatch 1 0; Dispatch 2 0]
    ++ replicate 5 (Dispatch 1 0) ++ replicate 5 (Dispatch 2 0) ++ [Work 0 0; Work 1 0]).
  eexists _, 0%nat, 1%nat, _, _. split_and!; [vm_compute; reflexivity|reflexivity..|done|reflexivity|reflexivity|done].
Qed.

(** One dispatcher and the cleaner suffice to stop the process: a queue
    that was not used for the time of the configuration is closed between
    the load of [getQueue] and the send of [Submit], which panics outside
    any recovery. *)
Theorem submit_races_with_cleaner :
  exists es s, run es (Start default_pool) = Some s /\
    Forall (fun e => match e with Call i _ | Dispatch i _ => i = 0%nat | StopCall => False | _ => True end) es /\
    crashed s = Some SendOnClosed.
Proof.
  set (idle := 300000000001).
  exists (Call 0 t1 :: submit_new 0 0 ++ replicate 5 (Work 0 0) ++
    [Call 0 t2; Dispatch 0 idle; Tick idle; CleanVisit (getQueue_key 128 "u1")] ++
    replicate 6 CleanQueue ++ replicate 4 (Dispatch 0 idle)).
  eexists. split_and!; [vm_compute; reflexivity|by repeat constructor|reflexivity].
Qed.

(** ** Witnesses *)

(** The pool after one dispatcher has submitted two tasks, the first of which
    runs. *)
Definition busy_events : list event :=
  Call 0 t1 :: submit_new 0 0 ++ Work 0 0 :: Call 0 t2 :: submit_old 0 0.
Definition busy : state :=
  match run busy_events (Start default_pool) with Some s => s | None => Start default_pool end.

(** Runs in which every state is calm, decided for queues that are not
    closed while neither cleaner nor [Stop] is at a queue. *)
Definition quiet (s : state) : bool :=
  match cleaner s, stopper s with
  | CAt _ _ _ _ _, _ | _, TAt _ _ _ => false
  | _, _ => forallb (fun q => negb (closed q)) (store s)
  end.
Lemma quiet_calm s : quiet s = true -> calm s.
Proof.
  unfold quiet. intros Hq i u n q _ _ Hn.
  assert (forallb (fun q => negb (closed q)) (store s) = true /\ ~ closing s n) as [Hf Hc].
  { unfold closing. destruct (cleaner s), (stopper s); try done; (split; [done|]); intros []; done. }
  split; [done|]. rewrite forallb_forall in Hf. specialize (Hf q).
  apply negb_true_iff, Hf, list_elem_of_In, list_elem_of_lookup. eauto.
Qed.
Fixpoint quiet_run (es : list event) (s : state) : option state :=
  match es with
  | [] => Some s
  | e :: es => s ← exec e s; if quiet s then quiet_run es s else None
  end.
Lemma quiet_run_steps es s s' : quiet_run es s = Some s' -> rtc calm_step s s'.
Proof.
  revert s. induction es as [|e es IH]; cbn; intros s H; [by simplify_eq|]. exec_inv.
  eapply rtc_l; [split; [by exists e|by apply quiet_calm]|]. by apply IH.
Qed.

Lemma tasks_in_order_witness :
  started busy = [t1] /\ (calls busy).*2 = [t1; t2] /\
  filter (fun t => share t = "u1") (started busy) `prefix_of`
    filter (fun t => share t = "u1") (calls busy).*2.
Proof.
  split_and!; [reflexivity..|].
  apply (tasks_in_order 128 256 30000000000 300000000000 busy "u1").
  - apply (quiet_run_steps busy_events). vm_compute. reflexivity.
  - intros i j t u Hi Hj _. change (calls busy) with [(0%nat, t1); (0%nat, t2)] in *. set_solver.
Defined.

Lemma queue_key_bounded_witness : exists i, 0 <= i < 5 /\ getQueue_key 5 "u1" = GoStd.FormatInt i.
Proof. apply queue_key_bounded. lia. Defined.

(** The cleaner comes to the pool while the first task still runs, and a
    third submission waits for the lock. *)
Definition cleaned : state :=
  match run [Tick 300000000001; CleanVisit (getQueue_key 128 "u1"); CleanQueue; CleanQueue;
             Call 0 t2; Dispatch 0 300000000001] busy with Some s => s | None => busy end.
Lemma cleanup_deadlock_witness :
  rtc step (Start default_pool) cleaned /\
  forall s, rtc step cleaned s -> stuck 0 s /\ subs s !! 0%nat = Some (SLock t2 0).
Proof.
  split.
  - apply (run_steps (busy_events ++ [Tick 300000000001; CleanVisit (getQueue_key 128 "u1"); CleanQueue;
      CleanQueue; Call 0 t2; Dispatch 0 300000000001])). vm_compute. reflexivity.
  - intros s Hr. destruct (cleanup_deadlock 0 cleaned s) as [Hst Hb]; [|done|].
    + split_and!.
      * do 3 eexists. vm_compute. reflexivity.
      * eexists. split; [vm_compute; reflexivity|]. cbn. split_and!; [done|lia|done].
      * intros i t. change (subs cleaned) with (<[0%nat := SLock t2 0]> ∅ : gmap nat submission).
        rewrite lookup_insert_Some. intros [[_ ?]|[_ Hi]]; [done|]. by rewrite lookup_empty in Hi.
    + split; [done|]. apply Hb. vm_compute. reflexivity.
Defined.

End WorkerPool.
