(* ===== verification/PoolProgress.v ===== *)
(** * The worker pool runs what it is given ([cluster/worker_pool.go])

    Before [Stop], and as long as the cleaner finds no queue that has been
    idle for too long, every task that is submitted is run, whatever the
    interleaving: the operations of dispatchers, workers and cleaner are
    bounded in number, and some goroutine can make one until all tasks are
    done. *)

From S2P Require Import Prelude GoStd WorkerPool.
Import WorkerPool.

Module PoolProgress.

Local Open Scope nat_scope.

(** ** Counting *)

Definition is_send (n : nat) (u : submission) : nat :=
  match u with SSend _ m => if decide (m = n) then 1 else 0 | _ => 0 end.
(** Who holds the lock of queue [n]: a submission, its worker, the cleaner. *)
Definition is_unlock (n : nat) (u : submission) : nat :=
  match u with SUnlock _ m => if decide (m = n) then 1 else 0 | _ => 0 end.
Definition unlocks (g : stage) : nat := match g with Unlocking _ => 1 | _ => 0 end.
Definition cleans (n : nat) (c : cleaner_state) : nat :=
  match c with CAt (CTest | CUnlock) _ _ _ m => if decide (m = n) then 1 else 0 | _ => 0 end.

Definition total {A} (f : A -> nat) (m : gmap nat A) : nat := map_fold (fun _ u k => f u + k) 0 m.
Definition sending (n : nat) : gmap nat submission -> nat := total (is_send n).
Definition unlocking (n : nat) : gmap nat submission -> nat := total (is_unlock n).

Section Total.
Context {A : Type} (f : A -> nat).
Implicit Types m : gmap nat A.

Lemma total_fresh i u m : m !! i = None -> total f (<[i := u]> m) = f u + total f m.
Proof. intros H. unfold total. rewrite map_fold_insert_L; [done|intros; lia|done]. Qed.

Lemma total_delete i u m : m !! i = Some u -> total f m = f u + total f (delete i m).
Proof. intros H. rewrite <-(insert_delete_id m i u) at 1 by done. apply total_fresh, lookup_delete_eq. Qed.

Lemma total_insert i u u' m : m !! i = Some u ->
  total f (<[i := u']> m) + f u = total f m + f u'.
Proof.
  intros H. rewrite (total_delete i u m H), <-insert_delete_eq, total_fresh by apply lookup_delete_eq. lia.
Qed.

Lemma total_zero m : (forall i u, m !! i = Some u -> f u = 0) -> total f m = 0.
Proof.
  induction m as [|i u m Hi IH] using map_ind; [done|]. intros H. rewrite total_fresh by done.
  rewrite (H i u), IH by (apply lookup_insert_eq || (intros j v Hj; apply (H j); rewrite lookup_insert_ne; [done|congruence])).
  done.
Qed.

Lemma total_pos m : total f m <> 0 -> exists i u, m !! i = Some u /\ f u <> 0.
Proof.
  induction m as [|i u m Hi IH] using map_ind; [done|]. rewrite total_fresh by done.
  destruct (decide (f u = 0)) as [Hu|Hu]; [|exists i, u; by rewrite lookup_insert_eq].
  rewrite Hu. intros (j & v & Hj & Hv)%IH. exists j, v. rewrite lookup_insert_ne; [done|congruence].
Qed.
End Total.

(** ** Invariant *)

Definition holders (s : state) (n : nat) (q : WorkerQueue) : nat :=
  unlocking n (subs s) + unlocks (worker q) + cleans n (cleaner s).
Definition queue_live (s : state) (n : nat) (q : WorkerQueue) : Prop :=
  closed q = false /\ worker q <> Exited /\ wg q = load q + sending n (subs s) /\
  holders s n q = Nat.b2n (mu q).

(** The queue has not been idle for too long, at the time of a cleaning. *)
Definition young (s : state) (now : Z) (q : WorkerQueue) : Prop :=
  (GoStd.time_sub now (lastActive q) <= clearTimePass (pool s))%Z.
(** The cleaner has no queue to close. *)
Definition cleaner_live (s : state) : Prop :=
  match cleaner s with
  | CAt (CLock | CUnlock) _ _ _ n => n < length (store s)
  | CAt CTest now _ _ n => exists q, store s !! n = Some q /\ young s now q
  | CAt _ _ _ _ _ => False
  | _ => True
  end.

Definition submitted (s : state) : list task := (map_to_list (sub_task <$> subs s)).*2.
(** What the queues of a store have, and their buffered tasks. *)
Definition gathered {A} (f : WorkerQueue -> list A) (l : list WorkerQueue) : list A := concat (f <$> l).
Definition buffered (l : list WorkerQueue) : list task := gathered taskChan l.

Record live (s : state) : Prop := {
  l_cleaner : cleaner_live s;
  l_stopper : stopper s = TNone;
  l_size : (0 <= queueSize (pool s))%Z;
  l_crash : crashed s = None;
  l_map k n : queues (pool s) !! k = Some n -> n < length (store s);
  l_sub i u n : subs s !! i = Some u -> held u = Some n -> n < length (store s);
  l_queue n q : store s !! n = Some q -> queue_live s n q;
  l_tasks : (calls s).*2 ≡ₚ started s ++ buffered (store s) ++ submitted s
}.

Lemma gathered_insert {A} (f : WorkerQueue -> list A) (l : list WorkerQueue) n q q' x y : l !! n = Some q ->
  x ++ f q' ≡ₚ y ++ f q -> x ++ gathered f (<[n := q']> l) ≡ₚ y ++ gathered f l.
Proof.
  intros Hn H. unfold gathered. rewrite <-(take_drop_middle l n q Hn) at 2.
  rewrite insert_take_drop by (by eapply lookup_lt_Some).
  rewrite !fmap_app, !fmap_cons, !concat_app, !concat_cons.
  rewrite (Permutation_app_comm (concat (f <$> take n l))), (Permutation_app_comm (concat (f <$> take n l))).
  rewrite <-!app_assoc, !(app_assoc x), !(app_assoc y). by rewrite H.
Qed.

(** A submission of the same task, elsewhere. *)
Lemma submitted_insert s i u u' : subs s !! i = Some u -> sub_task u' = sub_task u ->
  submitted (set_sub i u' s) = submitted s.
Proof.
  intros Hi Ht. unfold submitted. cbn [subs set_sub set_subs]. f_equal. f_equal.
  rewrite fmap_insert, Ht. apply insert_id. by rewrite lookup_fmap, Hi.
Qed.

Lemma sends_held n u : is_send n u <> 0 -> held u = Some n.
Proof. destruct u; try done. cbn. case_decide; [by subst|done]. Qed.

Lemma unlock_held n u : is_unlock n u <> 0 -> held u = Some n.
Proof. destruct u; try done. cbn. case_decide; [by subst|done]. Qed.

(** A submission counts for no queue but the one it has in hand. *)
Lemma counts_elsewhere m n u : (forall k, held u = Some k -> k = n) -> m <> n -> is_send m u = 0 /\ is_unlock m u = 0.
Proof.
  intros Hh Hne. split.
  - destruct (decide (is_send m u = 0)) as [|E%sends_held%Hh]; [done|congruence].
  - destruct (decide (is_unlock m u = 0)) as [|E%unlock_held%Hh]; [done|congruence].
Qed.

(** ** Steps *)

(** A step that changes queue [n]: what it must keep. *)
Lemma live_put s s' n q q' :
  live s -> store s !! n = Some q -> store s' = <[n := q']> (store s) ->
  stopper s' = TNone -> crashed s' = None -> queueSize (pool s') = queueSize (pool s) ->
  (forall k m, queues (pool s') !! k = Some m -> m < length (store s)) ->
  (forall i u m, subs s' !! i = Some u -> held u = Some m -> m < length (store s)) ->
  closed q' = closed q -> worker q' <> Exited ->
  wg q' + load q + sending n (subs s) = wg q + load q' + sending n (subs s') ->
  holders s' n q' + Nat.b2n (mu q) = holders s n q + Nat.b2n (mu q') ->
  (forall m, m <> n -> sending m (subs s') = sending m (subs s) /\
     unlocking m (subs s') + cleans m (cleaner s') = unlocking m (subs s) + cleans m (cleaner s)) ->
  cleaner_live s' -> (calls s').*2 ≡ₚ started s' ++ buffered (store s') ++ submitted s' -> live s'.
Proof.
  intros Hl Hn Hst Ht Hcr Hz Hq Hs Hcl Hw Hwg Hho Hother Hcle Htasks.
  split; try done; [rewrite Hz; apply Hl|by rewrite Hst, length_insert..|].
  intros m x. rewrite Hst, list_lookup_insert_Some. destruct (l_queue s Hl n q Hn) as (Q1 & Q2 & Q3 & Q4).
  intros [(<- & <- & _)|[Hne Hm]]; [split_and!; [congruence|done|lia|lia]|].
  destruct (l_queue s Hl m x Hm) as (P1 & P2 & P3 & P4). destruct (Hother m (not_eq_sym Hne)) as [Hs1 Hs2].
  split_and!; [done|done|lia|]. unfold holders in *. lia.
Qed.

(** The cleaner keeps a queue whose time does not change, or which it has not
    locked. *)
Lemma cleaner_keep s s' n q q' : cleaner_live s -> store s !! n = Some q -> store s' = <[n := q']> (store s) ->
  cleaner s' = cleaner s -> clearTimePass (pool s') = clearTimePass (pool s) ->
  lastActive q' = lastActive q \/ cleans n (cleaner s) = 0 -> cleaner_live s'.
Proof.
  unfold cleaner_live, young. intros H Hn -> -> -> Ha. destruct (cleaner s) as [| | |ph now vis k m|]; try done.
  destruct ph; try done; rewrite ?length_insert; [done| |done]. destruct H as (x & Hx & Hy).
  destruct (decide (m = n)) as [->|Hne].
  - exists q'. rewrite list_lookup_insert_eq by (by eapply lookup_lt_Some). split; [done|].
    rewrite Hn in Hx. injection Hx as <-. cbn in Ha. rewrite decide_True in Ha by done. by destruct Ha as [->|].
  - exists x. by rewrite list_lookup_insert_ne.
Qed.

Lemma unlocked_free s n q : live s -> store s !! n = Some q -> mu q = false -> cleans n (cleaner s) = 0.
Proof. intros Hl Hn Hm. destruct (l_queue s Hl n q Hn) as (_ & _ & _ & H). rewrite Hm in H. unfold holders in H. cbn in H. lia. Qed.

(** An operation of a submission on its queue. *)
Lemma live_sub s i u u' n q q' :
  live s -> subs s !! i = Some u -> store s !! n = Some q ->
  sub_task u' = sub_task u -> held u' = Some n -> (forall m, held u = Some m -> m = n) ->
  taskChan q' = taskChan q -> closed q' = closed q -> worker q' = worker q ->
  wg q' + is_send n u = wg q + is_send n u' ->
  is_unlock n u' + Nat.b2n (mu q) = is_unlock n u + Nat.b2n (mu q') ->
  lastActive q' = lastActive q \/ mu q = false ->
  live (set_sub i u' (set_queue n q' s)).
Proof.
  intros Hl Hi Hn Ht Hh' Hh Hc Hcl Hw Hwg Hmu Ha. pose proof (lookup_lt_Some _ _ _ Hn) as Hlt.
  pose proof (fun f => total_insert f i u u' (subs s) Hi) as Hsum.
  apply (live_put s _ n q q');
    cbn [cleaner stopper pool crashed store subs calls started set_sub set_subs set_queue set_store]; try done; try apply Hl.
  - intros j v m. rewrite lookup_insert_Some. intros [[<- <-]|[_ Hj]]; [by rewrite Hh'; intros [= <-]|by apply (l_sub s Hl j)].
  - rewrite Hw. by destruct (l_queue s Hl n q Hn) as (_ & ? & _).
  - unfold load, tasks, current, sending. rewrite Hc, Hw. pose proof (Hsum (is_send n)). lia.
  - unfold holders, unlocking. cbn [cleaner subs set_sub set_subs set_queue set_store]. rewrite Hw.
    pose proof (Hsum (is_unlock n)). lia.
  - intros m Hne. unfold sending, unlocking. pose proof (Hsum (is_send m)). pose proof (Hsum (is_unlock m)).
    destruct (counts_elsewhere m n u Hh Hne). destruct (counts_elsewhere m n u'); [by rewrite Hh'; intros k [= <-]|done|lia].
  - apply (cleaner_keep s _ n q q'); try done; [apply Hl|]. destruct Ha as [Ha|Ha]; [by left|right]. by apply (unlocked_free s n q).
  - rewrite (submitted_insert (set_queue n q' s) i u) by done. change (submitted (set_queue n q' s)) with (submitted s).
    rewrite (l_tasks s Hl). apply Permutation_app_head. rewrite !(Permutation_app_comm _ (submitted s)). symmetry.
    apply (gathered_insert taskChan _ _ q); [done|]. by rewrite Hc.
Qed.

(** An operation of a worker on its queue. *)
Lemma live_work s n q q' l :
  live s -> store s !! n = Some q -> closed q' = closed q -> worker q' <> Exited ->
  load q' + wg q = load q + wg q' ->
  unlocks (worker q') + Nat.b2n (mu q) = unlocks (worker q) + Nat.b2n (mu q') ->
  lastActive q' = lastActive q \/ mu q = false ->
  l ++ taskChan q' ≡ₚ taskChan q ->
  live (mkState (pool s) (<[n := q']> (store s)) (subs s) (cleaner s) (stopper s) (calls s) (started s ++ l) (crashed s)).
Proof.
  intros Hl Hn Hcl Hw Hwg Hmu Ha Hc.
  apply (live_put s _ n q q'); cbn [cleaner stopper pool crashed store subs calls started]; try done; try apply Hl.
  - lia.
  - unfold holders. cbn [cleaner subs]. lia.
  - apply (cleaner_keep s _ n q q'); try done; [apply Hl|]. destruct Ha as [Ha|Ha]; [by left|right]. by apply (unlocked_free s n q).
  - rewrite (l_tasks s Hl), <-app_assoc. apply Permutation_app_head. rewrite !app_assoc. apply Permutation_app_tail. symmetry.
    rewrite <-(app_nil_l (buffered (store s))). by apply (gathered_insert taskChan _ _ q).
Qed.

(** An operation of the cleaner, on a queue whose lock it takes or gives back
    or which it leaves alone. *)
Lemma live_clean s c n q b :
  live s -> store s !! n = Some q -> (forall m, m <> n -> cleans m c = cleans m (cleaner s)) ->
  cleans n c + Nat.b2n (mu q) = cleans n (cleaner s) + Nat.b2n b ->
  cleaner_live (set_cleaner c (set_queue n (set_mu b q) s)) -> live (set_cleaner c (set_queue n (set_mu b q) s)).
Proof.
  intros Hl Hn Hother Hmu Hc.
  apply (live_put s _ n q (set_mu b q));
    cbn [cleaner stopper pool crashed store subs calls started set_cleaner set_queue set_store]; try done; try apply Hl.
  - by destruct (l_queue s Hl n q Hn) as (_ & ? & _).
  - unfold holders. cbn [cleaner subs set_cleaner set_queue set_store worker mu set_mu]. lia.
  - intros m Hm. by rewrite (Hother m Hm).
  - rewrite (l_tasks s Hl). apply Permutation_app_head, Permutation_app_tail. symmetry.
    by apply (gathered_insert taskChan _ _ q _ [] []).
Qed.

(** The cleaner moves while it holds no lock. *)
Lemma live_cleaner s c : live s -> (forall m, cleans m c = cleans m (cleaner s)) -> cleaner_live (set_cleaner c s) ->
  live (set_cleaner c s).
Proof.
  intros [H1 H2 H3 H4 H5 H6 H7 H8] Hc Hl. split; try done. intros n q Hn. destruct (H7 n q Hn) as (Q1 & Q2 & Q3 & Q4).
  split_and!; try done. unfold holders in *. cbn [cleaner subs set_cleaner]. by rewrite Hc.
Qed.

(** A submission that does not change its queue. *)
Lemma live_move s i u u' n : live s -> subs s !! i = Some u -> n < length (store s) ->
  sub_task u' = sub_task u -> held u' = Some n -> (forall m, held u = Some m -> m = n) ->
  is_send n u = is_send n u' -> is_unlock n u = is_unlock n u' -> live (set_sub i u' s).
Proof.
  intros Hl Hi Hn Ht Hh' Hh Hs Hu. apply lookup_lt_is_Some_2 in Hn as [q Hq].
  assert (set_queue n q s = s) as E by (destruct s; unfold set_queue, set_store; cbn; by rewrite list_insert_id).
  rewrite <-E. apply (live_sub s i u u' n q q); try done; [lia|lia|by left].
Qed.

Lemma live_queues s f : live s -> (forall k n, f (queues (pool s)) !! k = Some n -> n < length (store s)) ->
  live (set_queues f s).
Proof. intros [H1 H2 H3 H4 H5 H6 H7 H8] H. by split. Qed.

(** A submission that counts for no queue. *)
Lemma counts_new n s i u : is_send n u = 0 -> is_unlock n u = 0 ->
  (forall v, subs s !! i = Some v -> is_send n v = 0 /\ is_unlock n v = 0) ->
  sending n (<[i := u]> (subs s)) = sending n (subs s) /\ unlocking n (<[i := u]> (subs s)) = unlocking n (subs s).
Proof.
  intros H1 H2 Hi. unfold sending, unlocking. destruct (subs s !! i) as [v|] eqn:Ei.
  - destruct (Hi v eq_refl). pose proof (total_insert (is_send n) i v u _ Ei). pose proof (total_insert (is_unlock n) i v u _ Ei). lia.
  - rewrite !total_fresh by done. lia.
Qed.

Lemma live_call s i t : live s -> subs s !! i = None -> live (set_sub i (SLoad t) (log_call i t s)).
Proof.
  intros [H1 H2 H3 H4 H5 H6 H7 H8] Hi.
  split; cbn [cleaner stopper pool crashed store subs calls started set_sub set_subs log_call]; try done.
  - intros j v m. rewrite lookup_insert_Some. intros [[<- <-]|[_ Hj]]; [done|by apply (H6 j)].
  - intros m x Hm. destruct (H7 m x Hm) as (Q1 & Q2 & Q3 & Q4).
    destruct (counts_new m s i (SLoad t)) as [C1 C2]; [done|done|by rewrite Hi|].
    split_and!; [done|done| |]; unfold holders in *; cbn [cleaner subs set_sub set_subs log_call]; by rewrite ?C1, ?C2.
  - rewrite fmap_app, H8. unfold submitted. cbn [subs set_sub set_subs log_call fmap list_fmap snd].
    rewrite fmap_insert, map_to_list_insert by (by rewrite lookup_fmap, Hi). cbn [fmap list_fmap snd].
    rewrite <-!app_assoc. do 2 apply Permutation_app_head. symmetry. apply Permutation_cons_append.
Qed.

Lemma cleans_stored s n : live s -> cleans n (cleaner s) <> 0 -> n < length (store s).
Proof.
  intros Hl. pose proof (l_cleaner s Hl) as H. unfold cleaner_live in H. destruct (cleaner s) as [| | |ph now vis k m|]; try done.
  destruct ph; try done; cbn; case_decide; try done; subst; intros _; [|done].
  destruct H as (q & Hq & _). by eapply lookup_lt_Some.
Qed.

Lemma live_create s i t now : live s -> subs s !! i = Some (SLoad t) ->
  live (set_sub i (SStore t (length (store s))) (set_store (store s ++ [NewWorkerQueue now]) s)).
Proof.
  intros Hl Hi. pose proof Hl as [H1 H2 H3 H4 H5 H6 H7 H8].
  split; cbn [cleaner stopper pool crashed store subs calls started set_sub set_subs set_store]; try done.
  - unfold cleaner_live in *. cbn [cleaner store set_sub set_subs set_store]. rewrite length_app.
    destruct (cleaner s) as [| | |[] ? ? ? m|]; try done; cbn; try lia. destruct H1 as (q & Hq & Hy).
    exists q. split; [by apply lookup_app_l_Some|done].
  - intros k m Hk. rewrite length_app. apply H5 in Hk. cbn. lia.
  - intros j v m. rewrite length_app, lookup_insert_Some. cbn. intros [[<- <-]|[_ Hj]].
    + intros [= <-]. lia.
    + intros Hv. specialize (H6 j v m Hj Hv). lia.
  - intros m x Hm. destruct (counts_new m s i (SStore t (length (store s)))) as [C1 C2]; [done|done| |].
    { rewrite Hi. by intros v [= <-]. }
    unfold queue_live, holders in *. cbn [cleaner subs set_sub set_subs set_store]. rewrite C1, C2.
    apply lookup_app_Some in Hm as [Hm|[Hge Hm]]; [by apply H7|].
    apply list_lookup_singleton_Some in Hm as [Hm <-]. cbn [closed worker wg mu NewWorkerQueue unlocks Nat.b2n].
    assert (forall f, (forall v, f v <> 0 -> held v = Some m) -> total f (subs s) = 0) as Hz.
    { intros f Hf. apply total_zero. intros j v Hj. destruct (decide (f v = 0)) as [|E%Hf]; [done|].
      specialize (H6 j v m Hj E). lia. }
    assert (cleans m (cleaner s) = 0) as Hcl.
    { destruct (decide (cleans m (cleaner s) = 0)) as [|E%cleans_stored]; [done|lia|done]. }
    unfold sending, unlocking. rewrite Hcl, !Hz; [done|apply unlock_held|apply sends_held].
  - rewrite (submitted_insert (set_store _ s) i (SLoad t)) by done. rewrite H8.
    unfold buffered, gathered. rewrite fmap_app, concat_app. cbn. by rewrite app_nil_r.
Qed.

Lemma live_send s i t n q : live s -> subs s !! i = Some (SSend t n) -> store s !! n = Some q ->
  live (set_subs (delete i (subs s)) (set_queue n (send t q) s)).
Proof.
  intros Hl Hi Hn. pose proof (fun f => total_delete f i _ _ Hi) as Hs.
  apply (live_put s _ n q (send t q));
    cbn [cleaner stopper pool crashed store subs calls started set_subs set_queue set_store]; try done; try apply Hl.
  - intros j v m [_ Hj]%lookup_delete_Some. by apply (l_sub s Hl j).
  - by destruct (l_queue s Hl n q Hn) as (_ & ? & _).
  - unfold sending. rewrite (Hs (is_send n)). cbn [is_send]. rewrite decide_True by done.
    unfold load, tasks, current. cbn [send taskChan worker wg]. rewrite !length_app. cbn. lia.
  - unfold holders, unlocking. cbn [cleaner subs set_subs set_queue set_store]. rewrite (Hs (is_unlock n)). done.
  - intros m Hm. unfold sending, unlocking. rewrite (Hs (is_send m)), (Hs (is_unlock m)). cbn [is_send is_unlock].
    by rewrite decide_False.
  - apply (cleaner_keep s _ n q (send t q)); try done; [apply Hl|by left].
  - rewrite (l_tasks s Hl). apply Permutation_app_head. unfold submitted. cbn [subs set_subs set_queue set_store].
    rewrite fmap_delete. rewrite <-(insert_delete_id (sub_task <$> subs s) i t) at 1 by (by rewrite lookup_fmap, Hi).
    rewrite map_to_list_insert by apply lookup_delete_eq. cbn [fmap list_fmap snd].
    rewrite (Permutation_app_comm (buffered (store s))), (Permutation_app_comm (buffered (<[n := send t q]> (store s)))).
    cbn [app]. rewrite Permutation_cons_append, <-app_assoc. symmetry.
    etransitivity; [apply (gathered_insert taskChan _ _ q _ _ ((map_to_list (delete i (sub_task <$> subs s))).*2 ++ [t])); [done|]|].
    + cbn [send taskChan]. rewrite <-app_assoc. apply Permutation_app_head. apply Permutation_app_comm.
    + rewrite <-app_assoc. apply Permutation_app_head. cbn. apply Permutation_cons_append.
Qed.

(** A step of a worker that takes no task. *)
Lemma live_quiet s n q q' : live s -> store s !! n = Some q ->
  taskChan q' = taskChan q -> closed q' = closed q -> worker q' <> Exited ->
  load q' + wg q = load q + wg q' ->
  unlocks (worker q') + Nat.b2n (mu q) = unlocks (worker q) + Nat.b2n (mu q') ->
  lastActive q' = lastActive q \/ mu q = false -> live (set_queue n q' s).
Proof.
  intros Hl Hn Hc Hcl Hw Hwg Hmu Ha.
  pose proof (live_work s n q q' [] Hl Hn) as H. rewrite app_nil_r in H. apply H; try done. by rewrite Hc.
Qed.

(** Who has a lock sees it locked. *)
Lemma holder_locked s n q : live s -> store s !! n = Some q -> holders s n q <> 0 -> mu q = true.
Proof. intros Hl Hn. destruct (l_queue s Hl n q Hn) as (_ & _ & _ & ->). by destruct (mu q). Qed.

Lemma sub_locked s i t n q : live s -> store s !! n = Some q -> subs s !! i = Some (SUnlock t n) -> mu q = true.
Proof.
  intros Hl Hn Hi. apply (holder_locked s n q Hl Hn). unfold holders, unlocking.
  rewrite (total_delete _ _ _ _ Hi). cbn [is_unlock]. rewrite decide_True by done. lia.
Qed.

Lemma live_dispatch i now s s' : live s -> Submit i now s = Some s' -> live s'.
Proof.
  intros Hl H. unfold Submit in H. destruct (subs s !! i) as [u|] eqn:Hi; [|done]. cbn in H.
  pose proof (fun n => l_sub s Hl i u n Hi) as Hheld.
  destruct u as [t|t n|t n|t n|t n|t n]; cbn in H;
    try (destruct (store s !! n) as [q|] eqn:Hn; [|done]; cbn in H;
         destruct (l_queue s Hl n q Hn) as (Q1 & Q2 & Q3 & Q4)).
  - injection H as <-. unfold getQueue. destruct (queues (pool s) !! key s t) as [n|] eqn:Hk.
    + apply (live_move s i (SLoad t) _ n); try done. by apply (l_map s Hl (key s t)).
    + rewrite (proj2 (Z.ltb_ge _ _) (l_size s Hl)). by apply live_create.
  - injection H as <-. apply (live_move _ i (SStore t n) _ n); try done; [|by apply Hheld|naive_solver].
    apply live_queues; [done|]. intros k m. rewrite lookup_insert_Some.
    intros [[_ <-]|[_ Hk]]; [by apply Hheld|by apply (l_map s Hl k)].
  - destruct (mu q) eqn:Hm; [done|]. injection H as <-.
    apply (live_sub s i (SLock t n) _ n q); try done; [naive_solver| |by right].
    cbn. rewrite decide_True by done. by rewrite Hm.
  - injection H as <-. apply (live_sub s i (SUnlock t n) _ n q); try done; [naive_solver| |by left].
    cbn. rewrite decide_True by done. by rewrite (sub_locked s i t n q).
  - injection H as <-. apply (live_sub s i (SAdd t n) _ n q); try done; [naive_solver| |by left].
    cbn. rewrite decide_True by done. lia.
  - rewrite Q1 in H. destruct (can_send _ _); [|done]. injection H as <-. by apply live_send.
Qed.

Lemma live_start n now s s' : live s -> start n now s = Some s' -> live s'.
Proof.
  intros Hl H. unfold start in H. destruct (store s !! n) as [q|] eqn:Hn; [|done]. cbn in H.
  destruct (l_queue s Hl n q Hn) as (Q1 & Q2 & Q3 & Q4).
  destruct (worker q) as [|t|t|t|t|] eqn:Hw; [| | | | |done].
  - destruct (taskChan q) as [|t rest] eqn:Hc; [by rewrite Q1 in H|]. injection H as <-.
    apply (live_work s n q _ [t]); try done.
    + unfold load, tasks, current. cbn. rewrite Hw, Hc, !length_app. cbn. lia.
    + by rewrite Hw.
    + by left.
    + by rewrite Hc.
  - injection H as <-. apply (live_quiet s n q); try done; [|by rewrite Hw|by left].
    unfold load, tasks, current. cbn. by rewrite Hw.
  - destruct (mu q) eqn:Hm; [done|]. injection H as <-. apply (live_quiet s n q); try done; [| |by right].
    + unfold load, tasks, current. cbn. by rewrite Hw.
    + by rewrite Hw, Hm.
  - injection H as <-. apply (live_quiet s n q); try done; [| |by left].
    + unfold load, tasks, current. cbn. by rewrite Hw.
    + rewrite Hw, (holder_locked s n q); [done..|]. unfold holders. rewrite Hw. cbn. lia.
  - assert (load q = S (length (taskChan q))) as El by (unfold load, tasks, current; rewrite Hw, length_app; cbn; lia).
    destruct (wg q) as [|k] eqn:Hwg; [lia|]. injection H as <-.
    apply (live_quiet s n q); try done; [|by rewrite Hw|by left].
    rewrite El, Hwg. unfold load, tasks, current. cbn. rewrite app_nil_r. lia.
Qed.

(** What is left out: the call of [Stop], and the cleaner's lock of a queue
    that has been idle for too long. *)
Definition admits (s : state) (e : event) : Prop :=
  match e with
  | StopCall => False
  | CleanQueue =>
      match cleaner s with
      | CAt CLock now _ _ n => match store s !! n with Some q => young s now q | None => True end
      | _ => True
      end
  | _ => True
  end.
#[export] Instance admits_dec s e : Decision (admits s e).
Proof. destruct e; cbn; try apply _. destruct (cleaner s) as [| | |[]|]; try apply _. case_match; unfold young; apply _. Defined.

(** The cleaner at a queue it does not close. *)
Lemma live_clean_queue s s' : live s -> admits s CleanQueue -> clean_queue s = Some s' -> live s'.
Proof.
  intros Hl Ha H. pose proof (l_cleaner s Hl) as Hc. unfold cleaner_live in Hc. cbn [admits] in Ha. unfold clean_queue in H.
  destruct (cleaner s) as [| | |ph now vis k n|] eqn:Ec; try done.
  destruct (store s !! n) as [q|] eqn:Hn; [|done]. cbn in H.
  assert (forall c, (forall m, m <> n -> cleans m c = cleans m (cleaner s)) ->
    cleans n c = cleans n (cleaner s) -> forall m, cleans m c = cleans m (cleaner s)) as Hsame
    by (intros c H1 H2 m; destruct (decide (m = n)) as [->|]; auto).
  destruct ph; try done.
  - destruct (mu q) eqn:Hm; [done|]. injection H as <-. apply (live_clean s _ n q true Hl Hn).
    + intros m Hne. rewrite Ec. cbn. by rewrite decide_False.
    + rewrite Ec, Hm. cbn. by rewrite decide_True.
    + unfold cleaner_live. cbn. exists (set_mu true q). rewrite list_lookup_insert_eq by (by eapply lookup_lt_Some). done.
  - destruct Hc as (x & Hx & Hy). injection Hx as <-. unfold young in Hy.
    rewrite (proj2 (Z.ltb_ge _ _) Hy) in H. injection H as <-. apply live_cleaner; [done| |].
    + intros m. by rewrite Ec.
    + unfold cleaner_live. cbn. by eapply lookup_lt_Some.
  - injection H as <-. apply (live_clean s _ n q false Hl Hn).
    + intros m Hne. rewrite Ec. cbn. by rewrite decide_False.
    + rewrite Ec. cbn. rewrite decide_True by done. rewrite (holder_locked s n q); [done..|].
      unfold holders. rewrite Ec. cbn. rewrite decide_True by done. lia.
    + done.
Qed.

(** Every event that is not left out keeps the invariant. *)
Lemma live_exec e s s' : live s -> admits s e -> exec e s = Some s' -> live s'.
Proof.
  intros Hl He. unfold exec. rewrite (l_crash s Hl). pose proof (l_stopper s Hl) as Ht.
  pose proof (l_cleaner s Hl) as Hc. unfold cleaner_live in Hc.
  destruct e as [i t|i now|n now|now|k| | | | |k| |]; unfold stop_visit, stop_queue; rewrite ?Ht; try done.
  - destruct (subs s !! i) eqn:Hi; [done|]. intros [= <-]. by apply live_call.
  - by apply live_dispatch.
  - by apply live_start.
  - destruct (cleaner s) eqn:Ec; try done. intros [= <-]. apply live_cleaner; [done|by rewrite Ec|done].
  - unfold clean_visit. destruct (cleaner s) as [| |now vis| |] eqn:Ec; try done. unfold visit.
    case_bool_decide; [done|]. destruct (queues (pool s) !! k) as [n|] eqn:Hk; [|done]. intros [= <-].
    apply live_cleaner; [done|by rewrite Ec|]. by apply (l_map s Hl k).
  - by apply live_clean_queue.
  - destruct (cleaner s) eqn:Ec; try done. intros [= <-]. apply live_cleaner; [done|by rewrite Ec|done].
  - destruct (cleaner s) eqn:Ec; try done. destruct (quit (pool s)); [|done]. intros [= <-].
    apply live_cleaner; [done|by rewrite Ec|done].
Qed.

Lemma live_Start n size interval pass : (0 <= size)%Z -> live (Start (NewWorkerPool n size interval pass)).
Proof. intros Hs. split; cbn; try done. unfold cleaner_live. cbn. by destruct (_ && _). Qed.

(** ** The operations left *)

(** The operations of dispatchers and workers, and of the cleaner at a queue,
    which neither a caller nor a timer asks for. *)
Definition internal (e : event) : Prop :=
  match e with Dispatch _ _ | Work _ _ | CleanQueue => True | _ => False end.
Definition advance (s s' : state) : Prop := exists e, internal e /\ admits s e /\ exec e s = Some s'.

Definition sub_work (u : submission) : nat :=
  match u with
  | SLoad _ => 11 | SStore _ _ => 10 | SLock _ _ => 9 | SUnlock _ _ => 8 | SAdd _ _ => 7 | SSend _ _ => 6
  end.
Definition stage_work (g : stage) : nat :=
  match g with Receiving | Exited => 0 | Running _ => 4 | Locking _ => 3 | Unlocking _ => 2 | Signalling _ => 1 end.
Definition queue_work (q : WorkerQueue) : nat := 5 * length (taskChan q) + stage_work (worker q).
Definition cleaner_work (c : cleaner_state) : nat :=
  match c with CAt CLock _ _ _ _ => 3 | CAt CTest _ _ _ _ => 2 | CAt CUnlock _ _ _ _ => 1 | _ => 0 end.
Definition work (s : state) : nat :=
  total sub_work (subs s) + sum_list (queue_work <$> store s) + cleaner_work (cleaner s).

Lemma stored_work n q q' (l : list WorkerQueue) : l !! n = Some q ->
  sum_list (queue_work <$> <[n := q']> l) + queue_work q = sum_list (queue_work <$> l) + queue_work q'.
Proof.
  intros H. rewrite <-(take_drop_middle l n q H) at 2. rewrite insert_take_drop by (by eapply lookup_lt_Some).
  rewrite !fmap_app, !fmap_cons, !sum_list_with_app. cbn. lia.
Qed.

(** Every operation leaves less to do. *)
Lemma work_dispatch i now s s' : live s -> Submit i now s = Some s' -> work s' < work s.
Proof.
  intros Hl H. unfold Submit in H. destruct (subs s !! i) as [u|] eqn:Hi; [|done]. cbn in H.
  pose proof (fun u' => total_insert sub_work i u u' _ Hi) as Hs.
  destruct u as [t|t n|t n|t n|t n|t n]; cbn in H;
    try (destruct (store s !! n) as [q|] eqn:Hn; [|done]; cbn in H;
         pose proof (fun q' => stored_work n q q' _ Hn) as Hq;
         destruct (l_queue s Hl n q Hn) as (Q1 & _)).
  - injection H as <-. unfold getQueue. destruct (queues (pool s) !! key s t) as [n|] eqn:Hk.
    + specialize (Hs (SLock t n)). unfold work. cbn in *. lia.
    + rewrite (proj2 (Z.ltb_ge _ _) (l_size s Hl)). specialize (Hs (SStore t (length (store s)))).
      unfold work. cbn in *. rewrite fmap_app, sum_list_with_app. cbn. lia.
  - injection H as <-. specialize (Hs (SLock t n)). unfold work. cbn in *. lia.
  - destruct (mu q) eqn:Hm; [done|]. injection H as <-. specialize (Hs (SUnlock t n)).
    specialize (Hq (touch now (set_mu true q))). unfold work, queue_work in *. cbn in *. lia.
  - injection H as <-. specialize (Hs (SAdd t n)). specialize (Hq (set_mu false q)).
    unfold work, queue_work in *. cbn in *. lia.
  - injection H as <-. specialize (Hs (SSend t n)). specialize (Hq (set_wg (S (wg q)) q)).
    unfold work, queue_work in *. cbn in *. lia.
  - rewrite Q1 in H. destruct (can_send _ _); [|done]. injection H as <-.
    pose proof (total_delete sub_work i _ _ Hi) as Hd. specialize (Hq (send t q)).
    unfold work, queue_work in *. cbn in *. rewrite length_app in *. cbn in *. lia.
Qed.

Lemma work_start n now s s' : live s -> start n now s = Some s' -> work s' < work s.
Proof.
  intros Hl H. unfold start in H. destruct (store s !! n) as [q|] eqn:Hn; [|done]. cbn in H.
  destruct (l_queue s Hl n q Hn) as (Q1 & _ & Q3 & _).
  assert (forall q', queue_work q' < queue_work q -> work (set_queue n q' s) < work s) as Hless.
  { intros q' Hq. pose proof (stored_work n q q' _ Hn). unfold work. cbn. lia. }
  destruct (worker q) as [|t|t|t|t|] eqn:Hw; [| | | | |done].
  - destruct (taskChan q) as [|t rest] eqn:Hc; [by rewrite Q1 in H|]. injection H as <-.
    apply Hless. unfold queue_work. cbn. rewrite Hw, Hc. cbn. lia.
  - injection H as <-. apply Hless. unfold queue_work. cbn. rewrite Hw. cbn. lia.
  - destruct (mu q); [done|]. injection H as <-. apply Hless. unfold queue_work. cbn. rewrite Hw. cbn. lia.
  - injection H as <-. apply Hless. unfold queue_work. cbn. rewrite Hw. cbn. lia.
  - destruct (wg q) as [|k] eqn:Hwg.
    + unfold load, tasks, current in Q3. rewrite Hw, length_app in Q3. cbn in Q3. lia.
    + injection H as <-. apply Hless. unfold queue_work. cbn. rewrite Hw. cbn. lia.
Qed.

Lemma work_clean s s' : live s -> clean_queue s = Some s' -> work s' < work s.
Proof.
  intros Hl H. pose proof (l_cleaner s Hl) as Hc. unfold cleaner_live in Hc. unfold clean_queue in H.
  destruct (cleaner s) as [| | |ph now vis k n|] eqn:Ec; try done.
  destruct (store s !! n) as [q|] eqn:Hn; [|done]. cbn in H.
  assert (forall b, queue_work (set_mu b q) = queue_work q) as Hq by done.
  pose proof (fun q' => stored_work n q q' _ Hn) as Hs.
  destruct ph; try done.
  - destruct (mu q); [done|]. injection H as <-. pose proof (Hs (set_mu true q)) as E. rewrite (Hq true) in E. unfold work. rewrite Ec. cbn. lia.
  - destruct Hc as (x & Hx & Hy). injection Hx as <-. unfold young in Hy.
    rewrite (proj2 (Z.ltb_ge _ _) Hy) in H. injection H as <-. unfold work. rewrite Ec. cbn. lia.
  - injection H as <-. pose proof (Hs (set_mu false q)) as E. rewrite (Hq false) in E. unfold work. rewrite Ec. cbn. lia.
Qed.

Lemma advance_live s s' : live s -> advance s s' -> live s' /\ work s' < work s /\ calls s' = calls s.
Proof.
  intros Hl (e & He & Ha & Hx). assert (live s') as Hl' by (by apply (live_exec e s)).
  unfold exec in Hx. rewrite (l_crash s Hl) in Hx.
  split; [done|]. destruct e as [|i now|n now| | | | | | | | |]; try done.
  - split; [by apply (work_dispatch i now)|].
    clear -Hx. unfold Submit in Hx. destruct (subs s !! i) as [u|]; [|done]. cbn in Hx.
    destruct u as [t|t n|t n|t n|t n|t n]; cbn in Hx;
      try (destruct (store s !! n) as [q|]; [|done]; cbn in Hx); try (by injection Hx as <-).
    + injection Hx as <-. unfold getQueue. by repeat case_match.
    + destruct (mu q); [done|]. by injection Hx as <-.
    + destruct (closed q), (can_send (queueSize (pool s)) q); try done; by injection Hx as <-.
  - split; [by apply (work_start n now)|].
    clear -Hx. unfold start in Hx. destruct (store s !! n) as [q|]; [|done]. cbn in Hx.
    repeat case_match; try done; by injection Hx as <-.
  - split; [by apply work_clean|]. clear -Hx. unfold clean_queue in Hx. destruct (cleaner s) as [| | |ph ? ? ? n|]; try done.
    destruct (store s !! n) as [q|]; [|done]. cbn in Hx. destruct ph; repeat case_match; try done; by injection Hx as <-.
Qed.

(** ** Progress *)

(** Nothing is left to do for a dispatcher or a worker. *)
Lemma rest_exec s e : live s -> (forall s', ~ advance s s') -> internal e -> admits s e -> exec e s = None.
Proof. intros Hl Hr Hi Ha. destruct (exec e s) as [s'|] eqn:E; [|done]. destruct (Hr s'). by exists e. Qed.

Lemma rest_start s n : live s -> (forall s', ~ advance s s') -> start n 0 s = None.
Proof.
  intros Hl Hr. pose proof (rest_exec s (Work n 0%Z) Hl Hr) as H. unfold exec in H. rewrite (l_crash s Hl) in H. by apply H.
Qed.

Lemma rest_dispatch s i : live s -> (forall s', ~ advance s s') -> Submit i 0 s = None.
Proof.
  intros Hl Hr. pose proof (rest_exec s (Dispatch i 0%Z) Hl Hr) as H. unfold exec in H. rewrite (l_crash s Hl) in H. by apply H.
Qed.

(** No lock is held at rest. *)
Lemma rest_unlocked s n q : live s -> (forall s', ~ advance s s') -> store s !! n = Some q -> mu q = false.
Proof.
  intros Hl Hr Hn. destruct (l_queue s Hl n q Hn) as (_ & _ & _ & Hm). unfold holders in Hm.
  assert (unlocks (worker q) = 0) as H1.
  { pose proof (rest_start s n Hl Hr) as Hx. unfold start in Hx. rewrite Hn in Hx. cbn in Hx. by destruct (worker q). }
  assert (unlocking n (subs s) = 0) as H2.
  { destruct (decide (unlocking n (subs s) = 0)) as [|Hp]; [done|].
    destruct (total_pos _ _ Hp) as (i & u & Hi & Hu). exfalso.
    pose proof (rest_dispatch s i Hl Hr) as Hx. unfold Submit in Hx. rewrite Hi in Hx.
    destruct u as [| | |t m| |]; try done. cbn in Hu. case_decide; [subst|done]. cbn in Hx. by rewrite Hn in Hx. }
  assert (cleans n (cleaner s) = 0) as H3.
  { pose proof (rest_exec s CleanQueue Hl Hr I) as Hx. unfold exec, clean_queue in Hx. rewrite (l_crash s Hl) in Hx. cbn [admits] in Hx.
    pose proof (l_cleaner s Hl) as Hc. unfold cleaner_live in Hc.
    destruct (cleaner s) as [| | |ph now vis k m|]; try done. destruct ph; try done; cbn; (case_decide; [subst m|done]);
      rewrite Hn in Hx; cbn in Hx; by specialize (Hx I). }
  rewrite H1, H2, H3 in Hm. by destruct (mu q).
Qed.

Lemma rest_queue s n q : live s -> (forall s', ~ advance s s') -> store s !! n = Some q ->
  taskChan q = [] /\ worker q = Receiving /\ mu q = false.
Proof.
  intros Hl Hr Hn. pose proof (l_queue s Hl n q Hn) as (Q1 & Q2 & Q3 & Q4).
  pose proof (rest_unlocked s n q Hl Hr Hn) as Hm. pose proof (rest_start s n Hl Hr) as Hx.
  unfold start in Hx. rewrite Hn in Hx. cbn in Hx. rewrite Hm in Hx.
  destruct (worker q); try done; [|by destruct (wg q)]. by destruct (taskChan q).
Qed.

Lemma rest_subs s : live s -> (forall s', ~ advance s s') -> subs s = ∅.
Proof.
  intros Hl Hr. apply map_empty. intros i. destruct (subs s !! i) as [u|] eqn:Hi; [|done]. exfalso.
  pose proof (rest_dispatch s i Hl Hr) as Hx.
  unfold Submit in Hx. rewrite Hi in Hx. cbn in Hx. pose proof (fun n => l_sub s Hl i u n Hi) as Hheld.
  destruct u as [t|t n|t n|t n|t n|t n]; [done|done|..];
    (destruct (lookup_lt_is_Some_2 (store s) n (Hheld n eq_refl)) as [q Hn]; rewrite Hn in Hx; cbn in Hx;
     destruct (rest_queue s n q Hl Hr Hn) as (Hc & Hw & Hm)); try done.
  - by rewrite Hm in Hx.
  - unfold can_send in Hx. rewrite Hw, Hc, orb_true_r in Hx. by destruct (closed q).
Qed.

(** At rest, every task has been run. *)
Lemma rest_done s : live s -> (forall s', ~ advance s s') -> subs s = ∅ /\ started s ≡ₚ (calls s).*2.
Proof.
  intros Hl Hr. pose proof (rest_subs s Hl Hr) as He. split; [done|]. rewrite (l_tasks s Hl).
  unfold submitted. rewrite He, fmap_empty, map_to_list_empty. cbn.
  replace (buffered (store s)) with (@nil task); [by rewrite !app_nil_r|].
  symmetry. unfold buffered, gathered. apply concat_nil_Forall, Forall_fmap, Forall_lookup. intros n q Hn.
  by apply (rest_queue s n q).
Qed.

(** ** Completion *)

(** The steps of a pool in service. *)
Definition serve (s s' : state) : Prop := exists e, admits s e /\ exec e s = Some s'.

Lemma serve_live s s' : rtc serve s s' -> live s -> live s'.
Proof. induction 1 as [|s s1 s2 (e & He & Hx) _ IH]; [done|]. intros Hl. by eapply IH, live_exec. Qed.

Lemma advances_live s s' : rtc advance s s' -> live s -> live s' /\ calls s' = calls s.
Proof.
  induction 1 as [|s s1 s2 H _ IH]; [done|]. intros Hl. destruct (advance_live s s1 Hl H) as (H1 & _ & Hc).
  rewrite <-Hc. by apply IH.
Qed.

(** No run of operations is longer than the work. *)
Lemma advances_bounded k s s' : nsteps advance k s s' -> live s -> k + work s' <= work s.
Proof.
  induction 1 as [|k s s1 s2 H _ IH]; [done|]. intros Hl. destruct (advance_live s s1 Hl H) as (H1 & Hw & _).
  specialize (IH H1). lia.
Qed.

(** Whether a goroutine has to wait does not depend on the clock. *)
Lemma submit_clock i now now' s : Submit i now' s = None -> Submit i now s = None.
Proof.
  unfold Submit. destruct (subs s !! i) as [u|]; [|done]. destruct u as [t|t n|t n|t n|t n|t n]; try done; cbn.
  destruct (store s !! n) as [q|]; [|done]. cbn. by destruct (mu q).
Qed.

Lemma start_clock n now now' s : start n now' s = None -> start n now s = None.
Proof.
  unfold start. destruct (store s !! n) as [q|]; [|done]. cbn. destruct (worker q); try done. by destruct (mu q).
Qed.

(** The goroutines of dispatchers in a call and of workers, and the cleaner. *)
Definition goroutines (s : state) : list event :=
  (if decide (admits s CleanQueue) then [CleanQueue] else []) ++
  ((fun i => Dispatch i 0%Z) <$> (map_to_list (subs s)).*1) ++ ((fun n => Work n 0%Z) <$> seq 0 (length (store s))).

Lemma advance_goroutine s s' : live s -> advance s s' -> exists e, e ∈ goroutines s /\ is_Some (exec e s).
Proof.
  intros Hl (e & He & Ha & Hx). destruct e as [|i now|n now| | | | | | | | |]; try done;
    [unfold exec in Hx; rewrite (l_crash s Hl) in Hx..|].
  - exists (Dispatch i 0%Z). unfold exec. rewrite (l_crash s Hl). split.
    + unfold Submit in Hx. destruct (subs s !! i) as [u|] eqn:Hi; [|done]. clear Hx.
      apply elem_of_app. right. apply elem_of_app. left. apply list_elem_of_fmap. exists i. split; [done|].
      apply list_elem_of_fmap. exists (i, u). split; [done|]. by apply elem_of_map_to_list.
    + apply not_eq_None_Some. intros H. by rewrite (submit_clock i now 0%Z s H) in Hx.
  - exists (Work n 0%Z). unfold exec. rewrite (l_crash s Hl). split.
    + unfold start in Hx. destruct (store s !! n) as [q|] eqn:Hn; [|done]. clear Hx.
      do 2 (apply elem_of_app; right). apply list_elem_of_fmap. exists n. split; [done|].
      apply elem_of_seq. apply lookup_lt_Some in Hn. lia.
    + apply not_eq_None_Some. intros H. by rewrite (start_clock n now 0%Z s H) in Hx.
  - exists CleanQueue. rewrite Hx. split; [|done]. unfold goroutines. rewrite decide_True by done. by left.
Qed.

Lemma goroutines_internal s e : e ∈ goroutines s -> internal e /\ admits s e.
Proof. unfold goroutines. case_decide; set_solver. Qed.

Lemma rest_or_advance s : live s -> (exists s', advance s s') \/ forall s', ~ advance s s'.
Proof.
  intros Hl. destruct (decide (Exists (fun e => is_Some (exec e s)) (goroutines s))) as [H|H].
  - left. apply Exists_exists in H as (e & He & [s' Hx]). exists s', e.
    by destruct (goroutines_internal s e He).
  - right. intros s' Hs. destruct H. apply Exists_exists. by apply (advance_goroutine s s').
Qed.

(** Some run comes to rest. *)
Lemma comes_to_rest s : live s -> exists s', rtc advance s s' /\ forall s'', ~ advance s' s''.
Proof.
  remember (work s) as w eqn:E. revert s E. induction w as [w IH] using lt_wf_ind. intros s -> Hl.
  destruct (rest_or_advance s Hl) as [[s1 H1]|Hr]; [|by exists s].
  destruct (advance_live s s1 Hl H1) as (Hl1 & Hw & _). destruct (IH _ Hw s1 eq_refl Hl1) as (s' & Hs & Hr).
  exists s'. split; [by eapply rtc_l|done].
Qed.

Fixpoint serve_run (es : list event) (s : state) : option state :=
  match es with
  | [] => Some s
  | e :: es => if decide (admits s e) then s ← exec e s; serve_run es s else None
  end.
Lemma run_serves es s s' : serve_run es s = Some s' -> rtc serve s s'.
Proof.
  revert s. induction es as [|e es IH]; cbn; intros s H; [by simplify_eq|].
  case_decide as Ha; [|done]. destruct (exec e s) as [s1|] eqn:E; [|done].
  eapply rtc_l; [by exists e|]. by apply IH.
Qed.

(** A pool in service runs every task it is given. Whatever calls of
    [Submit] have been made before [Stop], in whatever interleaving, the
    cleaner's visits included as long as it finds no queue idle for too long,
    no goroutine has crashed; the operations that dispatchers, workers and
    the cleaner at its queue can still make, in any order, are bounded in
    number; when none of them can make one, every call has returned and the
    tasks that were started are the tasks that were submitted, each once; and
    such a state is reached. *)
Theorem tasks_complete (num size interval pass : Z) (s : state) :
  (0 <= size)%Z -> rtc serve (Start (NewWorkerPool num size interval pass)) s ->
  crashed s = None /\
  (exists bound, forall k s', nsteps advance k s s' -> k <= bound) /\
  (forall s', rtc advance s s' -> (forall s'', ~ advance s' s'') ->
    subs s' = ∅ /\ started s' ≡ₚ (calls s).*2) /\
  (exists s', rtc advance s s' /\ forall s'', ~ advance s' s'').
Proof.
  intros Hs Hr. pose proof (serve_live _ _ Hr (live_Start num _ interval pass Hs)) as Hl. split_and!.
  - apply Hl.
  - exists (work s). intros k s' Hk. apply (advances_bounded k s s') in Hk; [lia|done].
  - intros s' Hs' Hrest. destruct (advances_live s s' Hs' Hl) as [Hl' <-]. by apply rest_done.
  - by apply comes_to_rest.
Qed.

(** In the default pool a task is running, its dispatcher has called [Submit]
    for a second one, and the cleaner has locked their queue. *)
Definition busy_cleaning : list event :=
  busy_events ++ [Call 1 t1; Tick 1000; CleanVisit (getQueue_key 128 "u1"); CleanQueue].
Definition under_cleaning : state := default (Start default_pool) (serve_run busy_cleaning (Start default_pool)).

Lemma tasks_complete_witness :
  rtc serve (Start default_pool) under_cleaning /\ crashed under_cleaning = None /\
  mu <$> store under_cleaning = [true] /\ (calls under_cleaning).*2 = [t1; t2; t1] /\
  exists s', rtc advance under_cleaning s' /\ subs s' = ∅ /\ started s' ≡ₚ [t1; t2; t1].
Proof.
  assert (rtc serve (Start default_pool) under_cleaning) as Hr
    by (apply (run_serves busy_cleaning); vm_compute; reflexivity).
  destruct (tasks_complete 128 256 30000000000 300000000000 under_cleaning) as (Hc & _ & Hd & s' & Hs & Hrest); [lia|done|].
  split_and!; [done|done|reflexivity|reflexivity|]. exists s'. split; [done|]. by apply Hd.
Defined.

End PoolProgress.
