(* ===== verification/Component.v ===== *)
(** * Components and their methods: [component/method.go],
    [component/service.go], [component/options.go]

    What reflection shows of a component (its type names and the signatures
    of its methods) is data; registration keeps the methods whose signature
    fits. *)

From S2P Require Import Prelude Errors Message Context.
From Stdlib Require Import Strings.Byte.

Module Component.

(** ** What reflection shows *)

(** [reflect.Kind], as far as the code tells kinds apart. *)
Inductive Kind := Ptr | Slice | Interface | OtherKind.
#[export] Instance Kind_eq_dec : EqDecision Kind.
Proof. solve_decision. Defined.

(** A [reflect.Type]: the types the code compares with, or any other type
    with its kind and the interfaces it implements. [elem_proto] tells, of a
    type with elements, whether a pointer to an element is a protobuf
    message. *)
Inductive Type_ :=
| typeOfError
| typeOfBytes
| TNamed (name : string) (kind : Kind) (context proto elem_proto : bool).
#[export] Instance Type_eq_dec : EqDecision Type_.
Proof. solve_decision. Defined.

Definition kind_of (t : Type_) : Kind :=
  match t with typeOfError => Interface | typeOfBytes => Slice | TNamed _ k _ _ _ => k end.
Definition implements_context (t : Type_) : bool :=
  match t with TNamed _ _ c _ _ => c | _ => false end.
Definition implements_proto (t : Type_) : bool :=
  match t with TNamed _ _ _ p _ => p | _ => false end.

(** A dynamic value: a protobuf message, or anything else. *)
Inductive value (M : Type) := VMsg (m : M) | VOther (n : Z).
Arguments VMsg {M} m.
Arguments VOther {M} n.

(** How a call of a method ends: without results, with a pointer (nil or
    not) and an error (nil or not), or with a panic whose value is a string
    or something else, shown as a string. *)
Inductive callres (M : Type) :=
| RNone
| RPair (v : option (value M)) (err : option error)
| RPanicString (s : string)
| RPanicOther (shown : string).
Arguments RNone {M}.
Arguments RPair {M} v err.
Arguments RPanicString {M} s.
Arguments RPanicOther {M} shown.

(** A [reflect.Method]: its signature, receiver included, and its code, which
    may write to the propagated maps. *)
Record Method (M : Type) := mkMethod {
  Name : string;
  PkgPath : string;
  ins : list Type_;
  outs : list Type_;
  Func : Ctx.heap -> Ctx.ctx -> option (value M) -> Ctx.heap * callres M
}.
Arguments mkMethod {M}.
Arguments Name {M}.
Arguments PkgPath {M}.
Arguments ins {M}.
Arguments outs {M}.
Arguments Func {M}.

(** A component: the name of its (indirected) type, the string of its type,
    its methods, and those of a pointer to it. *)
Record Comp (M : Type) := mkComp {
  typeName : string;
  typeString : string;
  methods : list (Method M);
  ptr_methods : list (Method M)
}.
Arguments mkComp {M}.
Arguments typeName {M}.
Arguments typeString {M}.
Arguments methods {M}.
Arguments ptr_methods {M}.

(** ** [component/method.go] *)

(** [isExported]: the first rune is upper case; [upper] decides for names
    that start with a rune outside ASCII. *)
Definition isExported (upper : string -> bool) (name : string) : bool :=
  match name with
  | EmptyString => false
  | String a _ =>
      let n := Ascii.nat_of_ascii a in
      if (n <? 128)%nat then (65 <=? n)%nat && (n <=? 90)%nat else upper name
  end.

Section Methods.
Context {M : Type}.

Definition isRemoteMethod (method : Method M) : bool :=
  if bool_decide (PkgPath method <> EmptyString) then false
  else if bool_decide (length (ins method) <> 2%nat) && bool_decide (length (ins method) <> 3%nat)
  then false
  else
    match ins method !! 1%nat with
    | Some t1 =>
        if negb (implements_context t1) then false
        else if match ins method !! 2%nat with
                | Some t2 => negb (implements_proto t2)
                | None => false
                end then false
        else if bool_decide (length (outs method) = 0%nat) then true
        else if bool_decide (length (outs method) <> 2%nat) then false
        else
          match outs method !! 0%nat, outs method !! 1%nat with
          | Some o0, Some o1 =>
              if bool_decide (kind_of o0 <> Ptr) || bool_decide (o1 <> typeOfError) then false
              else implements_proto o0
          | _, _ => false
          end
    | None => false
    end.

Definition isHandlerMethod (method : Method M) : bool :=
  if bool_decide (PkgPath method <> EmptyString) then false
  else if bool_decide (length (ins method) <> 2%nat) && bool_decide (length (ins method) <> 3%nat)
  then false
  else
    match ins method !! 1%nat with
    | Some t1 =>
        if negb (implements_context t1) then false
        else if match ins method !! 2%nat with
                | Some t2 => bool_decide (kind_of t2 <> Ptr) && bool_decide (t2 <> typeOfBytes)
                | None => false
                end then false
        else if bool_decide (length (outs method) <> 0%nat) && bool_decide (length (outs method) <> 2%nat)
        then false
        else
          match outs method !! 0%nat, outs method !! 1%nat with
          | Some o0, Some o1 =>
              negb (bool_decide (o1 <> typeOfError) ||
                    bool_decide (o0 <> typeOfBytes) && bool_decide (kind_of o0 <> Ptr))
          | _, _ => true
          end
    | None => false
    end.

(** ** [component/service.go]: the data *)

(** [Remote] and [Handler]; a nil [Type] is [None]. The receiver is the one
    of the method. *)
Record Remote := mkRemote { r_Method : Method M; HasArgs : bool; r_Type : option Type_ }.
Record Handler := mkHandler {
  h_Method : Method M;
  h_Type : option Type_;
  IsRawArg : bool;
  MessageType : byte
}.

(** The name under which a method is registered. *)
Definition rename (nameFunc : option (string -> string)) (mn : string) : string :=
  match nameFunc with Some f => f mn | None => mn end.

Definition new_remote (method : Method M) : Remote :=
  mkRemote method (bool_decide (length (ins method) = 3%nat)) (ins method !! 2%nat).

(** [suitableRemoteMethods]: a later method replaces one of the same name. *)
Definition suitableRemoteMethods (ms : list (Method M)) (nameFunc : option (string -> string))
  : gmap string Remote :=
  foldl (fun methods method =>
    if isRemoteMethod method
    then <[rename nameFunc (Name method) := new_remote method]> methods
    else methods) ∅ ms.

Definition new_handler (method : Method M) : Handler :=
  mkHandler method (ins method !! 2%nat)
    (bool_decide (length (ins method) = 3%nat) && bool_decide (ins method !! 2%nat = Some typeOfBytes))
    (if bool_decide (length (outs method) = 0%nat) then Message.Notify else Message.Request).

(** [suitableHandlerMethods]. *)
Definition suitableHandlerMethods (ms : list (Method M)) (nameFunc : option (string -> string))
  : gmap string Handler :=
  foldl (fun methods method =>
    if isHandlerMethod method
    then <[rename nameFunc (Name method) := new_handler method]> methods
    else methods) ∅ ms.

(** ** [component/options.go] *)

Record options := mkOptions { name : string; nameFunc : option (string -> string) }.
Definition Option_ : Type := options -> options.
Definition WithName (n : string) : Option_ := fun opt => mkOptions n (nameFunc opt).
Definition WithNameFunc (fn : string -> string) : Option_ :=
  fun opt => mkOptions (name opt) (Some fn).

(** ** [component/service.go]: services *)

Record Service := mkService {
  s_Name : string;
  s_Comp : Comp M;
  s_Handlers : gmap string Handler;
  s_Remotes : gmap string Remote;
  s_Options : options
}.

Definition NewService (comp : Comp M) (opts : list Option_) : Service :=
  let o := foldl (fun o opt => opt o) (mkOptions EmptyString None) opts in
  mkService (if bool_decide (name o <> EmptyString) then name o else typeName comp) comp ∅ ∅ o.

Definition no_methods (s : Service) (what : string) (ptr : bool) : error :=
  EText ("type " +:+ s_Name s +:+ " has no exported methods of " +:+ what +:+ " type" +:+
         (if ptr then " (hint: pass a pointer to value of that type)" else EmptyString)).

Section Extract.
Variable upper : string -> bool.

(** [ExtractRemote]. *)
Definition ExtractRemote (s : Service) : result Service :=
  let tn := typeName (s_Comp s) in
  if bool_decide (tn = EmptyString)
  then Err (EText ("no service name for type " +:+ typeString (s_Comp s)))
  else if negb (isExported upper tn) then Err (EText ("type " +:+ tn +:+ " is not exported"))
  else
    let remotes := suitableRemoteMethods (methods (s_Comp s)) (nameFunc (s_Options s)) in
    if bool_decide (size remotes = 0%nat) then
      Err (no_methods s "remote" (bool_decide (size (suitableRemoteMethods (ptr_methods (s_Comp s))
                                                       (nameFunc (s_Options s))) <> 0%nat)))
    else Ok (mkService (s_Name s) (s_Comp s) (s_Handlers s) remotes (s_Options s)).

(** [ExtractHandler]. *)
Definition ExtractHandler (s : Service) : result Service :=
  let tn := typeName (s_Comp s) in
  if bool_decide (tn = EmptyString)
  then Err (EText ("no service name for type " +:+ typeString (s_Comp s)))
  else if negb (isExported upper tn) then Err (EText ("type " +:+ tn +:+ " is not exported"))
  else
    let handlers := suitableHandlerMethods (methods (s_Comp s)) (nameFunc (s_Options s)) in
    if bool_decide (size handlers = 0%nat) then
      Err (no_methods s "handler" (bool_decide (size (suitableHandlerMethods (ptr_methods (s_Comp s))
                                                        (nameFunc (s_Options s))) <> 0%nat)))
    else Ok (mkService (s_Name s) (s_Comp s) handlers (s_Remotes s) (s_Options s)).
End Extract.

(** [ValidateMessageType]. *)
Definition ValidateMessageType (h : Handler) (msgType : byte) : bool * option error :=
  if bool_decide (MessageType h <> msgType) then
    if bool_decide (msgType = Message.Request) then (true, Some (ESentinel ErrRequestOnNotify))
    else if bool_decide (msgType = Message.Notify) then (false, Some (ESentinel ErrNotifyOnRequest))
    else (false, None)
  else (false, None).

(** ** Properties *)

(** The signature of a remote method. *)
Definition remote_signature (m : Method M) : Prop :=
  PkgPath m = EmptyString /\
  (exists recv c, implements_context c = true /\
     (ins m = [recv; c] \/ exists a, ins m = [recv; c; a] /\ implements_proto a = true)) /\
  (outs m = [] \/ exists o, outs m = [o; typeOfError] /\ kind_of o = Ptr /\ implements_proto o = true).

Lemma isRemoteMethod_spec m : isRemoteMethod m = true <-> remote_signature m.
Proof.
  unfold isRemoteMethod, remote_signature. split.
  - intros H. case_bool_decide as Hp; [done|]. split; [done|].
    destruct (ins m) as [|r [|c [|a [|]]]]; cbn in H; try discriminate.
    all: destruct (implements_context c) eqn:Ec; cbn in H; [|discriminate].
    2: destruct (implements_proto a) eqn:Ea; cbn in H; [|discriminate].
    all: split; [exists r, c; split; [done|]; eauto|].
    all: destruct (outs m) as [|o [|o1 [|]]]; cbn in H; try discriminate; [by left|right].
    all: exists o; repeat case_bool_decide; cbn in H; try discriminate; naive_solver.
  - intros (-> & (r & c & Hc & Hi) & Ho). cbn.
    destruct Hi as [->|(a & -> & Ha)], Ho as [->|(o & -> & Hk & Hp)]; cbn;
      rewrite Hc, ?Ha; cbn; rewrite ?Hk, ?Hp; done.
Qed.

Lemma ExtractRemote_name upper s s' : ExtractRemote upper s = Ok s' -> s_Name s' = s_Name s.
Proof.
  unfold ExtractRemote. case_bool_decide; [done|]. destruct (negb _); [done|].
  case_bool_decide; [done|]. by intros [= <-].
Qed.

(** Folding registrations: what ends up under a name. *)
Lemma suitable_lookup {R} (ok : Method M -> bool) (f : string -> string) (mk : Method M -> R) ms :
  forall (acc : gmap string R) n r,
  foldl (fun acc m => if ok m then <[f (Name m) := mk m]> acc else acc) acc ms !! n = Some r ->
  acc !! n = Some r \/ exists m, m ∈ ms /\ ok m = true /\ f (Name m) = n /\ r = mk m.
Proof.
  induction ms as [|m ms IH]; intros acc n r; cbn; [by left|]. intros Hl.
  apply IH in Hl as [Hl|(m' & ? & ?)]; [|right; exists m'; set_solver].
  destruct (ok m) eqn:E; [|by left]. apply lookup_insert_Some in Hl as [[<- <-]|[_ Hl]]; [|by left].
  right. exists m. set_solver.
Qed.

Lemma suitable_total {R} (ok : Method M -> bool) (f : string -> string) (mk : Method M -> R) ms :
  forall (acc : gmap string R) m, (m ∈ ms /\ ok m = true) \/ is_Some (acc !! f (Name m)) ->
  is_Some (foldl (fun acc m => if ok m then <[f (Name m) := mk m]> acc else acc) acc ms !! f (Name m)).
Proof.
  induction ms as [|m0 ms IH]; intros acc m H; cbn; [set_solver|]. apply IH.
  destruct H as [[[->|Hin]%elem_of_cons Hok]|Hs].
  - right. rewrite Hok, lookup_insert_eq. eauto.
  - by left.
  - right. destruct (ok m0); [|done]. apply lookup_insert_is_Some'. by right.
Qed.

(** Registration keeps exactly the callable methods: when the remotes of
    a service are extracted, every remote under a name comes from a method
    of the component with a remote signature and that (possibly rewritten)
    name, and records whether the method takes an argument and of which
    type; every method with a remote signature has a remote under its name;
    and there is at least one. *)
Theorem ExtractRemote_correct (upper : string -> bool) (s s' : Service) :
  ExtractRemote upper s = Ok s' ->
  s_Name s' = s_Name s /\ s_Remotes s' <> ∅ /\
  (forall n r, s_Remotes s' !! n = Some r ->
     exists m, m ∈ methods (s_Comp s) /\ remote_signature m /\
       rename (nameFunc (s_Options s)) (Name m) = n /\ r_Method r = m /\
       (HasArgs r = true <-> exists recv c a, ins m = [recv; c; a] /\ r_Type r = Some a)) /\
  (forall m, m ∈ methods (s_Comp s) -> remote_signature m ->
     is_Some (s_Remotes s' !! rename (nameFunc (s_Options s)) (Name m))).
Proof.
  unfold ExtractRemote. case_bool_decide; [done|]. destruct (isExported _ _); [|done]. cbn [negb].
  case_bool_decide as Hs; [done|]. intros [= <-]. cbn. split_and!; [done| | |].
  - intros He. apply Hs. by rewrite He.
  - intros n r Hl. apply suitable_lookup in Hl as [Hl|(m & Hin & Hok & Hn & ->)]; [done|].
    exists m. rewrite isRemoteMethod_spec in Hok. split_and!; [done..|]. cbn.
    rewrite bool_decide_eq_true. destruct (ins m) as [|x [|y [|z [|]]]]; naive_solver.
  - intros m Hin Hok. apply suitable_total. left. by rewrite isRemoteMethod_spec.
Qed.

(** A handler accepts a message exactly when its kind fits: a request
    sent to a handler without results is refused and stops the call, a
    notification sent to a handler with results is reported and goes on. *)
Theorem ValidateMessageType_correct (method : Method M) (msgType : byte) :
  (msgType = Message.Request \/ msgType = Message.Notify) ->
  ValidateMessageType (new_handler method) msgType =
    match outs method, bool_decide (msgType = Message.Request) with
    | [], true => (true, Some (ESentinel ErrRequestOnNotify))
    | _ :: _, false => (false, Some (ESentinel ErrNotifyOnRequest))
    | _, _ => (false, None)
    end.
Proof.
  intros [->| ->]; unfold ValidateMessageType, new_handler; cbn [MessageType];
    destruct (outs method); reflexivity.
Qed.

End Methods.

(** ** Witnesses *)

Definition ctx_type := TNamed "context.Context" Interface true false false.
Definition recv_type := TNamed "*Room" Ptr false false false.
Definition join_arg := TNamed "*JoinReq" Ptr false true true.
Definition join_method : Method Z :=
  mkMethod "Join" EmptyString [recv_type; ctx_type; join_arg] [join_arg; typeOfError]
    (fun h _ arg => (h, RPair arg None)).
Definition room : Comp Z := mkComp "Room" "*main.Room" [join_method] [].
Definition no_upper : string -> bool := fun _ => false.

Lemma ExtractRemote_correct_witness :
  exists s', ExtractRemote no_upper (NewService room [WithName "room"]) = Ok s' /\
    s_Name s' = "room" /\ is_Some (s_Remotes s' !! "Join").
Proof.
  destruct (ExtractRemote no_upper (NewService room [WithName "room"])) as [s'| |] eqn:E;
    [|exfalso; by vm_compute in E..].
  exists s'. split; [done|].
  destruct (ExtractRemote_correct no_upper (NewService room [WithName "room"]) s' E)
    as (H1 & _ & _ & H2).
  split; [exact H1|]. apply (H2 join_method); [by left|]. by apply isRemoteMethod_spec.
Defined.

Lemma ValidateMessageType_correct_witness :
  ValidateMessageType (new_handler join_method) Message.Notify =
    (false, Some (ESentinel ErrNotifyOnRequest)).
Proof. apply (ValidateMessageType_correct join_method Message.Notify). by right. Defined.

End Component.
