(* ===== verification/Store.v ===== *)
(** * Effects on the propagated maps

    The code that handles a call reads and writes the propagated maps, may
    fail and may panic; its effects on the maps stay when it fails. It is
    modelled in a state monad over the store, with an outcome. *)

From S2P Require Import Prelude Errors Context.
Import Ctx.

Module Store.

Definition st (A : Type) : Type := heap -> heap * result A.

#[export] Instance st_ret : MRet st := fun A a h => (h, Ok a).
#[export] Instance st_bind : MBind st :=
  fun A B f m h =>
    match m h with
    | (h, Ok a) => f a h
    | (h, Err e) => (h, Err e)
    | (h, Panics p) => (h, Panics p)
    end.

(** A computation without effects on the store, one that only reads it, and
    one that gives the new store with its result. *)
Definition lift {A} (r : result A) : st A := fun h => (h, r).
Definition reads {A} (f : heap -> result A) : st A := fun h => (h, f h).
Definition updates {A} (f : heap -> result (heap * A)) : st A :=
  fun h => match f h with
           | Ok (h, a) => (h, Ok a)
           | Err e => (h, Err e)
           | Panics p => (h, Panics p)
           end.

(** [v, err := m]: both the value and the error go on; a panic does not. *)
Definition catch {A} (m : st A) : st (A + error) :=
  fun h => match m h with
           | (h, Ok a) => (h, Ok (inl a))
           | (h, Err e) => (h, Ok (inr e))
           | (h, Panics p) => (h, Panics p)
           end.

Definition AddCtx (c : option ctx) (k : string) (v : gval) : st ctx :=
  updates (fun h => AddToPropagateCtx h c k v).
Definition GetCtx (c : option ctx) (k : string) : st gval :=
  reads (fun h => GetFromPropagateCtx h c k).

(** [m] as an update of a map of the store. *)
Definition StoreMap (l : option loc) (k : string) (v : gval) : st unit :=
  fun h => match map_store h l k v with
           | Ok h => (h, Ok tt)
           | Err e => (h, Err e)
           | Panics p => (h, Panics p)
           end.

(** ** Lemmas *)

Lemma bind_ok {A B} (m : st A) (f : A -> st B) h h' a : m h = (h', Ok a) -> (m ≫= f) h = f a h'.
Proof. unfold mbind, st_bind. by intros ->. Qed.

Lemma bind_inv {A B} (m : st A) (f : A -> st B) h h' b :
  (m ≫= f) h = (h', Ok b) -> exists a h1, m h = (h1, Ok a) /\ f a h1 = (h', Ok b).
Proof. unfold mbind, st_bind. destruct (m h) as [h1 [a| |]]; [eauto|done..]. Qed.

Lemma bind_lift {A B} (a : A) (f : A -> st B) h : (lift (Ok a) ≫= f) h = f a h.
Proof. done. Qed.

Lemma bind_lift_ok {A B} (r : result A) (a : A) (f : A -> st B) h :
  r = Ok a -> (lift r ≫= f) h = f a h.
Proof. by intros ->. Qed.

Lemma catch_ok {A} (m : st A) h h' a : m h = (h', Ok a) -> catch m h = (h', Ok (inl a)).
Proof. unfold catch. by intros ->. Qed.

(** Reading and writing through a context that carries a map. *)
Lemma GetCtx_map h c l k :
  ctx_map c = Some l -> GetCtx (Some c) k h = (h, Ok (default GNil (map_at h (Some l) !! k))).
Proof. intros Hl. unfold GetCtx, reads. by rewrite (Get_map h c l). Qed.

Lemma AddCtx_map h c l k v :
  ctx_map c = Some l ->
  AddCtx (Some c) k v h =
    (<[l := <[k := v]> (map_at h (Some l))]> h, Ok (WithValue c PropagateCtxKey (CMap (Some l)))).
Proof. intros Hl. unfold AddCtx, updates. by rewrite (Add_map h c l). Qed.

Lemma StoreMap_some h l k v :
  StoreMap (Some l) k v h = (<[l := <[k := v]> (map_at h (Some l))]> h, Ok tt).
Proof. done. Qed.

End Store.
