(* ===== verification/Protos.v ===== *)
(** * Messages on the wire: [protos/request.proto], [util/util.go] and
    [serialize/]

    The protobuf messages of a call, the interface of their encoding, the
    serializers, and the helpers of package util. *)

From S2P Require Import Prelude Utf8 Proto3 Errors Message Context Store.
From Stdlib Require Import Strings.Byte.
Import Ctx Store.

Module Protos.

(** ** Messages *)

(** The enum is open: any other number is a value too. *)
Inductive MsgType := MsgNotify | MsgRequest | MsgResponse | MsgOther (n : Z).
#[export] Instance MsgType_eq_dec : EqDecision MsgType.
Proof. solve_decision. Defined.

Record Msg := mkMsg {
  m_Id : Z;
  m_Route : string;
  m_Data : list byte;
  m_Reply : string;
  m_Type : MsgType
}.

(** [protos.Error]; a nil metadata map is [None]. *)
Record PError := mkPError { pe_Code : string; pe_Msg : string; pe_Metadata : smap }.

Record Request := mkRequest { rq_Msg : option Msg; rq_Metadata : list byte }.
Record Response := mkResponse { rs_Data : list byte; rs_Error : option PError }.

#[export] Instance Msg_eq_dec : EqDecision Msg.
Proof. solve_decision. Defined.
#[export] Instance PError_eq_dec : EqDecision PError.
Proof. solve_decision. Defined.
#[export] Instance Request_eq_dec : EqDecision Request.
Proof. solve_decision. Defined.
#[export] Instance Response_eq_dec : EqDecision Response.
Proof. solve_decision. Defined.

(** The getters of the generated code, which accept nil. *)
Definition GetRoute (req : Request) : string :=
  match rq_Msg req with Some m => m_Route m | None => EmptyString end.
Definition GetData (req : Request) : list byte :=
  match rq_Msg req with Some m => m_Data m | None => [] end.
Definition GetReply (req : Request) : string :=
  match rq_Msg req with Some m => m_Reply m | None => EmptyString end.

(** ** The encoding *)

(** proto.Marshal and proto.Unmarshal on the two messages. *)
Class Wire := {
  req_marshal : Request -> result (list byte);
  req_unmarshal : list byte -> result Request;
  res_marshal : Response -> result (list byte);
  res_unmarshal : list byte -> result Response
}.

(** A map field that is empty is absent after decoding. *)
Definition norm_metadata (m : smap) : smap :=
  match m with Some m => if decide (m = ∅) then None else Some m | None => None end.
Definition norm_error (e : PError) : PError :=
  mkPError (pe_Code e) (pe_Msg e) (norm_metadata (pe_Metadata e)).
Definition norm_response (r : Response) : Response :=
  mkResponse (rs_Data r) (norm_error <$> rs_Error r).

(** A message whose numbers fit their fields, and whose strings are valid
    UTF-8. *)
Definition type_fits (t : MsgType) : bool :=
  match t with
  | MsgOther n => (- 2 ^ 31 <=? n)%Z && (n <? 2 ^ 31)%Z && negb ((0 <=? n)%Z && (n <=? 2)%Z)
  | _ => true
  end.
Definition msg_fits (m : Msg) : bool :=
  (0 <=? m_Id m)%Z && (m_Id m <? 2 ^ 64)%Z && type_fits (m_Type m) &&
  Utf8.valid_string (m_Route m) && Utf8.valid_string (m_Reply m).
Definition plain_error (e : PError) : Prop :=
  Utf8.valid_string (pe_Code e) = true /\ Utf8.valid_string (pe_Msg e) = true /\
  map_Forall (fun k v => Utf8.valid_string k = true /\ Utf8.valid_string v = true) (smap_get (pe_Metadata e)).

(** Decoding gives back what was encoded; such a message can be encoded; no
    bytes are the message without fields. *)
Class WireLaws (W : Wire) := {
  req_roundtrip r b : req_marshal r = Ok b -> req_unmarshal b = Ok r;
  req_total r : (forall m, rq_Msg r = Some m -> msg_fits m = true) -> is_ok (req_marshal r) = true;
  req_empty : req_unmarshal [] = Ok (mkRequest None []);
  req_no_panic b p : req_unmarshal b <> Panics p;
  res_roundtrip r b : res_marshal r = Ok b -> res_unmarshal b = Ok (norm_response r);
  res_total r : (forall e, rs_Error r = Some e -> plain_error e) -> is_ok (res_marshal r) = true;
  res_error r e : res_marshal r = Err e -> e <> ENrpc None;
  res_no_panic r p : res_marshal r <> Panics p
}.

(** ** The wire format of the messages

    The field numbers and kinds of the struct tags; fields are written in the
    order of their numbers, and the members of a map in any order. *)

Section Codec.
Import Proto3.
Local Open Scope Z_scope.
Variable members : gmap string string -> list (string * string).
Hypothesis members_perm : forall m, members m ≡ₚ map_to_list m.

Definition type_number (t : MsgType) : Z :=
  match t with MsgNotify => 0 | MsgRequest => 1 | MsgResponse => 2 | MsgOther n => n end.
Definition number_type (n : Z) : MsgType :=
  if n =? 0 then MsgNotify else if n =? 1 then MsgRequest else if n =? 2 then MsgResponse else MsgOther n.
Definition int32 (n : Z) : Z := (n + 2 ^ 31) mod 2 ^ 32 - 2 ^ 31.

Definition msg_fields (m : Msg) : list field :=
  varint_field 1 (m_Id m) ++ string_field 2 (m_Route m) ++ bytes_field 3 (m_Data m) ++
  string_field 4 (m_Reply m) ++ varint_field 5 (u64 (type_number (m_Type m))).
Definition store_msg (m : Msg) (f : field) : option Msg :=
  match f with
  | (1, VVarint n) => Some (mkMsg n (m_Route m) (m_Data m) (m_Reply m) (m_Type m))
  | (2, VLen b) => s ← as_string b; Some (mkMsg (m_Id m) s (m_Data m) (m_Reply m) (m_Type m))
  | (3, VLen b) => Some (mkMsg (m_Id m) (m_Route m) b (m_Reply m) (m_Type m))
  | (4, VLen b) => s ← as_string b; Some (mkMsg (m_Id m) (m_Route m) (m_Data m) s (m_Type m))
  | (5, VVarint n) => Some (mkMsg (m_Id m) (m_Route m) (m_Data m) (m_Reply m) (number_type (int32 n)))
  | _ => Some m
  end.

Definition request_fields (r : Request) : list field :=
  match rq_Msg r with Some m => [(1, VLen (write (msg_fields m)))] | None => [] end ++
  bytes_field 2 (rq_Metadata r).
Definition empty_msg : Msg := mkMsg 0 EmptyString [] EmptyString MsgNotify.
Definition store_request (r : Request) (f : field) : option Request :=
  match f with
  | (1, VLen b) => m ← submessage store_msg (default empty_msg (rq_Msg r)) b;
                   Some (mkRequest (Some m) (rq_Metadata r))
  | (2, VLen b) => Some (mkRequest (rq_Msg r) b)
  | _ => Some r
  end.

(** A member of a map is a message of its key and value. *)
Definition member_field (kv : string * string) : field :=
  (3, VLen (write [(1, VLen (str_bytes kv.1)); (2, VLen (str_bytes kv.2))])).
Definition store_member (kv : string * string) (f : field) : option (string * string) :=
  match f with
  | (1, VLen b) => k ← as_string b; Some (k, kv.2)
  | (2, VLen b) => v ← as_string b; Some (kv.1, v)
  | _ => Some kv
  end.
Definition error_fields (e : PError) : list field :=
  string_field 1 (pe_Code e) ++ string_field 2 (pe_Msg e) ++
  (member_field <$> members (smap_get (pe_Metadata e))).
Definition store_error (e : PError) (f : field) : option PError :=
  match f with
  | (1, VLen b) => s ← as_string b; Some (mkPError s (pe_Msg e) (pe_Metadata e))
  | (2, VLen b) => s ← as_string b; Some (mkPError (pe_Code e) s (pe_Metadata e))
  | (3, VLen b) => kv ← submessage store_member (EmptyString, EmptyString) b;
                   Some (mkPError (pe_Code e) (pe_Msg e) (Some (<[kv.1 := kv.2]> (smap_get (pe_Metadata e)))))
  | _ => Some e
  end.

Definition response_fields (r : Response) : list field :=
  bytes_field 1 (rs_Data r) ++
  match rs_Error r with Some e => [(2, VLen (write (error_fields e)))] | None => [] end.
Definition empty_error : PError := mkPError EmptyString EmptyString None.
Definition store_response (r : Response) (f : field) : option Response :=
  match f with
  | (1, VLen b) => Some (mkResponse b (rs_Error r))
  | (2, VLen b) => e ← submessage store_error (default empty_error (rs_Error r)) b;
                   Some (mkResponse (rs_Data r) (Some e))
  | _ => Some r
  end.

(** ** Reading back what was written *)

Lemma number_type_number t : type_fits t = true -> number_type (int32 (u64 (type_number t))) = t.
Proof.
  intros H. assert (int32 (u64 (type_number t)) = type_number t) as ->.
  { unfold int32, u64. destruct t as [| | |n]; try done. cbn in *.
    rewrite !andb_true_iff, Z.leb_le, Z.ltb_lt in H.
    rewrite <-(Z.add_mod_idemp_l (n mod 2 ^ 64)), Z.mod_mod_divide by (lia || by exists (2 ^ 32)).
    rewrite Z.add_mod_idemp_l, Z.mod_small by lia. lia. }
  destruct t as [| | |n]; try done. cbn in *. unfold number_type.
  rewrite !andb_true_iff, negb_true_iff in H. destruct H as [_ H].
  destruct (Z.eqb_spec n 0); [by subst|]. destruct (Z.eqb_spec n 1); [by subst|].
  destruct (Z.eqb_spec n 2); [by subst|]. done.
Qed.

Lemma str_bytes_nil s : str_bytes s = [] -> s = EmptyString.
Proof. intros H. by rewrite <-(bytes_str_bytes s), H. Qed.

Lemma u64_fits t : type_fits t = true -> u64 (type_number t) = 0 -> t = MsgNotify.
Proof. intros H E. rewrite <-(number_type_number t H), E. done. Qed.

Lemma store_msg_back m : msg_fits m = true -> merge store_msg empty_msg (msg_fields m) = Some m.
Proof.
  unfold msg_fits. rewrite !andb_true_iff. intros ((((_ & _) & Ht) & Hr) & Hp).
  unfold msg_fields, string_field. destruct m as [i r d p t]. cbn [m_Id m_Route m_Data m_Reply m_Type] in *.
  rewrite merge_app, (merge_varint _ _ (mkMsg i EmptyString [] EmptyString MsgNotify)) by (done || by intros ->).
  cbn [mbind option_bind]. rewrite merge_app, (merge_bytes _ _ (mkMsg i r [] EmptyString MsgNotify));
    [|by intros ->%str_bytes_nil|cbn [store_msg]; by rewrite as_string_valid].
  cbn [mbind option_bind]. rewrite merge_app, (merge_bytes _ _ (mkMsg i r d EmptyString MsgNotify)); [|by intros ->|done].
  cbn [mbind option_bind]. rewrite merge_app, (merge_bytes _ _ (mkMsg i r d p MsgNotify));
    [|by intros ->%str_bytes_nil|cbn [store_msg]; by rewrite as_string_valid].
  cbn [mbind option_bind]. apply merge_varint; [by intros ->%u64_fits|]. intros _. cbn [store_msg].
  by rewrite number_type_number.
Qed.

Lemma msg_writable m : msg_fits m = true -> Forall writable (msg_fields m).
Proof.
  unfold msg_fits. rewrite !andb_true_iff. intros ((((H0 & H1) & _) & _) & _).
  apply Z.leb_le in H0. apply Z.ltb_lt in H1. pose proof (Z.mod_pos_bound (type_number (m_Type m)) (2 ^ 64) ltac:(lia)).
  unfold msg_fields, string_field. repeat apply Forall_app_2;
    try apply writable_bytes; try apply writable_varint; unfold MaxValidNumber, u64; lia.
Qed.

Lemma submessage_write {M} (step : M -> field -> option M) m fs :
  Forall writable fs -> submessage step m (write fs) = merge step m fs.
Proof. intros H. unfold submessage. by rewrite read_write. Qed.

(** ** Requests *)

Definition request_fits (r : Request) : bool :=
  match rq_Msg r with Some m => msg_fits m | None => true end.

Lemma request_writable r : Forall writable (request_fields r).
Proof.
  unfold request_fields. apply Forall_app_2; [|by apply writable_bytes].
  destruct (rq_Msg r); [|constructor]. constructor; [by split|constructor].
Qed.

Lemma store_request_back r : request_fits r = true ->
  submessage store_request (mkRequest None []) (write (request_fields r)) = Some r.
Proof.
  intros H. rewrite submessage_write by apply request_writable.
  unfold request_fields, request_fits in *. destruct r as [[m|] md]; cbn [rq_Msg rq_Metadata app merge store_request] in *.
  - rewrite submessage_write by (by apply msg_writable). cbn [default]. rewrite store_msg_back by done.
    cbn [mbind option_bind]. apply merge_bytes; [by intros ->|done].
  - apply merge_bytes; [by intros ->|done].
Qed.

(** ** Responses *)

Lemma store_member_back kv : Utf8.valid_string kv.1 = true -> Utf8.valid_string kv.2 = true ->
  submessage store_member (EmptyString, EmptyString)
    (write [(1, VLen (str_bytes kv.1)); (2, VLen (str_bytes kv.2))]) = Some kv.
Proof.
  intros H1 H2. rewrite submessage_write by (repeat constructor; done). cbn [merge store_member].
  rewrite (as_string_valid kv.1) by done. cbn [mbind option_bind merge store_member fst snd].
  rewrite (as_string_valid kv.2) by done. by destruct kv.
Qed.

Lemma store_members_back l : forall c s (m : gmap string string),
  Forall (fun kv => Utf8.valid_string kv.1 = true /\ Utf8.valid_string kv.2 = true) l -> NoDup l.*1 ->
  merge store_error (mkPError c s (Some m)) (member_field <$> l) =
    Some (mkPError c s (Some (list_to_map l ∪ m))).
Proof.
  induction l as [|[k v] l IH]; intros c s m Hl Hnd; [cbn; by rewrite (left_id_L ∅ (∪))|].
  inversion Hl as [|? ? [H1 H2] Hl']; subst. cbn [fmap list_fmap fst] in Hnd. apply NoDup_cons in Hnd as [Hk Hnd].
  cbn [fmap list_fmap merge store_error member_field]. rewrite store_member_back by done.
  cbn [mbind option_bind pe_Code pe_Msg pe_Metadata smap_get fst snd]. rewrite IH by done.
  cbn [list_to_map foldr uncurry fst snd]. rewrite <-insert_union_r by (by apply not_elem_of_list_to_map). by rewrite insert_union_l.
Qed.

Lemma store_metadata_back c s (m : smap) :
  map_Forall (fun k v => Utf8.valid_string k = true /\ Utf8.valid_string v = true) (smap_get m) ->
  merge store_error (mkPError c s None) (member_field <$> members (smap_get m)) =
    Some (mkPError c s (norm_metadata m)).
Proof.
  intros Hv. set (m0 := smap_get m) in *.
  assert (norm_metadata m = if decide (m0 = ∅) then None else Some m0) as ->
    by (subst m0; destruct m as [m|]; cbn; [done|by rewrite decide_True]).
  assert (Forall (fun kv => Utf8.valid_string kv.1 = true /\ Utf8.valid_string kv.2 = true) (members m0)) as Hl.
  { rewrite members_perm. apply map_Forall_to_list in Hv. eapply Forall_impl; [exact Hv|]. by intros []. }
  assert (NoDup (members m0).*1) as Hnd by (rewrite members_perm; apply NoDup_fst_map_to_list).
  assert (list_to_map (members m0) = m0) as Hm.
  { rewrite <-(list_to_map_to_list m0) at 2. apply list_to_map_proper; [done|apply members_perm]. }
  case_decide as He; [|].
  - rewrite He in *. pose proof (members_perm ∅) as Hp. rewrite map_to_list_empty in Hp.
    by apply Permutation_nil_r in Hp as ->.
  - destruct (members m0) as [|kv l] eqn:E; [cbn in Hm; by rewrite <-Hm in He|].
    (* a nil map and an empty one take the first member alike *)
    transitivity (merge store_error (mkPError c s (Some ∅)) (member_field <$> kv :: l)); [done|].
    rewrite store_members_back by done. by rewrite Hm, (right_id_L ∅ (∪)).
Qed.

Lemma error_writable e : Forall writable (error_fields e).
Proof.
  unfold error_fields, string_field. repeat apply Forall_app_2; try by apply writable_bytes.
  apply Forall_fmap, Forall_true. intros kv. by split.
Qed.

Lemma store_error_back e : plain_error e ->
  submessage store_error empty_error (write (error_fields e)) = Some (norm_error e).
Proof.
  intros (Hc & Hs & Hm). rewrite submessage_write by apply error_writable.
  unfold error_fields, string_field. destruct e as [c s m]. cbn [pe_Code pe_Msg pe_Metadata] in *.
  rewrite merge_app, (merge_bytes _ _ (mkPError c EmptyString None));
    [|by intros ->%str_bytes_nil|cbn [store_error]; by rewrite as_string_valid].
  cbn [mbind option_bind]. rewrite merge_app, (merge_bytes _ _ (mkPError c s None));
    [|by intros ->%str_bytes_nil|cbn [store_error]; by rewrite as_string_valid].
  cbn [mbind option_bind]. by apply store_metadata_back.
Qed.

Lemma response_writable r : Forall writable (response_fields r).
Proof.
  unfold response_fields. apply Forall_app_2; [by apply writable_bytes|].
  destruct (rs_Error r); [|constructor]. constructor; [by split|constructor].
Qed.

Lemma store_response_back r : (forall e, rs_Error r = Some e -> plain_error e) ->
  submessage store_response (mkResponse [] None) (write (response_fields r)) = Some (norm_response r).
Proof.
  intros H. rewrite submessage_write by apply response_writable.
  unfold response_fields, norm_response. destruct r as [d e]. cbn [rs_Data rs_Error] in *.
  rewrite merge_app, (merge_bytes _ _ (mkResponse d None)); [|by intros ->|done].
  cbn [mbind option_bind]. destruct e as [e|]; [|done]. cbn [merge store_response rs_Data rs_Error default fmap option_fmap option_map].
  by rewrite store_error_back by auto.
Qed.

(** ** The encoder and the decoder *)

Definition plain_errorb (e : PError) : bool :=
  Utf8.valid_string (pe_Code e) && Utf8.valid_string (pe_Msg e) &&
  forallb (fun kv => Utf8.valid_string kv.1 && Utf8.valid_string kv.2) (members (smap_get (pe_Metadata e))).

Lemma plain_errorb_spec e : plain_errorb e = true <-> plain_error e.
Proof.
  unfold plain_errorb, plain_error. rewrite !andb_true_iff, <-(Is_true_true (forallb _ _)), forallb_True, members_perm, map_Forall_to_list.
  match goal with |- _ /\ ?L <-> _ /\ _ /\ ?R => cut (L <-> R); [tauto|] end.
  split; intros H; (eapply Forall_impl; [exact H|]); intros []; cbn; by rewrite Is_true_true, andb_true_iff.
Qed.

Definition invalid_utf8 : error := EText "string field contains invalid UTF-8".
Definition malformed : error := EText "proto: cannot parse invalid wire-format data".
Definition encoded (fits : bool) (fs : list field) : result (list byte) :=
  if fits then Ok (write fs) else Err invalid_utf8.
Definition decoded {M} (m : option M) : result M :=
  match m with Some m => Ok m | None => Err malformed end.

Definition proto_wire_of : Wire := {|
  req_marshal r := encoded (request_fits r) (request_fields r);
  req_unmarshal b := decoded (submessage store_request (mkRequest None []) b);
  res_marshal r :=
    encoded (match rs_Error r with Some e => plain_errorb e | None => true end) (response_fields r);
  res_unmarshal b := decoded (submessage store_response (mkResponse [] None) b)
|}.

Lemma encoded_ok fits fs b : encoded fits fs = Ok b -> fits = true /\ b = write fs.
Proof. unfold encoded. destruct fits; [|done]. by intros [= <-]. Qed.

Lemma encoded_err fits fs e : encoded fits fs = Err e -> e = invalid_utf8.
Proof. unfold encoded. destruct fits; [done|]. by intros [= <-]. Qed.
Lemma encoded_no_panic fits fs p : encoded fits fs <> Panics p.
Proof. unfold encoded. by destruct fits. Qed.

Lemma proto_wire_of_laws : WireLaws proto_wire_of.
Proof.
  split; cbn [req_marshal req_unmarshal res_marshal res_unmarshal proto_wire_of].
  - intros r b [H ->]%encoded_ok. by rewrite store_request_back.
  - intros r H. unfold request_fits. destruct (rq_Msg r) as [m|]; [|done]. by rewrite H.
  - done.
  - intros b p. by destruct (submessage _ _ b).
  - intros r b [H ->]%encoded_ok. rewrite store_response_back; [done|].
    intros e He. rewrite He in H. by apply plain_errorb_spec.
  - intros r H. destruct (rs_Error r) as [e|]; [|done]. by rewrite (proj2 (plain_errorb_spec e) (H e eq_refl)).
  - by intros r e ->%encoded_err.
  - intros r p. apply encoded_no_panic.
Qed.

End Codec.

#[export] Instance proto_wire : Wire := proto_wire_of map_to_list.
#[export] Instance proto_wire_laws : WireLaws proto_wire.
Proof. by apply proto_wire_of_laws. Qed.

(** ** Serializers: [serialize/] *)

(** The values given to a serializer: raw bytes, a protobuf error message, a
    protobuf message or any other value. *)
Inductive sval := SBytes (b : list byte) | SError (e : PError) | SProto (n : Z) | SAny (n : Z).

(** [Unmarshal] into a protobuf error message: what the message holds
    afterwards (a decoder may have written to it before it failed), and the
    error. *)
Record Serializer := mkSerializer {
  Marshal : sval -> result (list byte);
  UnmarshalError : list byte -> PError -> PError * option error;
  GetName : string
}.

Definition is_proto (v : sval) : bool :=
  match v with SError _ | SProto _ => true | _ => false end.

(** The serializers of [serialize/json] and [serialize/protobuf], over the
    encoders [json] and [proto] of the libraries: protobuf refuses what is not
    a message. *)
Definition json_NewSerializer (json : Serializer) : Serializer :=
  mkSerializer (Marshal json) (UnmarshalError json) "json".
Definition protobuf_NewSerializer (proto : Serializer) : Serializer :=
  mkSerializer
    (fun v => if is_proto v then Marshal proto v else Err (ESentinel ErrWrongValueType))
    (UnmarshalError proto) "protobuf".

Definition JSON : Z := 1.
Definition PROTOBUF : Z := 2.

(** [NewSerializer]. *)
Definition NewSerializer (json proto : Serializer) (serializerType : Z) : result Serializer :=
  if (serializerType =? JSON)%Z then Ok (json_NewSerializer json)
  else if (serializerType =? PROTOBUF)%Z then Ok (protobuf_NewSerializer proto)
  else Err (EText "serializer type unknown").

(** ** [util/util.go] *)

(** [SerializeOrRaw]. *)
Definition SerializeOrRaw (s : Serializer) (v : sval) : result (list byte) :=
  match v with SBytes data => Ok data | v => Marshal s v end.

(** [GetErrorPayload]. *)
Definition error_code_metadata (err : error) : result (string * smap) :=
  match err with
  | ENrpc (Some val) => Ok (Code val, Metadata val)
  | ENrpc None => Panics NilDereference
  | _ => Ok (ErrUnknownCode, Some ∅)
  end.
Definition GetErrorPayload (s : Serializer) (err : error) : result (list byte) :=
  msg ← error_string err;
  '(code, metadata) ← error_code_metadata err;
  SerializeOrRaw s (SError (mkPError code msg
    (if bool_decide (0 < size (smap_get metadata))%nat then metadata else None))).

(** [GetErrorFromPayload]: the error of the decoding is ignored. *)
Definition GetErrorFromPayload (s : Serializer) (payload : list byte) : error :=
  let pErr := mkPError ErrUnknownCode EmptyString None in
  let '(pErr, _) := UnmarshalError s payload pErr in
  ENrpc (Some (mkError (pe_Code pErr) (pe_Msg pErr) (pe_Metadata pErr))).

(** [ConvertProtoToMessageType]; the zero value is [Request]. *)
Definition ConvertProtoToMessageType (t : MsgType) : byte :=
  match t with
  | MsgRequest => Message.Request
  | MsgNotify => Message.Notify
  | _ => Message.Request
  end.

(** [CtxWithDefaultLogger]: the logger is a value of the context. *)
Definition CtxWithDefaultLogger (c : option ctx) : st ctx :=
  requestID ← GetCtx c RequestIDKey;
  lift (with_value c LoggerCtxKey (CVal (GOther 0))).

(** [GetContextFromRequest]; [nuid] is the id [nuid.New().Next()] would
    give. *)
Definition GetContextFromRequest `{Json} (nuid : string) (req : Request) : st ctx :=
  ctx ← updates (fun h => Ctx.Decode h (rq_Metadata req));
  match ctx with
  | None => lift (Err (ESentinel ErrNoContextFound))
  | Some ctx =>
      requestID ← GetCtx (Some ctx) RequestIDKey;
      ctx ← (if match requestID with GStr rID => bool_decide (rID = EmptyString) | _ => true end
             then AddCtx (Some ctx) RequestIDKey (GStr nuid)
             else mret ctx);
      ctx ← AddCtx (Some ctx) RouteKey (GStr (GetRoute req));
      CtxWithDefaultLogger (Some ctx)
  end.

(** [GetRouteFromCtx]. *)
Definition GetRouteFromCtx (h : heap) (c : ctx) : result string :=
  match ctx_value c PropagateCtxKey with
  | Some (CMap l) =>
      match map_at h l !! RouteKey with
      | Some route => must_string route
      | None => Ok EmptyString
      end
  | _ => Ok EmptyString
  end.

(** ** Properties *)

Lemma sent_metadata_norm code msg md :
  let e := mkPError code msg (if bool_decide (0 < size (smap_get md))%nat then md else None) in norm_error e = e.
Proof.
  unfold norm_error. cbn. f_equal. case_bool_decide as H; [|done]. destruct md as [m|]; [|done]. cbn in *.
  rewrite decide_False; [done|]. intros ->. rewrite map_size_empty in H. lia.
Qed.

(** An error survives serialization: if the serializer decodes what it
    encodes, the error read from an error payload has the code, message and
    metadata of the error that was written (an error that is not an [*Error]
    has the unknown code and no metadata). *)
Theorem error_payload_roundtrip (s : Serializer) (err : error) (b : list byte) :
  (forall e p b, norm_error e = e -> Marshal s (SError e) = Ok b -> UnmarshalError s b p = (e, None)) ->
  GetErrorPayload s err = Ok b ->
  exists e, GetErrorFromPayload s b = ENrpc (Some e) /\
    error_string err = Ok (Message e) /\ Code e = FromError (Some err) /\
    smap_get (Metadata e) = match err with ENrpc (Some x) => smap_get (Metadata x) | _ => ∅ end.
Proof.
  intros Hrt H. unfold GetErrorPayload in H. outcome_inv.
  destruct x0 as [code md]. cbn [SerializeOrRaw] in H. apply (Hrt _ (mkPError ErrUnknownCode EmptyString None)) in H; [|apply sent_metadata_norm].
  unfold GetErrorFromPayload. rewrite H. eexists. split; [done|]. cbn.
  split; [done|]. destruct err as [| | |[x1|]]; cbn in H1; outcome_inv; cbn; try done.
  split; [done|]. case_bool_decide as Hs; [done|]. cbn. symmetry. apply map_size_empty_inv. lia.
Qed.

(** The protobuf codec of errors; other messages are encoded by [other]. What
    a decoding that fails leaves in the message is not kept. *)
Definition proto_codec (other : Z -> result (list byte)) : Serializer := mkSerializer
  (fun v => match v with
            | SError e => encoded (plain_errorb map_to_list e) (error_fields map_to_list e)
            | SProto n => other n
            | _ => Err (ESentinel ErrWrongValueType)
            end)
  (fun b p => match Proto3.submessage store_error empty_error b with
              | Some e => (e, None)
              | None => (p, Some malformed)
              end)
  "protobuf".

Lemma proto_codec_back other e p b :
  norm_error e = e -> Marshal (proto_codec other) (SError e) = Ok b ->
  UnmarshalError (proto_codec other) b p = (e, None).
Proof.
  intros Hn [H ->]%encoded_ok. cbn [UnmarshalError proto_codec].
  apply plain_errorb_spec in H; [|done]. by rewrite (store_error_back map_to_list), Hn.
Qed.

Lemma error_payload_roundtrip_witness :
  exists e, GetErrorFromPayload (proto_codec (fun _ => Ok []))
      (match GetErrorPayload (proto_codec (fun _ => Ok [])) (ESentinel ErrServerNotFound) with Ok b => b | _ => [] end) =
      ENrpc (Some e) /\ Code e = ErrUnknownCode /\ Message e = "server not found".
Proof.
  destruct (error_payload_roundtrip (proto_codec (fun _ => Ok [])) (ESentinel ErrServerNotFound)
    (match GetErrorPayload (proto_codec (fun _ => Ok [])) (ESentinel ErrServerNotFound) with Ok b => b | _ => [] end))
    as (e & H1 & H2 & H3 & _).
  - intros e p b. apply proto_codec_back.
  - reflexivity.
  - exists e. split; [done|]. split; [done|]. by injection H2 as ->.
Defined.

End Protos.
