(* ===== verification/Schema.v ===== *)
(** * The schema of the messages: [protos/request.proto] and the descriptor in
    [protos/request.pb.go]

    The generated code carries the description of the messages as bytes, in
    the wire format itself. They are read here, compared with the source they
    were generated from; the instance of [Wire] that Protos gives is shown to
    write what they describe. *)

From S2P Require Import Prelude Utf8 Proto3 Errors Protos.
From Stdlib Require Import Strings.Byte.
Import Proto3 Protos.

Module Schema.

Local Open Scope Z_scope.

(** ** Descriptors

    The messages of descriptor.proto, with the fields the compiler writes. *)

Record FieldDesc := mkField {
  fd_name : string; fd_number : Z; fd_label : Z; fd_type : Z; fd_type_name : string; fd_json_name : string
}.
Inductive MessageDesc := mkMessage
  (md_name : string) (md_field : list FieldDesc) (md_nested : list MessageDesc) (md_map_entry : bool).
Definition md_name (d : MessageDesc) : string := let '(mkMessage n _ _ _) := d in n.
Definition md_field (d : MessageDesc) : list FieldDesc := let '(mkMessage _ f _ _) := d in f.
Definition md_nested (d : MessageDesc) : list MessageDesc := let '(mkMessage _ _ n _) := d in n.
Definition md_map_entry (d : MessageDesc) : bool := let '(mkMessage _ _ _ e) := d in e.
Record EnumDesc := mkEnum { ed_name : string; ed_values : list (string * Z) }.
Record FileDesc := mkFile {
  file_name : string; file_package : string; file_messages : list MessageDesc;
  file_enums : list EnumDesc; file_go_package : string; file_syntax : string
}.

(** Labels and types of fields. *)
Definition LABEL_OPTIONAL : Z := 1.
Definition LABEL_REPEATED : Z := 3.
Definition TYPE_UINT64 : Z := 4.
Definition TYPE_STRING : Z := 9.
Definition TYPE_MESSAGE : Z := 11.
Definition TYPE_BYTES : Z := 12.
Definition TYPE_ENUM : Z := 14.

Definition store_field_desc (d : FieldDesc) (f : field) : option FieldDesc :=
  let '(mkField n i l t tn j) := d in
  match f with
  | (1, VLen b) => s ← as_string b; Some (mkField s i l t tn j)
  | (3, VVarint v) => Some (mkField n v l t tn j)
  | (4, VVarint v) => Some (mkField n i v t tn j)
  | (5, VVarint v) => Some (mkField n i l v tn j)
  | (6, VLen b) => s ← as_string b; Some (mkField n i l t s j)
  | (10, VLen b) => s ← as_string b; Some (mkField n i l t tn s)
  | _ => None
  end.

Definition store_message_options (e : bool) (f : field) : option bool :=
  match f with (7, VVarint v) => Some (negb (v =? 0)) | _ => None end.

(** [fuel] bounds how deep messages are nested. *)
Fixpoint store_message_desc (fuel : nat) (d : MessageDesc) (f : field) : option MessageDesc :=
  let '(mkMessage n fs ms e) := d in
  match f with
  | (1, VLen b) => s ← as_string b; Some (mkMessage s fs ms e)
  | (2, VLen b) =>
      x ← submessage store_field_desc (mkField EmptyString 0 0 0 EmptyString EmptyString) b;
      Some (mkMessage n (fs ++ [x]) ms e)
  | (3, VLen b) =>
      match fuel with
      | O => None
      | S fuel =>
          x ← submessage (store_message_desc fuel) (mkMessage EmptyString [] [] false) b;
          Some (mkMessage n fs (ms ++ [x]) e)
      end
  | (7, VLen b) => e ← submessage store_message_options e b; Some (mkMessage n fs ms e)
  | _ => None
  end.

Definition store_enum_value (v : string * Z) (f : field) : option (string * Z) :=
  match f with
  | (1, VLen b) => s ← as_string b; Some (s, v.2)
  | (2, VVarint n) => Some (v.1, n)
  | _ => None
  end.
Definition store_enum_desc (d : EnumDesc) (f : field) : option EnumDesc :=
  match f with
  | (1, VLen b) => s ← as_string b; Some (mkEnum s (ed_values d))
  | (2, VLen b) => v ← submessage store_enum_value (EmptyString, 0) b;
                   Some (mkEnum (ed_name d) (ed_values d ++ [v]))
  | _ => None
  end.

Definition store_file_options (s : string) (f : field) : option string :=
  match f with (11, VLen b) => as_string b | _ => None end.
Definition store_file_desc (d : FileDesc) (f : field) : option FileDesc :=
  let '(mkFile n p ms es g y) := d in
  match f with
  | (1, VLen b) => s ← as_string b; Some (mkFile s p ms es g y)
  | (2, VLen b) => s ← as_string b; Some (mkFile n s ms es g y)
  | (4, VLen b) => m ← submessage (store_message_desc 1) (mkMessage EmptyString [] [] false) b;
                   Some (mkFile n p (ms ++ [m]) es g y)
  | (5, VLen b) => e ← submessage store_enum_desc (mkEnum EmptyString []) b;
                   Some (mkFile n p ms (es ++ [e]) g y)
  | (8, VLen b) => s ← submessage store_file_options g b; Some (mkFile n p ms es s y)
  | (12, VLen b) => s ← as_string b; Some (mkFile n p ms es g s)
  | _ => None
  end.
Definition read_file (b : list byte) : option FileDesc :=
  submessage store_file_desc (mkFile EmptyString EmptyString [] [] EmptyString EmptyString) b.

(** ** The descriptor in the generated code *)

Definition file_protos_request_proto_rawDesc : list byte := byte_of_Z <$> [
   10; 20; 112; 114; 111; 116; 111; 115; 47; 114; 101; 113; 117; 101; 115; 116; 46; 112; 114; 111;
   116; 111; 18; 6; 112; 114; 111; 116; 111; 115; 34; 122; 10; 3; 77; 115; 103; 18; 14; 10;
   2; 105; 100; 24; 1; 32; 1; 40; 4; 82; 2; 105; 100; 18; 20; 10; 5; 114; 111; 117;
   116; 101; 24; 2; 32; 1; 40; 9; 82; 5; 114; 111; 117; 116; 101; 18; 18; 10; 4; 100;
   97; 116; 97; 24; 3; 32; 1; 40; 12; 82; 4; 100; 97; 116; 97; 18; 20; 10; 5; 114;
   101; 112; 108; 121; 24; 4; 32; 1; 40; 9; 82; 5; 114; 101; 112; 108; 121; 18; 35; 10;
   4; 116; 121; 112; 101; 24; 5; 32; 1; 40; 14; 50; 15; 46; 112; 114; 111; 116; 111; 115;
   46; 77; 115; 103; 84; 121; 112; 101; 82; 4; 116; 121; 112; 101; 34; 68; 10; 7; 82; 101;
   113; 117; 101; 115; 116; 18; 29; 10; 3; 109; 115; 103; 24; 1; 32; 1; 40; 11; 50; 11;
   46; 112; 114; 111; 116; 111; 115; 46; 77; 115; 103; 82; 3; 109; 115; 103; 18; 26; 10; 8;
   109; 101; 116; 97; 100; 97; 116; 97; 24; 2; 32; 1; 40; 12; 82; 8; 109; 101; 116; 97;
   100; 97; 116; 97; 34; 163; 1; 10; 5; 69; 114; 114; 111; 114; 18; 18; 10; 4; 99; 111;
   100; 101; 24; 1; 32; 1; 40; 9; 82; 4; 99; 111; 100; 101; 18; 16; 10; 3; 109; 115;
   103; 24; 2; 32; 1; 40; 9; 82; 3; 109; 115; 103; 18; 55; 10; 8; 109; 101; 116; 97;
   100; 97; 116; 97; 24; 3; 32; 3; 40; 11; 50; 27; 46; 112; 114; 111; 116; 111; 115; 46;
   69; 114; 114; 111; 114; 46; 77; 101; 116; 97; 100; 97; 116; 97; 69; 110; 116; 114; 121; 82;
   8; 109; 101; 116; 97; 100; 97; 116; 97; 26; 59; 10; 13; 77; 101; 116; 97; 100; 97; 116;
   97; 69; 110; 116; 114; 121; 18; 16; 10; 3; 107; 101; 121; 24; 1; 32; 1; 40; 9; 82;
   3; 107; 101; 121; 18; 20; 10; 5; 118; 97; 108; 117; 101; 24; 2; 32; 1; 40; 9; 82;
   5; 118; 97; 108; 117; 101; 58; 2; 56; 1; 34; 67; 10; 8; 82; 101; 115; 112; 111; 110;
   115; 101; 18; 18; 10; 4; 100; 97; 116; 97; 24; 1; 32; 1; 40; 12; 82; 4; 100; 97;
   116; 97; 18; 35; 10; 5; 101; 114; 114; 111; 114; 24; 2; 32; 1; 40; 11; 50; 13; 46;
   112; 114; 111; 116; 111; 115; 46; 69; 114; 114; 111; 114; 82; 5; 101; 114; 114; 111; 114; 42;
   57; 10; 7; 77; 115; 103; 84; 121; 112; 101; 18; 13; 10; 9; 77; 115; 103; 78; 111; 116;
   105; 102; 121; 16; 0; 18; 14; 10; 10; 77; 115; 103; 82; 101; 113; 117; 101; 115; 116; 16;
   1; 18; 15; 10; 11; 77; 115; 103; 82; 101; 115; 112; 111; 110; 115; 101; 16; 2; 66; 32;
   90; 30; 103; 105; 116; 104; 117; 98; 46; 99; 111; 109; 47; 115; 101; 97; 110; 98; 105; 116;
   47; 110; 114; 112; 99; 47; 112; 114; 111; 116; 111; 115; 98; 6; 112; 114; 111; 116; 111; 51].

(** [MsgType_name] and [MsgType_value]. *)
Definition MsgType_name : list (Z * string) := [(0, "MsgNotify"); (1, "MsgRequest"); (2, "MsgResponse")].
Definition MsgType_value : list (string * Z) := [("MsgNotify", 0); ("MsgRequest", 1); ("MsgResponse", 2)].

(** ** The source *)

(** A field as it is declared; in JSON it has its own name. *)
Definition scalar (name : string) (number type : Z) : FieldDesc :=
  mkField name number LABEL_OPTIONAL type EmptyString name.
Definition named_type (name : string) (number type : Z) (type_name : string) : FieldDesc :=
  mkField name number LABEL_OPTIONAL type type_name name.

(** [protos/request.proto]. A map is a repeated message of its members. *)
Definition message_Msg : MessageDesc := mkMessage "Msg" [
  scalar "id" 1 TYPE_UINT64; scalar "route" 2 TYPE_STRING; scalar "data" 3 TYPE_BYTES;
  scalar "reply" 4 TYPE_STRING; named_type "type" 5 TYPE_ENUM ".protos.MsgType"] [] false.
Definition message_Request : MessageDesc := mkMessage "Request" [
  named_type "msg" 1 TYPE_MESSAGE ".protos.Msg"; scalar "metadata" 2 TYPE_BYTES] [] false.
Definition message_MetadataEntry : MessageDesc := mkMessage "MetadataEntry" [
  scalar "key" 1 TYPE_STRING; scalar "value" 2 TYPE_STRING] [] true.
Definition message_Error : MessageDesc := mkMessage "Error" [
  scalar "code" 1 TYPE_STRING; scalar "msg" 2 TYPE_STRING;
  mkField "metadata" 3 LABEL_REPEATED TYPE_MESSAGE ".protos.Error.MetadataEntry" "metadata"]
  [message_MetadataEntry] false.
Definition message_Response : MessageDesc := mkMessage "Response" [
  scalar "data" 1 TYPE_BYTES; named_type "error" 2 TYPE_MESSAGE ".protos.Error"] [] false.
Definition enum_MsgType : EnumDesc := mkEnum "MsgType" MsgType_value.
Definition request_proto : FileDesc := mkFile "protos/request.proto" "protos"
  [message_Msg; message_Request; message_Error; message_Response] [enum_MsgType]
  "github.com/seanbit/nrpc/protos" "proto3".

Lemma rawDesc_read : read_file file_protos_request_proto_rawDesc = Some request_proto.
Proof. vm_compute. reflexivity. Qed.

(** ** Fields as a schema declares them *)

(** The messages of a file under their full names. *)
Fixpoint full_names (scope : string) (d : MessageDesc) : list (string * MessageDesc) :=
  let '(mkMessage n _ nested _) := d in
  let name := scope +:+ "." +:+ n in (name, d) :: flat_map (full_names name) nested.
Definition find_message (file : FileDesc) (name : string) : option MessageDesc :=
  snd <$> find (fun '(n, _) => bool_decide (n = name)) (flat_map (full_names ("." +:+ file_package file)) (file_messages file)).

(** A field is declared under its number, its wire type is that of its
    declared type, a string is valid UTF-8 and a message conforms in turn. *)
Definition conforms_field (sub : string -> list field -> bool) (d : MessageDesc) (f : field) : bool :=
  match find (fun fd => fd_number fd =? f.1) (md_field d) with
  | None => false
  | Some fd =>
      match f.2 with
      | VVarint _ => (fd_type fd =? TYPE_UINT64) || (fd_type fd =? TYPE_ENUM)
      | VLen b =>
          if fd_type fd =? TYPE_STRING then Utf8.valid_string (bytes_str b)
          else if fd_type fd =? TYPE_MESSAGE then
            match read b with Some fs => sub (fd_type_name fd) fs | None => false end
          else fd_type fd =? TYPE_BYTES
      | _ => false
      end
  end.
Fixpoint conforms (fuel : nat) (file : FileDesc) (name : string) (fs : list field) : bool :=
  match fuel, find_message file name with
  | S fuel, Some d => forallb (conforms_field (conforms fuel file) d) fs
  | _, _ => false
  end.

Lemma forallb_varint (p : field -> bool) num n :
  p (num, VVarint n) = true -> forallb p (varint_field num n) = true.
Proof. intros H. unfold varint_field. destruct (n =? 0); [done|]. cbn. by rewrite H. Qed.
Lemma forallb_bytes (p : field -> bool) num b :
  p (num, VLen b) = true -> forallb p (bytes_field num b) = true.
Proof. intros H. unfold bytes_field. destruct b; [done|]. cbn. by rewrite H. Qed.

Lemma conforms_string sub d num s : Utf8.valid_string s = true ->
  (fd_type <$> find (fun fd => fd_number fd =? num) (md_field d)) = Some TYPE_STRING ->
  conforms_field sub d (num, VLen (str_bytes s)) = true.
Proof.
  intros H Hd. unfold conforms_field. cbn [fst snd]. destruct (find _ _) as [fd|]; [|done].
  injection Hd as ->. cbn [Z.eqb]. by rewrite bytes_str_bytes.
Qed.

(** One message inside another. *)
Lemma conforms_message sub d num fs name : Forall writable fs -> sub name fs = true ->
  (fun fd => (fd_type fd, fd_type_name fd)) <$> find (fun fd => fd_number fd =? num) (md_field d) =
    Some (TYPE_MESSAGE, name) ->
  conforms_field sub d (num, VLen (write fs)) = true.
Proof.
  intros Hw Hs Hd. unfold conforms_field. cbn [fst snd]. destruct (find _ _) as [fd|]; [|done].
  injection Hd as -> ->. cbn. by rewrite read_write.
Qed.

Ltac conform := rewrite ?forallb_app, ?andb_true_iff; split_and?;
  lazymatch goal with
  | |- forallb _ (varint_field _ _) = true => by apply forallb_varint
  | |- forallb _ (string_field _ _) = true => apply forallb_bytes, conforms_string; [done|reflexivity]
  | |- forallb _ (bytes_field _ _) = true => by apply forallb_bytes
  | _ => idtac
  end.

Lemma msg_conforms k m : msg_fits m = true -> conforms (S k) request_proto ".protos.Msg" (msg_fields m) = true.
Proof.
  unfold msg_fits. rewrite !andb_true_iff. intros (((_ & _) & Hr) & Hp).
  change (forallb (conforms_field (conforms k request_proto) message_Msg) (msg_fields m) = true).
  unfold msg_fields. conform.
Qed.

Lemma request_conforms k r : request_fits r = true ->
  conforms (S (S k)) request_proto ".protos.Request" (request_fields r) = true.
Proof.
  intros H. change (forallb (conforms_field (conforms (S k) request_proto) message_Request) (request_fields r) = true).
  unfold request_fields, request_fits in *. conform.
  destruct (rq_Msg r) as [m|]; [|done]. cbn [forallb]. rewrite andb_true_r.
  apply (conforms_message _ _ _ _ ".protos.Msg"); [by apply msg_writable|by apply msg_conforms|reflexivity].
Qed.

Lemma error_conforms k e : plain_error e ->
  conforms (S (S k)) request_proto ".protos.Error" (error_fields map_to_list e) = true.
Proof.
  intros (Hc & Hm & Hmd).
  change (forallb (conforms_field (conforms (S k) request_proto) message_Error) (error_fields map_to_list e) = true).
  unfold error_fields. conform. apply Is_true_true, forallb_True, Forall_fmap.
  apply map_Forall_to_list in Hmd. eapply Forall_impl; [exact Hmd|]. intros [key val] [Hk Hv].
  apply Is_true_true, (conforms_message _ _ _ _ ".protos.Error.MetadataEntry"); [by repeat constructor| |reflexivity].
  change (forallb (conforms_field (conforms k request_proto) message_MetadataEntry)
    [(1, VLen (str_bytes key)); (2, VLen (str_bytes val))] = true).
  cbn [forallb]. by rewrite !conforms_string.
Qed.

Lemma response_conforms k r : (forall e, rs_Error r = Some e -> plain_error e) ->
  conforms (S (S (S k))) request_proto ".protos.Response" (response_fields map_to_list r) = true.
Proof.
  intros H.
  change (forallb (conforms_field (conforms (S (S k)) request_proto) message_Response) (response_fields map_to_list r) = true).
  unfold response_fields. conform. destruct (rs_Error r) as [e|]; [|done]. cbn [forallb]. rewrite andb_true_r.
  apply (conforms_message _ _ _ _ ".protos.Error"); [apply error_writable|by apply error_conforms; auto|reflexivity].
Qed.

(** ** The promise *)

(** The bytes of a call are what [protos/request.proto] says: the
    descriptor carried by the generated code describes the messages of that
    file; what is encoded for a request or a response, with numbers that fit
    and strings that are valid UTF-8, is a sequence of fields each declared
    there under its number with its type, down to the members of maps; and
    decoding it gives the message back, an empty map excepted, which comes
    back absent. *)
Theorem wire_follows_schema (req : Request) (res : Response) :
  request_fits req = true -> (forall e, rs_Error res = Some e -> plain_error e) ->
  read_file file_protos_request_proto_rawDesc = Some request_proto /\
  (exists b fs, req_marshal req = Ok b /\ read b = Some fs /\
     conforms 3 request_proto ".protos.Request" fs = true /\ req_unmarshal b = Ok req) /\
  (exists b fs, res_marshal res = Ok b /\ read b = Some fs /\
     conforms 3 request_proto ".protos.Response" fs = true /\ res_unmarshal b = Ok (norm_response res)).
Proof.
  intros Hreq Hres. split; [exact rawDesc_read|]. split.
  - exists (write (request_fields req)), (request_fields req).
    assert (req_marshal req = Ok (write (request_fields req))) as E by (cbn; unfold encoded; by rewrite Hreq).
    split_and!; [done|apply read_write, request_writable|by apply request_conforms|by apply (req_roundtrip (W := proto_wire))].
  - pose proof (res_total (W := proto_wire) res Hres) as Ht.
    destruct (res_marshal res) as [b| |] eqn:E; [|done..].
    pose proof (proj2 (encoded_ok _ _ _ E)) as Eb. exists b, (response_fields map_to_list res). subst b.
    split_and!; [done|apply read_write, response_writable|by apply response_conforms|by apply (res_roundtrip (W := proto_wire))].
Qed.

Definition ex_req : Request :=
  mkRequest (Some (mkMsg 300 "chat.room.join" (str_bytes "hi") "_INBOX.1" MsgRequest)) (str_bytes "{}").
Definition ex_res : Response :=
  mkResponse [] (Some (mkPError "NRPC-404" "not found" (Some {["id" := "7"]}))).

Lemma wire_follows_schema_witness :
  exists b, req_marshal ex_req = Ok b /\ byte_to_Z <$> take 8 b = [10; 35; 8; 172; 2; 18; 14; 99] /\
    req_unmarshal b = Ok ex_req.
Proof.
  destruct (wire_follows_schema ex_req ex_res) as (_ & (b & fs & Hb & _ & _ & Hu) & _).
  - reflexivity.
  - intros e [= <-]. split_and!; [reflexivity..|]. cbn. apply map_Forall_singleton. by split.
  - exists b. split; [exact Hb|]. split; [|exact Hu]. vm_compute in Hb. injection Hb as <-. reflexivity.
Defined.

End Schema.
