(* ===== verification/Nats.v ===== *)
(** * Remote calls over NATS: [cluster/cluster.go], [cluster/nats_rpc_client.go],
    [cluster/nats_rpc_server.go], [cluster/nats_rpc_common.go], [tracing/span.go]

    The client builds a request from the propagated context, sends it and
    reads the answer; the server rebuilds the context, applies the deadline,
    dispatches the request and publishes one answer. The NATS connection,
    the protobuf and JSON encodings, the tracer and the clock are
    parameters. *)

From S2P Require Import Prelude GoJson Errors GoStd Duration Message Route Context Metrics Discovery Store Protos.
From Stdlib Require Import Strings.Byte.
Import Ctx GoStd Store Protos.

(** ** [tracing/span.go] *)

Module Tracing.

(** The global tracer: starting a span with an optional parent, reading a
    span context from a carrier and writing one. Spans and span contexts are
    known by numbers. *)
Class Tracer := {
  start_span : string -> option Z -> Z;
  tracer_extract : gmap string string -> result Z;
  tracer_inject : Z -> result (gmap string string)
}.

(** [castValueToCarrier]: the fields that are not strings are dropped. *)
Definition castValueToCarrier (v : gval) : result (gmap string string) :=
  match v with
  | GCarrier m => Ok m
  | GJson (GoJson.JObj l) => Ok (omap GoJson.as_string (GoJson.obj_map l))
  | _ => Err (ESentinel ErrInvalidSpanCarrier)
  end.

Lemma castValueToCarrier_returns v p : castValueToCarrier v <> Panics p.
Proof. unfold castValueToCarrier. by repeat case_match. Qed.

(** [opentracing.SpanFromContext]; a nil context is dereferenced. *)
Definition SpanFromContext (c : option ctx) : result (option Z) :=
  match c with
  | None => Panics NilDereference
  | Some c =>
      match ctx_value c SpanKey with
      | Some (CVal (GOther n)) => Ok (Some n)
      | _ => Ok None
      end
  end.

Section Trace.
Context {T : Tracer}.

Definition ExtractSpan (h : heap) (c : option ctx) : result (option Z) :=
  span ← SpanFromContext c;
  match span with
  | Some s => Ok (Some s)
  | None =>
      s ← GetFromPropagateCtx h c SpanPropagateCtxKey;
      if bool_decide (s = GNil) then Ok None
      else
        carrier ← castValueToCarrier s;
        spanCtx ← tracer_extract carrier;
        Ok (Some spanCtx)
  end.

(** [InjectSpan]: on an error the context it returns is nil. *)
Definition InjectSpan (c : option ctx) : st (option ctx * option error) :=
  span ← lift (SpanFromContext c);
  match span with
  | None => mret (c, None)
  | Some s =>
      match tracer_inject s with
      | Ok spanData =>
          c ← AddCtx c SpanPropagateCtxKey (GCarrier spanData);
          mret (Some c, None)
      | Err e => mret (None, Some e)
      | Panics p => lift (Panics p)
      end
  end.

(** [StartSpan] with one reference. *)
Definition StartSpan (c : option ctx) (opName : string) (parent : option Z) : result ctx :=
  with_value c SpanKey (CVal (GOther (start_span opName parent))).

End Trace.

End Tracing.

Module Nats.
Import Discovery Tracing.

(** ** [cluster/nats_rpc_common.go] and [cluster/cluster.go] *)

Definition getChannel (serverType serverID : string) : string :=
  "nrpc/servers/" +:+ serverType +:+ "/" +:+ serverID.

(** The connection: a request with a timeout, and a publication. *)
Class Conn := {
  conn_Request : string -> list byte -> Z -> result (list byte);
  conn_Publish : string -> list byte -> result unit
}.

(** [nats.ErrTimeout]. *)
Definition nats_ErrTimeout : error := ELib "nats.ErrTimeout" "nats: timeout".

(** [IHandler]. *)
Definition IHandler : Type := ctx -> Request -> st (option Response * option error).

(** A publication: its subject and data. *)
Abbreviation pub := (string * list byte)%type.

Section Calls.
Context {J : Json} {P : Wire} {T : Tracer}.

(** [buildRequest]: the span is injected, the peer is recorded, and the map
    is encoded; an injection error is logged only. *)
Definition proto_type (t : byte) : MsgType :=
  if bool_decide (t = Message.Request) then MsgRequest else MsgNotify.
Definition buildRequest (c : option ctx) (route : Route.Route) (msg : Message.Message)
    (thisServer : Server) : st Request :=
  '(c, _) ← InjectSpan c;
  c ← AddCtx c PeerIDKey (GStr (ID thisServer));
  c ← AddCtx (Some c) PeerServiceKey (GStr (Type_ thisServer));
  metadata ← reads (fun h => Ctx.Encode h (Some c));
  mret (mkRequest (Some (mkMsg 0 (Route.String_ route) (Message.Data msg) EmptyString
                           (proto_type (Message.Typ msg))))
          (default [] metadata)).

(** ** [cluster/nats_rpc_client.go] *)

(** [config.NatsRPCClientConfig]. *)
Record NatsRPCClientConfig := {
  cc_Connect : string;
  cc_MaxReconnectionRetries : Z;
  cc_RequestTimeout : Z;
  cc_ConnectionTimeout : Z;
  cc_WebsocketCompression : bool;
  cc_ReconnectJitter : Z;
  cc_ReconnectJitterTLS : Z;
  cc_ReconnectWait : Z;
  cc_PingInterval : Z;
  cc_MaxPingsOutstanding : Z
}.

Record NatsRPCClient := mkClient {
  cl_config : NatsRPCClientConfig;
  cl_running : bool;
  cl_server : Server
}.

(** [NewNatsRPCClient] and [configure]. *)
Definition NewNatsRPCClient (config : NatsRPCClientConfig) (server : Server) : result NatsRPCClient :=
  if bool_decide (cc_Connect config = EmptyString) then Err (ESentinel ErrNoNatsConnectionString)
  else if (cc_RequestTimeout config =? 0)%Z then Err (ESentinel ErrNatsNoRequestTimeout)
  else Ok (mkClient config false server).

(** [stop]. *)
Definition client_stop (ns : NatsRPCClient) : NatsRPCClient :=
  mkClient (cl_config ns) false (cl_server ns).

Section WithConn.
Context {C : Conn}.

Definition Send (ns : NatsRPCClient) (topic : string) (data : list byte) : result unit :=
  if cl_running ns then conn_Publish topic data
  else Err (ESentinel ErrRPCClientNotInitialized).

(** The values of the request that are set in the map unless they are there:
    the request id, the timeout and the start time. *)
Definition set_request_id (c : option ctx) (propagate : option loc) (nuid : string) : st unit :=
  requestID ← GetCtx c RequestIDKey;
  match requestID with
  | GNil => StoreMap propagate RequestIDKey (GStr nuid)
  | GStr rID =>
      if bool_decide (rID = EmptyString) then StoreMap propagate RequestIDKey (GStr nuid) else mret tt
  | _ => mret tt
  end.
Definition set_timeout (ns : NatsRPCClient) (c : option ctx) (propagate : option loc) : st gval :=
  reqTimeout ← GetCtx c RequestTimeout;
  if bool_decide (reqTimeout = GNil) then
    let reqTimeout := GStr (Duration.duration_string (cc_RequestTimeout (cl_config ns))) in
    StoreMap propagate RequestTimeout reqTimeout;; mret reqTimeout
  else mret reqTimeout.
Definition set_start_time (c : option ctx) (propagate : option loc) (now : Z) : st unit :=
  startTimeVal ← GetCtx c StartTimeKey;
  if bool_decide (startTimeVal = GNil)
  then StoreMap propagate StartTimeKey (GStr (FormatInt now))
  else mret tt.

(** The error of the connection, as the caller sees it. *)
Definition call_error (ns : NatsRPCClient) (route : Route.Route) (server : Server) (timeout : Z)
    (err : error) : result error :=
  if bool_decide (err = nats_ErrTimeout) then
    e ← NewError (Some (ESentinel ErrRPCRequestTimeout)) "PIT-408"
          [Some (<["timeout" := Duration.duration_string timeout]> (<["route" := Route.String_ route]>
             (<["server" := ID (cl_server ns)]> {["peer.id" := ID server]})))];
    Ok (ENrpc e)
  else Ok err.

(** The answer, as the caller sees it: an error of the answer is returned as
    an error, with the unknown code when it has none. *)
Definition read_response (data : list byte) : result Response :=
  res ← res_unmarshal data;
  match rs_Error res with
  | Some e =>
      let code := if bool_decide (pe_Code e = EmptyString) then ErrUnknownCode else pe_Code e in
      Err (ENrpc (Some (mkError code (pe_Msg e) (pe_Metadata e))))
  | None => Ok res
  end.

(** Sending the request by the type of the message. *)
Definition transmit (ns : NatsRPCClient) (route : Route.Route) (msg : Message.Message)
    (server : Server) (reqTimeout : gval) (data : list byte) : result Response :=
  let channel := getChannel (Type_ server) (ID server) in
  if bool_decide (Message.Typ msg = Message.Request) then
    t ← must_string reqTimeout;
    let '(timeout, _) := Duration.ParseDuration t in
    match conn_Request channel data timeout with
    | Ok m => read_response m
    | Err err => err ← call_error ns route server timeout err; Err err
    | Panics p => Panics p
    end
  else if bool_decide (Message.Typ msg = Message.Notify) then
    match conn_Publish channel data with
    | Ok _ => Ok (mkResponse [] None)
    | Err err => err ← call_error ns route server 0 err; Err err
    | Panics p => Panics p
    end
  else Ok (mkResponse [] None).

(** [Call] up to the request: the span, the map, the request and its bytes.
    [nuid] is the id [nuid.Next()] would give and [now] the clock. *)
Definition prepare (ns : NatsRPCClient) (nuid : string) (now : Z) (c : option ctx)
    (route : Route.Route) (msg : Message.Message) (server : option Server)
  : st (ctx * Server * gval * list byte) :=
  parent ← catch (reads (fun h => ExtractSpan h c));
  server ← lift (match server with Some s => Ok s | None => Panics NilDereference end);
  let parent := match parent with inl p => p | inr _ => None end in
  c ← lift (StartSpan c "NATS RPC Call" parent);
  if negb (cl_running ns) then lift (Err (ESentinel ErrRPCClientNotInitialized))
  else
    propagate ← updates (fun h => ToMap h (Some c));
    StoreMap propagate RouteKey (GStr (Route.String_ route));;
    set_request_id (Some c) propagate nuid;;
    reqTimeout ← set_timeout ns (Some c) propagate;
    set_start_time (Some c) propagate now;;
    let c := WithValue c PropagateCtxKey (CMap propagate) in
    req ← buildRequest (Some c) route msg (cl_server ns);
    marshalledData ← lift (req_marshal req);
    mret (c, server, reqTimeout, marshalledData).

(** [Call]: the request is sent and its answer read, and the time it took,
    at [done], is reported. The value is what the function returns. *)
Definition err_of {A} (r : result A) : option error :=
  match r with Err e => Some e | _ => None end.
Definition Call {W} (ns : NatsRPCClient) (nuid : string) (now done : Z)
    (reporters : list (Metrics.Reporter W)) (w : W) (c : option ctx)
    (route : Route.Route) (msg : Message.Message) (server : option Server)
  : st (W * result Response) :=
  x ← catch (prepare ns nuid now c route msg server);
  match x with
  | inr err => mret (w, Err err)
  | inl (c, server, reqTimeout, data) =>
      match transmit ns route msg server reqTimeout data with
      | Panics p => lift (Panics p)
      | r =>
          w ← reads (fun h => Metrics.ReportTimingFromCtx h (Some c) reporters "rpc" (err_of r) done w);
          mret (w, r)
      end
  end.

End WithConn.

(** ** [cluster/nats_rpc_server.go] *)

(** [config.NatsRPCServerConfig]. *)
Record NatsRPCServerConfig := {
  sc_Services : Z;
  sc_Connect : string;
  sc_MaxReconnectionRetries : Z;
  sc_Messages : Z;
  sc_ConnectionTimeout : Z;
  sc_Semaphore : Z;
  sc_WebsocketCompression : bool;
  sc_ReconnectJitter : Z;
  sc_ReconnectJitterTLS : Z;
  sc_ReconnectWait : Z;
  sc_PingInterval : Z;
  sc_MaxPingsOutstanding : Z
}.

(** The server; [sempWeighted] is the size of the semaphore, [None] when
    there is none. *)
Record NatsRPCServer := mkServer_ {
  ns_config : NatsRPCServerConfig;
  sempWeighted : option Z;
  ns_server : Server;
  workerPool : bool;
  ns_dropped : Z;
  ns_stopped : bool
}.

(** [NewNatsRPCServer] and [configure]. *)
Definition NewNatsRPCServer (config : NatsRPCServerConfig) (server : Server) (pool : bool)
  : result NatsRPCServer :=
  if bool_decide (sc_Connect config = EmptyString) then Err (ESentinel ErrNoNatsConnectionString)
  else if (sc_Messages config =? 0)%Z then Err (ESentinel ErrNatsMessagesBufferSizeZero)
  else if (sc_Messages config <? 0)%Z then Panics (PanicMessage "makechan: size out of range")
  else if (sc_Services config <? 0)%Z then Panics (PanicMessage "makeslice: len out of range")
  else Ok (mkServer_ config
             (if (0 <? sc_Semaphore config)%Z then Some (sc_Semaphore config) else None)
             server pool 0 false).

(** [SetWorkerPool]; [nil] is [false]. *)
Definition SetWorkerPool (ns : NatsRPCServer) (pool : bool) : NatsRPCServer :=
  mkServer_ (ns_config ns) (sempWeighted ns) (ns_server ns) pool (ns_dropped ns) (ns_stopped ns).

(** [Shutdown]. *)
Definition server_Shutdown (ns : NatsRPCServer) : result NatsRPCServer :=
  if ns_stopped ns then Panics CloseOfClosedChannel
  else Ok (mkServer_ (ns_config ns) (sempWeighted ns) (ns_server ns) (workerPool ns) (ns_dropped ns) true).

(** [reportMetrics]: the dropped messages and the room in the channel. *)
Definition reportMetrics {W} (ns : NatsRPCServer) (subChanLen : Z)
    (reporters : list (Metrics.Reporter W)) (w : W) : result W :=
  for_each (fun w mr =>
    '(w, _, _) ← Metrics.ReportGauge mr w Metrics.DroppedMessages ∅ (ns_dropped ns);
    '(w, _, _) ← Metrics.ReportGauge mr w Metrics.ChannelCapacity
                   {["channel" := "rpc_server_subchan"]} (sc_Messages (ns_config ns) - subChanLen)%Z;
    Ok w) w reporters.

(** One message of the subscription in [handleMessages]: it is dropped when
    it does not decode, and its reply subject is put in the request. *)
Definition set_reply (reply : string) (m : Msg) : Msg :=
  mkMsg (m_Id m) (m_Route m) (m_Data m) reply (m_Type m).
Definition handle_message (data : list byte) (reply : string) : result (option Request) :=
  match req_unmarshal data with
  | Err _ => Ok None
  | Panics p => Panics p
  | Ok req =>
      match rq_Msg req with
      | None => Panics NilDereference
      | Some m => Ok (Some (mkRequest (Some (set_reply reply m)) (rq_Metadata req)))
      end
  end.

(** [marshalResponse]: the bytes that are sent. *)
Definition marshalResponse (res : option Response) : result (list byte) :=
  match res with
  | None => Panics NilDereference
  | Some r =>
      match res_marshal r with
      | Ok p => Ok p
      | Panics p => Panics p
      | Err err =>
          msg ← error_string err;
          match res_marshal (mkResponse [] (Some (mkPError ErrUnknownCode msg None))) with
          | Ok p => Ok p
          | Panics p => Panics p
          | Err _ => Ok []
          end
      end
  end.

(** [processResponse]. *)
Definition processResponse (req : Request) (resp : option Response) : result (list pub) :=
  match rq_Msg req with
  | None => Panics NilDereference
  | Some m =>
      if bool_decide (m_Type m = MsgNotify) then Ok []
      else p ← marshalResponse resp; Ok [(m_Reply m, p)]
  end.

(** [parseRequestTimeout]: the start time and the timeout of the call. *)
Definition parseRequestTimeout (c : option ctx) : st (Z * Z) :=
  reqStart ← GetCtx c StartTimeKey;
  if bool_decide (reqStart = GNil)
  then lift (Err (EText "rpc server process lost start time request"))
  else
    s ← lift (must_string reqStart);
    let '(startTimestamp, err) := ParseInt s in
    if bool_decide (err <> None)
    then lift (Err (EText "rpc server process invalid start time request"))
    else
      reqTimeout ← GetCtx c RequestTimeout;
      if bool_decide (reqTimeout = GNil)
      then lift (Err (EText "rpc server process lost timeout request"))
      else
        t ← lift (must_string reqTimeout);
        let '(timeout, err) := Duration.ParseDuration t in
        match err with
        | Some e =>
            msg ← lift (error_string e);
            lift (Err (EText ("rpc server process invalid timeout request: " +:+ msg)))
        | None => mret (startTimestamp, timeout)
        end.

Definition error_response (code msg : string) : option Response :=
  Some (mkResponse [] (Some (mkPError code msg None))).

(** [processRequest] at the time [now]: a call that has used half of its time
    is not started; [late] tells whether the timer for the rest of it has
    fired when the call is about to start. *)
Definition processRequest (handler : IHandler) (c : ctx) (req : Request)
    (reqStartTime reqTimeout now : Z) (late : bool) : st (option Response) :=
  if (half reqTimeout <? time_sub now reqStartTime)%Z
  then mret (error_response ErrRequestTimeoutCode "rpc server process timeout")
  else if late then mret (error_response ErrRequestTimeoutCode "rpc server process timeout")
  else
    '(res, _) ← handler c req;
    mret res.

(** How a request is dispatched: it was answered with an error, given to the
    worker pool under a share id, or to a goroutine of its own. *)
Inductive dispatched :=
| Answered (pubs : list pub)
| ToPool (shareID : string) (c : ctx) (start timeout : Z)
| ToGoroutine (c : ctx) (start timeout : Z).

Definition answer_error (req : Request) (err : error) : st dispatched :=
  msg ← lift (error_string err);
  pubs ← lift (processResponse req (error_response ErrInternalCode msg));
  mret (Answered pubs).

(** One iteration of the loop of [processMessages]. *)
Definition processMessages (ns : NatsRPCServer) (nuid : string) (req : Request) : st dispatched :=
  r ← catch (GetContextFromRequest nuid req);
  match r with
  | inr err => answer_error req err
  | inl c =>
      r ← catch (parseRequestTimeout (Some c));
      match r with
      | inr err => answer_error req err
      | inl (start, timeout) =>
          shareIDVal ← GetCtx (Some c) ShareIDKey;
          match shareIDVal with
          | GStr shareID =>
              if workerPool ns && bool_decide (shareID <> EmptyString)
              then mret (ToPool shareID c start timeout)
              else mret (ToGoroutine c start timeout)
          | _ => mret (ToGoroutine c start timeout)
          end
      end
  end.

(** The task given to the pool, and the goroutine, which needs the
    semaphore: [acquire] is the error of [Acquire], if any. *)
Definition run_task (handler : IHandler) (c : ctx) (req : Request) (start timeout now : Z)
    (late : bool) : st (list pub) :=
  resp ← processRequest handler c req start timeout now late;
  lift (processResponse req resp).
Definition run_goroutine (ns : NatsRPCServer) (handler : IHandler) (c : ctx) (req : Request)
    (start timeout now : Z) (late : bool) (acquire : option error) : st (list pub) :=
  match sempWeighted ns with
  | None => lift (Panics NilDereference)
  | Some _ =>
      match acquire with
      | Some err =>
          msg ← lift (error_string err);
          lift (processResponse req (error_response ErrTooManyRequestCode msg))
      | None => run_task handler c req start timeout now late
      end
  end.

(** The whole way of a request through the server. *)
Definition serve (ns : NatsRPCServer) (handler : IHandler) (nuid : string) (now : Z) (late : bool)
    (acquire : option error) (req : Request) : st (list pub) :=
  d ← processMessages ns nuid req;
  match d with
  | Answered pubs => mret pubs
  | ToPool _ c start timeout => run_task handler c req start timeout now late
  | ToGoroutine c start timeout => run_goroutine ns handler c req start timeout now late acquire
  end.

(** ** The server answers once *)

Context {JL : JsonLaws J} {PL : WireLaws P}.

(** The publications made for a message: none for a notification, one on its
    reply subject otherwise. *)
Definition replies (m : Msg) (pubs : list pub) : Prop :=
  if bool_decide (m_Type m = MsgNotify) then pubs = [] else exists p, pubs = [(m_Reply m, p)].

Lemma error_string_ok e : e <> ENrpc None -> exists s, error_string e = Ok s.
Proof. destruct e as [| | |[]]; cbn; eauto; done. Qed.

Lemma marshalResponse_total r : exists p, marshalResponse (Some r) = Ok p.
Proof.
  unfold marshalResponse. destruct (res_marshal r) as [p|e|p] eqn:E; [eauto| |].
  - destruct (error_string_ok e (res_error r e E)) as [s ->]. cbn.
    destruct (res_marshal (mkResponse [] _)) as [x|e'|p'] eqn:E'; [by eexists|by eexists|].
    by apply res_no_panic in E'.
  - by apply res_no_panic in E.
Qed.

Lemma processResponse_replies req m r :
  rq_Msg req = Some m -> exists pubs, processResponse req (Some r) = Ok pubs /\ replies m pubs.
Proof.
  intros Hm. unfold processResponse, replies. rewrite Hm. case_bool_decide; [eauto|].
  destruct (marshalResponse_total r) as [p ->]. cbn. eauto.
Qed.

(** The handler returns, with a response. *)
Definition responds (handler : IHandler) (req : Request) : Prop :=
  forall c h, exists h' res e, handler c req h = (h', Ok (Some res, e)).

Lemma processRequest_total handler c req start timeout now late h :
  responds handler req -> exists h' res, processRequest handler c req start timeout now late h = (h', Ok (Some res)).
Proof.
  intros Hh. unfold processRequest. destruct (_ <? _)%Z; [do 2 eexists; reflexivity|].
  destruct late; [do 2 eexists; reflexivity|]. destruct (Hh c h) as (h' & res & e & Hr).
  exists h', res. by rewrite (bind_ok _ _ _ _ _ Hr).
Qed.

Lemma run_task_replies handler c req m start timeout now late h :
  responds handler req -> rq_Msg req = Some m ->
  exists h' pubs, run_task handler c req start timeout now late h = (h', Ok pubs) /\ replies m pubs.
Proof.
  intros Hh Hm. destruct (processRequest_total handler c req start timeout now late h Hh)
    as (h' & res & Hp).
  destruct (processResponse_replies req m res Hm) as (pubs & Hr & Hrep).
  exists h', pubs. split; [|done]. unfold run_task. rewrite (bind_ok _ _ _ _ _ Hp).
  unfold lift. by rewrite Hr.
Qed.

Lemma answer_error_replies req m err h :
  rq_Msg req = Some m -> err <> ENrpc None ->
  exists pubs, answer_error req err h = (h, Ok (Answered pubs)) /\ replies m pubs.
Proof.
  intros Hm He. destruct (error_string_ok err He) as [s Hs].
  destruct (processResponse_replies req m (mkResponse [] (Some (mkPError ErrInternalCode s None))) Hm)
    as (pubs & Hp & Hr).
  exists pubs. split; [|done]. unfold answer_error. rewrite Hs. rewrite bind_lift.
  unfold error_response. rewrite Hp. by rewrite bind_lift.
Qed.

(** A value that is a string, or absent. *)
Definition string_or_nil (v : gval) : Prop := match v with GNil | GStr _ => True | _ => False end.

(** The deadline in a map is readable or absent. *)
Definition deadline_typed (m : gmap string gval) : Prop :=
  string_or_nil (default GNil (m !! StartTimeKey)) /\
  string_or_nil (default GNil (m !! RequestTimeout)).

Lemma parseRequestTimeout_total c l h :
  ctx_map c = Some l -> deadline_typed (map_at h (Some l)) ->
  exists r, catch (parseRequestTimeout (Some c)) h = (h, Ok r) /\
    forall e, r = inr e -> e <> ENrpc None.
Proof.
  intros Hc [H1 H2]. unfold parseRequestTimeout, catch.
  rewrite (bind_ok _ _ _ _ _ (GetCtx_map h c l StartTimeKey Hc)).
  destruct (default GNil (map_at h (Some l) !! StartTimeKey)) as [|s| | | |]; try done.
  - eexists. split; [reflexivity|]. by intros e [= <-].
  - rewrite bool_decide_eq_false_2 by done. rewrite (bind_lift_ok _ s) by done.
    destruct (ParseInt s) as [n e] eqn:En. case_bool_decide.
    { eexists. split; [reflexivity|]. by intros e' [= <-]. }
    rewrite (bind_ok _ _ _ _ _ (GetCtx_map h c l RequestTimeout Hc)).
    destruct (default GNil (map_at h (Some l) !! RequestTimeout)) as [|t| | | |]; try done.
    + eexists. split; [reflexivity|]. by intros e' [= <-].
    + rewrite bool_decide_eq_false_2 by done. rewrite (bind_lift_ok _ t) by done.
      destruct (Duration.ParseDuration t) as [d [e'|]] eqn:Ed; [|eexists; split; [reflexivity|done]].
      destruct (error_string_ok e' (Duration.duration_error _ _ _ Ed)) as [msg ->]. rewrite bind_lift.
      eexists. split; [reflexivity|]. by intros e'' [= <-].
Qed.

(** The map of a request's context: it has a request id and the route. *)
Definition has_request_id (m : gmap string gval) : bool :=
  match default GNil (m !! RequestIDKey) with
  | GStr rID => negb (bool_decide (rID = EmptyString))
  | _ => false
  end.
Definition received_map (nuid route : string) (m : gmap string gval) : gmap string gval :=
  <[RouteKey := GStr route]> (if has_request_id m then m else <[RequestIDKey := GStr nuid]> m).

Lemma GetContext_spec nuid req h h1 c l :
  Ctx.Decode h (rq_Metadata req) = Ok (h1, Some c) -> ctx_map c = Some l ->
  exists h2 c2, GetContextFromRequest nuid req h = (h2, Ok c2) /\ ctx_map c2 = Some l /\
    map_at h2 (Some l) = received_map nuid (GetRoute req) (map_at h1 (Some l)).
Proof.
  intros Hd Hc. unfold GetContextFromRequest.
  rewrite (bind_ok _ _ h h1 (Some c)) by (unfold updates; by rewrite Hd).
  rewrite (bind_ok _ _ _ _ _ (GetCtx_map h1 c l RequestIDKey Hc)).
  unfold received_map, has_request_id.
  destruct (match default GNil (map_at h1 (Some l) !! RequestIDKey) with
            | GStr rID => bool_decide (rID = EmptyString) | _ => true end) eqn:Eid.
  - rewrite (bind_ok _ _ _ _ _ (AddCtx_map h1 c l RequestIDKey (GStr nuid) Hc)).
    rewrite (bind_ok _ _ _ _ _ (AddCtx_map _ (WithValue c PropagateCtxKey (CMap (Some l))) l RouteKey
      (GStr (GetRoute req)) eq_refl)).
    rewrite map_at_insert. do 2 eexists. split; [reflexivity|]. split; [done|].
    rewrite map_at_insert. f_equal.
    destruct (default GNil (map_at h1 (Some l) !! RequestIDKey)); try done. by rewrite Eid.
  - change (mret c) with (fun h : heap => (h, @Ok error _ c)).
    rewrite (bind_ok (fun h : heap => (h, Ok c)) _ h1 h1 c) by done.
    rewrite (bind_ok _ _ _ _ _ (AddCtx_map h1 c l RouteKey (GStr (GetRoute req)) Hc)).
    do 2 eexists. split; [reflexivity|]. split; [done|]. rewrite map_at_insert. f_equal.
    destruct (default GNil (map_at h1 (Some l) !! RequestIDKey)); try done. by rewrite Eid.
Qed.

Lemma received_deadline nuid route m : deadline_typed m -> deadline_typed (received_map nuid route m).
Proof.
  unfold deadline_typed, received_map. intros [H1 H2].
  destruct (has_request_id m); rewrite !lookup_insert_ne by done; done.
Qed.

(** The metadata of a request, as the server reads it: absent, unreadable, or
    a map whose deadline is a string or missing. *)
Definition request_typed (req : Request) : Prop :=
  rq_Metadata req = [] \/
  match json_unmarshal (rq_Metadata req) with
  | Ok (Some m) => deadline_typed m
  | Ok None => False
  | _ => True
  end.

Lemma typed_decodes h req :
  request_typed req ->
  match Ctx.Decode h (rq_Metadata req) with
  | Ok (h1, Some c) => exists l, ctx_map c = Some l /\ deadline_typed (map_at h1 (Some l))
  | _ => True
  end.
Proof.
  unfold Ctx.Decode. case_bool_decide as Hl; [done|]. intros [He|Ht]; [by rewrite He in Hl|].
  destruct (json_unmarshal (rq_Metadata req)) as [[m|]| |]; cbn; try done.
  eexists. split; [done|]. by rewrite lookup_insert_eq.
Qed.

Lemma GetContext_total nuid req h :
  request_typed req ->
  exists h2 r, catch (GetContextFromRequest nuid req) h = (h2, Ok r) /\
    match r with
    | inl c => exists l, ctx_map c = Some l /\ deadline_typed (map_at h2 (Some l))
    | inr e => e <> ENrpc None
    end.
Proof.
  intros Ht. apply (typed_decodes h) in Ht. destruct (Ctx.Decode h (rq_Metadata req)) as [[h1 [c|]]|e|p] eqn:E.
  - destruct Ht as (l & Hl & Hd). destruct (GetContext_spec nuid req h h1 c l E Hl) as (h2 & c2 & Hr & Hl2 & Hm).
    exists h2, (inl c2). unfold catch. rewrite Hr. split; [done|]. exists l. rewrite Hm.
    split; [done|]. by apply received_deadline.
  - exists h1, (inr (ESentinel ErrNoContextFound)). unfold catch, GetContextFromRequest.
    rewrite (bind_ok _ _ h h1 None) by (unfold updates; by rewrite E). done.
  - exists h, (inr e). unfold catch, GetContextFromRequest, mbind, st_bind, updates. rewrite E.
    split; [done|]. unfold Ctx.Decode in E. case_bool_decide; [done|].
    destruct (json_unmarshal (rq_Metadata req)) as [[]|e'|] eqn:Ej; cbn in E; try done.
    injection E as <-. by eapply json_error.
  - exfalso. unfold Ctx.Decode in E. case_bool_decide; [done|].
    destruct (json_unmarshal (rq_Metadata req)) as [[]| |] eqn:Ej; cbn in E; try done.
    by apply json_no_panic in Ej.
Qed.

Lemma processMessages_total ns nuid req m h :
  rq_Msg req = Some m -> request_typed req ->
  exists h' d, processMessages ns nuid req h = (h', Ok d) /\
    match d with Answered pubs => replies m pubs | _ => True end.
Proof.
  intros Hm Ht. unfold processMessages.
  destruct (GetContext_total nuid req h Ht) as (h2 & r & Hr & Hcase).
  rewrite (bind_ok _ _ _ _ _ Hr). destruct r as [c|e].
  - destruct Hcase as (l & Hl & Hd).
    destruct (parseRequestTimeout_total c l h2 Hl Hd) as (r & Hp & He).
    rewrite (bind_ok _ _ _ _ _ Hp). destruct r as [[start timeout]|e].
    + rewrite (bind_ok _ _ _ _ _ (GetCtx_map h2 c l ShareIDKey Hl)). exists h2.
      destruct (default GNil (map_at h2 (Some l) !! ShareIDKey)); try by eexists.
      destruct (_ && _); by eexists.
    + destruct (answer_error_replies req m e h2 Hm (He e eq_refl)) as (pubs & Ha & Hrep). eauto.
  - destruct (answer_error_replies req m e h2 Hm Hcase) as (pubs & Ha & Hrep). eauto.
Qed.

(** Every request is answered exactly once and notifications never are:
    for a handler that returns a response, a server with a semaphore, and a
    request whose deadline, if it has one, is made of strings, the request
    goes through the server without a panic and the publications made for
    it are none for a notification and otherwise one, on its reply subject.
    This covers unreadable metadata, a missing or invalid deadline, a
    request that is too old and a full semaphore. *)
Theorem serve_replies_once (ns : NatsRPCServer) (handler : IHandler) (nuid : string) (now : Z)
    (late : bool) (acquire : option error) (req : Request) (m : Msg) (h : heap) :
  responds handler req -> sempWeighted ns <> None -> acquire <> Some (ENrpc None) ->
  rq_Msg req = Some m -> request_typed req ->
  exists h' pubs, serve ns handler nuid now late acquire req h = (h', Ok pubs) /\ replies m pubs.
Proof.
  intros Hh Hsem Hacq Hm Ht. unfold serve.
  destruct (processMessages_total ns nuid req m h Hm Ht) as (h2 & d & Hd & Hcase).
  rewrite (bind_ok _ _ _ _ _ Hd). destruct d as [pubs|share c start timeout|c start timeout].
  - by exists h2, pubs.
  - by apply run_task_replies.
  - unfold run_goroutine. destruct (sempWeighted ns); [|done].
    destruct acquire as [e|]; [|by apply run_task_replies].
    destruct (error_string_ok e) as [s Hs]; [congruence|]. rewrite Hs, bind_lift.
    destruct (processResponse_replies req m
      (mkResponse [] (Some (mkPError ErrTooManyRequestCode s None))) Hm) as (pubs & Hp & Hrep).
    exists h2, pubs. split; [|done]. unfold error_response, lift. by rewrite Hp.
Qed.

(** A server configured without a semaphore crashes on the first request
    that has no share id: construction accepts a semaphore size that is not
    positive, and the goroutine of the request uses the semaphore all the
    same. *)
Theorem no_semaphore_panics (config : NatsRPCServerConfig) (srv : Server) (pool : bool)
    (ns : NatsRPCServer) (handler : IHandler) (c : ctx) (req : Request)
    (start timeout now : Z) (late : bool) (acquire : option error) (h : heap) :
  NewNatsRPCServer config srv pool = Ok ns -> (sc_Semaphore config <= 0)%Z ->
  run_goroutine ns handler c req start timeout now late acquire h = (h, Panics NilDereference).
Proof.
  unfold NewNatsRPCServer. case_bool_decide; [done|].
  destruct (_ =? 0)%Z; [done|]. destruct (_ <? 0)%Z; [done|]. destruct (_ <? 0)%Z; [done|].
  intros [= <-] Hs. unfold run_goroutine. cbn. by rewrite (proj2 (Z.ltb_ge _ _)) by lia.
Qed.

(** Any peer can stop the server with an empty message: it decodes to a
    request without a message part, which the receiving loop dereferences. *)
Theorem empty_message_panics (reply : string) : handle_message [] reply = Panics NilDereference.
Proof. unfold handle_message. by rewrite req_empty. Qed.

End Calls.

(** ** Witnesses *)

Definition ping : Request :=
  mkRequest (Some (mkMsg 1 "chat.room.Join" [] "inbox" MsgRequest)) [].
Definition ok_handler : IHandler := fun _ _ h => (h, Ok (Some (mkResponse [] None), None)).
Definition nats_config (semaphore : Z) : NatsRPCServerConfig := {|
  sc_Services := 30; sc_Connect := "nats://localhost:4222"; sc_MaxReconnectionRetries := 15;
  sc_Messages := 75; sc_ConnectionTimeout := 2; sc_Semaphore := semaphore;
  sc_WebsocketCompression := true; sc_ReconnectJitter := 100; sc_ReconnectJitterTLS := 1000;
  sc_ReconnectWait := 1000; sc_PingInterval := 120000; sc_MaxPingsOutstanding := 3 |}.
Definition small_server : NatsRPCServer :=
  mkServer_ (nats_config 1) (Some 1%Z) sv_chat false 0 false.

Lemma serve_replies_once_witness :
  exists h' p, serve small_server ok_handler "r1" 0 false None ping ∅ = (h', Ok [("inbox", p)]).
Proof.
  destruct (serve_replies_once small_server ok_handler "r1" 0 false None ping
    (mkMsg 1 "chat.room.Join" [] "inbox" MsgRequest) ∅) as (h' & pubs & H1 & H2).
  - intros c h. do 3 eexists. reflexivity.
  - done.
  - done.
  - reflexivity.
  - by left.
  - destruct H2 as [p ->]. eauto.
Defined.

Lemma no_semaphore_panics_witness :
  exists ns, NewNatsRPCServer (nats_config 0) sv_chat true = Ok ns /\
    run_goroutine ns ok_handler Background ping 0 5 0 false None ∅ = (∅, Panics NilDereference).
Proof.
  eexists. split; [reflexivity|].
  apply (no_semaphore_panics (nats_config 0) sv_chat true); [reflexivity|]. cbn. lia.
Defined.

Lemma empty_message_panics_witness : handle_message [] "inbox" = Panics NilDereference.
Proof. apply empty_message_panics. Defined.

End Nats.
