(* ===== verification/NatsConn.v ===== *)
(** * The connection to NATS: [cluster/nats_rpc_common.go], and its use by
    [Init] of the RPC client and server

    Instants are nanoseconds from the moment a function is called. The
    connection itself is described by what it answers: the result of [Drain]
    and, at every instant, [IsDraining]. When several cases of a [select] are
    ready, an argument says which one Go takes. *)

From S2P Require Import Prelude Errors Nats.
From Stdlib Require Import Strings.Byte.
Import Nats.Nats.

Module NatsConn.

Local Open Scope Z_scope.

Definition Millisecond : Z := 1000000.
Definition Second : Z := 1000000000.

(** ** Draining *)

Record conn := mkConn {
  conn_Drain : result unit;
  conn_IsDraining : Z -> bool
}.

(** What [drainAndClose] did: its result, when it returned, and whether it
    called [Close] itself. *)
Record drained := mkDrained {
  dr_result : result unit;
  dr_at : Z;
  dr_closed : bool
}.

Definition drain_timeout : Z := 5 * Second.
Definition drain_tick : Z := 100 * Millisecond.

(** The loop, entered at [t]. At the instant of the timeout the ticker is
    ready too: [tick_first] tells that its case is taken, after which only
    the timeout is left. *)
Fixpoint drain_loop (fuel : nat) (nc : conn) (tick_first : bool) (t : Z) : option drained :=
  match fuel with
  | O => None
  | S n =>
      if negb (conn_IsDraining nc t) then Some (mkDrained (Ok tt) t false)
      else if t + drain_tick <? drain_timeout then drain_loop n nc tick_first (t + drain_tick)
      else if tick_first && negb (conn_IsDraining nc drain_timeout)
      then Some (mkDrained (Ok tt) drain_timeout false)
      else Some (mkDrained (Err (EText "drain timeout exceeded")) drain_timeout true)
  end.

(** The ticks before the timeout. *)
Definition drain_fuel : nat := 50.

Definition drainAndClose (nc : option conn) (tick_first : bool) : option drained :=
  match nc with
  | None => Some (mkDrained (Ok tt) 0 false)
  | Some nc =>
      match conn_Drain nc with
      | Err e => Some (mkDrained (Err e) 0 true)
      | Panics p => Some (mkDrained (Panics p) 0 false)
      | Ok _ => drain_loop drain_fuel nc tick_first 0
      end
  end.

(** ** Set-up *)

(** The options of the connection that are set or read. *)
Record Options := mkOptions {
  o_Timeout : Z;
  o_RetryOnFailedConnect : bool;
  o_MaxReconnect : Z;
  o_ReconnectWait : Z;
  o_ReconnectJitter : Z;
  o_ReconnectJitterTLS : Z;
  o_Compression : bool;
  o_PingInterval : Z;
  o_MaxPingsOut : Z
}.

(** The longest time to the first connection: sums and products of durations
    are those of [int64]. *)
Definition maxConnTimeout (o : Options) : Z :=
  if o_RetryOnFailedConnect o then
    let maxReconnectionTimeout :=
      i64 (i64 (o_ReconnectWait o + o_ReconnectJitter o) + o_Timeout o) in
    i64 (o_Timeout o + i64 (o_MaxReconnect o * maxReconnectionTimeout))
  else o_Timeout o.

(** How long after it is started the timer of the [select] fires: a duration that is not positive
    fires at once. *)
Definition setup_deadline (o : Options) : Z := Z.max 0 (i64 (maxConnTimeout o * 2)).

(** When the handlers send: [ConnectHandler] on the first channel,
    [ClosedHandler] its error on the second. *)
Record arrivals := mkArrivals {
  connected_at : option Z;
  failed_at : option (Z * error)
}.

Inductive wake := Connected | Failed (err : error) | TimedOut.

(** The cases of the [select], which is reached when [nats.Connect] has
    returned at [took], with the instants they become ready, and those that
    are ready first. The channels have no buffer: a handler that sends before
    waits. *)
Definition cases (o : Options) (took : Z) (a : arrivals) : list (Z * wake) :=
  match connected_at a with Some t => [(Z.max took t, Connected)] | None => [] end ++
  match failed_at a with Some (t, err) => [(Z.max took t, Failed err)] | None => [] end ++
  [(took + setup_deadline o, TimedOut)].
Definition first_instant (o : Options) (took : Z) (a : arrivals) : Z :=
  foldr Z.min (took + setup_deadline o) (cases o took a).*1.
Definition ready (o : Options) (took : Z) (a : arrivals) : list wake :=
  (filter (fun c => c.1 = first_instant o took a) (cases o took a)).*2.

(** What [setupNatsConn] did: its result, when it returned and, when it gave
    the connection up, what draining did. *)
Record setup := mkSetup {
  su_result : result conn;
  su_at : Z;
  su_drained : option drained
}.

Definition drop_conn (nc : conn) (tick_first : bool) (t : Z) (err : error) : option setup :=
  d ← drainAndClose (Some nc) tick_first;
  Some (match dr_result d with
        | Panics p => mkSetup (Panics p) (t + dr_at d) (Some d)
        | _ => mkSetup (Err err) (t + dr_at d) (Some d)
        end).

(** [connect] is the result of [nats.Connect], which it gives after [took];
    [pick] is the ready case Go takes. *)
Definition setupNatsConn (connect : result conn) (took : Z) (o : Options) (a : arrivals) (pick : nat)
    (tick_first : bool) : option setup :=
  match connect with
  | Err e => Some (mkSetup (Err e) took None)
  | Panics p => Some (mkSetup (Panics p) took None)
  | Ok nc =>
      let t := first_instant o took a in
      match ready o took a !! (pick mod length (ready o took a))%nat with
      | Some Connected => Some (mkSetup (Ok nc) t None)
      | Some (Failed err) => drop_conn nc tick_first t err
      | Some TimedOut => drop_conn nc tick_first t (EText "timeout setting up nats connection")
      | None => None
      end
  end.

(** ** The handler of a closed connection *)

(** The application's die channel as a sender finds it. *)
Inductive die_chan := NoChan | Receiving | NoReceiver | ClosedChan.

(** What the handler does: nothing, a send to the application, a send to
    [setupNatsConn], a SIGTERM to the process, or the end of it. *)
Inductive closed_effect := Nothing | SentDie | SentInitial (err : error) | SentSIGTERM | Exited.

(** A send on a closed channel counts as ready, and panics. *)
Definition closed_cases (die : die_chan) (setup_waits : bool) (err : error)
  : list (result closed_effect) :=
  match die with
  | Receiving => [Ok SentDie]
  | ClosedChan => [Panics (PanicMessage "send on closed channel")]
  | _ => []
  end ++ (if setup_waits then [Ok (SentInitial err)] else []).

Definition ClosedHandler (lastError : option error) (die : die_chan) (setup_waits : bool)
    (find kill : result unit) (pick : nat) : result closed_effect :=
  match lastError with
  | None => Ok Nothing
  | Some err =>
      match die with
      | NoChan => Ok Nothing
      | _ =>
          let cs := closed_cases die setup_waits err in
          match cs !! (pick mod length cs)%nat with
          | Some r => r
          | None =>
              match find, kill with
              | Ok _, Ok _ => Ok SentSIGTERM
              | _, _ => Ok Exited
              end
          end
      end
  end.

(** With one case ready there is no choice. *)
Lemma ClosedHandler_single err die find kill pick r :
  die <> NoChan -> closed_cases die false err = [r] ->
  ClosedHandler (Some err) die false find kill pick = r.
Proof.
  intros Hd H. unfold ClosedHandler. rewrite H. cbn [length]. rewrite Nat.mod_1_r.
  by destruct die.
Qed.

(** It panics only on a closed channel. *)
Lemma ClosedHandler_panics lastError die setup_waits find kill pick p :
  ClosedHandler lastError die setup_waits find kill pick = Panics p -> die = ClosedChan.
Proof.
  unfold ClosedHandler. destruct lastError as [err|]; [|done]. destruct die; try done.
  all: destruct (_ !! _) as [r|] eqn:E; [|by destruct find, kill].
  all: intros ->; apply list_elem_of_lookup_2 in E; destruct setup_waits; set_solver.
Qed.

(** ** [Init] of the client and of the server *)

Definition client_options (c : NatsRPCClientConfig) : Options :=
  mkOptions (cc_ConnectionTimeout c) false (cc_MaxReconnectionRetries c) (cc_ReconnectWait c)
    (cc_ReconnectJitter c) (cc_ReconnectJitterTLS c) (cc_WebsocketCompression c)
    (cc_PingInterval c) (cc_MaxPingsOutstanding c).
Definition server_options (c : NatsRPCServerConfig) : Options :=
  mkOptions (sc_ConnectionTimeout c) false (sc_MaxReconnectionRetries c) (sc_ReconnectWait c)
    (sc_ReconnectJitter c) (sc_ReconnectJitterTLS c) (sc_WebsocketCompression c)
    (sc_PingInterval c) (sc_MaxPingsOutstanding c).

(** The client with its connection. *)
Definition client_Init (ns : NatsRPCClient) (connect : result conn) (took : Z) (a : arrivals) (pick : nat)
    (tick_first : bool) : option (NatsRPCClient * option conn * result unit) :=
  s ← setupNatsConn connect took (client_options (cl_config ns)) a pick tick_first;
  let ns := mkClient (cl_config ns) true (cl_server ns) in
  Some (match su_result s with
        | Ok nc => (ns, Some nc, Ok tt)
        | Err e => (ns, None, Err e)
        | Panics p => (ns, None, Panics p)
        end).

(** What [Init] of the server left running: the goroutine of
    [handleMessages], the subscription with its subject, the pool and the
    dispatchers. *)
Record started := mkStarted {
  st_handleMessages : bool;
  st_conn : option conn;
  st_sub : option string;
  st_pool : bool;
  st_dispatchers : nat
}.

(** [subscribe] is the result of [ChanSubscribe]. *)
Definition server_Init (ns : NatsRPCServer) (connect : result conn) (took : Z) (a : arrivals) (pick : nat)
    (tick_first : bool) (subscribe : result unit) : option (started * result unit) :=
  s ← setupNatsConn connect took (server_options (ns_config ns)) a pick tick_first;
  Some (match su_result s with
        | Err e => (mkStarted true None None false 0, Err e)
        | Panics p => (mkStarted true None None false 0, Panics p)
        | Ok nc =>
            match subscribe with
            | Err e => (mkStarted true (Some nc) None false 0, Err e)
            | Panics p => (mkStarted true (Some nc) None false 0, Panics p)
            | Ok _ =>
                (mkStarted true (Some nc)
                   (Some (getChannel (Discovery.Discovery.Type_ (ns_server ns))
                                     (Discovery.Discovery.ID (ns_server ns))))
                   (workerPool ns) (Z.to_nat (sc_Services (ns_config ns))), Ok tt)
            end
        end).

(** ** Draining ends *)

(** What a run of the loop from [t] did. *)
Definition drained_by (nc : conn) (t : Z) (d : drained) : Prop :=
  t <= dr_at d <= drain_timeout /\
  match dr_result d with
  | Ok _ => conn_IsDraining nc (dr_at d) = false /\ dr_closed d = false
  | Err _ => dr_closed d = true /\ dr_at d = drain_timeout /\
      forall k, 0 <= k -> t + k * drain_tick < drain_timeout ->
        conn_IsDraining nc (t + k * drain_tick) = true
  | Panics _ => False
  end.

Lemma drain_loop_ends n nc tick_first t :
  0 <= t < drain_timeout -> drain_timeout - t <= Z.of_nat n * drain_tick ->
  exists d, drain_loop n nc tick_first t = Some d /\ drained_by nc t d.
Proof.
  unfold drained_by. revert t. induction n as [|n IH]; intros t Ht Hn; [lia|]. cbn [drain_loop].
  destruct (conn_IsDraining nc t) eqn:Ed; cbn [negb].
  2: { eexists. split; [done|]. cbn. split; [lia|done]. }
  destruct (Z.ltb_spec (t + drain_tick) drain_timeout) as [Hlt|Hge].
  - destruct (IH (t + drain_tick)) as (d & E & Hd & Hr).
    { unfold drain_tick, Millisecond in *. lia. } { lia. }
    exists d. split; [done|]. split; [unfold drain_tick, Millisecond in *; lia|].
    destruct (dr_result d) as [|e|]; [done| |done]. destruct Hr as (H1 & H2 & H3).
    split_and!; [done..|]. intros k Hk Hk'. destruct (decide (k = 0)) as [->|].
    + by rewrite Z.mul_0_l, Z.add_0_r.
    + replace (t + k * drain_tick) with (t + drain_tick + (k - 1) * drain_tick) by lia.
      apply H3; lia.
  - destruct (tick_first && _) eqn:Et.
    + apply andb_true_iff in Et as [_ Et]. apply negb_true_iff in Et.
      eexists. split; [done|]. cbn. split; [lia|done].
    + eexists. split; [done|]. cbn. split_and!; [lia|lia|done|done|].
      intros k Hk Hk'. assert (k = 0) as -> by (unfold drain_tick, Millisecond in *; nia).
      by rewrite Z.mul_0_l, Z.add_0_r.
Qed.

Lemma drain_ends nc tick_first :
  conn_Drain nc = Ok tt ->
  exists d, drainAndClose (Some nc) tick_first = Some d /\ drained_by nc 0 d.
Proof. intros H. unfold drainAndClose. rewrite H. by apply drain_loop_ends. Qed.

(** Whatever the connection does, draining takes at most five seconds. *)
Lemma drainAndClose_ends nc tick_first :
  exists d, drainAndClose nc tick_first = Some d /\ 0 <= dr_at d <= drain_timeout /\
    (is_ok (dr_result d) = false -> dr_closed d = true \/
       exists nc' p, nc = Some nc' /\ conn_Drain nc' = Panics p).
Proof.
  assert (0 <= 0 <= drain_timeout) by (unfold drain_timeout, Second; lia).
  destruct nc as [nc|]; [|by eexists]. destruct (conn_Drain nc) as [[]|e|p] eqn:E.
  - destruct (drain_ends nc tick_first E) as (d & Hd & Hat & Hr). exists d. split; [done|].
    split; [done|]. destruct (dr_result d) as [|e|]; naive_solver.
  - unfold drainAndClose. rewrite E. eexists. split; [done|]. cbn. auto.
  - unfold drainAndClose. rewrite E. eexists. split; [done|]. cbn. split; [done|]. right. eauto.
Qed.

(** Draining a connection that accepts the request always returns, within
    five seconds: successfully when the connection is seen drained, and
    otherwise with an error and the connection closed, having seen it still
    draining at every tick of 100ms. *)
Theorem drainAndClose_bounded (nc : conn) (tick_first : bool) :
  conn_Drain nc = Ok tt ->
  exists d, drainAndClose (Some nc) tick_first = Some d /\ 0 <= dr_at d <= 5 * Second /\
    match dr_result d with
    | Ok _ => conn_IsDraining nc (dr_at d) = false /\ dr_closed d = false
    | Err _ => dr_closed d = true /\ dr_at d = 5 * Second /\
        forall k, 0 <= k < 50 -> conn_IsDraining nc (k * (100 * Millisecond)) = true
    | Panics _ => False
    end.
Proof.
  intros H. destruct (drain_ends nc tick_first H) as (d & E & Hat & Hr).
  exists d. split_and!; [done|apply Hat..|]. destruct (dr_result d) as [|e|]; [done| |done].
  destruct Hr as (H1 & H2 & H3). split_and!; [done..|]. intros k Hk.
  specialize (H3 k). unfold drain_tick, drain_timeout, Second, Millisecond in *.
  rewrite Z.add_0_l in H3. apply H3; lia.
Qed.

Lemma drainAndClose_bounded_witness :
  exists d, drainAndClose (Some (mkConn (Ok tt) (fun t => t <? 2 * Second))) true = Some d /\
    dr_at d <= 5 * Second /\ conn_IsDraining (mkConn (Ok tt) (fun t => t <? 2 * Second)) (dr_at d) = false.
Proof.
  destruct (drainAndClose_bounded (mkConn (Ok tt) (fun t => t <? 2 * Second)) true eq_refl)
    as (d & E & Hat & Hr).
  exists d. split_and!; [exact E|apply Hat|]. assert (dr_result d = Ok tt) as Ho.
  { vm_compute in E. by injection E as <-. }
  rewrite Ho in Hr. apply Hr.
Defined.

(** ** Set-up ends *)

Section Select.
Variables (o : Options) (took : Z) (a : arrivals).

Lemma first_instant_least c : c ∈ cases o took a -> first_instant o took a <= c.1.
Proof.
  unfold first_instant. generalize (took + setup_deadline o) as z. intros z.
  induction (cases o took a) as [|c' l IH]; [by intros ?%elem_of_nil|].
  intros [->|H]%elem_of_cons; cbn; [lia|]. specialize (IH H). cbn in IH. lia.
Qed.

Lemma first_instant_in : exists w, (first_instant o took a, w) ∈ cases o took a.
Proof.
  assert (forall l z, foldr Z.min z l = z \/ foldr Z.min z l ∈ l) as Hmin.
  { induction l as [|x l IH]; intros z; [by left|]. cbn.
    destruct (Z.min_spec x (foldr Z.min z l)) as [[_ ->]|[_ ->]]; [set_solver|].
    destruct (IH z); [by left|set_solver]. }
  destruct (Hmin (cases o took a).*1 (took + setup_deadline o)) as [E|E].
  - exists TimedOut. unfold first_instant. rewrite E. unfold cases. set_solver.
  - apply list_elem_of_fmap in E as ([t w] & E & Hin). exists w. unfold first_instant. by rewrite E.
Qed.

Lemma elem_of_ready w : w ∈ ready o took a <-> (first_instant o took a, w) ∈ cases o took a.
Proof.
  unfold ready. rewrite list_elem_of_fmap. split.
  - intros ([t w'] & -> & [E H]%list_elem_of_filter). cbn in *. by subst.
  - intros H. exists (first_instant o took a, w). split; [done|]. by apply list_elem_of_filter.
Qed.

(** The case Go takes is ready. *)
Lemma picked pick : exists w,
  ready o took a !! (pick mod length (ready o took a))%nat = Some w /\ (first_instant o took a, w) ∈ cases o took a.
Proof.
  destruct first_instant_in as [w0 H0]. apply elem_of_ready in H0.
  assert (length (ready o took a) <> 0)%nat by (by destruct (ready o took a); [apply elem_of_nil in H0|]).
  destruct (lookup_lt_is_Some_2 (ready o took a) (pick mod length (ready o took a))) as [w Hw].
  { by apply Nat.mod_upper_bound. }
  exists w. split; [done|]. by eapply elem_of_ready, list_elem_of_lookup_2.
Qed.

Lemma first_instant_bounds : took <= first_instant o took a <= took + setup_deadline o.
Proof.
  split.
  - destruct first_instant_in as [w H]. unfold cases, setup_deadline in H.
    destruct (connected_at a), (failed_at a) as [[]|]; set_unfold in H; naive_solver lia.
  - apply (first_instant_least (took + setup_deadline o, TimedOut)). unfold cases. set_solver.
Qed.

(** What was sent for a case to be ready. *)
Lemma connected_case t : (t, Connected) ∈ cases o took a -> exists t', connected_at a = Some t' /\ t = Z.max took t'.
Proof. unfold cases. destruct (connected_at a), (failed_at a) as [[]|]; set_solver. Qed.

Lemma failed_case t err : (t, Failed err) ∈ cases o took a -> exists t', failed_at a = Some (t', err).
Proof. unfold cases. destruct (connected_at a), (failed_at a) as [[]|]; set_solver. Qed.

End Select.

(** What became of a connection that is given up: [Drain] failed or lasted
    too long and it was closed, or it has been seen drained. *)
Definition disposed (nc : conn) (d : drained) : Prop :=
  dr_closed d = true /\ is_ok (dr_result d) = false \/
  conn_Drain nc = Ok tt /\ conn_IsDraining nc (dr_at d) = false.

Lemma drop_conn_ends nc tick_first t err : (forall p, conn_Drain nc <> Panics p) ->
  exists d, drop_conn nc tick_first t err = Some (mkSetup (Err err) (t + dr_at d) (Some d)) /\
    0 <= dr_at d <= 5 * Second /\ disposed nc d.
Proof.
  intros Hp. unfold drop_conn. destruct (conn_Drain nc) as [[]|e|p] eqn:E; [| |by destruct (Hp p)].
  - destruct (drain_ends nc tick_first E) as (d & -> & Hat & Hr). exists d. cbn. unfold disposed.
    destruct (dr_result d) as [|e|]; [|destruct Hr as (? & ? & _)|done]; (split; [done|]);
      (split; [exact Hat|]); naive_solver.
  - unfold drainAndClose. rewrite E. exists (mkDrained (Err e) 0 true). split; [done|]. cbn.
    split; [unfold Second; lia|]. by left.
Qed.

(** C28: setting up a connection always returns, for options, connection and
    handlers that do anything but panic: when [nats.Connect] fails at once
    with its error, and otherwise at the latest five seconds after the
    deadline computed from the options, which counts from the return of
    [nats.Connect]; it hands out the connection only when the connect handler
    reported it no later than the deadline, and a connection it does not hand
    out has been closed, after [Drain] failed or five seconds were not
    enough, or has been seen drained. *)
Theorem setupNatsConn_bounded (connect : result conn) (took : Z) (o : Options) (a : arrivals) (pick : nat)
    (tick_first : bool) :
  (forall p, connect <> Panics p) -> (forall nc p, connect = Ok nc -> conn_Drain nc <> Panics p) ->
  exists s, setupNatsConn connect took o a pick tick_first = Some s /\
    match connect with
    | Ok nc =>
        took <= su_at s <= took + setup_deadline o + 5 * Second /\
        match su_result s with
        | Ok nc' => nc' = nc /\ su_at s <= took + setup_deadline o /\
            exists t, connected_at a = Some t /\ su_at s = Z.max took t
        | Err err => (err = EText "timeout setting up nats connection" \/ exists t, failed_at a = Some (t, err)) /\
            exists d, su_drained s = Some d /\ disposed nc d
        | Panics _ => False
        end
    | Err e => s = mkSetup (Err e) took None
    | Panics _ => False
    end.
Proof.
  intros Hc Hd. unfold setupNatsConn. destruct connect as [nc|e|p]; [|by eexists|by destruct (Hc p)].
  destruct (picked o took a pick) as (w & -> & Hin). pose proof (first_instant_bounds o took a) as Hb.
  destruct w as [|err|].
  - eexists. split; [done|]. cbn. split; [unfold Second; lia|]. split; [done|]. split; [lia|].
    by apply (connected_case o took a).
  - destruct (drop_conn_ends nc tick_first (first_instant o took a) err (fun p => Hd nc p eq_refl))
      as (d & -> & Hat & Hdis).
    eexists. split; [done|]. cbn. split; [lia|]. split; [right; by apply (failed_case o took a (first_instant o took a))|].
    by exists d.
  - destruct (drop_conn_ends nc tick_first (first_instant o took a) (EText "timeout setting up nats connection")
      (fun p => Hd nc p eq_refl)) as (d & -> & Hat & Hdis).
    eexists. split; [done|]. cbn. split; [lia|]. split; [by left|]. by exists d.
Qed.

(** Connecting never happens within the deadline of four seconds, and the
    connection takes two seconds to drain, or refuses to. *)
Definition ex_conn : conn := mkConn (Ok tt) (fun t => t <? 2 * Second).
Definition ex_refusing : conn := mkConn (Err (ELib "nats" "nats: connection reconnecting")) (fun _ => false).
Definition ex_options : Options := mkOptions (2 * Second) false 15 0 0 0 false 0 0.
Lemma setupNatsConn_bounded_witness :
  (exists s d, setupNatsConn (Ok ex_conn) Second ex_options (mkArrivals None None) 0 true = Some s /\
    su_at s <= Second + setup_deadline ex_options + 5 * Second /\ su_at s = 7 * Second /\
    su_drained s = Some d /\ conn_IsDraining ex_conn (dr_at d) = false) /\
  (exists s d, setupNatsConn (Ok ex_refusing) Second ex_options (mkArrivals None None) 0 true = Some s /\
    su_drained s = Some d /\ dr_closed d = true).
Proof.
  split.
  - destruct (setupNatsConn_bounded (Ok ex_conn) Second ex_options (mkArrivals None None) 0 true ltac:(done)
      ltac:(by intros ? ? [= <-])) as (s & E & Hat & Hr).
    exists s. assert (exists d, s = mkSetup (Err (EText "timeout setting up nats connection")) (7 * Second) (Some d) /\
      dr_closed d = false) as (d & -> & Hcl) by (vm_compute in E; injection E as <-; by eexists).
    destruct Hr as [_ (d' & [= <-] & [[Hcl' _]|[_ Hdr]])]; [congruence|].
    exists d. split_and!; [exact E|apply Hat|reflexivity|reflexivity|exact Hdr].
  - destruct (setupNatsConn_bounded (Ok ex_refusing) Second ex_options (mkArrivals None None) 0 true ltac:(done)
      ltac:(by intros ? ? [= <-])) as (s & E & Hat & Hr).
    exists s. assert (exists r t d, s = mkSetup (Err r) t (Some d)) as (r & t & d & ->)
      by (vm_compute in E; injection E as <-; by do 3 eexists).
    destruct Hr as [_ (d' & [= <-] & [[Hcl _]|[Hdr _]])]; [|done]. exists d. split_and!; [exact E|done|exact Hcl].
Defined.

(** Neither [Init] retries the first connection, so both wait for twice
    the configured connection timeout, exactly, for every timeout below
    2^62ns; from there the product leaves [int64] and the wait is over at
    once. *)
Theorem init_deadlines (cc : NatsRPCClientConfig) (sc : NatsRPCServerConfig) :
  0 <= cc_ConnectionTimeout cc < 2 ^ 63 -> 0 <= sc_ConnectionTimeout sc < 2 ^ 63 ->
  setup_deadline (client_options cc) =
    (if cc_ConnectionTimeout cc <? 2 ^ 62 then 2 * cc_ConnectionTimeout cc else 0) /\
  setup_deadline (server_options sc) =
    (if sc_ConnectionTimeout sc <? 2 ^ 62 then 2 * sc_ConnectionTimeout sc else 0).
Proof.
  assert (forall t, 0 <= t < 2 ^ 63 -> Z.max 0 (i64 (t * 2)) = if t <? 2 ^ 62 then 2 * t else 0) as H.
  { intros t Ht. destruct (Z.ltb_spec t (2 ^ 62)); [rewrite i64_small; lia|].
    unfold i64. replace (t * 2 + 2 ^ 63) with (t * 2 - 2 ^ 63 + 1 * 2 ^ 64) by lia.
    rewrite Z.mod_add, Z.mod_small by lia. lia. }
  intros Hc Hs. split; by apply H.
Qed.

Lemma init_deadlines_witness :
  setup_deadline (server_options (nats_config 1)) = 4.
Proof.
  refine (proj2 (init_deadlines {| cc_Connect := "nats://localhost:4222";
    cc_MaxReconnectionRetries := 15; cc_RequestTimeout := 5; cc_ConnectionTimeout := 2;
    cc_WebsocketCompression := true; cc_ReconnectJitter := 0; cc_ReconnectJitterTLS := 0;
    cc_ReconnectWait := 0; cc_PingInterval := 0; cc_MaxPingsOutstanding := 0 |} (nats_config 1) _ _));
    cbn; lia.
Defined.

(** ** [Init] *)

(** [Init] of the server succeeds exactly when it got the connection and the
    subscription; then the subscription is to the subject of the server, the
    pool is started when there is one and [Services] dispatchers run. *)
Theorem server_Init_iff (ns : NatsRPCServer) connect took a pick tick_first subscribe st :
  server_Init ns connect took a pick tick_first subscribe = Some (st, Ok tt) <->
  exists nc t, setupNatsConn connect took (server_options (ns_config ns)) a pick tick_first =
      Some (mkSetup (Ok nc) t None) /\ subscribe = Ok tt /\
    st = mkStarted true (Some nc)
           (Some (getChannel (Discovery.Discovery.Type_ (ns_server ns))
                             (Discovery.Discovery.ID (ns_server ns))))
           (workerPool ns) (Z.to_nat (sc_Services (ns_config ns))).
Proof.
  unfold server_Init. split.
  - destruct (setupNatsConn _ _ _ _ _ _) as [[r t d]|] eqn:E; [|done]. cbn.
    destruct r as [nc|e|p]; [|done..]. destruct subscribe as [[]|e|p]; [|done..].
    intros [= <-]. exists nc, t. split_and!; [|done..].
    unfold setupNatsConn, drop_conn in E. destruct connect as [nc'|e|p]; [|done..].
    destruct (ready _ _ _ !! _) as [[]|]; [by simplify_eq| | |done];
      destruct (drainAndClose _ _) as [d'|]; try done; cbn in E; by destruct (dr_result d').
  - intros (nc & t & E & -> & ->). by rewrite E.
Qed.

End NatsConn.
