(* ===== verification/ServerLoop.v ===== *)
(** * The goroutines of the RPC server: [handleMessages], the dispatchers and
    the goroutines that wait for the semaphore ([cluster/nats_rpc_server.go])

    A step is one operation on a channel or on the semaphore. The
    subscription of NATS is another goroutine, which puts messages in the
    channel it was given. The state also records the history: the messages
    the channel took and the requests handed to dispatchers. *)

From S2P Require Import Prelude Proto3 Errors Store Protos Nats.
From Stdlib Require Import Strings.Byte.
Import Protos Nats.Nats.

Module ServerLoop.

(** A message of the subscription. *)
Record msg := mkNatsMsg { nm_Data : list byte; nm_Reply : string }.

(** Where [handleMessages] is: at its [select], sending a request on the
    channel of the dispatchers, or past its deferred function. *)
Inductive pc := Selecting | Handing (req : Request) | Finished.

Record loop := mkLoop {
  cap : nat;
  subChan : list msg;
  subChan_closed : bool;
  at_ : pc;
  stopChan_closed : bool;
  unhandled_closed : bool;
  idle : nat;
  busy : list Request;
  exited : nat;
  accepted : list msg;
  handed : list Request;
  dropped : nat
}.

(** After [Init], with a channel of [cap] messages and [n] dispatchers. *)
Definition init (cap n : nat) : loop :=
  mkLoop cap [] false Selecting false false n [] 0 [] [] 0.

Inductive action :=
| Deliver (m : msg)
| Take
| Hand
| Done (i : nat)
| CloseStop
| Return_
| Exit.

Section Loop.
Context {P : Wire}.

(** The request in a message, when it has one. *)
Definition request (m : msg) : option Request :=
  match handle_message (nm_Data m) (nm_Reply m) with Ok r => r | _ => None end.
(** A message on which the loop does not panic. *)
Definition readable (m : msg) : Prop :=
  exists r, handle_message (nm_Data m) (nm_Reply m) = Ok r.

Definition with_at (s : loop) (q : list msg) (p : pc) : loop :=
  mkLoop (cap s) q (subChan_closed s) p (stopChan_closed s) (unhandled_closed s) (idle s) (busy s)
    (exited s) (accepted s) (handed s) (dropped s).

(** The subscription: a full channel drops the message. *)
Definition deliver (m : msg) (s : loop) : outcome error loop :=
  if subChan_closed s then Panics (PanicMessage "send on closed channel")
  else if bool_decide (length (subChan s) < cap s)%nat
  then Ok (mkLoop (cap s) (subChan s ++ [m]) (subChan_closed s) (at_ s) (stopChan_closed s)
             (unhandled_closed s) (idle s) (busy s) (exited s) (accepted s ++ [m]) (handed s) (dropped s))
  else Ok (mkLoop (cap s) (subChan s) (subChan_closed s) (at_ s) (stopChan_closed s)
             (unhandled_closed s) (idle s) (busy s) (exited s) (accepted s) (handed s) (S (dropped s))).

(** The case of a message in [handleMessages], up to its send. *)
Definition take (s : loop) : option (outcome error loop) :=
  match at_ s, subChan s with
  | Selecting, m :: q =>
      Some (match handle_message (nm_Data m) (nm_Reply m) with
            | Ok (Some req) => Ok (with_at s q (Handing req))
            | Ok None => Ok (with_at s q Selecting)
            | Err e => Err e
            | Panics p => Panics p
            end)
  | _, _ => None
  end.

(** The send, which needs a dispatcher at its [range]. *)
Definition hand (s : loop) : option (outcome error loop) :=
  match at_ s, idle s with
  | Handing req, S n =>
      Some (Ok (mkLoop (cap s) (subChan s) (subChan_closed s) Selecting (stopChan_closed s)
                  (unhandled_closed s) n (busy s ++ [req]) (exited s) (accepted s) (handed s ++ [req])
                  (dropped s)))
  | _, _ => None
  end.

(** The end of an iteration of [processMessages]. *)
Definition finish (i : nat) (s : loop) : option (outcome error loop) :=
  match busy s !! i with
  | Some _ =>
      Some (Ok (mkLoop (cap s) (subChan s) (subChan_closed s) (at_ s) (stopChan_closed s)
                  (unhandled_closed s) (S (idle s)) (delete i (busy s)) (exited s) (accepted s) (handed s)
                  (dropped s)))
  | None => None
  end.

(** [Shutdown]. *)
Definition close_stop (s : loop) : outcome error loop :=
  if stopChan_closed s then Panics CloseOfClosedChannel
  else Ok (mkLoop (cap s) (subChan s) (subChan_closed s) (at_ s) true (unhandled_closed s) (idle s)
             (busy s) (exited s) (accepted s) (handed s) (dropped s)).

(** The case of the stop channel and the deferred function: [Drain] only
    starts draining, and the two channels are closed. *)
Definition return_ (s : loop) : option (outcome error loop) :=
  match at_ s with
  | Selecting =>
      if stopChan_closed s
      then Some (Ok (mkLoop (cap s) (subChan s) true Finished true true (idle s) (busy s) (exited s)
                       (accepted s) (handed s) (dropped s)))
      else None
  | _ => None
  end.

(** A dispatcher whose channel is closed ends. *)
Definition exit (s : loop) : option (outcome error loop) :=
  match idle s with
  | S n =>
      if unhandled_closed s
      then Some (Ok (mkLoop (cap s) (subChan s) (subChan_closed s) (at_ s) (stopChan_closed s) true n
                       (busy s) (S (exited s)) (accepted s) (handed s) (dropped s)))
      else None
  | O => None
  end.

(** One step; [None] when the action is not possible. *)
Definition step (s : loop) (a : action) : option (outcome error loop) :=
  match a with
  | Deliver m => Some (deliver m s)
  | Take => take s
  | Hand => hand s
  | Done i => finish i s
  | CloseStop => Some (close_stop s)
  | Return_ => return_ s
  | Exit => exit s
  end.

Fixpoint run (s : loop) (acts : list action) : option (outcome error loop) :=
  match acts with
  | [] => Some (Ok s)
  | a :: acts =>
      match step s a with
      | Some (Ok s) => run s acts
      | r => r
      end
  end.

(** ** Invariant *)

Definition in_hand (s : loop) : list Request :=
  match at_ s with Handing req => [req] | _ => [] end.

Definition is_finished (s : loop) : bool := match at_ s with Finished => true | _ => false end.

Record good (c n : nat) (s : loop) : Prop := {
  good_order : omap request (accepted s) = handed s ++ in_hand s ++ omap request (subChan s);
  good_cap : cap s = c;
  good_room : (length (subChan s) <= c)%nat;
  good_threads : (idle s + length (busy s) + exited s = n)%nat;
  good_closed : subChan_closed s = is_finished s;
  good_unhandled : unhandled_closed s = is_finished s;
  good_stop : at_ s = Finished -> stopChan_closed s = true;
  good_exited : (0 < exited s)%nat -> at_ s = Finished
}.

Lemma good_init cap n : good cap n (init cap n).
Proof. split; cbn; try done; lia. Qed.

Ltac fields := cbn [cap subChan subChan_closed at_ stopChan_closed unhandled_closed idle busy exited
  accepted handed dropped with_at in_hand is_finished] in *.

(** The parts of the invariant a step does not touch. *)
Ltac keep He := split; fields; try done; try lia; try (by intros ?%He).

(** The order is kept: a message goes to the end of the channel, a request
    from its head through the hand of the loop to a dispatcher. *)
Lemma step_good c n s a s' : good c n s -> step s a = Some (Ok s') -> good c n s'.
Proof.
  intros [Ho <- Hr Ht Hc Hu Hs He]. destruct s as [c q qc p sc uc id bu ex ac ha dr].
  unfold in_hand, is_finished in *. destruct a as [m| | |i| | |]; cbn [step].
  - unfold deliver. fields. destruct qc; [done|]. case_bool_decide; intros [= <-]; split; fields; try done.
    + rewrite !omap_app, Ho, <-!app_assoc. done.
    + rewrite length_app. cbn. lia.
  - unfold take. fields. destruct p as [|req|]; [|done..]. destruct q as [|m q]; [done|].
    cbn [length] in Hr. destruct (handle_message _ _) as [[req|]|e|pa] eqn:Eh; intros [= <-];
      keep He; rewrite Ho; cbn; unfold request at 1; by rewrite Eh.
  - unfold hand. fields. destruct p as [|req|]; [done| |done]. destruct id as [|id]; [done|].
    intros [= <-]. keep He.
    + rewrite Ho. by rewrite <-app_assoc.
    + rewrite length_app. cbn. lia.
  - unfold finish. fields. destruct (bu !! i) as [r|] eqn:Ei; [|done]. intros [= <-]. keep He.
    pose proof (lookup_lt_Some _ _ _ Ei). rewrite length_delete by eauto. lia.
  - unfold close_stop. fields. destruct sc; [done|]. intros [= <-]. by split.
  - unfold return_. fields. destruct p; [|done..]. destruct sc; [|done]. intros [= <-]. by split.
  - unfold exit. fields. destruct id as [|id]; [done|]. destruct uc; [|done]. intros [= <-].
    keep He. intros _. by destruct p.
Qed.

Lemma run_good c n s acts s' : good c n s -> run s acts = Some (Ok s') -> good c n s'.
Proof.
  revert s. induction acts as [|a acts IH]; intros s Hg; cbn; [by intros [= <-]|].
  destruct (step s a) as [[s1|e|p]|] eqn:E; [|done..]. apply IH. by eapply step_good.
Qed.

(** The requests handed to the dispatchers are, in order and each once,
    the requests of the messages the subscription's channel took; what is
    missing of them is in the hand of the loop or still in the channel. The
    channel never holds more than its size, and every dispatcher is waiting,
    working or gone. *)
Theorem dispatched_in_order (cap n : nat) (acts : list action) (s : loop) :
  run (init cap n) acts = Some (Ok s) ->
  omap request (accepted s) = handed s ++ in_hand s ++ omap request (subChan s) /\
  (length (subChan s) <= cap)%nat /\ (idle s + length (busy s) + exited s = n)%nat.
Proof.
  intros H. by destruct (run_good cap n _ _ _ (good_init cap n) H).
Qed.

(** ** Shutdown *)

Lemma finished_step s a s' :
  at_ s = Finished -> step s a = Some (Ok s') ->
  at_ s' = Finished /\ handed s' = handed s /\ (subChan_closed s = true -> subChan s' = subChan s /\ subChan_closed s' = true).
Proof.
  intros Hf. destruct a as [m| | |i| | |]; cbn [step];
    unfold deliver, take, hand, finish, close_stop, return_, exit; rewrite ?Hf; try done; intros H;
    repeat case_match; simplify_eq; fields; naive_solver.
Qed.

Lemma finished_run s acts s' :
  at_ s = Finished -> subChan_closed s = true -> run s acts = Some (Ok s') ->
  handed s' = handed s /\ subChan s' = subChan s.
Proof.
  revert s. induction acts as [|a acts IH]; intros s Hf Hc; cbn; [by intros [= <-]|].
  destruct (step s a) as [[s1|e|p]|] eqn:E; [|done..].
  destruct (finished_step _ _ _ Hf E) as (Hf1 & Hh & Hs). destruct (Hs Hc) as [Hs1 Hc1].
  intros H. destruct (IH s1 Hf1 Hc1 H). split; congruence.
Qed.

(** C39: the end of [handleMessages] abandons the subscription: once the loop
    has returned after [Shutdown], the requests of the messages left in the
    channel are never handed to a dispatcher, and the next message the
    subscription delivers, which [Drain] does not prevent, is a send on a
    closed channel and panics. *)
Theorem shutdown_abandons (cap n : nat) (acts : list action) (s : loop) :
  run (init cap n) acts = Some (Ok s) -> at_ s = Finished ->
  (forall m, step s (Deliver m) = Some (Panics (PanicMessage "send on closed channel"))) /\
  (forall acts' s', run s acts' = Some (Ok s') ->
     handed s' = handed s /\ omap request (accepted s) = handed s' ++ omap request (subChan s')).
Proof.
  intros H Hf. destruct (run_good cap n _ _ _ (good_init cap n) H) as [Ho _ _ _ Hc _ _ _].
  unfold is_finished, in_hand in *. rewrite Hf in *. split.
  - intros m. cbn. unfold deliver. by rewrite Hc.
  - intros acts' s' H'. destruct (finished_run s acts' s' Hf Hc H') as [-> ->]. by split.
Qed.

(** ** Progress *)

(** The steps the server makes by itself while it is not told to stop. *)
Definition internal (a : action) : Prop :=
  match a with Take | Hand | Done _ => True | _ => False end.
Definition work (s : loop) : nat :=
  3 * length (subChan s) + 2 * length (in_hand s) + length (busy s).

Lemma internal_works s a s' : internal a -> step s a = Some (Ok s') ->
  (work s' < work s)%nat /\ (at_ s <> Finished -> at_ s' <> Finished) /\
  accepted s' = accepted s /\ exists ms, subChan s = ms ++ subChan s'.
Proof.
  destruct s as [c q qc p sc uc id bu ex ac ha dr]. unfold work, in_hand.
  destruct a as [m| | |i| | |]; cbn [step internal]; try done; intros _.
  - unfold take. fields. destruct p; [|done..]. destruct q as [|m q]; [done|].
    destruct (handle_message _ _) as [[req|]|e|pa]; intros [= <-]; fields;
      (split_and!; [cbn; lia|done|done|by exists [m]]).
  - unfold hand. fields. destruct p as [|req|]; [done| |done]. destruct id; [done|].
    intros [= <-]. fields. rewrite length_app. split_and!; [cbn; lia|done|done|by exists []].
  - unfold finish. fields. destruct (bu !! i) as [r|] eqn:Ei; [|done]. intros [= <-]. fields.
    pose proof (lookup_lt_Some _ _ _ Ei). rewrite length_delete by eauto.
    split_and!; [lia|done|done|by exists []].
Qed.

Lemma internal_run s acts s' : Forall internal acts -> run s acts = Some (Ok s') ->
  (length acts + work s' <= work s)%nat /\ (at_ s <> Finished -> at_ s' <> Finished) /\
  accepted s' = accepted s /\ exists ms, subChan s = ms ++ subChan s'.
Proof.
  intros H. revert s. induction H as [|a acts Ha _ IH]; intros s; cbn [run].
  - intros [= <-]. split_and!; [cbn [length]; lia|done|done|by exists []].
  - destruct (step s a) as [[s1|e|p]|] eqn:E; [|done..]. intros Hr.
    destruct (internal_works _ _ _ Ha E) as (Hw & Hf & Hac & ms & Hms).
    destruct (IH s1 Hr) as (Hw' & Hf' & Hac' & ms' & Hms'). split_and!; [cbn [length]; lia|auto|congruence|].
    exists (ms ++ ms'). by rewrite <-app_assoc, <-Hms'.
Qed.

(** Left to itself the server dispatches every request it has taken: from
    a state it can reach, with at least one dispatcher and messages it can
    read, its own steps come to an end after a number of steps known in
    advance, none of them panics, and when none is left, whatever their order
    was, all requests have been handed over. *)
Theorem dispatch_completes (cap n : nat) (acts : list action) (s : loop) :
  run (init cap n) acts = Some (Ok s) -> (0 < n)%nat -> at_ s <> Finished ->
  Forall readable (subChan s) ->
  forall acts' s', Forall internal acts' -> run s acts' = Some (Ok s') ->
  (length acts' <= work s)%nat /\
  (forall a r, internal a -> step s' a = Some r -> is_ok r = true) /\
  ((forall a, internal a -> step s' a = None) -> handed s' = omap request (accepted s)).
Proof.
  intros H Hn Hf Hrd acts' s' Hi H'.
  destruct (internal_run _ _ _ Hi H') as (Hw & Hf' & Hac & ms & Hms). split_and!; [lia| |].
  { intros a r Ha. rewrite Hms in Hrd. apply Forall_app in Hrd as [_ Hrd]. revert Ha.
    destruct a as [m| | |i| | |]; cbn [step internal]; try done; intros _;
      unfold take, hand, finish; repeat case_match; intros; simplify_eq; try done;
      apply Forall_cons in Hrd as [[o Ho] _]; congruence. }
  intros Hstuck.
  pose proof (run_good cap n _ _ _ (run_good cap n _ _ _ (good_init cap n) H) H') as [Ho _ _ Ht _ _ _ He].
  rewrite <-Hac, Ho. specialize (Hf' Hf).
  assert (busy s' = []) as Hb.
  { specialize (Hstuck (Done 0) I). cbn in Hstuck. unfold finish in Hstuck. by destruct (busy s'). }
  assert (exited s' = 0)%nat as Hx by (destruct (decide (exited s' = 0)%nat); [done|]; exfalso; apply Hf', He; lia).
  rewrite Hb, Hx in Ht. cbn in Ht. unfold in_hand. destruct (at_ s') as [|req|] eqn:Ea; [|exfalso|done].
  - specialize (Hstuck Take I). cbn in Hstuck. unfold take in Hstuck. rewrite Ea in Hstuck.
    destruct (subChan s'); [|done]. by rewrite !app_nil_r.
  - specialize (Hstuck Hand I). cbn in Hstuck. unfold hand in Hstuck. rewrite Ea in Hstuck.
    destruct (idle s'); [lia|done].
Qed.

(** Without dispatchers the first request blocks the loop for good, and
    [Shutdown] no longer ends it. *)
Lemma no_dispatcher_blocks cap acts s req acts' s' :
  run (init cap 0) acts = Some (Ok s) -> at_ s = Handing req ->
  run s acts' = Some (Ok s') -> at_ s' = Handing req.
Proof.
  intros H. pose proof (run_good cap 0 _ _ _ (good_init cap 0) H) as Hg. clear H. revert s Hg.
  induction acts' as [|a acts' IH]; intros s Hg Ha; cbn [run]; [by intros [= <-]|].
  destruct (step s a) as [[s1|e|p]|] eqn:E; [|done..]. apply IH; [by eapply step_good|].
  destruct Hg as [_ _ _ Ht _ _ _ _]. revert E.
  destruct a as [m| | |i| | |]; cbn [step];
    unfold deliver, take, hand, finish, close_stop, return_, exit; rewrite ?Ha; try done; intros H;
    repeat case_match; simplify_eq; fields; try done; lia.
Qed.

End Loop.

(** ** The semaphore *)

(** The goroutines started for requests without a share id: waiting for the
    semaphore, working with a unit of it, or done, having answered. *)
Module Flow.

Record flow := mkFlow {
  limit : nat;
  waiting : list Request;
  working : list Request;
  answered : list Request
}.

Definition flow_init (limit : nat) : flow := mkFlow limit [] [] [].

(** A goroutine starts; [Acquire] gives it a unit, or its deadline passes
    first and it answers that there are too many requests; it answers and
    releases its unit. *)
Inductive flow_action := Go (req : Request) | Acquire (i : nat) | Expire (i : nat) | Release (i : nat).

Definition flow_step (s : flow) (a : flow_action) : option flow :=
  match a with
  | Go req => Some (mkFlow (limit s) (waiting s ++ [req]) (working s) (answered s))
  | Acquire i =>
      req ← waiting s !! i;
      if bool_decide (length (working s) < limit s)%nat
      then Some (mkFlow (limit s) (delete i (waiting s)) (working s ++ [req]) (answered s))
      else None
  | Expire i =>
      req ← waiting s !! i;
      Some (mkFlow (limit s) (delete i (waiting s)) (working s) (answered s ++ [req]))
  | Release i =>
      req ← working s !! i;
      Some (mkFlow (limit s) (waiting s) (delete i (working s)) (answered s ++ [req]))
  end.

Fixpoint flow_run (s : flow) (acts : list flow_action) : option flow :=
  match acts with
  | [] => Some s
  | a :: acts => s ← flow_step s a; flow_run s acts
  end.

(** The requests for which a goroutine was started. *)
Definition goroutines (acts : list flow_action) : list Request :=
  omap (fun a => match a with Go req => Some req | _ => None end) acts.

Lemma step_conserves s a s' : flow_step s a = Some s' ->
  limit s' = limit s /\ ((length (working s) <= limit s) -> (length (working s') <= limit s'))%nat /\
  waiting s' ++ working s' ++ answered s' ≡ₚ
    waiting s ++ working s ++ answered s ++ goroutines [a].
Proof.
  destruct s as [l w k d]. destruct a as [req|i|i|i]; cbn.
  - intros [= <-]. cbn. split_and!; [done..|]. solve_Permutation.
  - destruct (w !! i) as [req|] eqn:E; [|done]. cbn. case_bool_decide; [|done]. intros [= <-]. cbn.
    split_and!; [done|rewrite length_app; cbn; lia|]. rewrite (delete_Permutation w i req) at 2 by done.
    solve_Permutation.
  - destruct (w !! i) as [req|] eqn:E; [|done]. intros [= <-]. cbn. split_and!; [done..|].
    rewrite (delete_Permutation w i req) at 2 by done. solve_Permutation.
  - destruct (k !! i) as [req|] eqn:E; [|done]. intros [= <-]. cbn.
    pose proof (lookup_lt_Some _ _ _ E). split_and!; [done|rewrite length_delete by eauto; lia|].
    rewrite (delete_Permutation k i req) at 2 by done. solve_Permutation.
Qed.

Lemma run_conserves s acts s' : flow_run s acts = Some s' ->
  limit s' = limit s /\ ((length (working s) <= limit s) -> (length (working s') <= limit s'))%nat /\
  waiting s' ++ working s' ++ answered s' ≡ₚ
    waiting s ++ working s ++ answered s ++ goroutines acts.
Proof.
  revert s. induction acts as [|a acts IH]; intros s; cbn [flow_run].
  - intros [= <-]. split_and!; [done..|]. cbn. by rewrite app_nil_r.
  - destruct (flow_step s a) as [s1|] eqn:E; [|done]. cbn [mbind option_bind]. intros H.
    destruct (step_conserves _ _ _ E) as (Hl & Hk & Hp). destruct (IH s1 H) as (Hl' & Hk' & Hp').
    split_and!; [congruence|auto|]. rewrite Hp'.
    assert (goroutines (a :: acts) = goroutines [a] ++ goroutines acts) as -> by apply (omap_app _ [a]).
    rewrite !app_assoc in *. by rewrite Hp.
Qed.

(** Outside the worker pool at most [Semaphore] requests are worked on at
    a time, and every request for which a goroutine was started is waiting,
    worked on or has been answered, exactly once; when no goroutine is left,
    the answered requests are those that were started. *)
Theorem semaphore_limits (limit : nat) (acts : list flow_action) (s : flow) :
  flow_run (flow_init limit) acts = Some s ->
  (length (working s) <= limit)%nat /\
  waiting s ++ working s ++ answered s ≡ₚ goroutines acts /\
  (waiting s = [] -> working s = [] -> answered s ≡ₚ goroutines acts).
Proof.
  intros H. destruct (run_conserves _ _ _ H) as (Hl & Hk & Hp). cbn in *.
  split_and!; [rewrite <-Hl; apply Hk; lia|done|]. intros Hw Hk0. by rewrite Hw, Hk0 in Hp.
Qed.

Lemma semaphore_limits_witness : exists s,
  flow_run (flow_init 1) [Go ping; Go ping; Acquire 0; Expire 0; Release 0] = Some s /\
  answered s ≡ₚ [ping; ping].
Proof.
  exists (mkFlow 1 [] [] [ping; ping]). split; [vm_compute; reflexivity|].
  refine (proj2 (proj2 (semaphore_limits 1
    [Go ping; Go ping; Acquire 0; Expire 0; Release 0]
    (mkFlow 1 [] [] [ping; ping]) _)) eq_refl eq_refl).
  vm_compute. reflexivity.
Defined.

End Flow.

(** ** Witnesses *)

Definition ex_msg : msg := mkNatsMsg (Proto3.write (request_fields ping)) "inbox".

Lemma ex_request : request ex_msg = Some ping.
Proof. vm_compute. reflexivity. Qed.

(** Two messages, the first of them handed over. *)
Definition ex_acts : list action := [Deliver ex_msg; Deliver ex_msg; Take; Hand].
Definition final (s : loop) (acts : list action) : loop :=
  match run s acts with Some (Ok s) => s | _ => s end.
Definition ex_loop : loop := final (init 75 30) ex_acts.

Lemma dispatched_in_order_witness : omap request (accepted ex_loop) = handed ex_loop ++ [ping].
Proof.
  assert (run (init 75 30) ex_acts = Some (Ok ex_loop)) as E by (vm_compute; reflexivity).
  destruct (dispatched_in_order 75 30 ex_acts ex_loop E) as [H _]. rewrite H.
  vm_compute. reflexivity.
Defined.

Definition ex_end : list action := [CloseStop; Return_].
Lemma shutdown_abandons_witness :
  length (subChan (final ex_loop ex_end)) = 1%nat /\
  step (final ex_loop ex_end) (Deliver ex_msg) = Some (Panics (PanicMessage "send on closed channel")).
Proof.
  assert (run (init 75 30) (ex_acts ++ ex_end) = Some (Ok (final ex_loop ex_end))) as E
    by (vm_compute; reflexivity).
  split; [vm_compute; reflexivity|].
  refine (proj1 (shutdown_abandons 75 30 (ex_acts ++ ex_end) _ E _) ex_msg). vm_compute. reflexivity.
Defined.

Definition ex_work : list action := [Take; Hand; Done 0; Done 0].
Lemma dispatch_completes_witness : handed (final ex_loop ex_work) = [ping; ping].
Proof.
  assert (run (init 75 30) ex_acts = Some (Ok ex_loop)) as E by (vm_compute; reflexivity).
  assert (run ex_loop ex_work = Some (Ok (final ex_loop ex_work))) as E' by (vm_compute; reflexivity).
  transitivity (omap request (accepted ex_loop)); [|vm_compute; reflexivity].
  refine (proj2 (proj2 (dispatch_completes 75 30 ex_acts ex_loop E _ _ _ ex_work _ _ E')) _).
  - lia.
  - vm_compute. discriminate.
  - constructor; [|constructor]. exists (Some ping). vm_compute. reflexivity.
  - by repeat constructor.
  - intros [m| | |[|i]| | |] Hi; first [destruct Hi; fail | vm_compute; reflexivity].
Defined.


End ServerLoop.
