(* ===== verification/Ordered.v ===== *)
(** * The RPC server as a whole: from the subscription to the worker pool

    The composition of the goroutines of ServerLoop with the worker pool: a
    dispatcher of [processMessages] that is handed a request of a share id
    calls [Submit] of the pool, and takes the next request when the call
    returns. *)

From S2P Require Import Prelude Proto3 Errors Message Context Discovery Store Protos Nats ServerLoop WorkerPool.
From Stdlib Require Import Strings.Byte.
Import Discovery Protos Nats.Nats.

Module Ordered.
Import Ctx ServerLoop.

(** ** The system *)

(** A dispatcher with a request in hand: before [Submit], with the place of
    the request among those handed out, or in it. A dispatcher that waits at
    its [range] has none. *)
Inductive dispatcher := Got (k : nat) (req : Request) | Submitting (req : Request).

Record server := mkServer {
  lp : loop;
  wp : WorkerPool.state;
  threads : gmap nat dispatcher
}.

Inductive action :=
| LoopAct (a : ServerLoop.action)
| HandTo (i : nat)
| SubmitCall (i : nat)
| Next (i : nat)
| PoolAct (e : WorkerPool.event).

Section System.
Context {J : Ctx.Json} {P : Wire}.
Variable ns : NatsRPCServer.
Variable nuid : string.

(** The share id under which [processMessages] submits a request. *)
Definition share_of (req : Request) : option string :=
  match processMessages ns nuid req ∅ with
  | (_, Ok (ToPool id _ _ _)) => Some id
  | _ => None
  end.

(** [processMessages] panics on a request; the panic of a goroutine ends the
    process, so its dispatcher takes no further step. *)
Definition fatal (req : Request) : bool :=
  match (processMessages ns nuid req ∅).2 with Ok _ => false | _ => true end.

(** The [services] dispatchers, and the pool, at the start. *)
Variable services : nat.
Definition server_init (cap : nat) (pool : WorkerPool.WorkerPool) : server :=
  mkServer (init cap services) (WorkerPool.Start pool) ∅.

(** The end of the iteration for [req]. *)
Definition next (i : nat) (req : Request) (s : server) : option server :=
  '(j, _) ← list_find (fun r => r = req) (busy (lp s));
  match step (lp s) (Done j) with
  | Some (Ok l) => Some (mkServer l (wp s) (delete i (threads s)))
  | _ => None
  end.

(** One step, [None] when it is not possible. *)
Definition exec (a : action) (s : server) : option server :=
  match a with
  | LoopAct (Hand | Done _) => None
  | LoopAct a =>
      match step (lp s) a with Some (Ok l) => Some (mkServer l (wp s) (threads s)) | _ => None end
  | HandTo i =>
      match at_ (lp s), threads s !! i, step (lp s) Hand with
      | Handing req, None, Some (Ok l) =>
          if bool_decide (i < services)%nat
          then Some (mkServer l (wp s) (<[i := Got (length (handed (lp s))) req]> (threads s)))
          else None
      | _, _, _ => None
      end
  | SubmitCall i =>
      match threads s !! i with
      | Some (Got k req) =>
          id ← share_of req;
          p ← WorkerPool.exec (WorkerPool.Call i (WorkerPool.mkTask id k)) (wp s);
          Some (mkServer (lp s) p (<[i := Submitting req]> (threads s)))
      | _ => None
      end
  | Next i =>
      match threads s !! i with
      | Some (Got _ req) =>
          match share_of req with Some _ => None | None => if fatal req then None else next i req s end
      | Some (Submitting req) =>
          match WorkerPool.subs (wp s) !! i with Some _ => None | None => next i req s end
      | None => None
      end
  | PoolAct (WorkerPool.Call _ _) => None
  | PoolAct e => p ← WorkerPool.exec e (wp s); Some (mkServer (lp s) p (threads s))
  end.

Definition sstep (s s' : server) : Prop := exists a, exec a s = Some s'.
(** The steps after which no queue is closed while a call of [Submit] has it
    in hand. *)
Definition calm_sstep (s s' : server) : Prop := sstep s s' /\ WorkerPool.calm (wp s').

Fixpoint run_server (l : list action) (s : server) : option server :=
  match l with [] => Some s | a :: l => s ← exec a s; run_server l s end.

(** ** Places *)

(** The tasks of a list of requests, known by their places, and the places of
    the requests of a share id. *)
Definition task_at (kr : nat * Request) : option WorkerPool.task :=
  (fun id => WorkerPool.mkTask id kr.1) <$> share_of kr.2.
Definition tasks_of (l : list Request) : list WorkerPool.task := omap task_at (imap pair l).
Definition places (id : string) (l : list Request) : list nat :=
  omap (fun kr => if decide (share_of kr.2 = Some id) then Some kr.1 else None) (imap pair l).

Lemma tasks_of_snoc l r :
  tasks_of (l ++ [r]) = tasks_of l ++ match task_at (length l, r) with Some t => [t] | None => [] end.
Proof.
  unfold tasks_of. rewrite imap_app, omap_app. cbn. rewrite Nat.add_0_r. by destruct (task_at _).
Qed.

Lemma places_prefix id l l' : l `prefix_of` l' -> places id l `prefix_of` places id l'.
Proof. intros [k ->]. unfold places. rewrite imap_app, omap_app. by eexists. Qed.

Lemma places_tasks id l :
  WorkerPool.tid <$> filter (fun t => WorkerPool.share t = id) (tasks_of l) = places id l.
Proof.
  induction l as [|r l IH] using rev_ind; [done|].
  rewrite tasks_of_snoc, filter_app, fmap_app, IH. unfold places. rewrite imap_app, omap_app. f_equal.
  unfold task_at. cbn [imap omap list_omap fst snd]. rewrite Nat.add_0_r.
  destruct (share_of r) as [id'|]; [|by rewrite decide_False].
  cbn [fmap option_fmap option_map]. rewrite filter_cons. cbn [WorkerPool.share].
  destruct (decide (id' = id)) as [->|Hne].
  - by rewrite (decide_True (P := Some id = Some id)).
  - by rewrite (decide_False (P := Some id' = Some id)) by congruence.
Qed.

(** ** One dispatcher *)

Hypothesis one : services = 1%nat.

Record ordered (cap : nat) (s : server) : Prop := {
  o_loop : good cap services (lp s);
  o_alone i d : threads s !! i = Some d -> i = 0%nat;
  o_calls :
    match threads s !! 0%nat with
    | None => busy (lp s) = [] /\ WorkerPool.calls (wp s) = pair 0%nat <$> tasks_of (handed (lp s))
    | Some (Got k req) =>
        busy (lp s) = [req] /\ exists h, handed (lp s) = h ++ [req] /\ k = length h /\
          WorkerPool.calls (wp s) = pair 0%nat <$> tasks_of h
    | Some (Submitting req) =>
        busy (lp s) = [req] /\ WorkerPool.calls (wp s) = pair 0%nat <$> tasks_of (handed (lp s))
    end
}.

Lemma ordered_init cap n size interval pass :
  ordered cap (server_init cap (WorkerPool.NewWorkerPool n size interval pass)).
Proof. split; [apply good_init|done|done]. Qed.

(** The loop's other steps leave the dispatchers alone. *)
Lemma step_others l a l' : match a with Hand | Done _ => False | _ => True end ->
  step l a = Some (Ok l') -> busy l' = busy l /\ handed l' = handed l.
Proof.
  destruct a; cbn [step]; try done; intros _; unfold deliver, take, close_stop, return_, exit;
    intros H; repeat case_match; by simplify_eq.
Qed.

Lemma step_hand l l' req : at_ l = Handing req -> step l Hand = Some (Ok l') ->
  busy l' = busy l ++ [req] /\ handed l' = handed l ++ [req].
Proof. cbn [step]. unfold hand. intros ->. destruct (idle l); [done|]. by intros [= <-]. Qed.

Lemma next_spec cap i req s s' : ordered cap s -> busy (lp s) = [req] -> next i req s = Some s' ->
  good cap services (lp s') /\ busy (lp s') = [] /\ handed (lp s') = handed (lp s) /\ wp s' = wp s /\
  threads s' = delete i (threads s).
Proof.
  intros [Hg _ _] Hb. unfold next. rewrite Hb. cbn [list_find]. rewrite decide_True by done. cbn [mbind option_bind]. intros H.
  destruct (step (lp s) (Done 0)) as [[l|e|p]|] eqn:E; try done.
  assert (finish 0 (lp s) = Some (Ok l)) as Hf by exact E.
  injection H as <-. pose proof (step_good cap services (lp s) (Done 0) l Hg E) as Hg'.
  unfold finish in Hf. rewrite Hb in Hf. cbn in Hf. injection Hf as <-. by split_and!.
Qed.

Lemma pool_calls e p p' : match e with WorkerPool.Call _ _ => False | _ => True end ->
  WorkerPool.exec e p = Some p' -> WorkerPool.calls p' = WorkerPool.calls p.
Proof.
  unfold WorkerPool.exec, WorkerPool.Submit, WorkerPool.getQueue, WorkerPool.start, WorkerPool.clean_visit,
    WorkerPool.clean_queue, WorkerPool.Stop, WorkerPool.stop_visit, WorkerPool.stop_queue, WorkerPool.visit.
  intros He H. WorkerPool.exec_inv; repeat case_match; by cbn.
Qed.

Lemma pool_call i t p p' : WorkerPool.exec (WorkerPool.Call i t) p = Some p' ->
  WorkerPool.calls p' = WorkerPool.calls p ++ [(i, t)].
Proof. unfold WorkerPool.exec. intros H. by WorkerPool.exec_inv. Qed.

Lemma exec_ordered cap a s s' : ordered cap s -> exec a s = Some s' -> ordered cap s'.
Proof.
  intros Ho H. pose proof Ho as [Hg Ha Hc]. destruct a as [a|i|i|i|e]; cbn [exec] in H.
  - assert (match a with Hand | Done _ => False | _ => True end /\
      exists l, step (lp s) a = Some (Ok l) /\ s' = mkServer l (wp s) (threads s)) as (Hna & l & Hl & ->).
    { destruct a; try done; (split; [done|]); destruct (step (lp s) _) as [[l|e|p]|] eqn:E; try done;
        injection H as <-; by exists l. }
    destruct (step_others _ _ _ Hna Hl) as [Hb Hh].
    split; cbn [lp wp threads]; [by eapply step_good|done|by rewrite Hb, Hh].
  - destruct (at_ (lp s)) as [|req|] eqn:Eat; try done. destruct (threads s !! i) eqn:Et; [done|].
    destruct (step (lp s) Hand) as [[l|e|p]|] eqn:El; try done. case_bool_decide as Hi; [|done].
    injection H as <-. assert (i = 0%nat) as -> by lia. rewrite Et in Hc. destruct Hc as [Hb Hc].
    destruct (step_hand _ _ _ Eat El) as [Hb' Hh'].
    split; cbn [lp wp threads]; [by eapply step_good|intros j d; rewrite lookup_insert_Some; naive_solver|].
    rewrite lookup_insert_eq, Hb', Hh', Hb. split; [done|]. by exists (handed (lp s)).
  - destruct (threads s !! i) as [[k req|]|] eqn:Et; try done.
    assert (i = 0%nat) as -> by (by eapply Ha). rewrite Et in Hc. destruct Hc as (Hb & h & Hh & -> & Hc).
    destruct (share_of req) as [id|] eqn:Eid; [|done]. cbn in H.
    destruct (WorkerPool.exec _ _) as [p|] eqn:Ep; [|done]. injection H as <-.
    split; cbn [lp wp threads]; [done|intros j d; rewrite lookup_insert_Some; naive_solver|].
    rewrite lookup_insert_eq. split; [done|]. rewrite (pool_call _ _ _ _ Ep), Hc, Hh, tasks_of_snoc, fmap_app.
    unfold task_at. cbn [fst snd]. by rewrite Eid.
  - destruct (threads s !! i) as [[k req|req]|] eqn:Et; try done;
      assert (i = 0%nat) as -> by (by eapply Ha); rewrite Et in Hc.
    + destruct Hc as (Hb & h & Hh & -> & Hc). destruct (share_of req) as [id|] eqn:Eid; [done|].
      destruct (fatal req); [done|].
      destruct (next_spec cap 0 req s s' Ho Hb H) as (Hg' & Hb' & Hh' & Hp' & Ht').
      split; [done|intros j d; rewrite Ht', lookup_delete_Some; naive_solver|].
      rewrite Ht', lookup_delete_eq, Hb', Hh', Hp', Hh, Hc, tasks_of_snoc. split; [done|].
      unfold task_at. cbn [fst snd]. by rewrite Eid, app_nil_r.
    + destruct Hc as [Hb Hc]. destruct (WorkerPool.subs (wp s) !! 0%nat); [done|].
      destruct (next_spec cap 0 req s s' Ho Hb H) as (Hg' & Hb' & Hh' & Hp' & Ht').
      split; [done|intros j d; rewrite Ht', lookup_delete_Some; naive_solver|].
      by rewrite Ht', lookup_delete_eq, Hb', Hh', Hp'.
  - assert (match e with WorkerPool.Call _ _ => False | _ => True end /\
      exists p, WorkerPool.exec e (wp s) = Some p /\ s' = mkServer (lp s) p (threads s)) as (Hna & p & Hp & ->).
    { destruct e; try done; (split; [done|]); destruct (WorkerPool.exec _ _) as [p|] eqn:E; try done;
        injection H as <-; by exists p. }
    split; cbn [lp wp threads]; [done|done|]. by rewrite (pool_calls _ _ _ Hna Hp).
Qed.

Lemma calm_pool s s' : calm_sstep s s' -> rtc WorkerPool.calm_step (wp s) (wp s').
Proof.
  intros [[a H] Hc]. assert (wp s' = wp s \/ WorkerPool.step (wp s) (wp s')) as [-> |Hs]; [|done|].
  - unfold exec, next, WorkerPool.step in *. repeat case_match; simplify_eq; cbn [wp]; try (by left);
      WorkerPool.exec_inv; cbn [wp]; eauto.
  - by apply rtc_once.
Qed.

Lemma reachable_ordered cap n size interval pass s :
  rtc calm_sstep (server_init cap (WorkerPool.NewWorkerPool n size interval pass)) s ->
  ordered cap s /\ rtc WorkerPool.calm_step (WorkerPool.Start (WorkerPool.NewWorkerPool n size interval pass)) (wp s).
Proof.
  assert (forall x, rtc calm_sstep x s -> ordered cap x ->
    ordered cap s /\ rtc WorkerPool.calm_step (wp x) (wp s)) as H.
  { intros x Hr. induction Hr as [|x y z Hs _ IH]; [done|]. intros Hx.
    destruct IH as [Hz Hp]; [destruct Hs as [[a Ha] _]; by eapply exec_ordered|].
    split; [done|]. etrans; [by apply calm_pool|done]. }
  intros Hr. apply (H _ Hr). apply ordered_init.
Qed.

(** The calls of [Submit] are those of the first requests handed out. *)
Lemma ordered_calls cap s : ordered cap s ->
  exists h, h `prefix_of` omap request (accepted (lp s)) /\
    WorkerPool.calls (wp s) = pair 0%nat <$> tasks_of h.
Proof.
  intros [Hg _ Hc]. rewrite (good_order _ _ _ Hg).
  destruct (threads s !! 0%nat) as [[k req|req]|].
  - destruct Hc as (_ & h & -> & _ & Hc). exists h. split; [|done]. rewrite <-!app_assoc. by eexists.
  - destruct Hc as [_ Hc]. exists (handed (lp s)). split; [by eexists|done].
  - destruct Hc as [_ Hc]. exists (handed (lp s)). split; [by eexists|done].
Qed.

(** What is started for a share id is what came first for it. *)
Lemma started_places cap n size interval pass s id :
  rtc calm_sstep (server_init cap (WorkerPool.NewWorkerPool n size interval pass)) s ->
  (WorkerPool.tid <$> filter (fun t => WorkerPool.share t = id) (WorkerPool.started (wp s)))
    `prefix_of` places id (omap request (accepted (lp s))) /\
  WorkerPool.crashed (wp s) <> Some WorkerPool.SendOnClosed.
Proof.
  intros Hr. destruct (reachable_ordered cap n size interval pass s Hr) as [Ho Hp].
  destruct (ordered_calls _ _ Ho) as (h & Hh & Hc).
  destruct (WorkerPool.started_in_order n size interval pass (wp s) id Hp) as ([l Hl] & _ & Hcr).
  { intros i j t u. rewrite Hc, !list_elem_of_fmap. naive_solver. }
  split; [|done]. etrans; [|by apply places_prefix].
  assert ((WorkerPool.calls (wp s)).*2 = tasks_of h) as Ht
    by (rewrite Hc, <-list_fmap_compose; apply list_fmap_id).
  rewrite <-places_tasks, <-Ht, Hl, fmap_app. by eexists.
Qed.

End System.

(** ** The promise *)

(** C5: with one dispatcher, the requests of a share id are started in the
    order in which their messages were accepted: in every state the server
    reaches, from the subscription's channel through [handleMessages], the
    dispatcher and the pool, with any other requests, workers, cleaner, [Stop]
    and shutdown interleaved, the tasks started for the id are the requests
    of the first accepted messages of that id, in this order, each once, as
    long as no queue is closed while a call of [Submit] has it in hand; and
    nothing is sent on a closed queue. *)
Theorem accepted_order_kept `{J : Ctx.Json} `{P : Wire} (ns : NatsRPCServer) (nuid : string) (cap : nat)
    (n size interval pass : Z) (s : server) (id : string) :
  rtc (calm_sstep ns nuid 1) (server_init 1 cap (WorkerPool.NewWorkerPool n size interval pass)) s ->
  (WorkerPool.tid <$> filter (fun t => WorkerPool.share t = id) (WorkerPool.started (wp s)))
    `prefix_of` places ns nuid id (omap request (accepted (lp s))) /\
  WorkerPool.crashed (wp s) <> Some WorkerPool.SendOnClosed.
Proof. by apply started_places. Qed.

(** ** Two dispatchers and the order is lost *)

Definition ex_metadata (share : string) : list byte :=
  match Ctx.json_marshal {[Ctx.ShareIDKey := Ctx.GStr share; Ctx.StartTimeKey := Ctx.GStr "1000";
                           Ctx.RequestTimeout := Ctx.GStr "5s"]} with Ok b => b | _ => [] end.
Definition ex_request (i : Z) : Request :=
  mkRequest (Some (mkMsg i "chat.room.Join" [] "inbox" MsgRequest)) (ex_metadata "u1").
Definition ex_message (i : Z) : msg := mkNatsMsg (Proto3.write (request_fields (ex_request i))) "inbox".
Definition ex_ns : NatsRPCServer := mkServer_ (nats_config 100) (Some 100%Z) sv_chat true 0 false.
Definition ex_start (services : nat) : server :=
  server_init services 75 (WorkerPool.NewWorkerPool 128 256 30000000000 300000000000).

(** Two messages, each handed to a dispatcher. *)
Definition arrive (i j : nat) : list action :=
  [LoopAct (Deliver (ex_message 1)); LoopAct (Deliver (ex_message 2));
   LoopAct Take; HandTo i; LoopAct Take; HandTo j].
(** One call of [Submit], and the operations of the worker for a task. *)
Definition submits (i k : nat) : list action :=
  SubmitCall i :: replicate k (PoolAct (WorkerPool.Dispatch i 0)) ++ [Next i].
Definition works (k : nat) : list action := replicate k (PoolAct (WorkerPool.Work 0 0)).

Definition swapped : list action := arrive 0 1 ++ submits 1 6 ++ submits 0 5 ++ works 6.

Definition after (services : nat) (l : list action) : server :=
  default (ex_start services) (run_server ex_ns "r1" services l (ex_start services)).

(** With two dispatchers, as with the thirty of the default configuration, the
    order is lost: two messages of one share id are accepted one after the
    other, and the pool runs the second first, without any queue being
    closed: the dispatcher of the first is overtaken between its [range] and
    its [Submit]. *)
Theorem dispatchers_overtake : exists l s,
  run_server ex_ns "r1" 2 l (ex_start 2) = Some s /\
  places ex_ns "r1" "u1" (omap request (accepted (lp s))) = [0%nat; 1%nat] /\
  WorkerPool.tid <$> WorkerPool.started (wp s) = [1%nat; 0%nat] /\
  Forall (fun q => WorkerPool.closed q = false) (WorkerPool.store (wp s)).
Proof.
  exists swapped, (after 2 swapped). unfold after.
  destruct (run_server ex_ns "r1" 2 swapped (ex_start 2)) as [s|] eqn:E; vm_compute in E; [|done].
  injection E as <-. split_and!; [done|vm_compute; reflexivity|reflexivity|by repeat constructor].
Qed.

(** ** Witness *)

(** Runs that are calm throughout, decided. *)
Fixpoint quiet_server_run (services : nat) (l : list action) (s : server) : option server :=
  match l with
  | [] => Some s
  | a :: l => s ← exec ex_ns "r1" services a s; if WorkerPool.quiet (wp s) then quiet_server_run services l s else None
  end.
Lemma quiet_server_steps services l s s' : quiet_server_run services l s = Some s' ->
  rtc (calm_sstep ex_ns "r1" services) s s'.
Proof.
  revert s. induction l as [|a l IH]; intros s; cbn [quiet_server_run]; [by intros [= <-]|].
  destruct (exec ex_ns "r1" services a s) as [s1|] eqn:E; [|done]. cbn [mbind option_bind].
  destruct (WorkerPool.quiet (wp s1)) eqn:Eq; [|done]. intros H.
  eapply rtc_l; [split; [by exists a|by apply WorkerPool.quiet_calm]|]. by apply IH.
Qed.

Definition in_turn : list action :=
  [LoopAct (Deliver (ex_message 1)); LoopAct (Deliver (ex_message 2)); LoopAct Take; HandTo 0] ++
  submits 0 6 ++ [LoopAct Take; HandTo 0] ++ submits 0 5 ++ works 6.

Lemma accepted_order_kept_witness : exists s,
  rtc (calm_sstep ex_ns "r1" 1) (ex_start 1) s /\
  WorkerPool.tid <$> WorkerPool.started (wp s) = [0%nat; 1%nat] /\
  (WorkerPool.tid <$> filter (fun t => WorkerPool.share t = "u1") (WorkerPool.started (wp s)))
    `prefix_of` places ex_ns "r1" "u1" (omap request (accepted (lp s))).
Proof.
  destruct (quiet_server_run 1 in_turn (ex_start 1)) as [s|] eqn:E; [|exfalso; by vm_compute in E].
  exists s. pose proof (quiet_server_steps _ _ _ _ E) as Hr. split; [exact Hr|]. split.
  - vm_compute in E. injection E as <-. reflexivity.
  - refine (proj1 (accepted_order_kept ex_ns "r1" 75 128 256 30000000000 300000000000 s "u1" _)).
    exact Hr.
Defined.

End Ordered.
