(* ===== verification/Serving.v ===== *)
(** * The RPC server serves what it accepts

    The subscription's loop, the dispatchers and the worker pool of Ordered
    have an end to their work: in a server that is not shut down, whose
    pool's cleaner finds no queue idle for too long, and whose messages can be
    read and dispatched without a panic, every request of a share
    id that a message brings is run by the pool, whatever the number of
    dispatchers and the interleaving. *)

From S2P Require Import Prelude Proto3 Errors Message Context Discovery Store Protos Nats ServerLoop WorkerPool PoolProgress Ordered.
Import Discovery Protos Nats.Nats.

Module Serving.
Import Ctx ServerLoop Ordered.

Local Open Scope nat_scope.

(** ** The values of a map *)

Definition values {A} (m : gmap nat A) : list A := (map_to_list m).*2.

Lemma values_fresh {A} (m : gmap nat A) i x : m !! i = None -> values (<[i := x]> m) ≡ₚ x :: values m.
Proof. intros H. unfold values. by rewrite map_to_list_insert. Qed.

Lemma values_delete {A} (m : gmap nat A) i x : m !! i = Some x -> values m ≡ₚ x :: values (delete i m).
Proof. intros H. rewrite <-(insert_delete_id m i x) at 1 by done. apply values_fresh, lookup_delete_eq. Qed.

Lemma values_update {A} (m : gmap nat A) i y : values (<[i := y]> m) ≡ₚ y :: values (delete i m).
Proof. rewrite <-insert_delete_eq. apply values_fresh, lookup_delete_eq. Qed.

(** ** Pool and loop *)

Lemma live_calm p : PoolProgress.live p -> WorkerPool.calm p.
Proof.
  intros Hl i u n q _ _ Hn. split; [|by apply (PoolProgress.l_queue p Hl n q)].
  pose proof (PoolProgress.l_cleaner p Hl) as Hc. unfold PoolProgress.cleaner_live in Hc.
  unfold WorkerPool.closing. rewrite (PoolProgress.l_stopper p Hl). intros [H|[]].
  destruct (WorkerPool.cleaner p) as [| | |[]|]; done.
Qed.

(** A dispatcher is in [Submit] only if it called it. *)
Lemma pool_subs e p p' i : match e with WorkerPool.Call _ _ => False | _ => True end ->
  WorkerPool.exec e p = Some p' -> is_Some (WorkerPool.subs p' !! i) -> is_Some (WorkerPool.subs p !! i).
Proof.
  unfold WorkerPool.exec, WorkerPool.Submit, WorkerPool.getQueue, WorkerPool.start, WorkerPool.clean_visit,
    WorkerPool.clean_queue, WorkerPool.Stop, WorkerPool.stop_visit, WorkerPool.stop_queue, WorkerPool.visit.
  intros He H. WorkerPool.exec_inv; repeat case_match; cbn; try done;
    rewrite ?lookup_insert_is_Some, ?lookup_delete_is_Some; naive_solver.
Qed.

(** ** The system *)

Section System.
Context {J : Ctx.Json} {P : Wire}.
Variable ns : NatsRPCServer.
Variable nuid : string.
Variable services : nat.

#[local] Abbreviation exec := (Ordered.exec ns nuid services).
#[local] Abbreviation task_at := (Ordered.task_at ns nuid).
#[local] Abbreviation tasks_of := (Ordered.tasks_of ns nuid).

(** Before a shutdown, and as long as the cleaner finds no queue idle for too
    long. *)
Definition in_service (s : server) (a : action) : Prop :=
  match a with LoopAct CloseStop => False | PoolAct e => PoolProgress.admits (wp s) e | _ => True end.
Definition serve (s s' : server) : Prop := exists a, in_service s a /\ exec a s = Some s'.

Definition request_of (d : dispatcher) : Request := match d with Got _ req | Submitting req => req end.
(** The task a dispatcher has yet to submit. *)
Definition task_due (d : dispatcher) : option WorkerPool.task :=
  match d with Got k req => task_at (k, req) | Submitting _ => None end.

Record serving (cap : nat) (s : server) : Prop := {
  v_good : good cap services (lp s);
  v_open : at_ (lp s) <> Finished;
  v_stop : stopChan_closed (lp s) = false;
  v_live : PoolProgress.live (wp s);
  v_bound i d : threads s !! i = Some d -> i < services;
  v_busy : busy (lp s) ≡ₚ request_of <$> values (threads s);
  v_handed i d : threads s !! i = Some d -> request_of d ∈ handed (lp s);
  v_subs i : is_Some (WorkerPool.subs (wp s) !! i) -> exists req, threads s !! i = Some (Submitting req);
  v_calls : (WorkerPool.calls (wp s)).*2 ++ omap task_due (values (threads s)) ≡ₚ tasks_of (handed (lp s))
}.

Lemma serving_init cap n size interval pass : (0 <= size)%Z ->
  serving cap (server_init services cap (WorkerPool.NewWorkerPool n size interval pass)).
Proof.
  intros Hs. split; cbn [lp wp threads server_init]; try done; [apply good_init|by apply PoolProgress.live_Start|].
  cbn. intros i [u Hu]. by rewrite lookup_empty in Hu.
Qed.

Lemma step_open l a l' : a <> CloseStop -> stopChan_closed l = false -> at_ l <> Finished ->
  step l a = Some (Ok l') -> stopChan_closed l' = false /\ at_ l' <> Finished.
Proof.
  intros Ha Hs Hf. destruct a; cbn [step]; try done; unfold deliver, take, hand, finish, return_, exit;
    intros H; repeat case_match; by simplify_eq.
Qed.

(** A dispatcher ends its iteration. *)
Lemma next_finishes i req s s' : next i req s = Some s' ->
  exists j l, busy (lp s) !! j = Some req /\ step (lp s) (Done j) = Some (Ok l) /\
    busy l = delete j (busy (lp s)) /\ handed l = handed (lp s) /\ s' = mkServer l (wp s) (delete i (threads s)).
Proof.
  unfold next. destruct (list_find _ _) as [[j r]|] eqn:Ef; [|done].
  apply list_find_Some in Ef as (Hj & -> & _). cbn [mbind option_bind].
  destruct (step (lp s) (Done j)) as [[l|e|p]|] eqn:E; [|done..]. intros [= <-]. exists j, l.
  assert (finish j (lp s) = Some (Ok l)) as Hf by exact E. unfold finish in Hf. rewrite Hj in Hf.
  by injection Hf as <-.
Qed.

Lemma serving_next cap i d s s' : serving cap s -> threads s !! i = Some d -> task_due d = None ->
  WorkerPool.subs (wp s) !! i = None -> next i (request_of d) s = Some s' -> serving cap s'.
Proof.
  intros [Hg Ho Hs Hl Hb Hbu Hha Hsu Hc] Hi Hd Hn H.
  destruct (next_finishes _ _ _ _ H) as (j & l & Hj & Hst & Hlb & Hlh & ->).
  destruct (step_open _ (Done j) _ ltac:(done) Hs Ho Hst) as [Hs' Ho'].
  pose proof (values_delete _ _ _ Hi) as Hv.
  split; cbn [lp wp threads]; try done.
  - by eapply step_good.
  - intros k d' [_ Hk]%lookup_delete_Some. by apply (Hb k d').
  - rewrite Hlb. apply ((Permutation_cons_inv (a := request_of d))). rewrite <-(delete_Permutation _ _ _ Hj).
    by rewrite Hbu, Hv.
  - intros k d' [_ Hk]%lookup_delete_Some. rewrite Hlh. by apply (Hha k d').
  - intros k Hk. destruct (Hsu k Hk) as [r Hr]. exists r. rewrite lookup_delete_ne; [done|].
    intros ->. rewrite Hn in Hk. by destruct Hk.
  - rewrite Hlh, <-Hc, Hv. cbn. by rewrite Hd.
Qed.

Lemma serving_exec cap a s s' : serving cap s -> in_service s a -> exec a s = Some s' -> serving cap s'.
Proof.
  intros Hv Ha H. pose proof Hv as [Hg Ho Hs Hl Hb Hbu Hha Hsu Hc]. destruct a as [a|i|i|i|e]; cbn [Ordered.exec] in H.
  - assert (a <> CloseStop /\ match a with Hand | Done _ => False | _ => True end /\
      exists l, step (lp s) a = Some (Ok l) /\ s' = mkServer l (wp s) (threads s)) as (Hne & Hna & l & Hst & ->).
    { destruct a; try done; (split; [done|split; [done|]]); destruct (step (lp s) _) as [[l|e|p]|] eqn:E; try done;
        injection H as <-; by exists l. }
    destruct (step_others _ _ _ Hna Hst) as [Hlb Hlh]. destruct (step_open _ _ _ Hne Hs Ho Hst) as [Hs' Ho'].
    split; cbn [lp wp threads]; try done; [by eapply step_good|by rewrite Hlb|by rewrite Hlh|by rewrite Hlh].
  - destruct (at_ (lp s)) as [|req|] eqn:Eat; try done. destruct (threads s !! i) eqn:Et; [done|].
    destruct (step (lp s) Hand) as [[l|e|p]|] eqn:El; try done. case_bool_decide as Hi; [|done].
    injection H as <-. destruct (step_hand _ _ _ Eat El) as [Hlb Hlh].
    destruct (step_open _ Hand _ ltac:(done) Hs (v_open cap s Hv) El) as [Hs' Ho'].
    split; cbn [lp wp threads]; try done.
    + by eapply step_good.
    + intros j d. rewrite lookup_insert_Some. naive_solver.
    + rewrite Hlb, Hbu, values_fresh by done. cbn. by rewrite <-Permutation_cons_append.
    + intros j d. rewrite Hlh, elem_of_app, list_elem_of_singleton, lookup_insert_Some.
      intros [[_ <-]|[_ Hj]]; [by right|left; by apply (Hha j d)].
    + intros j Hj. destruct (Hsu j Hj) as [r Hr]. exists r. rewrite lookup_insert_ne; [done|congruence].
    + rewrite Hlh, Ordered.tasks_of_snoc, <-Hc, values_fresh by done. cbn.
      destruct (task_at _); [|by rewrite app_nil_r]. rewrite <-app_assoc. apply Permutation_app_head.
      apply Permutation_cons_append.
  - destruct (threads s !! i) as [[k req|]|] eqn:Et; try done.
    destruct (share_of ns nuid req) as [id|] eqn:Eid; [|done]. cbn in H.
    destruct (WorkerPool.exec _ _) as [p|] eqn:Ep; [|done]. injection H as <-.
    pose proof (pool_call _ _ _ _ Ep) as Hpc. pose proof (values_delete _ _ _ Et) as Hvd.
    split; cbn [lp wp threads]; try done.
    + by apply (PoolProgress.live_exec (WorkerPool.Call i (WorkerPool.mkTask id k)) (wp s)).
    + intros j d. rewrite lookup_insert_Some. intros [[<- _]|[_ Hj]]; [by eapply Hb|by eapply Hb].
    + rewrite Hbu, values_update, Hvd. done.
    + intros j d. rewrite lookup_insert_Some. intros [[_ <-]|[_ Hj]]; [apply (Hha i _ Et)|by apply (Hha j d)].
    + intros j Hj. destruct (decide (j = i)) as [->|Hne]; [exists req; by rewrite lookup_insert_eq|].
      rewrite lookup_insert_ne by done. apply Hsu. unfold WorkerPool.exec in Ep. WorkerPool.exec_inv.
      cbn in Hj. by rewrite lookup_insert_ne in Hj.
    + rewrite <-Hc, Hpc, values_update, Hvd, fmap_app. cbn. unfold Ordered.task_at. cbn. rewrite Eid. cbn.
      by rewrite <-app_assoc.
  - destruct (threads s !! i) as [[k req|req]|] eqn:Et; try done.
    + destruct (share_of ns nuid req) as [id|] eqn:Eid; [done|]. destruct (fatal ns nuid req); [done|].
      apply (serving_next cap i (Got k req) s); try done.
      * cbn. unfold Ordered.task_at. cbn. by rewrite Eid.
      * apply eq_None_not_Some. intros Hx. destruct (Hsu i Hx) as [r Hr]. congruence.
    + destruct (WorkerPool.subs (wp s) !! i) eqn:Ei; [done|].
      by apply (serving_next cap i (Submitting req) s).
  - assert (match e with WorkerPool.Call _ _ => False | _ => True end /\
      exists p, WorkerPool.exec e (wp s) = Some p /\ s' = mkServer (lp s) p (threads s)) as (Hna & p & Hp & ->).
    { destruct e; try done; (split; [done|]); destruct (WorkerPool.exec _ _) as [p|] eqn:E; try done;
        injection H as <-; by exists p. }
    split; cbn [lp wp threads]; try done; [by eapply PoolProgress.live_exec| |by rewrite (pool_calls _ _ _ Hna Hp)].
    intros i Hi. eapply Hsu, pool_subs; done.
Qed.

(** ** The operations left *)

(** What the server does by itself. *)
Definition internal (a : action) : Prop :=
  match a with
  | LoopAct Take | HandTo _ | SubmitCall _ | Next _ => True
  | PoolAct e => PoolProgress.internal e
  | _ => False
  end.
Definition advance (s s' : server) : Prop := exists a, internal a /\ in_service s a /\ exec a s = Some s'.

Definition thread_work (d : dispatcher) : nat := match d with Got _ _ => 13 | Submitting _ => 1 end.
Definition work (s : server) : nat :=
  15 * length (subChan (lp s)) + 14 * length (in_hand (lp s)) +
  PoolProgress.total thread_work (threads s) + PoolProgress.work (wp s).

Lemma take_works l l' : step l Take = Some (Ok l') ->
  15 * length (subChan l') + 14 * length (in_hand l') < 15 * length (subChan l) + 14 * length (in_hand l) /\
  accepted l' = accepted l /\ exists m, subChan l = m :: subChan l'.
Proof.
  cbn [step]. unfold take, in_hand. destruct (at_ l) as [|req|] eqn:E; [|done..].
  destruct (subChan l) as [|m q] eqn:Eq; [done|].
  destruct (handle_message _ _) as [[req|]|e|p]; intros [= <-]; cbn; (split_and!; [lia|done|by exists m]).
Qed.

(** Every operation leaves less to do, accepts nothing and takes from the
    subscription's channel what it takes from its head. *)
Lemma advance_works cap s s' : serving cap s -> advance s s' ->
  serving cap s' /\ work s' < work s /\ accepted (lp s') = accepted (lp s) /\
  exists ms, subChan (lp s) = ms ++ subChan (lp s').
Proof.
  intros Hv (a & Ha & Hin & H). split; [by apply (serving_exec cap a s)|]. destruct a as [a|i|i|i|e]; cbn [Ordered.exec] in H; unfold work.
  - destruct a; try done. destruct (step (lp s) Take) as [[l|e|p]|] eqn:E; [|done..]. injection H as <-.
    destruct (take_works _ _ E) as (Hw & Hac & m & Hm). cbn [lp wp threads]. split_and!; [lia|done|by exists [m]].
  - destruct (at_ (lp s)) as [|req|] eqn:Eat; try done. destruct (threads s !! i) eqn:Et; [done|].
    destruct (step (lp s) Hand) as [[l|e|p]|] eqn:El; try done. case_bool_decide as Hi; [|done].
    injection H as <-. cbn [step] in El. unfold hand in El. rewrite Eat in El. destruct (idle (lp s)); [done|].
    injection El as <-. unfold in_hand. rewrite Eat. cbn [lp wp threads subChan at_ accepted].
    rewrite PoolProgress.total_fresh by done. cbn. split_and!; [lia|done|by exists []].
  - destruct (threads s !! i) as [[k req|]|] eqn:Et; try done.
    destruct (share_of ns nuid req) as [id|] eqn:Eid; [|done]. cbn in H.
    destruct (WorkerPool.exec _ _) as [p|] eqn:Ep; [|done]. injection H as <-. cbn [lp wp threads].
    pose proof (PoolProgress.total_insert thread_work i _ (Submitting req) _ Et) as Ht. cbn [thread_work] in Ht.
    unfold WorkerPool.exec in Ep. WorkerPool.exec_inv. unfold PoolProgress.work. cbn.
    rewrite (PoolProgress.total_fresh PoolProgress.sub_work) by done. cbn. split_and!; [lia|done|by exists []].
  - assert (exists d, threads s !! i = Some d /\ next i (request_of d) s = Some s') as (d & Hd & Hn).
    { destruct (threads s !! i) as [[k req|req]|]; [exists (Got k req)|exists (Submitting req)|done]; (split; [done|]).
      - destruct (share_of ns nuid req); [done|]. by destruct (fatal ns nuid req).
      - by destruct (WorkerPool.subs (wp s) !! i). }
    destruct (next_finishes _ _ _ _ Hn) as (j & l & Hj & Hst & _ & _ & ->). cbn [lp wp threads].
    pose proof (PoolProgress.total_delete thread_work i d _ Hd) as Ht. assert (1 <= thread_work d) by (destruct d; cbn; lia).
    cbn [step] in Hst. unfold finish in Hst. rewrite Hj in Hst. injection Hst as <-.
    unfold in_hand. cbn. split_and!; [lia|done|by exists []].
  - assert (exists p, WorkerPool.exec e (wp s) = Some p /\ s' = mkServer (lp s) p (threads s)) as (p & Hp & ->).
    { destruct e; try done; destruct (WorkerPool.exec _ _) as [p|] eqn:E; try done; injection H as <-; by exists p. }
    destruct (PoolProgress.advance_live (wp s) p (v_live _ _ Hv)) as (_ & Hw & _); [by exists e|].
    cbn [lp wp threads]. split_and!; [lia|done|by exists []].
Qed.

Lemma advances_work cap k s s' : nsteps advance k s s' -> serving cap s ->
  serving cap s' /\ k + work s' <= work s /\ accepted (lp s') = accepted (lp s) /\
  exists ms, subChan (lp s) = ms ++ subChan (lp s').
Proof.
  induction 1 as [s|k s s1 s2 H _ IH]; intros Hv; [split_and!; [done|lia|done|by exists []]|].
  destruct (advance_works cap s s1 Hv H) as (Hv1 & Hw & Hac & ms & Hms).
  destruct (IH Hv1) as (Hv2 & Hw2 & Hac2 & ms2 & Hms2). split_and!; [done|lia|congruence|].
  exists (ms ++ ms2). by rewrite <-app_assoc, <-Hms2.
Qed.

(** ** Progress *)

Hypothesis some : 0 < services.

Lemma rest_pool cap s : serving cap s -> (forall s', ~ advance s s') -> forall p, ~ PoolProgress.advance (wp s) p.
Proof.
  intros Hv Hr p (e & He & Ha & Hx). destruct (Hr (mkServer (lp s) p (threads s))).
  exists (PoolAct e). split_and!; [done|done|]. cbn [Ordered.exec]. destruct e; try done; by rewrite Hx.
Qed.

(** No accepted request makes [processMessages] panic. *)
Definition harmless (s : server) : Prop :=
  Forall (fun req => fatal ns nuid req = false) (omap request (accepted (lp s))).

Lemma thread_harmless cap s i d : serving cap s -> harmless s -> threads s !! i = Some d ->
  fatal ns nuid (request_of d) = false.
Proof.
  unfold harmless. intros Hv Hh Hi. rewrite (good_order _ _ _ (v_good _ _ Hv)), Forall_app, Forall_forall in Hh.
  apply (proj1 Hh), (v_handed _ _ Hv i d Hi).
Qed.

(** A dispatcher that is in no call of [Submit] can go on. *)
Lemma thread_advances cap s i d : serving cap s -> harmless s -> threads s !! i = Some d ->
  WorkerPool.subs (wp s) !! i = None -> exists s', advance s s'.
Proof.
  intros Hv Hh Hi Hn. pose proof (v_live _ _ Hv) as Hl. pose proof (thread_harmless cap s i d Hv Hh Hi) as Hf.
  assert (exists s', next i (request_of d) s = Some s') as [s' Hs'].
  { assert (request_of d ∈ busy (lp s)) as Hin.
    { rewrite (v_busy _ _ Hv), (values_delete _ _ _ Hi). cbn. by left. }
    unfold next. destruct (list_find_elem_of (fun r => r = request_of d) _ _ Hin eq_refl) as [[j r] Ef].
    rewrite Ef. apply list_find_Some in Ef as (Hj & _ & _). cbn. unfold finish. rewrite Hj. by eexists. }
  destruct d as [k req|req]; [destruct (share_of ns nuid req) as [id|] eqn:Eid|].
  - eexists _, (SubmitCall i). split_and!; [done|done|]. cbn [Ordered.exec]. rewrite Hi, Eid. cbn.
    unfold WorkerPool.exec. by rewrite (PoolProgress.l_crash _ Hl), Hn.
  - exists s', (Next i). split_and!; [done|done|]. cbn [Ordered.exec]. cbn in Hf. by rewrite Hi, Eid, Hf.
  - exists s', (Next i). split_and!; [done|done|]. cbn [Ordered.exec]. by rewrite Hi, Hn.
Qed.

Lemma rest_threads cap s : serving cap s -> harmless s -> (forall s', ~ advance s s') -> threads s = ∅.
Proof.
  intros Hv Hh Hr. apply map_empty. intros i. destruct (threads s !! i) as [d|] eqn:Hi; [|done]. exfalso.
  destruct (thread_advances cap s i d Hv Hh Hi) as [s' Hs']; [|by destruct (Hr s')].
  by rewrite (PoolProgress.rest_subs _ (v_live _ _ Hv) (rest_pool cap s Hv Hr)), lookup_empty.
Qed.

(** At rest, every request has been handed out, and those of the pool have
    been run. *)
Lemma rest_served cap s : serving cap s -> harmless s -> (forall s', ~ advance s s') -> Forall readable (subChan (lp s)) ->
  handed (lp s) = omap request (accepted (lp s)) /\
  WorkerPool.started (wp s) ≡ₚ tasks_of (omap request (accepted (lp s))).
Proof.
  intros Hv Hhl Hr Hrd. pose proof Hv as [Hg Ho Hs Hl Hb Hbu Hha Hsu Hc].
  pose proof (rest_threads cap s Hv Hhl Hr) as He. rewrite He in Hbu, Hc.
  assert (handed (lp s) = omap request (accepted (lp s))) as Hh.
  { pose proof (good_threads _ _ _ Hg) as Ht. apply Permutation_nil_r in Hbu. rewrite Hbu in Ht. cbn in Ht.
    rewrite (good_order _ _ _ Hg). unfold in_hand. destruct (at_ (lp s)) as [|req|] eqn:Ea; [|exfalso|done].
    - destruct (subChan (lp s)) as [|m q] eqn:Eq; [by rewrite !app_nil_r|exfalso].
      apply Forall_cons in Hrd as [[[r|] Hm] _]; (edestruct Hr as []; exists (LoopAct Take); split_and!; [done|done|]);
      cbn [Ordered.exec step]; unfold take; by rewrite Ea, Eq, Hm.
    - assert (exited (lp s) = 0) as Hx.
      { destruct (decide (exited (lp s) = 0)); [done|]. exfalso. apply (v_open cap s Hv), (good_exited _ _ _ Hg). lia. }
      destruct (idle (lp s)) as [|n] eqn:En; [lia|]. edestruct Hr as []. exists (HandTo 0). split_and!; [done|done|].
      cbn [Ordered.exec step]. unfold hand. by rewrite Ea, He, lookup_empty, En, bool_decide_true. }
  split; [done|]. rewrite <-Hh, <-Hc, app_nil_r.
  by apply (PoolProgress.rest_done _ Hl), (rest_pool cap).
Qed.

(** The operations that may be possible. *)
Definition moves (s : server) : list action :=
  LoopAct Take :: (HandTo <$> seq 0 services) ++ (SubmitCall <$> seq 0 services) ++ (Next <$> seq 0 services) ++
  (PoolAct <$> PoolProgress.goroutines (wp s)).

Lemma advance_move cap s s' : serving cap s -> advance s s' -> exists a, a ∈ moves s /\ is_Some (exec a s).
Proof.
  intros Hv (a & Ha & Hin' & H). unfold moves.
  assert (forall i, is_Some (threads s !! i) -> i ∈ seq 0 services) as Hin.
  { intros i [d Hd]. apply elem_of_seq. pose proof (v_bound _ _ Hv i d Hd). lia. }
  destruct a as [a|i|i|i|e]; cbn [Ordered.exec] in H.
  - destruct a; try done. exists (LoopAct Take). split; [set_solver|]. cbn [Ordered.exec]. by rewrite H.
  - exists (HandTo i). cbn [Ordered.exec]. rewrite H. split; [|done].
    assert (i ∈ seq 0 services); [|set_solver]. apply elem_of_seq. repeat case_match; try done.
    case_bool_decide; [lia|done].
  - exists (SubmitCall i). cbn [Ordered.exec]. rewrite H. split; [|done].
    assert (i ∈ seq 0 services); [|set_solver]. apply Hin. by destruct (threads s !! i).
  - exists (Next i). cbn [Ordered.exec]. rewrite H. split; [|done].
    assert (i ∈ seq 0 services); [|set_solver]. apply Hin. by destruct (threads s !! i).
  - assert (exists p, WorkerPool.exec e (wp s) = Some p) as [p Hp].
    { destruct e; try done; destruct (WorkerPool.exec _ _); by eauto. }
    destruct (PoolProgress.advance_goroutine (wp s) p (v_live _ _ Hv)) as (e' & He & [p' Hx]); [by exists e|].
    exists (PoolAct e'). split; [set_solver|]. cbn [Ordered.exec].
    destruct (PoolProgress.goroutines_internal _ _ He). destruct e'; try done; by rewrite Hx.
Qed.

Lemma moves_internal s a : a ∈ moves s -> internal a /\ in_service s a.
Proof.
  unfold moves. rewrite elem_of_cons, !elem_of_app, !list_elem_of_fmap.
  intros [->|[(?&->&_)|[(?&->&_)|[(?&->&_)|(e&->&He)]]]]; try done. by apply PoolProgress.goroutines_internal in He.
Qed.

Lemma server_rests cap s : serving cap s -> exists s', rtc advance s s' /\ forall s'', ~ advance s' s''.
Proof.
  remember (work s) as w eqn:E. revert s E. induction w as [w IH] using lt_wf_ind. intros s -> Hv.
  destruct (decide (Exists (fun a => is_Some (exec a s)) (moves s))) as [H|H].
  - apply Exists_exists in H as (a & Ha & [s1 H1]).
    assert (advance s s1) as Hs by (exists a; by destruct (moves_internal s a Ha)).
    destruct (advance_works cap s s1 Hv Hs) as (Hv1 & Hw & _). destruct (IH _ Hw s1 eq_refl Hv1) as (s' & Hs' & Hr).
    exists s'. split; [by eapply rtc_l|done].
  - exists s. split; [done|]. intros s' Hs. destruct H. apply Exists_exists. by apply (advance_move cap s s').
Qed.

(** ** Runs *)

Lemma serve_serving cap s s' : rtc serve s s' -> serving cap s ->
  serving cap s' /\ rtc (calm_sstep ns nuid services) s s'.
Proof.
  induction 1 as [|s s1 s2 (a & Ha & Hx) _ IH]; [done|]. intros Hv.
  assert (serving cap s1) as Hv1 by (by eapply serving_exec). destruct (IH Hv1) as [Hv2 Hr]. split; [done|].
  eapply rtc_l; [|done]. split; [by exists a|]. apply live_calm, (v_live _ _ Hv1).
Qed.

Lemma advance_serve s s' : advance s s' -> serve s s'.
Proof. intros (a & _ & Ha & H). by exists a. Qed.

(** All of a share id's tasks, in order. *)
Lemma all_in_order (l : list WorkerPool.task) id rs :
  (WorkerPool.tid <$> filter (fun t => WorkerPool.share t = id) l) `prefix_of` places ns nuid id rs ->
  l ≡ₚ tasks_of rs -> WorkerPool.tid <$> filter (fun t => WorkerPool.share t = id) l = places ns nuid id rs.
Proof.
  intros Hp Hl. apply prefix_length_eq; [done|]. rewrite <-places_tasks, Hl. done.
Qed.

End System.

(** ** The promise *)

(** C6: the server serves what it accepts. With at least one dispatcher, from
    every state that deliveries and the goroutines of loop, dispatchers,
    workers and cleaner reach before a shutdown, as long as the cleaner finds
    no queue idle for too long, with messages that can be read and requests
    on which [processMessages] does not panic: the operations left to the
    server are bounded in number, in any order; when none is possible, every
    request that was accepted has been handed to a
    dispatcher and the tasks the pool has started are those of the accepted
    requests with a share id, each once, and with a single dispatcher those
    of each share id in the order in which their messages were accepted; and
    such a state is reached. *)
Theorem accepted_all_served `{J : Ctx.Json} `{P : Wire} (ns : NatsRPCServer) (nuid : string) (services cap : nat)
    (num size interval pass : Z) (s : server) :
  0 < services -> (0 <= size)%Z ->
  rtc (serve ns nuid services) (server_init services cap (WorkerPool.NewWorkerPool num size interval pass)) s ->
  Forall readable (subChan (lp s)) -> harmless ns nuid s ->
  (exists bound, forall k s', nsteps (advance ns nuid services) k s s' -> k <= bound) /\
  (forall s', rtc (advance ns nuid services) s s' -> (forall s'', ~ advance ns nuid services s' s'') ->
    let requests := omap request (accepted (lp s)) in
    handed (lp s') = requests /\ WorkerPool.started (wp s') ≡ₚ tasks_of ns nuid requests /\
    (services = 1 -> forall id,
      WorkerPool.tid <$> filter (fun t => WorkerPool.share t = id) (WorkerPool.started (wp s')) =
      places ns nuid id requests)) /\
  (exists s', rtc (advance ns nuid services) s s' /\ forall s'', ~ advance ns nuid services s' s'').
Proof.
  intros Hsv Hs Hr Hrd Hhl. pose proof (serving_init ns nuid services cap num size interval pass Hs) as H0.
  destruct (serve_serving _ _ _ _ _ _ Hr H0) as [Hv _]. split_and!; [..|by eapply server_rests].
  - exists (work s). intros k s' Hk. apply (advances_work ns nuid services cap) in Hk as (_ & Hk & _); [lia|done].
  - intros s' Hss Hrest requests. destruct (proj1 (rtc_nsteps _ _) Hss) as [k Hk].
    destruct (advances_work _ _ _ cap _ _ _ Hk Hv) as (Hv' & _ & Hac & ms & Hms).
    destruct (rest_served _ _ _ Hsv cap s' Hv' ltac:(unfold harmless; by rewrite Hac) Hrest) as [Hh Hst].
    { rewrite Hms in Hrd. by apply Forall_app in Hrd as [_ Hrd]. }
    unfold requests. rewrite <-Hac. split_and!; [done|done|]. intros -> id. apply all_in_order; [|done].
    eapply (started_places ns nuid 1 eq_refl cap num size interval pass s' id).
    apply (serve_serving ns nuid 1 cap _ _); [|done]. etrans; [exact Hr|].
    eapply rtc_subrel; [|exact Hss]. intros x y. apply advance_serve.
Qed.

(** ** Witness *)

#[export] Instance in_service_dec s a : Decision (in_service s a).
Proof. destruct a as [[]| | | |]; cbn; (apply _ || apply PoolProgress.admits_dec). Defined.

Fixpoint serve_run (services : nat) (l : list action) (s : server) : option server :=
  match l with
  | [] => Some s
  | a :: l =>
      if decide (in_service s a) then s ← Ordered.exec ex_ns "r1" services a s; serve_run services l s else None
  end.
Lemma server_run_serves services l s s' : serve_run services l s = Some s' -> rtc (serve ex_ns "r1" services) s s'.
Proof.
  revert s. induction l as [|a l IH]; intros s; cbn [serve_run]; [by intros [= <-]|].
  case_decide as Ha; [|done]. destruct (Ordered.exec ex_ns "r1" services a s) as [s1|] eqn:E; [|done]. intros H.
  eapply rtc_l; [by exists a|]. by apply IH.
Qed.

(** Two messages of one share id, the first of them handed to the dispatcher,
    which is about to submit it. *)
Definition arrived : list action :=
  [LoopAct (Deliver (ex_message 1)); LoopAct (Deliver (ex_message 2)); LoopAct Take; HandTo 0].
Definition with_two : server := default (ex_start 1) (serve_run 1 arrived (ex_start 1)).

Lemma accepted_all_served_witness : exists s',
  rtc (advance ex_ns "r1" 1) with_two s' /\
  WorkerPool.tid <$> filter (fun t => WorkerPool.share t = "u1") (WorkerPool.started (wp s')) = [0; 1].
Proof.
  destruct (accepted_all_served ex_ns "r1" 1 75 128 256 30000000000 300000000000 with_two) as (_ & Hd & s' & Hs & Hr);
    [lia|lia| | | |].
  - apply (server_run_serves 1 arrived). vm_compute. reflexivity.
  - assert (subChan (lp with_two) = [ex_message 2]) as -> by (vm_compute; reflexivity).
    constructor; [|done]. eexists. vm_compute. reflexivity.
  - apply Forall_forall. intros req Hreq%list_elem_of_In.
    assert (forallb (fun req => negb (fatal ex_ns "r1" req)) (omap request (accepted (lp with_two))) = true) as Hc
      by (vm_compute; reflexivity).
    by apply negb_true_iff, (proj1 (forallb_forall _ _) Hc).
  - exists s'. split; [done|]. destruct (Hd s' Hs Hr) as (_ & _ & Ho). rewrite (Ho eq_refl "u1").
    vm_compute. reflexivity.
Defined.

End Serving.
