(* ===== verification/Answers.v ===== *)
(** * Every accepted request is answered once

    The goroutines of the RPC server with what they do to a request: the
    dispatchers rebuild its context, the workers of the pool and the
    goroutines with the semaphore run the handler and publish the response.
    The propagated maps are shared by all of them. The run of a handler is
    one step, which goroutine gets a unit of the semaphore and when a deadline
    passes is left open, and a panic, which would end the process, is no step
    ([sys_panics] tells where there is one). *)

From S2P Require Import Prelude Proto3 Errors Message Context GoStd Duration Discovery Store Protos Nats ServerLoop WorkerPool PoolProgress Ordered Serving.
Import Discovery Protos GoStd Store Nats.Nats.

Module Answers.
Import Ctx ServerLoop Ordered.

Local Open Scope nat_scope.

(** ** The way of a request does not depend on the shared maps *)

Inductive way := AnsweredWay | PoolWay (id : string) | GoroutineWay.
Definition way_of (d : dispatched) : way :=
  match d with Answered _ => AnsweredWay | ToPool id _ _ _ => PoolWay id | ToGoroutine _ _ _ => GoroutineWay end.

Section Way.
Context {J : Ctx.Json} {P : Wire} {JL : JsonLaws J} {PL : WireLaws P}.
Variable ns : NatsRPCServer.

Lemma same_deadline c l h c' l' h' :
  ctx_map c = Some l -> ctx_map c' = Some l' ->
  (forall k, k = StartTimeKey \/ k = RequestTimeout -> map_at h (Some l) !! k = map_at h' (Some l') !! k) ->
  exists r, parseRequestTimeout (Some c) h = (h, r) /\ parseRequestTimeout (Some c') h' = (h', r).
Proof.
  intros Hc Hc' Hk. pose proof (Hk StartTimeKey (or_introl eq_refl)) as H1.
  pose proof (Hk RequestTimeout (or_intror eq_refl)) as H2. unfold parseRequestTimeout.
  rewrite (bind_ok _ _ _ _ _ (GetCtx_map h c l StartTimeKey Hc)).
  rewrite (bind_ok _ _ _ _ _ (GetCtx_map h' c' l' StartTimeKey Hc')), <-H1.
  destruct (bool_decide (_ = GNil)); [by eexists|].
  destruct (must_string _) as [s|e|p]; [|by eexists..].
  rewrite !(bind_lift s). destruct (ParseInt s) as [n e]. case_bool_decide; [by eexists|].
  rewrite (bind_ok _ _ _ _ _ (GetCtx_map h c l RequestTimeout Hc)).
  rewrite (bind_ok _ _ _ _ _ (GetCtx_map h' c' l' RequestTimeout Hc')), <-H2.
  destruct (bool_decide (_ = GNil)); [by eexists|].
  destruct (must_string _) as [t|e'|p]; [|by eexists..]. rewrite !(bind_lift t).
  destruct (Duration.ParseDuration t) as [d [e'|]]; [|by eexists].
  destruct (error_string e') as [msg|e''|p]; by eexists.
Qed.

Lemma answered_way req err h h' d : answer_error req err h = (h', Ok d) -> way_of d = AnsweredWay.
Proof.
  unfold answer_error. intros (msg & h1 & _ & H)%bind_inv. apply bind_inv in H as (pubs & h2 & _ & [= _ <-]).
  done.
Qed.

(** The context is not there, or it is and has a map. *)
Lemma no_context_way nuid req h h' h2 e d :
  catch (GetContextFromRequest nuid req) h = (h2, Ok (inr e)) ->
  processMessages ns nuid req h = (h', Ok d) -> way_of d = AnsweredWay.
Proof. intros Hg. unfold processMessages. rewrite (bind_ok _ _ _ _ _ Hg). apply answered_way. Qed.

Definition read_way (r : result (Z * Z)) (share : gval) : way :=
  match r with
  | Ok _ =>
      match share with
      | GStr id => if workerPool ns && bool_decide (id <> EmptyString) then PoolWay id else GoroutineWay
      | _ => GoroutineWay
      end
  | _ => AnsweredWay
  end.

Lemma context_way nuid req h h' h2 c l d :
  GetContextFromRequest nuid req h = (h2, Ok c) -> ctx_map c = Some l ->
  processMessages ns nuid req h = (h', Ok d) ->
  way_of d = read_way (parseRequestTimeout (Some c) h2).2 (default GNil (map_at h2 (Some l) !! ShareIDKey)).
Proof.
  intros Hg Hl. unfold processMessages. rewrite (bind_ok _ _ _ _ _ (catch_ok _ _ _ _ Hg)).
  destruct (same_deadline c l h2 c l h2 Hl Hl) as (r & Hr & _); [done|]. rewrite Hr. cbn [snd].
  unfold mbind at 1, st_bind at 1, catch at 1. rewrite Hr. destruct r as [[start timeout]|e|p]; [| |done].
  - rewrite (bind_ok _ _ _ _ _ (GetCtx_map h2 c l ShareIDKey Hl)). cbn [read_way].
    destruct (default GNil _); try (by intros [= _ <-]). destruct (_ && _); by intros [= _ <-].
  - apply answered_way.
Qed.

Lemma received_map_lookup nuid route mp k : k <> RequestIDKey -> k <> RouteKey ->
  received_map nuid route mp !! k = mp !! k.
Proof. intros H1 H2. unfold received_map. destruct (has_request_id mp); by rewrite !lookup_insert_ne. Qed.

Lemma same_way nuid nuid' req m h h' :
  rq_Msg req = Some m -> request_typed req ->
  exists h1 d h1' d', processMessages ns nuid req h = (h1, Ok d) /\ processMessages ns nuid' req h' = (h1', Ok d') /\
    way_of d = way_of d'.
Proof.
  intros Hm Ht.
  destruct (processMessages_total ns nuid req m h Hm Ht) as (h1 & d & Hd & _).
  destruct (processMessages_total ns nuid' req m h' Hm Ht) as (h1' & d' & Hd' & _).
  exists h1, d, h1', d'. split_and!; [done|done|].
  assert (forall nuid h, match Ctx.Decode h (rq_Metadata req) with
    | Ok (h2, None) => catch (GetContextFromRequest nuid req) h = (h2, Ok (inr (ESentinel ErrNoContextFound)))
    | Err e => catch (GetContextFromRequest nuid req) h = (h, Ok (inr e))
    | _ => True end) as Hno.
  { intros n g. unfold catch, GetContextFromRequest, mbind, st_bind, updates.
    by destruct (Ctx.Decode g (rq_Metadata req)) as [[h2 [c|]]|e|p]. }
  pose proof (Hno nuid h) as H1. pose proof (Hno nuid' h') as H2.
  pose proof (typed_decodes h req Ht) as T1. pose proof (typed_decodes h' req Ht) as T2.
  pose proof (GetContext_spec nuid req h) as G1. pose proof (GetContext_spec nuid' req h') as G2.
  unfold Ctx.Decode in *. case_bool_decide as Hz.
  { by rewrite (no_context_way _ _ _ _ _ _ _ H1 Hd), (no_context_way _ _ _ _ _ _ _ H2 Hd'). }
  destruct (json_unmarshal (rq_Metadata req)) as [[mp|]|e|p] eqn:Ej; cbn [mbind outcome_bind] in *.
  - destruct (alloc h mp) as [g l] eqn:Ea. destruct (alloc h' mp) as [g' l'] eqn:Ea'.
    apply alloc_fresh in Ea as [_ ->]. apply alloc_fresh in Ea' as [_ ->].
    destruct (G1 _ _ l eq_refl eq_refl) as (h2 & c2 & Hc2 & Hl2 & Hm2).
    destruct (G2 _ _ l' eq_refl eq_refl) as (h2' & c2' & Hc2' & Hl2' & Hm2').
    rewrite (context_way _ _ _ _ _ _ _ _ Hc2 Hl2 Hd), (context_way _ _ _ _ _ _ _ _ Hc2' Hl2' Hd').
    rewrite map_at_insert in Hm2, Hm2'.
    destruct (same_deadline c2 l h2 c2' l' h2' Hl2 Hl2') as (r & -> & ->).
    { intros k Hk. rewrite Hm2, Hm2', !received_map_lookup; [done|by destruct Hk as [->| ->]..]. }
    rewrite Hm2, Hm2', !received_map_lookup by done. done.
  - by destruct T1 as (l & Hl & _).
  - by rewrite (no_context_way _ _ _ _ _ _ _ H1 Hd), (no_context_way _ _ _ _ _ _ _ H2 Hd').
  - by apply json_no_panic in Ej.
Qed.

(** [share_of] tells the way of a request, whatever the maps hold when its
    turn comes. *)
Lemma dispatch_way nuid nuid' req m h : rq_Msg req = Some m -> request_typed req ->
  exists h' d, processMessages ns nuid' req h = (h', Ok d) /\
    match d with
    | ToPool id _ _ _ => share_of ns nuid req = Some id
    | Answered pubs => share_of ns nuid req = None /\ replies m pubs
    | ToGoroutine _ _ _ => share_of ns nuid req = None
    end.
Proof.
  intros Hm Ht. destruct (same_way nuid nuid' req m ∅ h Hm Ht) as (h0 & d0 & h' & d & H0 & Hd & Hw).
  destruct (processMessages_total ns nuid' req m h Hm Ht) as (h1 & d1 & Hd1 & Hp).
  rewrite Hd in Hd1. injection Hd1 as <- <-. exists h', d. split; [done|]. unfold share_of. rewrite H0.
  destruct d, d0; cbn in Hw; naive_solver.
Qed.

End Way.

(** ** The tasks the pool has not finished *)

Definition running (q : WorkerPool.WorkerQueue) : list WorkerPool.task :=
  match WorkerPool.worker q with WorkerPool.Running t => [t] | _ => [] end.
Definition unfinished (p : WorkerPool.state) : list WorkerPool.task :=
  PoolProgress.submitted p ++ PoolProgress.gathered (fun q => WorkerPool.taskChan q ++ running q) (WorkerPool.store p).

(** The task that worker [n] is running. *)
Definition at_task (p : WorkerPool.state) (n : nat) : option WorkerPool.task :=
  q ← WorkerPool.store p !! n; head (running q).

Section Unfinished.
Import WorkerPool PoolProgress.

Lemma unfinished_queue p n q q' x y : store p !! n = Some q ->
  x ++ taskChan q' ++ running q' ≡ₚ y ++ taskChan q ++ running q ->
  x ++ unfinished (set_queue n q' p) ≡ₚ y ++ unfinished p.
Proof.
  intros Hn H. unfold unfinished. cbn [subs store set_queue set_store].
  change (submitted (set_queue n q' p)) with (submitted p).
  rewrite !(Permutation_app_comm (submitted p)), !app_assoc. apply Permutation_app_tail.
  by apply (gathered_insert (fun q => taskChan q ++ running q) _ _ q).
Qed.

Lemma unfinished_sub p i u u' : subs p !! i = Some u -> sub_task u' = sub_task u ->
  unfinished (set_sub i u' p) = unfinished p.
Proof. intros Hi Ht. unfold unfinished. by rewrite (submitted_insert p i u). Qed.

Lemma unfinished_dispatch i now p p' : live p -> Submit i now p = Some p' -> unfinished p' ≡ₚ unfinished p.
Proof.
  intros Hl H. unfold Submit in H. destruct (subs p !! i) as [u|] eqn:Hi; [|done]. cbn in H.
  assert (forall n q q' u', store p !! n = Some q -> sub_task u' = sub_task u -> taskChan q' = taskChan q ->
    worker q' = worker q -> unfinished (set_sub i u' (set_queue n q' p)) ≡ₚ unfinished p) as Hq.
  { intros n q q' u' Hn Ht Hc Hw. rewrite (unfinished_sub (set_queue n q' p) i u u') by done.
    apply (unfinished_queue p n q q' [] []); [done|]. unfold running. by rewrite Hc, Hw. }
  destruct u as [t|t n|t n|t n|t n|t n]; cbn in H;
    try (destruct (store p !! n) as [q|] eqn:Hn; [|done]; cbn in H).
  - injection H as <-. unfold getQueue. destruct (queues (pool p) !! key p t) as [n|].
    + by rewrite (unfinished_sub p i (SLoad t)).
    + rewrite (proj2 (Z.ltb_ge _ _) (l_size p Hl)). rewrite (unfinished_sub _ i (SLoad t)) by done.
      unfold unfinished, gathered. cbn. rewrite fmap_app, concat_app. cbn. by rewrite app_nil_r.
  - injection H as <-. by rewrite (unfinished_sub _ i (SStore t n)).
  - destruct (mu q); [done|]. injection H as <-. by apply (Hq n q).
  - injection H as <-. by apply (Hq n q).
  - injection H as <-. by apply (Hq n q).
  - destruct (l_queue p Hl n q Hn) as [Hcl _]. rewrite Hcl in H. destruct (can_send _ q); [|done]. injection H as <-.
    pose proof (unfinished_queue p n q (send t q) [] [t] Hn) as Hu. cbn [app] in Hu.
    apply (Permutation_cons_inv (a := t)). rewrite <-Hu; [|unfold running; cbn; solve_Permutation].
    unfold unfinished. cbn. rewrite !app_comm_cons. apply Permutation_app_tail.
    unfold submitted. cbn. rewrite fmap_delete.
    rewrite <-(insert_delete_id (sub_task <$> subs p) i t) at 2 by (by rewrite lookup_fmap, Hi).
    by rewrite map_to_list_insert by apply lookup_delete_eq.
Qed.

Lemma unfinished_start n now p p' : live p -> start n now p = Some p' ->
  match at_task p n with Some t => t :: unfinished p' ≡ₚ unfinished p | None => unfinished p' ≡ₚ unfinished p end.
Proof.
  intros Hl H. unfold start in H. unfold at_task. destruct (store p !! n) as [q|] eqn:Hn; [|done]. cbn in H |- *.
  assert (forall q', taskChan q' = taskChan q -> running q' = running q -> unfinished (set_queue n q' p) ≡ₚ unfinished p) as Hq.
  { intros q' Hc Hr. apply (unfinished_queue p n q q' [] []); [done|]. by rewrite Hc, Hr. }
  unfold running in *. destruct (worker q) as [|t|t|t|t|] eqn:Hw; cbn [head]; [| | | | |done].
  - destruct (taskChan q) as [|t rest] eqn:Hc.
    + destruct (closed q); [|done]. injection H as <-. by apply Hq.
    + injection H as <-. change (unfinished (log_start t ?x)) with (unfinished x).
      apply (unfinished_queue p n q _ [] []); [done|]. unfold running. cbn. rewrite Hw, Hc. solve_Permutation.
  - injection H as <-. apply (unfinished_queue p n q _ [t] []); [done|]. unfold running. cbn. rewrite Hw. solve_Permutation.
  - destruct (mu q); [done|]. injection H as <-. by apply Hq.
  - injection H as <-. by apply Hq.
  - destruct (wg q).
    + injection H as <-. done.
    + injection H as <-. by apply Hq.
Qed.

Lemma unfinished_call i t p p' : exec (Call i t) p = Some p' -> unfinished p' ≡ₚ t :: unfinished p.
Proof.
  unfold exec. intros H. exec_inv. unfold unfinished. cbn. rewrite app_comm_cons. apply Permutation_app_tail.
  unfold submitted. cbn. rewrite fmap_insert, map_to_list_insert by (by rewrite lookup_fmap, Heqo0). done.
Qed.

Lemma unfinished_clean p p' : clean_queue p = Some p' -> unfinished p' ≡ₚ unfinished p.
Proof.
  unfold clean_queue. destruct (cleaner p) as [| | |ph now vis k n|]; try done.
  destruct (store p !! n) as [q|] eqn:Hn; [|done]. cbn. intros H.
  assert (forall c q', taskChan q' = taskChan q -> worker q' = worker q ->
    unfinished (set_cleaner c (set_queue n q' p)) ≡ₚ unfinished p) as Hq.
  { intros c q' Hc Hw. change (unfinished (set_cleaner c ?x)) with (unfinished x).
    apply (unfinished_queue p n q q' [] []); [done|]. unfold running. by rewrite Hc, Hw. }
  destruct ph; repeat case_match; try done; injection H as <-; try done; by apply Hq.
Qed.

(** In a live pool nothing else moves tasks. *)
Lemma unfinished_exec e p p' : live p -> admits p e -> exec e p = Some p' ->
  match e with Call _ _ => False | Work n _ => at_task p n = None | _ => True end -> unfinished p' ≡ₚ unfinished p.
Proof.
  intros Hl He H Hn. unfold exec in H. rewrite (l_crash p Hl) in H.
  pose proof (l_stopper p Hl) as Ht. destruct e as [|i now|n now|now|k| | | | |k| |]; try done;
    unfold stop_visit, stop_queue in H; rewrite ?Ht in H; try done.
  - by eapply unfinished_dispatch.
  - pose proof (unfinished_start n now p p' Hl H) as Hu. by rewrite Hn in Hu.
  - destruct (cleaner p); try done. by injection H as <-.
  - unfold clean_visit, visit in H. destruct (cleaner p); try done. case_bool_decide; [done|].
    destruct (queues (pool p) !! k); [|done]. by injection H as <-.
  - by apply unfinished_clean.
  - destruct (cleaner p); try done. by injection H as <-.
  - destruct (cleaner p); try done. destruct (quit (pool p)); [|done]. by injection H as <-.
Qed.

End Unfinished.
(** ** The system *)

(** What the function given to the pool, or the goroutine, captures. *)
Record closure := mkClosure { c_req : Request; c_ctx : ctx; c_start : Z; c_timeout : Z }.

(** The server with the propagated maps, the captured values by the place of
    their request, the places of the requests whose goroutines wait for the
    semaphore or hold a unit of it, and what has been published, by place. *)
Record system := mkSystem {
  sv : server;
  hp : heap;
  closures : gmap nat closure;
  waiting : list nat;
  working : list nat;
  published : list (nat * list pub)
}.

Inductive event :=
| Quiet (a : action)
| Enter (i : nat) (nuid : string)
| Finish (n : nat) (now : Z) (late : bool)
| Acquire (j : nat)
| Expire (j : nat) (now : Z) (err : error)
| Complete (j : nat) (now : Z) (late : bool).

Section System.
Context {J : Ctx.Json} {P : Wire}.
Variable ns : NatsRPCServer.
Variable handler : IHandler.
Variable nuid : string.
Variable services : nat.

#[local] Abbreviation exec := (Ordered.exec ns nuid services).

Definition system_init (cap : nat) (pool : WorkerPool.WorkerPool) : system :=
  mkSystem (server_init services cap pool) ∅ ∅ [] [] [].

(** The steps of Ordered that neither dispatch a request nor end a task. *)
Definition quiet (a : action) (s : server) : bool :=
  match a with
  | SubmitCall _ => false
  | Next i => match threads s !! i with Some (Got _ _) => false | _ => true end
  | PoolAct (WorkerPool.Work n _) => match at_task (wp s) n with Some _ => false | None => true end
  | _ => true
  end.

Definition with_sv (s : system) (v : server) : system :=
  mkSystem v (hp s) (closures s) (waiting s) (working s) (published s).

(** A dispatcher's iteration up to its [Submit], its [go] or its reply. *)
Definition enter (i : nat) (id : string) (s : system) : option system :=
  match threads (sv s) !! i with
  | Some (Got k req) =>
      match processMessages ns id req (hp s) with
      | (h, Ok (ToPool _ c start timeout)) =>
          v ← exec (SubmitCall i) (sv s);
          Some (mkSystem v h (<[k := mkClosure req c start timeout]> (closures s)) (waiting s) (working s) (published s))
      | (h, Ok (ToGoroutine c start timeout)) =>
          v ← exec (Next i) (sv s);
          Some (mkSystem v h (<[k := mkClosure req c start timeout]> (closures s)) (waiting s ++ [k]) (working s)
                  (published s))
      | (h, Ok (Answered pubs)) =>
          v ← exec (Next i) (sv s);
          Some (mkSystem v h (closures s) (waiting s) (working s) (published s ++ [(k, pubs)]))
      | _ => None
      end
  | _ => None
  end.

(** A worker runs the function it was given. *)
Definition finish_task (n : nat) (now : Z) (late : bool) (s : system) : option system :=
  t ← at_task (wp (sv s)) n;
  cl ← closures s !! WorkerPool.tid t;
  match run_task handler (c_ctx cl) (c_req cl) (c_start cl) (c_timeout cl) now late (hp s) with
  | (h, Ok pubs) =>
      v ← exec (PoolAct (WorkerPool.Work n now)) (sv s);
      Some (mkSystem v h (closures s) (waiting s) (working s) (published s ++ [(WorkerPool.tid t, pubs)]))
  | _ => None
  end.

(** A goroutine gets its unit, or its deadline passes first, or it is done
    and gives its unit back. *)
Definition acquire (j : nat) (s : system) : option system :=
  k ← waiting s !! j;
  size ← sempWeighted ns;
  if (Z.of_nat (length (working s)) <? size)%Z
  then Some (mkSystem (sv s) (hp s) (closures s) (delete j (waiting s)) (working s ++ [k]) (published s))
  else None.
Definition goroutine (k : nat) (now : Z) (late : bool) (err : option error) (s : system) : option (heap * list pub) :=
  cl ← closures s !! k;
  match run_goroutine ns handler (c_ctx cl) (c_req cl) (c_start cl) (c_timeout cl) now late err (hp s) with
  | (h, Ok pubs) => Some (h, pubs)
  | _ => None
  end.
Definition expire (j : nat) (now : Z) (err : error) (s : system) : option system :=
  k ← waiting s !! j;
  '(h, pubs) ← goroutine k now false (Some err) s;
  Some (mkSystem (sv s) h (closures s) (delete j (waiting s)) (working s) (published s ++ [(k, pubs)])).
Definition complete (j : nat) (now : Z) (late : bool) (s : system) : option system :=
  k ← working s !! j;
  '(h, pubs) ← goroutine k now late None s;
  Some (mkSystem (sv s) h (closures s) (waiting s) (delete j (working s)) (published s ++ [(k, pubs)])).

Definition sys_exec (e : event) (s : system) : option system :=
  match e with
  | Quiet a => if quiet a (sv s) then v ← exec a (sv s); Some (with_sv s v) else None
  | Enter i id => enter i id s
  | Finish n now late => finish_task n now late s
  | Acquire j => acquire j s
  | Expire j now err => expire j now err s
  | Complete j now late => complete j now late s
  end.

(** Whether an event is a panic: of the loop, or in a dispatcher, a worker or
    a goroutine. (A crash of the pool is in its state.) *)
Definition is_panic {A} (r : result A) : bool := match r with Panics _ => true | _ => false end.
Definition goroutine_panics (k : nat) (now : Z) (late : bool) (err : option error) (s : system) : bool :=
  match closures s !! k with
  | Some cl => is_panic (run_goroutine ns handler (c_ctx cl) (c_req cl) (c_start cl) (c_timeout cl) now late err (hp s)).2
  | None => false
  end.
Definition sys_panics (e : event) (s : system) : bool :=
  match e with
  | Quiet (LoopAct a) => match step (lp (sv s)) a with Some r => is_panic r | None => false end
  | Quiet _ | Acquire _ => false
  | Enter i id =>
      match threads (sv s) !! i with
      | Some (Got _ req) => is_panic (processMessages ns id req (hp s)).2
      | _ => false
      end
  | Finish n now late =>
      match at_task (wp (sv s)) n ≫= (fun t => closures s !! WorkerPool.tid t) with
      | Some cl => is_panic (run_task handler (c_ctx cl) (c_req cl) (c_start cl) (c_timeout cl) now late (hp s)).2
      | None => false
      end
  | Expire j now err =>
      match waiting s !! j with Some k => goroutine_panics k now false (Some err) s | None => false end
  | Complete j now late =>
      match working s !! j with Some k => goroutine_panics k now late None s | None => false end
  end.

Fixpoint sys_run (es : list event) (s : system) : option system :=
  match es with [] => Some s | e :: es => s ← sys_exec e s; sys_run es s end.

(** The server in service, and what it does by itself. *)
Definition in_service (s : system) (e : event) : Prop :=
  match e with Quiet a => Serving.in_service (sv s) a | _ => True end.
Definition serve (s s' : system) : Prop := exists e, in_service s e /\ sys_exec e s = Some s'.
Definition internal (e : event) : Prop := match e with Quiet a => Serving.internal a | _ => True end.
Definition advance (s s' : system) : Prop := exists e, internal e /\ in_service s e /\ sys_exec e s = Some s'.

(** ** Places *)

Definition got_place (d : dispatcher) : option nat := match d with Got k _ => Some k | Submitting _ => None end.
(** The places of requests that are with a dispatcher, or in the pool. *)
Definition got_places (v : server) : list nat := omap got_place (Serving.values (threads v)).
Definition pool_places (v : server) : list nat := WorkerPool.tid <$> unfinished (wp v).

Lemma submit_keeps i v v' : exec (SubmitCall i) v = Some v' ->
  exists k req id, threads v !! i = Some (Got k req) /\ share_of ns nuid req = Some id /\ lp v' = lp v /\
    threads v' = <[i := Submitting req]> (threads v) /\ pool_places v' ≡ₚ k :: pool_places v.
Proof.
  cbn [Ordered.exec]. destruct (threads v !! i) as [[k req|]|]; [|done..].
  destruct (share_of ns nuid req) as [id|] eqn:Eid; [|done]. cbn.
  destruct (WorkerPool.exec _ _) as [p|] eqn:Ep; [|done]. intros [= <-]. exists k, req, id.
  split_and!; try done. unfold pool_places. cbn [wp]. by rewrite (unfinished_call _ _ _ _ Ep).
Qed.

Lemma next_keeps i v v' : exec (Next i) v = Some v' ->
  handed (lp v') = handed (lp v) /\ wp v' = wp v /\ threads v' = delete i (threads v).
Proof.
  cbn [Ordered.exec]. intros H. assert (exists req, next i req v = Some v') as [req Hn].
  { destruct (threads v !! i) as [[k req|req]|]; [exists req|exists req|done].
    - destruct (share_of ns nuid req); [done|]. by destruct (fatal ns nuid req).
    - by destruct (WorkerPool.subs (wp v) !! i). }
  destruct (Serving.next_finishes _ _ _ _ Hn) as (j & l & _ & _ & _ & Hh & ->). done.
Qed.

Lemma work_keeps cap n now v v' : Serving.serving ns nuid services cap v -> exec (PoolAct (WorkerPool.Work n now)) v = Some v' ->
  lp v' = lp v /\ threads v' = threads v /\
  match at_task (wp v) n with
  | Some t => WorkerPool.tid t :: pool_places v' ≡ₚ pool_places v
  | None => pool_places v' ≡ₚ pool_places v
  end.
Proof.
  intros Hv. cbn [Ordered.exec]. destruct (WorkerPool.exec _ _) as [p|] eqn:Ep; [|done]. intros [= <-].
  cbn [lp wp threads]. split_and!; [done..|]. pose proof (Serving.v_live _ _ _ _ _ Hv) as Hl.
  unfold WorkerPool.exec in Ep. rewrite (PoolProgress.l_crash _ Hl) in Ep.
  pose proof (unfinished_start n now (wp v) p Hl Ep) as Hu. unfold pool_places. cbn [wp].
  destruct (at_task (wp v) n); by rewrite <-Hu.
Qed.

(** A quiet step hands a request to a dispatcher or leaves all places. *)
Lemma quiet_keeps cap a v v' : Serving.serving ns nuid services cap v -> Serving.in_service v a -> quiet a v = true ->
  exec a v = Some v' ->
  (handed (lp v') = handed (lp v) /\ got_places v' ≡ₚ got_places v /\ pool_places v' ≡ₚ pool_places v /\
   forall i k req, threads v' !! i = Some (Got k req) -> threads v !! i = Some (Got k req)) \/
  (exists i req, handed (lp v') = handed (lp v) ++ [req] /\ threads v !! i = None /\
     threads v' = <[i := Got (length (handed (lp v))) req]> (threads v) /\ wp v' = wp v).
Proof.
  intros Hv Ha Hq H. destruct a as [a|i|i|i|e]; cbn [quiet] in Hq; [left|right|done|left|left].
  - cbn [Ordered.exec] in H. assert (match a with Hand | Done _ => False | _ => True end /\
      exists l, step (lp v) a = Some (Ok l) /\ v' = mkServer l (wp v) (threads v)) as (Hna & l & Hst & ->).
    { destruct a; try done; (split; [done|]); destruct (step (lp v) _) as [[l|e|p]|] eqn:E; try done;
        injection H as <-; by exists l. }
    destruct (step_others _ _ _ Hna Hst) as [_ Hh]. by split_and!.
  - cbn [Ordered.exec] in H. destruct (at_ (lp v)) as [|req|] eqn:Eat; try done.
    destruct (threads v !! i) eqn:Et; [done|]. destruct (step (lp v) Hand) as [[l|e|p]|] eqn:El; try done.
    case_bool_decide; [|done]. injection H as <-. destruct (step_hand _ _ _ Eat El) as [_ Hh]. by exists i, req.
  - destruct (next_keeps _ _ _ H) as (Hh & Hw & Ht). unfold pool_places, got_places. rewrite Hw, Ht.
    cbn [Ordered.exec] in H. destruct (threads v !! i) as [[k req|req]|] eqn:Ei; try done. split_and!; [done| |done|].
    + by rewrite (Serving.values_delete _ _ _ Ei).
    + intros j k r. rewrite lookup_delete_Some. naive_solver.
  - cbn [Ordered.exec] in H. assert (match e with WorkerPool.Call _ _ => False | _ => True end /\
      exists p, WorkerPool.exec e (wp v) = Some p /\ v' = mkServer (lp v) p (threads v)) as (Hna & p & Hp & ->).
    { destruct e; try done; (split; [done|]); destruct (WorkerPool.exec _ _) as [p|] eqn:E; try done;
        injection H as <-; by exists p. }
    split_and!; try done. unfold pool_places. cbn [wp].
    rewrite (unfinished_exec e (wp v) p); try done; [apply Hv|].
    destruct e; try done. by destruct (at_task (wp v) n).
Qed.

(** ** Publications *)

Definition answered (req : Request) (pubs : list pub) : Prop := exists m, rq_Msg req = Some m /\ replies m pubs.

Lemma processResponse_answered req resp pubs : processResponse req resp = Ok pubs -> answered req pubs.
Proof.
  unfold processResponse, answered, replies. destruct (rq_Msg req) as [m|]; [|done]. intros H. exists m. split; [done|].
  case_bool_decide; [by injection H as <-|]. apply outcome_bind_ok in H as (p & _ & [= <-]). by exists p.
Qed.

Lemma answer_error_answered req err h h' pubs :
  answer_error req err h = (h', Ok (Answered pubs)) -> answered req pubs.
Proof.
  unfold answer_error. intros (msg & h1 & _ & H)%bind_inv. apply bind_inv in H as (x & h2 & Hp & [= _ ->]).
  injection Hp as _ Hp. by apply processResponse_answered in Hp.
Qed.

Lemma dispatch_answered id req h h' pubs : processMessages ns id req h = (h', Ok (Answered pubs)) -> answered req pubs.
Proof.
  unfold processMessages. intros ([c|e] & h1 & _ & H)%bind_inv; [|by apply answer_error_answered in H].
  apply bind_inv in H as ([[start timeout]|e] & h2 & _ & H); [|by apply answer_error_answered in H].
  apply bind_inv in H as (v & h3 & _ & H). destruct v; try done. by destruct (_ && _).
Qed.

Lemma task_answered c req start timeout now late h h' pubs :
  run_task handler c req start timeout now late h = (h', Ok pubs) -> answered req pubs.
Proof. unfold run_task. intros (r & h1 & _ & [= _ H])%bind_inv. by apply processResponse_answered in H. Qed.

Lemma goroutine_answered k now late err s h pubs cl : closures s !! k = Some cl ->
  goroutine k now late err s = Some (h, pubs) -> answered (c_req cl) pubs.
Proof.
  unfold goroutine. intros ->. cbn. destruct (run_goroutine _ _ _ _ _ _ _ _ _ _) as [h' [p|e|p]] eqn:E; [|done..].
  intros [= -> ->]. unfold run_goroutine in E. destruct (sempWeighted ns); [|done].
  destruct err as [e|]; [|by apply task_answered in E].
  apply bind_inv in E as (msg & h1 & _ & [= _ E]). by apply processResponse_answered in E.
Qed.

(** ** Every request is in one place *)

Record tracked (cap : nat) (s : system) : Prop := {
  k_serving : Serving.serving ns nuid services cap (sv s);
  k_got i k req : threads (sv s) !! i = Some (Got k req) -> handed (lp (sv s)) !! k = Some req;
  k_places : (published s).*1 ++ waiting s ++ working s ++ got_places (sv s) ++ pool_places (sv s)
    ≡ₚ seq 0 (length (handed (lp (sv s))));
  k_closure k : k ∈ waiting s ++ working s ++ pool_places (sv s) ->
    exists cl, closures s !! k = Some cl /\ handed (lp (sv s)) !! k = Some (c_req cl);
  k_published k pubs : (k, pubs) ∈ published s -> exists req, handed (lp (sv s)) !! k = Some req /\ answered req pubs
}.

Lemma tracked_init cap n size interval pass : (0 <= size)%Z ->
  tracked cap (system_init cap (WorkerPool.NewWorkerPool n size interval pass)).
Proof.
  intros Hs. split; cbn [sv hp closures waiting working published system_init]; try done.
  - by apply Serving.serving_init.
  - by intros k Hk%elem_of_nil.
  - by intros k pubs Hk%elem_of_nil.
Qed.

(** A step of the server that moves no request. *)
Lemma tracked_same cap s v : tracked cap s -> Serving.serving ns nuid services cap v ->
  handed (lp v) = handed (lp (sv s)) -> got_places v ≡ₚ got_places (sv s) -> pool_places v ≡ₚ pool_places (sv s) ->
  (forall i k req, threads v !! i = Some (Got k req) -> threads (sv s) !! i = Some (Got k req)) ->
  tracked cap (with_sv s v).
Proof.
  intros [H1 H2 H3 H4 H5] Hv Hh Hg Hp Ht.
  split; cbn [sv hp closures waiting working published with_sv]; rewrite ?Hh; try done.
  - intros i k req Hi. by eapply H2, Ht.
  - by rewrite Hg, Hp.
  - intros k. rewrite Hp. apply H4.
Qed.

Lemma tracked_hand cap s v i req : tracked cap s -> Serving.serving ns nuid services cap v ->
  handed (lp v) = handed (lp (sv s)) ++ [req] -> threads (sv s) !! i = None ->
  threads v = <[i := Got (length (handed (lp (sv s)))) req]> (threads (sv s)) -> wp v = wp (sv s) ->
  tracked cap (with_sv s v).
Proof.
  intros [H1 H2 H3 H4 H5] Hv Hh Hi Ht Hw.
  assert (forall k r, handed (lp (sv s)) !! k = Some r -> (handed (lp (sv s)) ++ [req]) !! k = Some r) as Hk
    by (intros k r Hr; by apply lookup_app_l_Some).
  split; cbn [sv hp closures waiting working published with_sv]; rewrite ?Hh; try done.
  - intros j k r. rewrite Ht, lookup_insert_Some. intros [[_ [= <- <-]]|[_ Hj]]; [|by eapply Hk, H2].
    by rewrite list_lookup_middle.
  - unfold got_places, pool_places. rewrite Ht, Hw, Serving.values_fresh by done.
    rewrite length_app, seq_app, <-H3. cbn. unfold got_places, pool_places. solve_Permutation.
  - intros k. unfold pool_places. rewrite Hw. intros (cl & ? & ?)%H4. exists cl. split; [done|]. by apply Hk.
  - intros k pubs (r & Hr & ?)%H5. exists r. split; [|done]. by apply Hk.
Qed.

Lemma tracked_quiet cap s a v : tracked cap s -> Serving.in_service (sv s) a -> quiet a (sv s) = true ->
  exec a (sv s) = Some v -> tracked cap (with_sv s v).
Proof.
  intros Hs Ha Hq H. pose proof (k_serving _ _ Hs) as Hv.
  assert (Serving.serving ns nuid services cap v) as Hv' by (by eapply Serving.serving_exec).
  destruct (quiet_keeps cap a _ _ Hv Ha Hq H) as [(Hh & Hg & Hp & Ht)|(i & req & Hh & Hi & Ht & Hw)].
  - by apply tracked_same.
  - by apply (tracked_hand cap s v i req).
Qed.

Lemma tracked_enter cap i id s s' : tracked cap s -> enter i id s = Some s' -> tracked cap s'.
Proof.
  intros Hs. pose proof Hs as [H1 H2 H3 H4 H5]. unfold enter.
  destruct (threads (sv s) !! i) as [[k req|]|] eqn:Ei; [|done..]. pose proof (H2 _ _ _ Ei) as Hk.
  pose proof (Serving.values_delete _ _ _ Ei) as Hvd.
  assert (got_places (sv s) ≡ₚ k :: omap got_place (Serving.values (delete i (threads (sv s))))) as Hg
    by (unfold got_places; by rewrite Hvd).
  destruct (processMessages ns id req (hp s)) as [h [[pubs|x c start timeout|c start timeout]|e|p]] eqn:Em; [| | |done..].
  - destruct (exec (Next i) (sv s)) as [v|] eqn:Ev; [|done]. cbn. intros [= <-].
    destruct (next_keeps _ _ _ Ev) as (Hh & Hw & Ht). unfold pool_places in *.
    split; cbn [sv hp closures waiting working published]; unfold pool_places; rewrite ?Hh, ?Hw; try done.
    + by apply (Serving.serving_exec ns nuid services cap (Next i) (sv s)).
    + intros j k' r. rewrite Ht, lookup_delete_Some. naive_solver.
    + unfold got_places. rewrite Ht, <-H3, Hg, fmap_app. cbn. solve_Permutation.
    + intros k' pubs' [Hin|[= -> ->]%list_elem_of_singleton]%elem_of_app; [by apply H5|].
      exists req. split; [done|]. by eapply dispatch_answered.
  - destruct (exec (SubmitCall i) (sv s)) as [v|] eqn:Ev; [|done]. cbn. intros [= <-].
    destruct (submit_keeps _ _ _ Ev) as (k' & req' & id' & Ei' & _ & Hl & Ht & Hp). rewrite Ei in Ei'.
    injection Ei' as <- <-.
    split; cbn [sv hp closures waiting working published]; rewrite ?Hl; try done.
    + by apply (Serving.serving_exec ns nuid services cap (SubmitCall i) (sv s)).
    + intros j k' r. rewrite Ht, lookup_insert_Some. naive_solver.
    + unfold got_places. rewrite Ht, Serving.values_update, Hp, <-H3, Hg. cbn. solve_Permutation.
    + intros k'. rewrite Hp. destruct (decide (k' = k)) as [->|Hne].
      * intros _. exists (mkClosure req c start timeout). by rewrite lookup_insert_eq.
      * rewrite lookup_insert_ne by done. intros Hin. apply H4. set_solver.
  - destruct (exec (Next i) (sv s)) as [v|] eqn:Ev; [|done]. cbn. intros [= <-].
    destruct (next_keeps _ _ _ Ev) as (Hh & Hw & Ht).
    split; cbn [sv hp closures waiting working published]; unfold pool_places in *; rewrite ?Hh, ?Hw; try done.
    + by apply (Serving.serving_exec ns nuid services cap (Next i) (sv s)).
    + intros j k' r. rewrite Ht, lookup_delete_Some. naive_solver.
    + unfold got_places. rewrite Ht, <-H3, Hg. cbn. solve_Permutation.
    + intros k'. destruct (decide (k' = k)) as [->|Hne].
      * intros _. exists (mkClosure req c start timeout). by rewrite lookup_insert_eq.
      * rewrite lookup_insert_ne by done. intros Hin. apply H4. set_solver.
Qed.

Lemma tracked_finish cap n now late s s' : tracked cap s -> finish_task n now late s = Some s' -> tracked cap s'.
Proof.
  intros [H1 H2 H3 H4 H5]. unfold finish_task. destruct (at_task (wp (sv s)) n) as [t|] eqn:Et; [|done]. cbn.
  destruct (closures s !! WorkerPool.tid t) as [cl|] eqn:Ec; [|done]. cbn.
  destruct (run_task _ _ _ _ _ _ _ _) as [h [pubs|e|p]] eqn:Er; [|done..].
  destruct (WorkerPool.exec _ _) as [p|] eqn:Ep; [|done]. intros [= <-].
  assert (exec (PoolAct (WorkerPool.Work n now)) (sv s) = Some (mkServer (lp (sv s)) p (threads (sv s)))) as Hx
    by (cbn [Ordered.exec]; by rewrite Ep).
  pose proof (Serving.serving_exec ns nuid services cap (PoolAct (WorkerPool.Work n now)) _ _ H1 ltac:(done) Hx) as Hv'.
  destruct (work_keeps cap n now _ _ H1 Hx) as (_ & _ & Hp). rewrite Et in Hp.
  set (v := mkServer _ _ _) in *.
  split; cbn [sv hp closures waiting working published]; try done.
  - change (got_places v) with (got_places (sv s)). change (lp v) with (lp (sv s)). rewrite <-H3, <-Hp, fmap_app. cbn. solve_Permutation.
  - intros k Hk. apply H4. rewrite <-Hp. set_solver.
  - intros k pubs' [Hin|[= -> ->]%list_elem_of_singleton]%elem_of_app; [by apply H5|].
    destruct (H4 (WorkerPool.tid t)) as (cl' & Hc & Hh); [rewrite <-Hp; set_solver|].
    rewrite Ec in Hc. injection Hc as <-. exists (c_req cl). split; [done|]. by eapply task_answered.
Qed.

(** A step of a goroutine outside the pool. *)
Lemma tracked_goroutine cap s h w k l : tracked cap s ->
  l.*1 ++ w ++ k ≡ₚ waiting s ++ working s ->
  (forall x pubs, (x, pubs) ∈ l -> exists now late err h, goroutine x now late err s = Some (h, pubs)) ->
  tracked cap (mkSystem (sv s) h (closures s) w k (published s ++ l)).
Proof.
  intros [H1 H2 H3 H4 H5] Hp Hl. split; cbn [sv hp closures waiting working published]; try done.
  - rewrite <-H3, fmap_app, <-app_assoc. apply Permutation_app_head.
    trans ((l.*1 ++ w ++ k) ++ got_places (sv s) ++ pool_places (sv s)); [by rewrite <-!app_assoc|].
    by rewrite Hp, <-app_assoc.
  - intros x Hx. apply H4. rewrite app_assoc, <-Hp. set_solver.
  - intros x pubs [Hin|Hin]%elem_of_app; [by apply H5|].
    destruct (Hl x pubs Hin) as (now & late & err & h' & Hg).
    destruct (H4 x) as (cl & Hc & Hh).
    { rewrite app_assoc, <-Hp, !elem_of_app. do 2 left. apply list_elem_of_fmap. by exists (x, pubs). }
    exists (c_req cl). split; [done|]. by eapply goroutine_answered.
Qed.

Lemma tracked_exec cap e s s' : tracked cap s -> in_service s e -> sys_exec e s = Some s' -> tracked cap s'.
Proof.
  intros Hs He H. destruct e as [a|i id|n now late|j|j now err|j now late]; cbn [sys_exec in_service] in *.
  - destruct (quiet a (sv s)) eqn:Eq; [|done]. destruct (exec a (sv s)) as [v|] eqn:Ev; [|done].
    injection H as <-. by apply (tracked_quiet cap s a).
  - by eapply tracked_enter.
  - by eapply tracked_finish.
  - unfold acquire in H. destruct (waiting s !! j) as [k|] eqn:Ej; [|done]. cbn in H.
    destruct (sempWeighted ns) as [size|]; [|done]. cbn in H. destruct (_ <? size)%Z; [|done]. injection H as <-.
    rewrite <-(app_nil_r (published s)). apply tracked_goroutine; [done| |by intros x pubs Hx%elem_of_nil].
    rewrite (delete_Permutation (waiting s) j k) at 2 by done. cbn. solve_Permutation.
  - unfold expire in H. destruct (waiting s !! j) as [k|] eqn:Ej; [|done]. cbn in H.
    destruct (goroutine k now false (Some err) s) as [[h pubs]|] eqn:Eg; [|done]. injection H as <-.
    apply tracked_goroutine; [done| |].
    + rewrite (delete_Permutation (waiting s) j k) at 2 by done. done.
    + intros x pubs' [= -> ->]%list_elem_of_singleton. eauto.
  - unfold complete in H. destruct (working s !! j) as [k|] eqn:Ej; [|done]. cbn in H.
    destruct (goroutine k now late None s) as [[h pubs]|] eqn:Eg; [|done]. injection H as <-.
    apply tracked_goroutine; [done| |].
    + rewrite (delete_Permutation (working s) j k) at 2 by done. cbn. solve_Permutation.
    + intros x pubs' [= -> ->]%list_elem_of_singleton. eauto.
Qed.

Lemma serve_tracked cap s s' : rtc serve s s' -> tracked cap s -> tracked cap s'.
Proof. induction 1 as [|s s1 s2 (e & He & Hx) _ IH]; [done|]. intros Hs. by eapply IH, tracked_exec. Qed.

(** The semaphore bounds the goroutines that hold a unit of it. *)
Lemma working_exec size e s s' : sempWeighted ns = Some size -> (Z.of_nat (length (working s)) <= size)%Z ->
  sys_exec e s = Some s' -> (Z.of_nat (length (working s')) <= size)%Z.
Proof.
  intros Hz Hle H. destruct e as [a|i id|n now late|j|j now err|j now late]; cbn [sys_exec] in H.
  - destruct (quiet a (sv s)); [|done]. destruct (exec a (sv s)); [|done]. by injection H as <-.
  - unfold enter in H. destruct (threads (sv s) !! i) as [[k req|]|]; [|done..].
    destruct (processMessages _ _ _ _) as [h [[]|e|p]]; [| | |done..];
      destruct (exec _ (sv s)); try done; by injection H as <-.
  - unfold finish_task in H. destruct (at_task _ _) as [t|]; [|done]. cbn [mbind option_bind] in H.
    destruct (closures s !! _) as [cl|]; [|done]. cbn [mbind option_bind] in H.
    destruct (run_task _ _ _ _ _ _ _ _) as [h [pubs|e|p]]; [|done..].
    destruct (exec _ (sv s)); [|done]. by injection H as <-.
  - unfold acquire in H. destruct (waiting s !! j) as [k|]; [|done]. cbn in H. rewrite Hz in H. cbn in H.
    destruct (Z.ltb_spec (Z.of_nat (length (working s))) size); [|done]. injection H as <-. cbn.
    rewrite length_app. cbn. lia.
  - unfold expire in H. destruct (waiting s !! j); [|done]. cbn [mbind option_bind] in H.
    destruct (goroutine _ _ _ _ _) as [[]|]; [|done]. by injection H as <-.
  - unfold complete in H. destruct (working s !! j) as [k|] eqn:Ej; [|done]. cbn [mbind option_bind] in H.
    destruct (goroutine _ _ _ _ _) as [[]|]; [|done]. injection H as <-. cbn.
    pose proof (lookup_lt_Some _ _ _ Ej). rewrite length_delete by eauto. lia.
Qed.

Lemma working_bounded size s s' : sempWeighted ns = Some size -> rtc serve s s' ->
  (Z.of_nat (length (working s)) <= size)%Z -> (Z.of_nat (length (working s')) <= size)%Z.
Proof.
  intros Hz Hr. induction Hr as [|s s1 s2 (e & He & Hx) _ IH]; [done|]. intros Hle. by eapply IH, working_exec.
Qed.

(** ** The operations left *)

Definition work (s : system) : nat := 3 * Serving.work (sv s) + 2 * length (waiting s) + length (working s).

(** A step is one of the server of Serving, after which at most one goroutine
    more waits, or one of a goroutine outside the pool. *)
Lemma advance_cases s s' : advance s s' ->
  (Serving.advance ns nuid services (sv s) (sv s') /\ length (waiting s') <= S (length (waiting s)) /\
   working s' = working s) \/
  (sv s' = sv s /\ 2 * length (waiting s') + length (working s') < 2 * length (waiting s) + length (working s)).
Proof.
  intros (e & He & Hin & H). destruct e as [a|i id|n now late|j|j now err|j now late]; cbn [sys_exec internal in_service] in *.
  - left. destruct (quiet a (sv s)); [|done]. destruct (exec a (sv s)) as [v|] eqn:Ev; [|done].
    injection H as <-. split; [by exists a|by split; [cbn; lia|]].
  - left. unfold enter in H. destruct (threads (sv s) !! i) as [[k req|]|]; [|done..].
    destruct (processMessages _ _ _ _) as [h [[]|e|p]]; [| | |done..];
      [destruct (exec (Next i) (sv s)) as [v|] eqn:Ev|destruct (exec (SubmitCall i) (sv s)) as [v|] eqn:Ev
      |destruct (exec (Next i) (sv s)) as [v|] eqn:Ev]; try done; injection H as <-; cbn [sv waiting working];
      rewrite ?length_app; cbn [length];
      (split; [by first [exists (Next i); split_and!; [done|done|exact Ev]|exists (SubmitCall i); split_and!; [done|done|exact Ev]]|split; [lia|done]]).
  - left. unfold finish_task in H. destruct (at_task _ _) as [t|]; [|done]. cbn [mbind option_bind] in H.
    destruct (closures s !! _) as [cl|]; [|done]. cbn [mbind option_bind] in H.
    destruct (run_task _ _ _ _ _ _ _ _) as [h [pubs|e|p]]; [|done..].
    destruct (exec _ (sv s)) as [v|] eqn:Ev; [|done]. injection H as <-. split; [|by split; [cbn; lia|]].
    by exists (PoolAct (WorkerPool.Work n now)).
  - right. unfold acquire in H. destruct (waiting s !! j) as [k|] eqn:Ej; [|done]. cbn in H.
    destruct (sempWeighted ns); [|done]. cbn in H. destruct (_ <? _)%Z; [|done]. injection H as <-. split; [done|].
    cbn. pose proof (lookup_lt_Some _ _ _ Ej). rewrite length_delete, length_app by eauto. cbn. lia.
  - right. unfold expire in H. destruct (waiting s !! j) as [k|] eqn:Ej; [|done]. cbn [mbind option_bind] in H.
    destruct (goroutine _ _ _ _ _) as [[]|]; [|done]. injection H as <-. split; [done|].
    cbn. pose proof (lookup_lt_Some _ _ _ Ej). rewrite length_delete by eauto. lia.
  - right. unfold complete in H. destruct (working s !! j) as [k|] eqn:Ej; [|done]. cbn [mbind option_bind] in H.
    destruct (goroutine _ _ _ _ _) as [[]|]; [|done]. injection H as <-. split; [done|].
    cbn. pose proof (lookup_lt_Some _ _ _ Ej). rewrite length_delete by eauto. lia.
Qed.

Lemma system_works cap s s' : tracked cap s -> advance s s' ->
  tracked cap s' /\ work s' < work s /\ accepted (lp (sv s')) = accepted (lp (sv s)) /\
  exists ms, subChan (lp (sv s)) = ms ++ subChan (lp (sv s')).
Proof.
  intros Hs Ha. assert (tracked cap s') as Hs'.
  { destruct Ha as (e & He & Hin & Hx). by apply (tracked_exec cap e s). }
  split; [done|]. unfold work. destruct (advance_cases s s' Ha) as [(Hv & Hw & Hk)|(Hv & Hw)].
  - destruct (Serving.advance_works _ _ _ cap _ _ (k_serving _ _ Hs) Hv) as (_ & Hlt & Hac & Hms). rewrite Hk.
    split_and!; [lia|done|done].
  - rewrite Hv. split_and!; [lia|done|by exists []].
Qed.

Lemma system_runs_work cap k s s' : nsteps advance k s s' -> tracked cap s ->
  tracked cap s' /\ k + work s' <= work s /\ accepted (lp (sv s')) = accepted (lp (sv s)) /\
  exists ms, subChan (lp (sv s)) = ms ++ subChan (lp (sv s')).
Proof.
  induction 1 as [s|k s s1 s2 H _ IH]; intros Hs; [split_and!; [done|lia|done|by exists []]|].
  destruct (system_works cap s s1 Hs H) as (Hs1 & Hw & Hac & ms & Hms).
  destruct (IH Hs1) as (Hs2 & Hw2 & Hac2 & ms2 & Hms2). split_and!; [done|lia|congruence|].
  exists (ms ++ ms2). by rewrite <-app_assoc, <-Hms2.
Qed.

(** ** Progress *)

Section Progress.
Context {JL : JsonLaws J} {PL : WireLaws P}.
Variable size : Z.
Hypothesis semaphore : sempWeighted ns = Some size.
Hypothesis units : (0 < size)%Z.
Hypothesis some : 0 < services.

(** The deadline of a request is readable or missing, and the handler returns
    a response to it. *)
Definition servable (req : Request) : Prop := request_typed req /\ responds handler req.
Definition all_servable (s : system) : Prop := Forall servable (omap request (accepted (lp (sv s)))).

Lemma request_message m req : request m = Some req -> exists m', rq_Msg req = Some m'.
Proof.
  unfold request, handle_message. destruct (req_unmarshal _) as [r|e|p]; [|done..].
  destruct (rq_Msg r); [|done]. intros [= <-]. by eexists.
Qed.

Lemma handed_servable cap s k req : tracked cap s -> all_servable s -> handed (lp (sv s)) !! k = Some req ->
  exists m, rq_Msg req = Some m /\ request_typed req /\ responds handler req.
Proof.
  intros Hs Hf Hk. assert (omap request (accepted (lp (sv s))) !! k = Some req) as Ha.
  { rewrite (good_order _ _ _ (Serving.v_good _ _ _ _ _ (k_serving _ _ Hs))). by apply lookup_app_l_Some. }
  destruct (proj1 (Forall_lookup _ _) Hf k req Ha) as [Ht Hr].
  apply list_elem_of_lookup_2, list_elem_of_omap in Ha as (m & _ & Hm).
  destruct (request_message m req Hm) as [m' ?]. by exists m'.
Qed.

Lemma goroutine_total cap s k now late err : tracked cap s -> all_servable s ->
  k ∈ waiting s ++ working s -> err <> Some (ENrpc None) -> exists h pubs, goroutine k now late err s = Some (h, pubs).
Proof.
  intros Hs Hf Hk He. destruct (k_closure _ _ Hs k) as (cl & Hc & Hh); [set_solver|].
  destruct (handed_servable cap s k _ Hs Hf Hh) as (m & Hm & _ & Hr). unfold goroutine. rewrite Hc. cbn.
  unfold run_goroutine. rewrite semaphore. destruct err as [e|].
  - destruct (error_string_ok e) as [msg Hmsg]; [congruence|]. rewrite (bind_lift_ok _ msg) by done.
    destruct (processResponse_replies (c_req cl) m
      (mkResponse [] (Some (mkPError ErrTooManyRequestCode msg None))) Hm) as (pubs & Hp & _).
    unfold error_response, lift. rewrite Hp. eauto.
  - destruct (run_task_replies handler (c_ctx cl) (c_req cl) m (c_start cl) (c_timeout cl) now late (hp s) Hr Hm)
      as (h & pubs & -> & _). eauto.
Qed.

(** Nothing panics: not the loop on messages it can read, nor a dispatcher,
    a worker or a goroutine with a request that can be served. *)
Lemma at_task_unfinished p n t : at_task p n = Some t -> t ∈ unfinished p.
Proof.
  unfold at_task, unfinished. destruct (WorkerPool.store p !! n) as [q|] eqn:Hn; [|done]. cbn. intros Ht.
  apply elem_of_app. right. unfold PoolProgress.gathered. apply list_elem_of_In, in_concat.
  exists (WorkerPool.taskChan q ++ running q). split.
  - apply list_elem_of_In, list_elem_of_fmap. exists q. split; [done|]. by eapply list_elem_of_lookup_2.
  - apply list_elem_of_In, elem_of_app. right. unfold running in *. destruct (WorkerPool.worker q); try done.
    cbn in Ht. injection Ht as ->. set_solver.
Qed.

Lemma goroutine_returns cap s k now late err : tracked cap s -> all_servable s ->
  k ∈ waiting s ++ working s -> err <> Some (ENrpc None) -> goroutine_panics k now late err s = false.
Proof.
  intros Hs Hf Hk He. destruct (goroutine_total cap s k now late err Hs Hf Hk He) as (h & pubs & Hg).
  unfold goroutine in Hg. unfold goroutine_panics. destruct (closures s !! k) as [cl|]; [|done]. cbn in Hg.
  by destruct (run_goroutine _ _ _ _ _ _ _ _ _ _) as [h' [x|e|p]].
Qed.

Lemma no_panic cap s e : tracked cap s -> all_servable s -> Forall readable (subChan (lp (sv s))) ->
  in_service s e -> (forall j now, e <> Expire j now (ENrpc None)) -> sys_panics e s = false.
Proof.
  intros Hs Hf Hrd Hi He. pose proof (k_serving _ _ Hs) as Hv. destruct e as [a|i id|n now late|j|j now err|j now late]; cbn [sys_panics].
  - destruct a as [a| | | |]; try done. destruct (Serving.v_good _ _ _ _ _ Hv) as [_ _ _ _ Hcl _ _ _].
    pose proof (Serving.v_open _ _ _ _ _ Hv) as Ho. unfold is_finished in Hcl.
    destruct a as [m| | |k| | |]; cbn [step]; try done; unfold deliver, take, hand, finish, return_, exit.
    + destruct (at_ (lp (sv s))); try done; rewrite Hcl; by case_bool_decide.
    + destruct (at_ (lp (sv s))); try done. destruct (subChan (lp (sv s))) as [|m q]; [done|].
      apply Forall_cons in Hrd as [[r Hm] _]. rewrite Hm. by destruct r.
    + destruct (at_ (lp (sv s))), (idle (lp (sv s))); done.
    + by destruct (busy (lp (sv s)) !! k).
    + destruct (at_ (lp (sv s))); try done. by destruct (stopChan_closed (lp (sv s))).
    + destruct (idle (lp (sv s))); [done|]. by destruct (unhandled_closed (lp (sv s))).
  - destruct (threads (sv s) !! i) as [[k req|]|] eqn:Ei; try done.
    destruct (handed_servable cap s k req Hs Hf (k_got _ _ Hs _ _ _ Ei)) as (m & Hm & Ht & _).
    by destruct (dispatch_way ns nuid id req m (hp s) Hm Ht) as (h & d & -> & _).
  - destruct (at_task (wp (sv s)) n) as [t|] eqn:Et; [|done]. cbn.
    destruct (k_closure _ _ Hs (WorkerPool.tid t)) as (cl & -> & Hh).
    { apply elem_of_app. right. apply elem_of_app. right. apply list_elem_of_fmap. exists t.
      split; [done|]. by eapply at_task_unfinished. }
    destruct (handed_servable cap s _ _ Hs Hf Hh) as (m & Hm & _ & Hr).
    by destruct (run_task_replies handler (c_ctx cl) (c_req cl) m (c_start cl) (c_timeout cl) now late (hp s) Hr Hm)
      as (h & pubs & -> & _).
  - done.
  - destruct (waiting s !! j) as [k|] eqn:Ej; [|done]. apply (goroutine_returns cap); [done|done| |].
    + apply elem_of_app. left. by eapply list_elem_of_lookup_2.
    + intros [= ->]. by apply (He j now).
  - destruct (working s !! j) as [k|] eqn:Ej; [|done]. apply (goroutine_returns cap); [done|done| |done].
    apply elem_of_app. right. by eapply list_elem_of_lookup_2.
Qed.

(** Whatever the server of Serving can do, the system can. *)
Lemma serving_advances cap s v : tracked cap s -> all_servable s ->
  Serving.advance ns nuid services (sv s) v -> exists s', advance s s'.
Proof.
  intros Hs Hf (a & Ha & Hin & H). destruct (quiet a (sv s)) eqn:Eq.
  { exists (with_sv s v), (Quiet a). split_and!; [done|done|]. cbn [sys_exec]. by rewrite Eq, H. }
  destruct a as [a|i|i|i|e]; cbn [quiet] in Eq; [done|done| | |].
  - destruct (submit_keeps _ _ _ H) as (k & req & id & Ei & Eid & _).
    destruct (handed_servable cap s k req Hs Hf (k_got _ _ Hs _ _ _ Ei)) as (m & Hm & Ht & _).
    destruct (dispatch_way ns nuid EmptyString req m (hp s) Hm Ht) as (h & d & Hd & Hw).
    destruct d as [pubs|x c start timeout|c start timeout]; [by destruct Hw as [Hw _]; rewrite Eid in Hw| |by rewrite Eid in Hw].
    eexists _, (Enter i EmptyString). split_and!; [done|done|]. cbn [sys_exec]. unfold enter. rewrite Ei, Hd, H. done.
  - destruct (threads (sv s) !! i) as [[k req|]|] eqn:Ei; [|done..].
    destruct (handed_servable cap s k req Hs Hf (k_got _ _ Hs _ _ _ Ei)) as (m & Hm & Ht & _).
    assert (share_of ns nuid req = None) as Eid.
    { cbn [Ordered.exec] in H. rewrite Ei in H. by destruct (share_of ns nuid req). }
    destruct (dispatch_way ns nuid EmptyString req m (hp s) Hm Ht) as (h & d & Hd & Hw).
    destruct d as [pubs|x c start timeout|c start timeout]; [|by rewrite Eid in Hw|];
      (eexists _, (Enter i EmptyString); split_and!; [done|done|]; cbn [sys_exec]; unfold enter; rewrite Ei, Hd, H; done).
  - destruct e as [| |n now| | | | | | | | |]; try done. destruct (at_task (wp (sv s)) n) as [t|] eqn:Et; [|done].
    destruct (work_keeps cap n now _ _ (k_serving _ _ Hs) H) as (_ & _ & Hp). rewrite Et in Hp.
    destruct (k_closure _ _ Hs (WorkerPool.tid t)) as (cl & Hc & Hh); [rewrite <-Hp; set_solver|].
    destruct (handed_servable cap s _ _ Hs Hf Hh) as (m & Hm & _ & Hr).
    destruct (run_task_replies handler (c_ctx cl) (c_req cl) m (c_start cl) (c_timeout cl) now false (hp s) Hr Hm)
      as (h & pubs & Hx & _).
    eexists _, (Finish n now false). split_and!; [done|done|]. cbn [sys_exec]. unfold finish_task. rewrite Et. cbn [mbind option_bind].
    rewrite Hc. cbn [mbind option_bind]. rewrite Hx, H. done.
Qed.

(** What is left when nothing can be done. *)
Definition at_rest (s : system) : Prop :=
  (forall v, ~ Serving.advance ns nuid services (sv s) v) /\ waiting s = [] /\ working s = [].

Lemma rest_stuck s : at_rest s -> forall s', ~ advance s s'.
Proof.
  intros (Hr & Hw & Hk) s' Ha. destruct (advance_cases s s' Ha) as [(Hv & _)|(_ & Hlt)]; [by apply (Hr (sv s'))|].
  rewrite Hw, Hk in Hlt. cbn in Hlt. lia.
Qed.

Lemma advance_or_rest cap s : tracked cap s -> all_servable s -> (exists s', advance s s') \/ at_rest s.
Proof.
  intros Hs Hf. destruct (decide (Exists (fun a => is_Some (exec a (sv s))) (Serving.moves services (sv s)))) as [H|H].
  { left. apply Exists_exists in H as (a & Ha & [v Hv]). apply (serving_advances cap s v Hs Hf). exists a.
    by destruct (Serving.moves_internal services (sv s) a Ha). }
  assert (forall v, ~ Serving.advance ns nuid services (sv s) v) as Hno.
  { intros v Hv. destruct H. apply Exists_exists. by apply (Serving.advance_move ns nuid services some cap _ v (k_serving _ _ Hs)). }
  destruct (working s) as [|k ks] eqn:Ek.
  - destruct (waiting s) as [|k ks] eqn:Ew; [by right|left].
    assert ((Z.of_nat (length (working s)) <? size)%Z = true) as Hlt by (rewrite Ek; by apply Z.ltb_lt).
    eexists _, (Acquire 0). split_and!; [done|done|]. cbn [sys_exec]. unfold acquire. rewrite Ew. cbn [lookup list_lookup mbind option_bind].
    rewrite semaphore. cbn [mbind option_bind]. by rewrite Hlt.
  - left. destruct (goroutine_total cap s k 0 false None Hs Hf) as (h & pubs & Hg); [rewrite Ek; set_solver|done|].
    eexists _, (Complete 0 0 false). split_and!; [done|done|]. cbn [sys_exec]. unfold complete. rewrite Ek. cbn. by rewrite Hg.
Qed.

Lemma stuck_rest cap s : tracked cap s -> all_servable s -> (forall s', ~ advance s s') -> at_rest s.
Proof. intros Hs Hf Hr. destruct (advance_or_rest cap s Hs Hf) as [[s' Ha]|H]; [by destruct (Hr s')|done]. Qed.

Lemma system_rests cap s : tracked cap s -> all_servable s -> exists s', rtc advance s s' /\ forall s'', ~ advance s' s''.
Proof.
  remember (work s) as w eqn:E. revert s E. induction w as [w IH] using lt_wf_ind. intros s -> Hs Hf.
  destruct (advance_or_rest cap s Hs Hf) as [[s1 Ha]|Hr]; [|exists s; split; [done|by apply rest_stuck]].
  destruct (system_works cap s s1 Hs Ha) as (Hs1 & Hw & Hac & _).
  destruct (IH _ Hw s1 eq_refl Hs1) as (s' & Hr & Hst); [by unfold all_servable; rewrite Hac|].
  exists s'. split; [by eapply rtc_l|done].
Qed.

End Progress.
End System.
(** ** The promise *)

(** A list of answers by place. *)
Lemma by_place {A} n : forall l : list (nat * A), l.*1 ≡ₚ seq 0 n ->
  exists answers, length answers = n /\ l ≡ₚ imap pair answers.
Proof.
  induction n as [|n IH]; intros l Hl.
  - apply Permutation_nil_r, fmap_nil_inv in Hl as ->. by exists [].
  - rewrite seq_S in Hl. assert (n ∈ l.*1) as Hn by (rewrite Hl; set_solver).
    apply list_elem_of_fmap in Hn as ([x a] & -> & Ha). cbn in *.
    apply elem_of_Permutation in Ha as [l' Hl']. rewrite Hl' in Hl. cbn in Hl.
    rewrite <-Permutation_cons_append in Hl. apply Permutation_cons_inv in Hl.
    destruct (IH l' Hl) as (answers & <- & Hp). exists (answers ++ [a]). split; [rewrite length_app; cbn; lia|].
    rewrite Hl', Hp, imap_app. cbn. rewrite Nat.add_0_r. apply Permutation_cons_append.
Qed.

(** In a live pool at rest no task is unfinished. *)
Lemma rest_unfinished p : PoolProgress.live p -> (forall p', ~ PoolProgress.advance p p') -> unfinished p = [].
Proof.
  intros Hl Hr. unfold unfinished, PoolProgress.submitted.
  rewrite (PoolProgress.rest_subs p Hl Hr), fmap_empty, map_to_list_empty. cbn.
  apply concat_nil_Forall, Forall_fmap, Forall_lookup. intros n q Hn.
  destruct (PoolProgress.rest_queue p n q Hl Hr Hn) as (Hc & Hw & _). unfold compose, running. by rewrite Hc, Hw.
Qed.

Section Answered.
Context {J : Ctx.Json} {P : Wire} {JL : JsonLaws J} {PL : WireLaws P}.
Variables (ns : NatsRPCServer) (handler : IHandler) (nuid : string) (services cap : nat).
Hypothesis some : 0 < services.

(** A request that can be served does not end the process. *)
Lemma servable_harmless s : all_servable handler s -> Serving.harmless ns nuid (sv s).
Proof.
  unfold all_servable, Serving.harmless. rewrite !Forall_forall. intros H req Hreq. destruct (H req Hreq) as [Ht _].
  apply list_elem_of_omap in Hreq as (m & _ & Hm). destruct (request_message m req Hm) as [m' Hm'].
  destruct (processMessages_total ns nuid req m' ∅ Hm' Ht) as (h & d & Hd & _). unfold fatal. by rewrite Hd.
Qed.

Lemma rest_answered s : tracked ns nuid services cap s -> at_rest ns nuid services s -> all_servable handler s ->
  Forall readable (subChan (lp (sv s))) ->
  exists answers, published s ≡ₚ imap pair answers /\ Forall2 answered (omap request (accepted (lp (sv s)))) answers.
Proof.
  intros Hs (Hr & Hw & Hk) Hf Hrd. pose proof (k_serving _ _ _ _ _ Hs) as Hv.
  pose proof (servable_harmless s Hf) as Hhl.
  destruct (Serving.rest_served ns nuid services some cap _ Hv Hhl Hr Hrd) as [Hh _].
  pose proof (k_places _ _ _ _ _ Hs) as Hp. unfold got_places, pool_places in Hp.
  rewrite Hw, Hk, (Serving.rest_threads ns nuid services cap _ Hv Hhl Hr), (rest_unfinished (wp (sv s))) in Hp.
  - cbn in Hp. rewrite app_nil_r in Hp. destruct (by_place _ _ Hp) as (answers & Hlen & Ha). exists answers.
    split; [done|]. rewrite <-Hh. apply Forall2_same_length_lookup_2; [done|].
    intros k req pubs Hreq Hpubs. destruct (k_published _ _ _ _ _ Hs k pubs) as (r & Hr' & Han).
    + rewrite Ha. apply elem_of_lookup_imap. eauto.
    + rewrite Hreq in Hr'. by injection Hr' as <-.
  - apply (Serving.v_live _ _ _ _ _ Hv).
  - by apply (Serving.rest_pool ns nuid services cap).
Qed.

(** What holds of the publications at any time. *)
Lemma published_once s : tracked ns nuid services cap s ->
  NoDup (published s).*1 /\
  forall k pubs, (k, pubs) ∈ published s ->
    exists req, omap request (accepted (lp (sv s))) !! k = Some req /\ answered req pubs.
Proof.
  intros Hs. split.
  - pose proof (NoDup_seq 0 (length (handed (lp (sv s))))) as Hn. rewrite <-(k_places _ _ _ _ _ Hs) in Hn.
    by apply NoDup_app in Hn as [Hn _].
  - intros k pubs Hin. destruct (k_published _ _ _ _ _ Hs k pubs Hin) as (req & Hh & Ha). exists req. split; [|done].
    rewrite (good_order _ _ _ (Serving.v_good _ _ _ _ _ (k_serving _ _ _ _ _ Hs))). by apply lookup_app_l_Some.
Qed.

End Answered.


(** ** Witness *)

Definition is_string (v : gval) : bool := match v with GNil | GStr _ => true | _ => false end.
Definition typed_check (req : Request) : bool :=
  match json_unmarshal (rq_Metadata req) with
  | Ok (Some m) => is_string (default GNil (m !! StartTimeKey)) && is_string (default GNil (m !! RequestTimeout))
  | Ok None => false
  | _ => true
  end.
Lemma typed_check_ok req : typed_check req = true -> request_typed req.
Proof.
  unfold typed_check, request_typed. intros H. right. destruct (json_unmarshal _) as [[m|]|e|p]; try done.
  apply andb_true_iff in H as [H1 H2]. unfold deadline_typed.
  by destruct (default GNil (m !! StartTimeKey)), (default GNil (m !! RequestTimeout)).
Qed.

#[local] Existing Instance Serving.in_service_dec.

Fixpoint served_run (es : list event) (s : system) : option system :=
  match es with
  | [] => Some s
  | e :: es =>
      if match e with Quiet a => bool_decide (Serving.in_service (sv s) a) | _ => true end
      then s ← sys_exec ex_ns ok_handler "r1" 2 e s; served_run es s
      else None
  end.
Lemma served_run_serves es s s' : served_run es s = Some s' -> rtc (serve ex_ns ok_handler "r1" 2) s s'.
Proof.
  revert s. induction es as [|e es IH]; intros s; cbn [served_run]; [by intros [= <-]|].
  destruct (match e with Quiet a => _ | _ => _ end) eqn:Ea; [|done].
  destruct (sys_exec ex_ns ok_handler "r1" 2 e s) as [s1|] eqn:E; [|done]. intros H.
  eapply rtc_l; [exists e; split; [|exact E]|by apply IH]. destruct e; try done. by apply bool_decide_eq_true in Ea.
Qed.

(** Three messages: a request of a share id, one without, a notification. *)
Definition sent (share : string) (t : MsgType) : msg :=
  mkNatsMsg (Proto3.write (request_fields
    (mkRequest (Some (mkMsg 1 "chat.room.Join" [] EmptyString t)) (ex_metadata share)))) "inbox".
Definition three : list event :=
  (fun m => Quiet (LoopAct (Deliver m))) <$> [sent "u1" MsgRequest; sent EmptyString MsgRequest; sent "u2" MsgNotify].
(** The first one is with a dispatcher, the second with the other. *)
Definition ex_events : list event :=
  three ++ [Quiet (LoopAct Take); Quiet (HandTo 0); Quiet (LoopAct Take); Quiet (HandTo 1); Enter 1 "r2"; Acquire 0].
Definition start_system : system := system_init 2 75 (WorkerPool.NewWorkerPool 128 256 30000000000 300000000000).
Definition ex_system : system := default start_system (served_run ex_events start_system).


End Answers.
