(* ===== verification/Remote.v ===== *)
(** * The remote service: [service/remote.go], [service/util.go] and [Pcall]
    of [util/util.go]

    Registration of components, the way of a request from its route to a
    method and back to a response, and the calls a server makes to others. *)

From S2P Require Import Prelude Errors GoStd Message Route Context Pipeline Discovery Router Component Store Protos Nats.
From Stdlib Require Import Strings.Byte.
Import Ctx Store Protos Component Pipeline.

Module Remote.

(** protobuf on the messages of the application: encoding, and decoding into
    a new message of a type. *)
Class ProtoMsg (M : Type) := {
  pm_marshal : M -> result (list byte);
  pm_unmarshal : Type_ -> list byte -> result M
}.

Section Service.
Context {M : Type} {PM : ProtoMsg M}.

(** A hook gets the context and the data, nil included. *)
Abbreviation data := (option (value M)).
Abbreviation remote_m := (Component.Remote (M := M)).
Abbreviation hooks := (Hooks heap (option ctx) data).

(** ** [service/util.go] *)

(** [unmarshalRemoteArg]: [Type.Elem()] panics on a type without elements. *)
Definition new_of_elem (t : Type_) (payload : list byte) (is_message : bool) : result data :=
  if is_message then m ← pm_unmarshal t payload; Ok (Some (VMsg m))
  else Err (ESentinel ErrWrongValueType).
Definition unmarshalRemoteArg (remote : remote_m) (payload : list byte) : result data :=
  match r_Type remote with
  | None => Ok None
  | Some t =>
      match t with
      | TNamed _ Ptr _ p _ => new_of_elem t payload p
      | TNamed _ Slice _ _ p => new_of_elem t payload p
      | typeOfBytes => Err (ESentinel ErrWrongValueType)
      | _ => Panics (PanicMessage "reflect: Elem of invalid type")
      end
  end.

(** [unmarshalHandlerArg]: a raw argument is the payload; [unmarshal] is the
    serializer's, into a new value of the type a handler's points to. *)
Inductive handler_arg := RawArg (payload : list byte) | Arg (v : data).
Definition unmarshalHandlerArg (unmarshal : Type_ -> list byte -> result (value M))
    (handler : Component.Handler (M := M)) (payload : list byte) : result handler_arg :=
  if IsRawArg handler then Ok (RawArg payload)
  else
    match h_Type handler with
    | None => Ok (Arg None)
    | Some t =>
        match t with
        | TNamed _ Ptr _ _ _ | TNamed _ Slice _ _ _ | typeOfBytes => arg ← unmarshal t payload; Ok (Arg (Some arg))
        | _ => Panics (PanicMessage "reflect: Elem of invalid type")
        end
    end.

(** [getMsgType]: the type of a message, of either package. *)
Inductive msg_type_iface := MTMessage (t : byte) | MTProto (t : MsgType) | MTOther.
Definition getMsgType (t : msg_type_iface) : result byte :=
  match t with
  | MTMessage t => Ok t
  | MTProto t => Ok (ConvertProtoToMessageType t)
  | MTOther => Err (ESentinel errInvalidMsg)
  end.

(** [serializeReturn]: a failure is answered with an error payload. *)
Definition serializeReturn (ser : Serializer) (ret : sval) : result (list byte) :=
  match SerializeOrRaw ser ret with
  | Ok res => Ok res
  | Err err => GetErrorPayload ser err
  | Panics p => Panics p
  end.

(** ** [Pcall] *)

(** The results of a method, or the error that stands for its panic. A nil
    context, or a nil argument, is not a value reflection can pass. *)
Definition read_results (name : string) (r : callres M) : data * option error :=
  match r with
  | RNone => (None, None)
  | RPair _ (Some err) => (None, Some err)
  | RPair (Some v) None => (Some v, None)
  | RPair None None => (None, Some (ESentinel ErrReplyShouldBeNotNull))
  | RPanicString s => (None, Some (EText s))
  | RPanicOther shown => (None, Some (EText ("rpc call internal error - " +:+ name +:+ ": " +:+ shown)))
  end.
Definition zero_argument : callres M := RPanicString "reflect: Call using zero Value argument".
Definition Pcall (remote : remote_m) (c : option ctx) (arg : data) : st (data * option error) :=
  fun h =>
    let '(h, r) :=
      match c with
      | None => (h, zero_argument)
      | Some c =>
          if HasArgs remote && match arg with None => true | Some _ => false end
          then (h, zero_argument)
          else Func (r_Method remote) h c (if HasArgs remote then arg else None)
      end in
    (h, Ok (read_results (Name (r_Method remote)) r)).

(** ** [service/remote.go]: the server side *)

Record RemoteService := mkRemoteService {
  services : gmap string (Service (M := M));
  remotes : gmap string remote_m;
  router : Router.Router;
  serviceDiscovery : option Router.ServiceDiscovery;
  server : Discovery.Server;
  remoteHooks : hooks
}.

Definition NewRemoteService (sd : option Router.ServiceDiscovery) (router : Router.Router)
    (server : Discovery.Server) (h : hooks) : RemoteService :=
  mkRemoteService ∅ ∅ router sd server h.

(** [Register]. *)
Definition Register (upper : string -> bool) (r : RemoteService) (comp : Comp M)
    (opts : list Option_) : result RemoteService :=
  let s := NewService comp opts in
  match services r !! s_Name s with
  | Some _ => Err (EText ("remote: service already defined: " +:+ s_Name s))
  | None =>
      s ← ExtractRemote upper s;
      Ok (mkRemoteService (<[s_Name s := s]> (services r))
            (map_fold (fun name remote acc => <[s_Name s +:+ "." +:+ name := remote]> acc)
               (remotes r) (s_Remotes s))
            (router r) (serviceDiscovery r) (server r) (remoteHooks r))
  end.

Definition fail (code msg : string) (md : smap) : Response :=
  mkResponse [] (Some (mkPError code msg md)).

(** The response to the error of a call: its code and metadata are those of
    an [*Error]. *)
Definition error_reply (err : error) : result Response :=
  msg ← error_string err;
  Ok (match err with
      | ENrpc (Some val) => fail (Code val) msg (Metadata val)
      | _ => fail ErrUnknownCode msg None
      end).

(** The response to the result of a call. *)
Definition value_reply (ret : data) : result Response :=
  match ret with
  | None => Ok (mkResponse [] None)
  | Some (VOther _) => Ok (fail ErrUnknownCode (sentinel_msg ErrWrongValueType) None)
  | Some (VMsg m) =>
      match pm_marshal m with
      | Ok b => Ok (mkResponse b None)
      | Err err => msg ← error_string err; Ok (fail ErrUnknownCode msg None)
      | Panics p => Panics p
      end
  end.

(** [handleRPC] after the remote was found and its argument decoded. *)
Definition invoke (r : RemoteService) (remote : remote_m) (c : ctx) (arg : data) : st Response :=
  '(c, arg, err) ← updates (fun h =>
     '(h, c, arg, err) ← ExecuteBeforePipeline (BeforeHandler (remoteHooks r)) h (Some c) arg;
     Ok (h, (c, arg, err)));
  match err with
  | Some err => msg ← lift (error_string err); mret (fail ErrInternalCode msg None)
  | None =>
      '(ret, err) ← Pcall remote c arg;
      '(ret, err) ← updates (fun h =>
         '(h, ret, err) ← ExecuteAfterPipeline (AfterHandler (remoteHooks r)) h c ret err;
         Ok (h, (ret, err)));
      match err with
      | Some err => lift (error_reply err)
      | None => lift (value_reply ret)
      end
  end.

(** [handleRPC]. *)
Definition handleRPC (r : RemoteService) (c : ctx) (req : Request) (rt : Route.Route) : st Response :=
  match remotes r !! Route.Short rt with
  | None => mret (fail ErrNotFoundCode "route not found" (Some {["route" := Route.Short rt]}))
  | Some remote =>
      if HasArgs remote then
        match unmarshalRemoteArg remote (GetData req) with
        | Ok arg => invoke r remote c arg
        | Err err => msg ← lift (error_string err); mret (fail ErrBadRequestCode msg None)
        | Panics p => lift (Panics p)
        end
      else invoke r remote c None
  end.

(** [processRemoteMessage]. *)
Definition processRemoteMessage (c : ctx) (req : Request) (r : RemoteService) : st Response :=
  match Route.Decode (GetRoute req) with
  | Ok rt => handleRPC r c req rt
  | Err _ => mret (fail ErrBadRequestCode "cannot decode route" (Some {["route" := GetRoute req]}))
  | Panics p => lift (Panics p)
  end.

Section Traced.
Context {J : Json} {T : Tracing.Tracer}.

(** [util.StartSpanFromRequest] on a context that is not nil: a span that
    cannot be read is logged. *)
Definition StartSpanFromRequest (c : ctx) (route : string) : st ctx :=
  _ ← GetCtx (Some c) PeerIDKey;
  _ ← GetCtx (Some c) PeerServiceKey;
  _ ← GetCtx (Some c) RequestIDKey;
  parent ← catch (reads (fun h => Tracing.ExtractSpan h (Some c)));
  lift (Tracing.StartSpan (Some c) route (match parent with inl p => p | inr _ => None end)).

(** [Call], the handler of the RPC server; it reads the context from the
    request, not from its argument. *)
Definition Call (r : RemoteService) (nuid : string) (_ : ctx) (req : Request)
  : st (option Response * option error) :=
  x ← catch (GetContextFromRequest nuid req);
  match x with
  | inl c =>
      c ← StartSpanFromRequest c (GetRoute req);
      res ← processRemoteMessage c req r;
      mret (Some res, None)
  | inr err =>
      msg ← lift (error_string err);
      mret (Some (fail ErrInternalCode msg None), Some (EText msg))
  end.

End Traced.

(** ** [service/remote.go]: the client side *)

Section Client.
Context {Ch : Router.Choice}.
(** The RPC client. *)
Variable rpcClient_Call :
  option ctx -> Route.Route -> Message.Message -> option Discovery.Server -> st Response.

(** [remoteCall]. *)
Definition remoteCall (r : RemoteService) (c : option ctx) (srv : option Discovery.Server)
    (route : Route.Route) (msg : Message.Message) : st Response :=
  '(c, target) ←
    match srv with
    | Some s => mret (c, Some s)
    | None =>
        match Router.Route (router r) c (Route.SvType route) route (Some msg) with
        | (c, Ok target) => mret (c, target)
        | (_, Err err) => e ← lift (NewError (Some err) ErrInternalCode []); lift (Err (ENrpc e))
        | (_, Panics p) => lift (Panics p)
        end
    end;
  rpcClient_Call c route msg target.

(** [DoRPC]. *)
Definition DoRPC (r : RemoteService) (c : option ctx) (serverID : string) (mt : byte)
    (route : Route.Route) (protoData : list byte) : st Response :=
  let msg := Message.mkMessage mt 0 (Route.Short route) protoData false false in
  if bool_decide (serverID = EmptyString) then remoteCall r c None route msg
  else
    match serviceDiscovery r with
    | None => lift (Panics NilDereference)
    | Some D =>
        match Router.sd_GetServer serverID with
        | Ok target => remoteCall r c (Some target) route msg
        | Err _ => lift (Err (ESentinel ErrServerNotFound))
        | Panics p => lift (Panics p)
        end
    end.

(** [RPC]: the argument and the reply may be nil. *)
Definition RPC (r : RemoteService) (c : option ctx) (serverID : string) (mt : byte)
    (route : Route.Route) (reply : option Type_) (arg : option M) : st (option M) :=
  bs ← match arg with Some a => lift (pm_marshal a) | None => mret [] end;
  res ← DoRPC r c serverID mt route bs;
  match rs_Error res with
  | Some e => lift (Err (ENrpc (Some (mkError (pe_Code e) (pe_Msg e) (pe_Metadata e)))))
  | None =>
      match reply with
      | Some t => m ← lift (pm_unmarshal t (rs_Data res)); mret (Some m)
      | None => mret None
      end
  end.

End Client.

(** ** Registration *)

Lemma qualified_inj (s : string) : Inj (=) (=) (fun n => s +:+ "." +:+ n).
Proof. intros a b H. by apply (inj (String.app s)), (inj (String.app ".")) in H. Qed.

Lemma register_fold s (rs old : gmap string remote_m) k rem :
  map_fold (fun name remote acc => <[s +:+ "." +:+ name := remote]> acc) old rs !! k = Some rem <->
  (exists n, k = s +:+ "." +:+ n /\ rs !! n = Some rem) \/
  (old !! k = Some rem /\ forall n, k = s +:+ "." +:+ n -> rs !! n = None).
Proof.
  revert k rem. apply (map_fold_weak_ind (fun acc rs => forall k rem, acc !! k = Some rem <->
    (exists n, k = s +:+ "." +:+ n /\ rs !! n = Some rem) \/
    (old !! k = Some rem /\ forall n, k = s +:+ "." +:+ n -> rs !! n = None))).
  - intros k rem. setoid_rewrite lookup_empty. naive_solver.
  - intros n x m acc Hn IH k rem. rewrite lookup_insert_Some, IH.
    setoid_rewrite lookup_insert_Some. setoid_rewrite lookup_insert_None. split.
    + intros [[<- ->]|[Hne [(n' & -> & Hl)|[Ho Hall]]]].
      * left. exists n. auto.
      * left. exists n'. split; [done|]. right. split; [|done]. intros ->. done.
      * right. split; [done|]. intros n' ->. split; [by apply Hall|]. intros ->. done.
    + intros [(n' & -> & [[-> ->]|[Hne Hl]])|[Ho Hall]].
      * by left.
      * right. split; [|left; eauto]. intros Heq. apply qualified_inj in Heq. done.
      * destruct (decide (s +:+ "." +:+ n = k)) as [He|He].
        -- symmetry in He. destruct (Hall _ He). done.
        -- right. split; [done|]. right. split; [done|]. intros n' Hn'. by apply Hall.
Qed.

(** Registering a component adds exactly its remotes, under the name of
    the service and a dot: afterwards a route leads to a remote of the new
    service, or to what it led to before, and the service cannot be
    registered a second time, which is an error and changes nothing. *)
Theorem Register_correct (upper : string -> bool) (r r' : RemoteService) (comp : Comp M)
    (opts : list Option_) :
  Register upper r comp opts = Ok r' ->
  exists s, ExtractRemote upper (NewService comp opts) = Ok s /\
    services r' = <[s_Name s := s]> (services r) /\
    (forall k rem, remotes r' !! k = Some rem <->
       (exists n, k = s_Name s +:+ "." +:+ n /\ s_Remotes s !! n = Some rem) \/
       (remotes r !! k = Some rem /\ forall n, k = s_Name s +:+ "." +:+ n -> s_Remotes s !! n = None)) /\
    forall comp' opts', s_Name (NewService comp' opts') = s_Name s ->
      Register upper r' comp' opts' = Err (EText ("remote: service already defined: " +:+ s_Name s)).
Proof.
  unfold Register. destruct (services r !! _); [done|]. intros H. outcome_inv.
  exists x. split_and!; [done|done| |].
  - intros k rem. apply register_fold.
  - intros comp' opts' Hn. rewrite Hn. cbn. by rewrite lookup_insert_eq.
Qed.

(** ** Every call is answered *)

(** The encodings of the application's messages fail with an error of
    theirs. *)
Class ProtoMsgLaws := {
  pm_unmarshal_no_panic t b p : pm_unmarshal t b <> Panics p;
  pm_unmarshal_error t b e : pm_unmarshal t b = Err e -> e <> ENrpc None;
  pm_marshal_no_panic m p : pm_marshal m <> Panics p;
  pm_marshal_error m e : pm_marshal m = Err e -> e <> ENrpc None
}.

(** The service is sound: arguments are pointers to messages, methods do not
    return a nil [*Error] as an error, and hooks return. *)
Record sound (r : RemoteService) : Prop := {
  pointer_args k rem : remotes r !! k = Some rem -> HasArgs rem = true ->
    exists n c e, r_Type rem = Some (TNamed n Ptr c true e);
  no_nil_error k rem h c a h' v : remotes r !! k = Some rem ->
    Func (r_Method rem) h c a <> (h', RPair v (Some (ENrpc None)));
  before_returns h c d : exists h' c' d' e,
    ExecuteBeforePipeline (BeforeHandler (remoteHooks r)) h c d = Ok (h', c', d', e) /\
    e <> Some (ENrpc None);
  after_returns h c d e : e <> Some (ENrpc None) -> exists h' d' e',
    ExecuteAfterPipeline (AfterHandler (remoteHooks r)) h c d e = Ok (h', d', e') /\
    e' <> Some (ENrpc None)
}.

Context {PML : ProtoMsgLaws}.

Lemma Pcall_total r k rem c a h :
  sound r -> remotes r !! k = Some rem ->
  exists h' ret err, Pcall rem c a h = (h', Ok (ret, err)) /\ err <> Some (ENrpc None).
Proof.
  intros Hs Hk. unfold Pcall.
  destruct c as [c|]; [|do 3 eexists; split; [reflexivity|done]].
  destruct (HasArgs rem && _); [do 3 eexists; split; [reflexivity|done]|].
  destruct (Func _ _ _ _) as [h' res] eqn:E. destruct res as [|[v|] [e|]| |];
    (do 3 eexists; split; [reflexivity|]); try done.
  - intros [= ->]. by eapply no_nil_error.
  - intros [= ->]. by eapply no_nil_error.
Qed.

Lemma error_reply_total e : e <> ENrpc None -> exists res, error_reply e = Ok res.
Proof.
  intros He. unfold error_reply. destruct (Nats.error_string_ok e He) as [s ->]. cbn. eauto.
Qed.

Lemma value_reply_total d : exists res, value_reply d = Ok res.
Proof.
  destruct d as [[m|n]|]; cbn; [|eauto..]. destruct (pm_marshal m) as [|e|p] eqn:E; [eauto| |].
  - destruct (Nats.error_string_ok e (pm_marshal_error m e E)) as [s ->]. cbn. eauto.
  - by apply pm_marshal_no_panic in E.
Qed.

Lemma invoke_total r k rem c a h :
  sound r -> remotes r !! k = Some rem -> exists h' res, invoke r rem c a h = (h', Ok res).
Proof.
  intros Hs Hk. unfold invoke.
  destruct (before_returns r Hs h (Some c) a) as (h1 & c1 & a1 & e1 & Hb & He1).
  rewrite (bind_ok _ _ h h1 (c1, a1, e1)) by (unfold updates; by rewrite Hb).
  destruct e1 as [e|].
  { destruct (Nats.error_string_ok e) as [s ->]; [congruence|]. rewrite bind_lift. eauto. }
  destruct (Pcall_total r k rem c1 a1 h1 Hs Hk) as (h2 & ret & err & Hp & He2).
  rewrite (bind_ok _ _ _ _ _ Hp).
  destruct (after_returns r Hs h2 c1 ret err He2) as (h3 & ret3 & e3 & Ha & He3).
  rewrite (bind_ok _ _ h2 h3 (ret3, e3)) by (unfold updates; by rewrite Ha).
  destruct e3 as [e|].
  - destruct (error_reply_total e) as [res Hr]; [congruence|]. exists h3, res. unfold lift. by rewrite Hr.
  - destruct (value_reply_total ret3) as [res Hr]. exists h3, res. unfold lift. by rewrite Hr.
Qed.

Lemma process_total (r : RemoteService) (c : ctx) (req : Request) (h : heap) :
  sound r -> exists h' res, processRemoteMessage c req r h = (h', Ok res).
Proof.
  intros Hs. unfold processRemoteMessage.
  destruct (Route.Decode (GetRoute req)) as [rt|e|p] eqn:Er; [|by do 2 eexists|].
  2: { exfalso. unfold Route.Decode in Er. destruct (existsb _ _); [done|].
       by destruct (str_split _ _) as [|? [|? [|? [|]]]]. }
  unfold handleRPC. destruct (remotes r !! Route.Short rt) as [rem|] eqn:Ek; [|by do 2 eexists].
  destruct (HasArgs rem) eqn:Ea; [|by eapply invoke_total].
  destruct (pointer_args r Hs _ _ Ek Ea) as (n & ci & e & Ht).
  unfold unmarshalRemoteArg. rewrite Ht. cbn [new_of_elem].
  destruct (pm_unmarshal _ _) as [m|err|p] eqn:Eu; cbn [mbind outcome_bind].
  - by eapply invoke_total.
  - destruct (Nats.error_string_ok err (pm_unmarshal_error _ _ _ Eu)) as [s ->].
    rewrite bind_lift. eauto.
  - by apply pm_unmarshal_no_panic in Eu.
Qed.

(** C8: [processRemoteMessage] always gives a response: for any decoded
    request, with a route that does not parse or leads nowhere, an argument
    that does not decode, or a method that fails, panics or returns a nil
    reply, it returns one and does not panic, when the service is sound: the
    registered arguments are pointers to messages, methods do not return a
    typed nil as an error, and hooks return. *)
Theorem handleRPC_total (r : RemoteService) (c : ctx) (req : Request) (h : heap) :
  sound r -> exists h' res, processRemoteMessage c req r h = (h', Ok res).
Proof. apply process_total. Qed.

(** Not every registered remote is safe to call: a method whose argument
    is declared as an interface passes the registration test, and the first
    request for it panics outside [Pcall], when the server makes a value of
    the argument's type. *)
Theorem interface_argument_panics (r : RemoteService) (method : Method M) (recv cty : Type_)
    (n : string) (b : bool) (c : ctx) (req : Request) (rt : Route.Route) (h : heap) :
  PkgPath method = EmptyString -> implements_context cty = true -> outs method = [] ->
  ins method = [recv; cty; TNamed n Interface b true false] ->
  remotes r !! Route.Short rt = Some (new_remote method) ->
  isRemoteMethod method = true /\
  handleRPC r c req rt h = (h, Panics (PanicMessage "reflect: Elem of invalid type")).
Proof.
  intros Hp Hc Ho Hi Hr. split.
  - apply isRemoteMethod_spec. split; [done|]. split; [|by left]. exists recv, cty. split; [done|].
    right. eauto.
  - unfold handleRPC. rewrite Hr. unfold new_remote. cbn [HasArgs]. rewrite Hi. cbn [length].
    rewrite bool_decide_eq_true_2 by done. done.
Qed.

(** C34: an error keeps its identity across the call: without hooks, the
    response to a method that returned an error has the error's message, the
    code [FromError] gives it (its own for an [*Error], the unknown code
    otherwise) and its metadata; a panic with a string becomes an error with
    that text. *)
Theorem method_error_reply (r : RemoteService) (rem : remote_m) (c : ctx) (a : data) (h h' : heap)
    (err : error) (v : data) :
  remoteHooks r = NewRemoteHooks -> HasArgs rem = true -> a <> None ->
  Func (r_Method rem) h c a = (h', RPair v (Some err)) \/
    (exists s, err = EText s /\ Func (r_Method rem) h c a = (h', RPanicString s)) ->
  err <> ENrpc None ->
  exists e, invoke r rem c a h = (h', Ok (mkResponse [] (Some e))) /\
    error_string err = Ok (pe_Msg e) /\ pe_Code e = FromError (Some err) /\
    pe_Metadata e = match err with ENrpc (Some x) => Metadata x | _ => None end.
Proof.
  intros Hh Ha Hn Hf He. unfold invoke. rewrite Hh.
  rewrite (bind_ok _ _ h h (Some c, a, None)) by done.
  assert (Pcall rem (Some c) a h = (h', Ok (None, Some err))) as Hp.
  { unfold Pcall. rewrite Ha. destruct a as [a|]; [|done]. cbn [andb].
    destruct Hf as [->|(s & -> & ->)]; [|done]. by destruct v. }
  rewrite (bind_ok _ _ _ _ _ Hp). rewrite (bind_ok _ _ h' h' (None, Some err)) by done.
  unfold lift, error_reply. destruct (Nats.error_string_ok err He) as [s Hs]. rewrite Hs.
  cbn [mbind outcome_bind]. destruct err as [| | |[x|]]; try done; eexists; (split; [reflexivity|]); done.
Qed.

Lemma StartSpan_returns {T : Tracing.Tracer} c l route h :
  (forall carrier p, Tracing.tracer_extract carrier <> Panics p) -> ctx_map c = Some l ->
  exists n, StartSpanFromRequest c route h = (h, Ok (WithValue c SpanKey (CVal (GOther n)))).
Proof.
  intros Htr Hl. unfold StartSpanFromRequest. do 3 rewrite (bind_ok _ _ _ _ _ (GetCtx_map h c l _ Hl)).
  assert (exists x, catch (reads (fun h => Tracing.ExtractSpan h (Some c))) h = (h, Ok x))
    as [x Hp]; [|rewrite (bind_ok _ _ _ _ _ Hp); by eexists].
  unfold catch, reads, Tracing.ExtractSpan, Tracing.SpanFromContext.
  destruct (ctx_value c SpanKey) as [[|[]]|]; cbn [mbind outcome_bind]; try by eexists.
  all: rewrite (Get_map h c l) by done; cbn [mbind outcome_bind]; case_bool_decide; [by eexists|].
  all: destruct (Tracing.castValueToCarrier _) as [cr| |p] eqn:Ec; cbn [mbind outcome_bind];
    [|by eexists|by apply Tracing.castValueToCarrier_returns in Ec].
  all: destruct (Tracing.tracer_extract cr) eqn:Em; cbn [mbind outcome_bind]; try by eexists.
  all: by apply Htr in Em.
Qed.

(** The handler of the RPC server responds to every request with readable
    metadata. *)
Lemma Call_responds `{JL : JsonLaws} {T : Tracing.Tracer} r nuid req :
  (forall carrier p, Tracing.tracer_extract carrier <> Panics p) ->
  sound r -> Nats.request_typed req -> Nats.responds (Call r nuid) req.
Proof.
  intros Htr Hs Ht c0 h. unfold Call.
  destruct (Nats.GetContext_total nuid req h Ht) as (h2 & x & Hx & Hcase).
  rewrite (bind_ok _ _ _ _ _ Hx). destruct x as [c|e].
  - destruct Hcase as (l & Hl & _).
    destruct (StartSpan_returns c l (GetRoute req) h2 Htr Hl) as [n Hc'].
    set (c' := WithValue c SpanKey _) in Hc'.
    rewrite (bind_ok _ _ _ _ _ Hc').
    assert (exists h' res, processRemoteMessage c' req r h2 = (h', Ok res)) as (h' & res & Hr)
      by (by apply process_total).
    exists h', res, None. by rewrite (bind_ok _ _ _ _ _ Hr).
  - destruct (Nats.error_string_ok e Hcase) as [s ->]. rewrite bind_lift. do 3 eexists. reflexivity.
Qed.

(** The handler reads the context of the request and runs the request with
    it. *)
Lemma Call_runs `{JL : JsonLaws} {T : Tracing.Tracer} r nuid req m c0 h :
  (forall carrier p, Tracing.tracer_extract carrier <> Panics p) ->
  rq_Metadata req <> [] -> json_unmarshal (rq_Metadata req) = Ok (Some m) ->
  exists h2 c l, ctx_map c = Some l /\ map_at h2 (Some l) = Nats.received_map nuid (GetRoute req) m /\
    forall h3 res, processRemoteMessage c req r h2 = (h3, Ok res) ->
      Call r nuid c0 req h = (h3, Ok (Some res, None)).
Proof.
  intros Htr Hb Hj. destruct (Decode_Some h _ m Hb Hj) as (h1 & l & Hd & _ & Hh1).
  destruct (Nats.GetContext_spec nuid req h h1 _ l Hd eq_refl) as (h2 & c & Hc & Hl & Hm).
  rewrite Hh1, map_at_insert in Hm. destruct (StartSpan_returns c l (GetRoute req) h2 Htr Hl) as [n Hs].
  exists h2, (WithValue c SpanKey (CVal (GOther n))), l. split_and!; [done|done|].
  intros h3 res Hr. unfold Call. rewrite (bind_ok _ _ h h2 (inl c)) by (unfold catch; by rewrite Hc).
  rewrite (bind_ok _ _ _ _ _ Hs). by rewrite (bind_ok _ _ _ _ _ Hr).
Qed.

(** A request for a registered method with a readable argument. *)
Lemma process_invoke (r : RemoteService) c req rt rem n ci e a h :
  Route.Decode (GetRoute req) = Ok rt -> remotes r !! Route.Short rt = Some rem ->
  HasArgs rem = true -> r_Type rem = Some (TNamed n Ptr ci true e) ->
  pm_unmarshal (TNamed n Ptr ci true e) (GetData req) = Ok a ->
  processRemoteMessage c req r h = invoke r rem c (Some (VMsg a)) h.
Proof.
  intros Hd Hr Ha Ht Hu. unfold processRemoteMessage. rewrite Hd. unfold handleRPC. rewrite Hr, Ha.
  unfold unmarshalRemoteArg. rewrite Ht. cbn [new_of_elem]. by rewrite Hu.
Qed.

(** The response to what a method returned, without hooks. *)
Definition response_of (res : callres M) (name : string) : result Response :=
  match read_results name res with
  | (_, Some err) => error_reply err
  | (ret, None) => value_reply ret
  end.

Lemma invoke_response (r : RemoteService) rem c a h h' res :
  remoteHooks r = NewRemoteHooks -> HasArgs rem = true ->
  Func (r_Method rem) h c (Some a) = (h', res) ->
  invoke r rem c (Some a) h = (h', response_of res (Name (r_Method rem))).
Proof.
  intros Hh Ha Hf. unfold invoke. rewrite Hh. rewrite (bind_ok _ _ h h (Some c, Some a, None)) by done.
  unfold response_of. destruct (read_results (Name (r_Method rem)) res) as [ret err] eqn:E.
  rewrite (bind_ok _ _ h h' (ret, err)) by (unfold Pcall; rewrite Ha; cbn [andb]; by rewrite Hf, E).
  rewrite (bind_ok _ _ h' h' (ret, err)) by done. by destruct err.
Qed.

End Service.

(** ** Witnesses *)

(** Messages are numbers, encoded in unary. *)
#[export] Instance toy_msgs : ProtoMsg nat := {|
  pm_marshal n := Ok (replicate n x01);
  pm_unmarshal _ b := Ok (length b)
|}.
#[export] Instance toy_msgs_laws : ProtoMsgLaws (M := nat).
Proof. by split. Qed.

(** Counts one up, and panics on zero. *)
Definition next_method : Method nat :=
  mkMethod "Next" EmptyString [recv_type; ctx_type; join_arg] [join_arg; typeOfError]
    (fun h _ arg => (h, match arg with
                        | Some (VMsg 0) => RPanicString "zero"
                        | Some (VMsg n) => RPair (Some (VMsg (S n))) None
                        | _ => RPair None None
                        end)).
Definition counter : Comp nat := mkComp "Counter" "*main.Counter" [next_method] [].
Definition empty_service : RemoteService (M := nat) :=
  NewRemoteService None Router.New Discovery.sv_chat NewRemoteHooks.
Definition counter_service : RemoteService (M := nat) :=
  match Register no_upper empty_service counter [] with Ok r => r | _ => empty_service end.

Lemma Register_correct_witness :
  services counter_service !! "Counter" <> None /\
  Register no_upper counter_service counter [] =
    Err (EText "remote: service already defined: Counter").
Proof.
  destruct (Register_correct no_upper empty_service counter_service counter []) as (s & Hs & H1 & _ & H2).
  - reflexivity.
  - assert (s_Name s = "Counter") as Hn by apply (ExtractRemote_name _ _ _ Hs).
    rewrite Hn in *. split; [by rewrite H1, lookup_insert_eq|]. by apply H2.
Defined.

Lemma counter_remotes :
  remotes counter_service = {["Counter.Next" := new_remote next_method]}.
Proof. reflexivity. Qed.

Lemma counter_sound : sound counter_service.
Proof.
  split.
  - intros k rem. rewrite counter_remotes, lookup_singleton_Some. intros [_ <-] _.
    by exists "*JoinReq", false, true.
  - intros k rem h c a h' v. rewrite counter_remotes, lookup_singleton_Some. intros [_ <-].
    cbn. by destruct a as [[[]|]|].
  - intros h c d. by exists h, c, d, None.
  - intros h c d e He. by exists h, d, e.
Qed.

Definition next_request : Request :=
  mkRequest (Some (mkMsg 1 "chat.Counter.Next" [] "inbox" MsgRequest)) [].

Lemma handleRPC_total_witness :
  exists h' res, processRemoteMessage Background next_request counter_service ∅ = (h', Ok res).
Proof. apply handleRPC_total. apply counter_sound. Defined.

(** A method with an argument of type [proto.Message]. *)
Definition any_method : Method nat :=
  mkMethod "Any" EmptyString [recv_type; ctx_type; TNamed "proto.Message" Interface false true false] []
    (fun h _ _ => (h, RNone)).
Definition any_service : RemoteService (M := nat) :=
  match Register no_upper empty_service (mkComp "Sink" "*main.Sink" [any_method] []) [] with
  | Ok r => r | _ => empty_service end.

Lemma interface_argument_panics_witness :
  handleRPC any_service Background next_request (Route.NewRoute "chat" "Sink" "Any") ∅ =
    (∅, Panics (PanicMessage "reflect: Elem of invalid type")).
Proof.
  apply (interface_argument_panics any_service any_method recv_type ctx_type "proto.Message" false);
    reflexivity.
Defined.

Lemma method_error_reply_witness :
  exists e, invoke counter_service (new_remote next_method) Background (Some (VMsg 0)) ∅ =
      (∅, Ok (mkResponse [] (Some e))) /\ pe_Msg e = "zero".
Proof.
  destruct (method_error_reply counter_service (new_remote next_method) Background (Some (VMsg 0)) ∅ ∅
    (EText "zero") None) as (e & H1 & H2 & _); [reflexivity|reflexivity|done| |done|].
  - right. exists "zero". split; reflexivity.
  - exists e. split; [exact H1|]. by injection H2 as <-.
Defined.

End Remote.
