(* ===== verification/Spans.v ===== *)
(** * The end of a span: [FinishSpan] of [tracing/span.go], [LogError] of
    [tracing/log.go], the two calls that defer it, and the set-up of the
    Jaeger tracer in [tracing/jaeger/config.go]

    [defer tracing.FinishSpan(ctx, err)] evaluates its arguments where it
    stands: [Call] of the client and of the remote service hand it the error
    they have then, which is not the error they return. *)

From S2P Require Import Prelude Errors GoStd Context Route Message Discovery Store Protos Nats Remote.
From Stdlib Require Import Strings.Byte.
Import Ctx Store Protos Nats.Nats Tracing.

Module Spans.

(** What is recorded on a span. *)
Inductive span_event :=
| SetTag (key : string) (value : bool)
| LogFields (event message : string)
| Finish.

(** The events of every span, in order. *)
Definition trace := list (Z * span_event).

(** [LogError]. *)
Definition LogError (t : trace) (span : Z) (message : string) : trace :=
  t ++ [(span, SetTag "error" true); (span, LogFields "error" message)].

(** [FinishSpan]; [Finish] is deferred, so that it also comes last when the
    text of the error panics. *)
Definition FinishSpan (t : trace) (c : option ctx) (err : option error) : trace * result unit :=
  match c with
  | None => (t, Ok tt)
  | Some _ =>
      match SpanFromContext c with
      | Ok (Some span) =>
          match err with
          | None => (t ++ [(span, Finish)], Ok tt)
          | Some err =>
              match error_string err with
              | Ok msg => (LogError t span msg ++ [(span, Finish)], Ok tt)
              | Err e => (t ++ [(span, Finish)], Err e)
              | Panics p => (t ++ [(span, Finish)], Panics p)
              end
          end
      | Ok None => (t, Ok tt)
      | Err e => (t, Err e)
      | Panics p => (t, Panics p)
      end
  end.

Section Calls.
Context {T : Tracer}.

(** The arguments of the deferred call in [NatsRPCClient.Call]: the context
    with the new span, and the error of [ExtractSpan]. *)
Definition client_deferred (c : option ctx) (h : heap) : result (ctx * option error) :=
  match ExtractSpan h c with
  | Ok parent => c ← StartSpan c "NATS RPC Call" parent; Ok (c, None)
  | Err err => c ← StartSpan c "NATS RPC Call" None; Ok (c, Some err)
  | Panics p => Panics p
  end.
(** What the call leaves on its span. *)
Definition client_trace (t : trace) (c : option ctx) (h : heap) : result trace :=
  x ← client_deferred c h; Ok (FinishSpan t (Some x.1) x.2).1.

(** The arguments of the deferred call in [RemoteService.Call]: the context
    is nil when the request has none that can be read. *)
Definition server_deferred {J : Json} (nuid : string) (req : Request) : st (option ctx * option error) :=
  x ← catch (GetContextFromRequest nuid req);
  match x with
  | inl c => c ← Remote.Remote.StartSpanFromRequest c (GetRoute req); mret (Some c, None)
  | inr err => mret (None, Some err)
  end.
Definition server_trace {J : Json} (t : trace) (nuid : string) (req : Request) : st trace :=
  x ← server_deferred nuid req; mret (FinishSpan t x.1 x.2).1.

Lemma started_span c op parent c' : StartSpan c op parent = Ok c' -> exists n, SpanFromContext (Some c') = Ok (Some n).
Proof. unfold StartSpan, with_value. destruct c; intros [= <-]. by eexists. Qed.

Lemma finish_clean t c n : SpanFromContext (Some c) = Ok (Some n) ->
  FinishSpan t (Some c) None = (t ++ [(n, Finish)], Ok tt).
Proof. intros H. unfold FinishSpan. by rewrite H. Qed.

(** The span of a request that has a context ends without an error,
    whatever the method, the hooks or a panic answer: the error [FinishSpan]
    gets is the one of reading the context, and without a context there is no
    span. So no span of a server ever records an error. *)
Lemma server_spans_have_no_error {J : Json} (nuid : string) (req : Request) (h h' : heap) (t : trace) :
  server_trace [] nuid req h = (h', Ok t) ->
  t = [] \/ exists n, t = [(n, Finish)].
Proof.
  unfold server_trace, server_deferred. intros H.
  apply bind_inv in H as (x & h1 & Hx & H). cbn in H. injection H as <- <-.
  apply bind_inv in Hx as (y & h2 & Hy & Hx). destruct y as [c|err].
  - apply bind_inv in Hx as (c1 & h3 & Hc & Hx). cbn in Hx. injection Hx as <- <-. right.
    unfold Remote.Remote.StartSpanFromRequest in Hc.
    repeat apply bind_inv in Hc as (? & ? & _ & Hc). apply (f_equal snd) in Hc.
    apply (started_span (Some c)) in Hc as [n Hn]. exists n. cbn [fst snd]. by rewrite (finish_clean [] c1 n Hn).
  - cbn in Hx. injection Hx as <- <-. by left.
Qed.

(** The span of a call records an error exactly when the caller's span could
    not be read; the outcome of the call leaves no trace. *)
Lemma client_span_error c h t :
  client_trace [] c h = Ok t ->
  (exists n, t = [(n, Finish)]) \/
  (exists n err, ExtractSpan h c = Err err /\
     (t = [(n, Finish)] \/ exists msg, t = LogError [] n msg ++ [(n, Finish)])).
Proof.
  unfold client_trace, client_deferred. destruct (ExtractSpan h c) as [p|err|p]; [| |done].
  all: destruct (StartSpan c _ _) as [c1| |] eqn:Ec; [|done..].
  all: apply started_span in Ec as [n Hn]; intros Ht.
  - left. exists n. assert (t = (FinishSpan [] (Some c1) None).1) as -> by (by injection Ht as <-).
    by rewrite (finish_clean [] c1 n Hn).
  - right. exists n, err. split; [done|].
    assert (t = (FinishSpan [] (Some c1) (Some err)).1) as -> by (by injection Ht as <-).
    unfold FinishSpan. rewrite Hn. destruct (error_string err) as [msg| |]; cbn; eauto.
Qed.

End Calls.

(** ** Jaeger

    The tracer and its configuration are those of the Jaeger client: only the
    fields that the code sets are here. [F] is the type of float64. *)

Section Jaeger.
Context {F Closer : Type}.

Record Options := mkOptions { Disabled : bool; Probability : F; ServiceName : string }.
Record SamplerConfig := mkSampler { sampler_Type : string; Param : F }.
Record Configuration := mkConfiguration { cfg_Disabled : bool; Sampler : SamplerConfig }.

Variable SamplerTypeProbabilistic : string.
Variable InitGlobalTracer : Configuration -> string -> result Closer.

Definition Configure (options : Options) : result Closer :=
  let cfg := mkConfiguration (Disabled options)
               (mkSampler SamplerTypeProbabilistic (Probability options)) in
  InitGlobalTracer cfg (ServiceName options).

End Jaeger.
End Spans.
