(* ===== verification/Calls.v ===== *)
(** * A remote call from end to end

    The client of [cluster/nats_rpc_client.go] and the server of
    [cluster/nats_rpc_server.go] connected by a link: what the handler sees
    of the caller's context and what the caller gets of its response. *)

From S2P Require Import Prelude Utf8 Errors GoStd Duration Message Route Context Metrics Discovery Store Protos Component Pipeline Nats Remote.
From Stdlib Require Import Strings.Byte.
Import Ctx GoStd Store Protos Nats.Nats Tracing.

Module Calls.

Section EndToEnd.
Context {J : Json} {P : Wire} {T : Tracer}.
Context {JL : JsonLaws J} {PL : WireLaws P}.
(** The tracer reads and writes spans without panicking. *)
Hypothesis extract_returns : forall carrier p, tracer_extract carrier <> Panics p.

(** ** What the client puts in the map *)

Definition with_request_id (nuid : string) (m0 m : gmap string gval) : gmap string gval :=
  match default GNil (m0 !! RequestIDKey) with
  | GNil => <[RequestIDKey := GStr nuid]> m
  | GStr rID => if bool_decide (rID = EmptyString) then <[RequestIDKey := GStr nuid]> m else m
  | _ => m
  end.
Definition with_default (k : string) (v : gval) (m0 m : gmap string gval) : gmap string gval :=
  if bool_decide (default GNil (m0 !! k) = GNil) then <[k := v]> m else m.

(** The map of the caller with what [Call] adds before the request is built,
    and with what [buildRequest] adds. *)
Definition call_map (ns : NatsRPCClient) (nuid : string) (now : Z) (route : Route.Route)
    (m0 : gmap string gval) : gmap string gval :=
  with_default StartTimeKey (GStr (FormatInt now)) m0
    (with_default RequestTimeout (GStr (Duration.duration_string (cc_RequestTimeout (cl_config ns)))) m0
       (with_request_id nuid m0 (<[RouteKey := GStr (Route.String_ route)]> m0))).
Definition sent_map (ns : NatsRPCClient) (carrier : gmap string string) (m : gmap string gval)
  : gmap string gval :=
  <[PeerServiceKey := GStr (Discovery.Type_ (cl_server ns))]>
    (<[PeerIDKey := GStr (Discovery.ID (cl_server ns))]>
       (<[SpanPropagateCtxKey := GCarrier carrier]> m)).

(** The map a context carries, the empty one if none. *)
Definition carried (h : heap) (c : ctx) : gmap string gval := map_at h (ctx_map c).

(** A context reads a key as the map [m0] has it. *)
Lemma get_as c l h k (m0 : gmap string gval) :
  ctx_map c = Some l \/ (ctx_value c PropagateCtxKey = None /\ m0 !! k = None) ->
  map_at h (Some l) !! k = m0 !! k ->
  GetCtx (Some c) k h = (h, Ok (default GNil (m0 !! k))).
Proof.
  intros [Hl|[Hn Hk]] Hm.
  - rewrite (GetCtx_map h c l k Hl). by rewrite Hm.
  - unfold GetCtx, reads, GetFromPropagateCtx, ToMap. rewrite Hn, Hk.
    destruct (alloc h ∅) as [h' l'] eqn:Ha. apply alloc_fresh in Ha as [_ ->].
    cbn [mbind outcome_bind]. rewrite map_at_insert. by rewrite lookup_empty.
Qed.

Section Prepare.
Variables (ns : NatsRPCClient) (c : ctx) (l : loc) (m0 : gmap string gval).
(** The context reads the map [m0], which is also the content of [l] before
    the call changes it. *)
Hypothesis reads_m0 : ctx_map c = Some l \/ (ctx_value c PropagateCtxKey = None /\ m0 = ∅).

Lemma get_m0 h k : map_at h (Some l) !! k = m0 !! k ->
  GetCtx (Some c) k h = (h, Ok (default GNil (m0 !! k))).
Proof. intros Hk. apply (get_as c l); [|done]. destruct reads_m0 as [|[? ->]]; auto. Qed.

Lemma set_request_id_spec nuid h :
  map_at h (Some l) !! RequestIDKey = m0 !! RequestIDKey ->
  exists h', set_request_id (Some c) (Some l) nuid h = (h', Ok tt) /\
    map_at h' (Some l) = with_request_id nuid m0 (map_at h (Some l)).
Proof.
  intros Hk. unfold set_request_id. rewrite (bind_ok _ _ _ _ _ (get_m0 h _ Hk)).
  unfold with_request_id. destruct (default GNil (m0 !! RequestIDKey)) as [|s| | | |];
    try (exists h; done).
  - eexists. split; [reflexivity|]. apply map_at_insert.
  - case_bool_decide; [|by exists h]. eexists. split; [reflexivity|]. apply map_at_insert.
Qed.

Lemma set_timeout_spec h :
  map_at h (Some l) !! RequestTimeout = m0 !! RequestTimeout ->
  exists h', set_timeout ns (Some c) (Some l) h =
    (h', Ok (if bool_decide (default GNil (m0 !! RequestTimeout) = GNil)
             then GStr (Duration.duration_string (cc_RequestTimeout (cl_config ns)))
             else default GNil (m0 !! RequestTimeout))) /\
    map_at h' (Some l) = with_default RequestTimeout
      (GStr (Duration.duration_string (cc_RequestTimeout (cl_config ns)))) m0 (map_at h (Some l)).
Proof.
  intros Hk. unfold set_timeout. rewrite (bind_ok _ _ _ _ _ (get_m0 h _ Hk)).
  unfold with_default. case_bool_decide; [|by exists h].
  eexists. split; [reflexivity|]. apply map_at_insert.
Qed.

Lemma set_start_time_spec now h :
  map_at h (Some l) !! StartTimeKey = m0 !! StartTimeKey ->
  exists h', set_start_time (Some c) (Some l) now h = (h', Ok tt) /\
    map_at h' (Some l) = with_default StartTimeKey (GStr (FormatInt now)) m0 (map_at h (Some l)).
Proof.
  intros Hk. unfold set_start_time. rewrite (bind_ok _ _ _ _ _ (get_m0 h _ Hk)).
  unfold with_default. case_bool_decide; [|by exists h].
  eexists. split; [reflexivity|]. apply map_at_insert.
Qed.

End Prepare.

Lemma with_request_id_ne nuid m0 m k :
  k <> RequestIDKey -> with_request_id nuid m0 m !! k = m !! k.
Proof.
  intros Hk. unfold with_request_id. destruct (default GNil _); try done.
  - by rewrite lookup_insert_ne.
  - case_bool_decide; [by rewrite lookup_insert_ne|done].
Qed.

Lemma with_default_ne k0 v m0 m k : k <> k0 -> with_default k0 v m0 m !! k = m !! k.
Proof. intros Hk. unfold with_default. case_bool_decide; [by rewrite lookup_insert_ne|done]. Qed.

(** The request the client builds from a context that carries [l]. *)
Lemma buildRequest_spec ns c l n carrier h route msg b :
  ctx_map c = Some l -> ctx_value c SpanKey = Some (CVal (GOther n)) ->
  tracer_inject n = Ok carrier ->
  json_marshal (sent_map ns carrier (map_at h (Some l))) = Ok b ->
  exists h', buildRequest (Some c) route msg (cl_server ns) h =
    (h', Ok (mkRequest (Some (mkMsg 0 (Route.String_ route) (Message.Data msg) EmptyString
                                (proto_type (Message.Typ msg)))) b)) /\
    map_at h' (Some l) = sent_map ns carrier (map_at h (Some l)).
Proof.
  intros Hl Hs Hi Hj. unfold buildRequest.
  assert (InjectSpan (Some c) h =
    (<[l := <[SpanPropagateCtxKey := GCarrier carrier]> (map_at h (Some l))]> h,
     Ok (Some (WithValue c PropagateCtxKey (CMap (Some l))), None))) as H1.
  { unfold InjectSpan, SpanFromContext. rewrite Hs. rewrite bind_lift, Hi.
    by rewrite (bind_ok _ _ _ _ _ (AddCtx_map h c l _ _ Hl)). }
  rewrite (bind_ok _ _ _ _ _ H1).
  rewrite (bind_ok _ _ _ _ _ (AddCtx_map _ (WithValue c PropagateCtxKey (CMap (Some l))) l _ _ eq_refl)).
  rewrite map_at_insert.
  rewrite (bind_ok _ _ _ _ _ (AddCtx_map _
    (WithValue (WithValue c PropagateCtxKey (CMap (Some l))) PropagateCtxKey (CMap (Some l))) l _ _ eq_refl)).
  rewrite map_at_insert. unfold reads, Ctx.Encode. cbn [ToMap ctx_value].
  rewrite decide_True by done.
  match goal with |- context [mbind _ _ ?h'] => exists h' end.
  split; [|by rewrite map_at_insert].
  unfold mbind at 1, st_bind at 1. cbn [mbind outcome_bind]. rewrite map_at_insert.
  rewrite bool_decide_eq_true_2.
  - unfold sent_map in Hj. by rewrite Hj.
  - destruct (decide (size (<[PeerServiceKey := GStr (Discovery.Type_ (cl_server ns))]>
      (<[PeerIDKey := GStr (Discovery.ID (cl_server ns))]>
       (<[SpanPropagateCtxKey := GCarrier carrier]> (map_at h (Some l))))) = 0%nat)) as [H0|]; [|lia].
    apply map_size_empty_inv in H0. by apply insert_non_empty in H0.
Qed.

Lemma ExtractSpan_returns h c :
  ctx_ok c -> exists x, catch (reads (fun h => ExtractSpan h (Some c))) h = (h, Ok x).
Proof.
  intros Hok. unfold catch, reads, ExtractSpan, SpanFromContext.
  assert (exists v, GetFromPropagateCtx h (Some c) SpanPropagateCtxKey = Ok v) as [v Hv].
  { unfold GetFromPropagateCtx, ToMap. unfold ctx_ok in Hok.
    destruct (ctx_value c PropagateCtxKey) as [[[l|]|]|]; try done; cbn [mbind outcome_bind]; by eexists. }
  assert (exists r : result (option Z), (s ← GetFromPropagateCtx h (Some c) SpanPropagateCtxKey;
    if bool_decide (s = GNil) then Ok None
    else carrier ← castValueToCarrier s; spanCtx ← tracer_extract carrier; Ok (Some spanCtx)) = r /\
    forall p, r <> Panics p) as (r & Hr & Hp).
  { eexists. split; [reflexivity|]. rewrite Hv. cbn [mbind outcome_bind]. intros p.
    case_bool_decide; [done|].
    destruct (castValueToCarrier v) as [cr| |p'] eqn:Ec; cbn [mbind outcome_bind];
      [|done|by apply castValueToCarrier_returns in Ec].
    destruct (tracer_extract cr) eqn:Em; cbn [mbind outcome_bind]; [done|done|].
    by apply extract_returns in Em. }
  destruct (ctx_value c SpanKey) as [[|[]]|]; cbn [mbind outcome_bind]; try (by eexists);
    rewrite Hr; destruct r; try (by eexists); by destruct (Hp p).
Qed.

Lemma sent_fits r d t : Utf8.valid_string r = true -> msg_fits (mkMsg 0 r d EmptyString (proto_type t)) = true.
Proof.
  intros H. unfold msg_fits, proto_type. cbn [m_Id m_Route m_Reply m_Type]. rewrite H.
  repeat case_match; done.
Qed.

(** What the client does before it sends. *)
Lemma prepare_spec ns nuid now c route msg srv carrier h :
  ctx_ok c -> cl_running ns = true -> (forall n, tracer_inject n = Ok carrier) ->
  Utf8.valid_string (Route.String_ route) = true ->
  let m0 := carried h c in
  let m := sent_map ns carrier (call_map ns nuid now route m0) in
  plain_map m ->
  exists h' c' l b data,
    json_marshal m = Ok b /\
    req_marshal (mkRequest (Some (mkMsg 0 (Route.String_ route) (Message.Data msg) EmptyString
                                    (proto_type (Message.Typ msg)))) b) = Ok data /\
    prepare ns nuid now (Some c) route msg (Some srv) h =
      (h', Ok (c', srv, (if bool_decide (default GNil (m0 !! RequestTimeout) = GNil)
                         then GStr (Duration.duration_string (cc_RequestTimeout (cl_config ns)))
                         else default GNil (m0 !! RequestTimeout)), data)) /\
    ctx_map c' = Some l /\ map_at h' (Some l) = m /\ (forall l0, ctx_map c = Some l0 -> l = l0).
Proof.
  intros Hok Hrun Hinj Hroute m0 m Hplain. unfold prepare.
  destruct (ExtractSpan_returns h c Hok) as [x Hx]. rewrite (bind_ok _ _ _ _ _ Hx).
  rewrite bind_lift. cbn beta zeta.
  unfold StartSpan, with_value. set (n := start_span "NATS RPC Call" _). rewrite bind_lift.
  rewrite Hrun. cbn [negb].
  set (c1 := WithValue c SpanKey (CVal (GOther n))).
  assert (exists h1 l, updates (fun h => ToMap h (Some c1)) h = (h1, Ok (Some l)) /\
    map_at h1 (Some l) = m0 /\ (forall l0, ctx_map c = Some l0 -> l = l0) /\
    (ctx_map c1 = Some l \/ (ctx_value c1 PropagateCtxKey = None /\ m0 = ∅)))
    as (h1 & l & Hm & H1 & Hsame & Hl).
  { unfold updates, m0, carried, ctx_map, ToMap, ctx_ok, c1 in *. cbn [ctx_value].
    rewrite decide_False by done.
    destruct (ctx_value c PropagateCtxKey) as [[[l|]|]|]; try done.
    - exists h, l. split_and!; [done|done|by intros ? [= <-]|auto].
    - destruct (alloc h ∅) as [h1 l] eqn:Ha. apply alloc_fresh in Ha as [_ ->].
      exists (<[l := ∅]> h), l. split; [done|]. split; [apply map_at_insert|].
      split; [done|auto]. }
  rewrite (bind_ok _ _ _ _ _ Hm). rewrite (bind_ok _ _ _ _ _ (StoreMap_some h1 l _ _)).
  rewrite H1. set (h2 := <[l := <[RouteKey := GStr (Route.String_ route)]> m0]> h1).
  assert (map_at h2 (Some l) = <[RouteKey := GStr (Route.String_ route)]> m0) as H2 by apply map_at_insert.
  destruct (set_request_id_spec c1 l m0 Hl nuid h2) as (h3 & Hid & H3);
    [by rewrite H2, lookup_insert_ne|].
  rewrite (bind_ok _ _ _ _ _ Hid).
  destruct (set_timeout_spec ns c1 l m0 Hl h3) as (h4 & Hto & H4);
    [by rewrite H3, with_request_id_ne, H2, lookup_insert_ne|].
  rewrite (bind_ok _ _ _ _ _ Hto).
  destruct (set_start_time_spec c1 l m0 Hl now h4) as (h5 & Hst & H5);
    [by rewrite H4, with_default_ne, H3, with_request_id_ne, H2, lookup_insert_ne|].
  rewrite (bind_ok _ _ _ _ _ Hst).
  assert (map_at h5 (Some l) = call_map ns nuid now route m0) as Hcall
    by (unfold call_map; by rewrite H5, H4, H3, H2).
  pose proof (json_total _ Hplain) as Hjt.
  destruct (json_marshal m) as [b| |] eqn:Hj; [|done..].
  destruct (buildRequest_spec ns (WithValue c1 PropagateCtxKey (CMap (Some l))) l n carrier h5 route msg b)
    as (h6 & Hb & H6); [done|done|done|by rewrite Hcall|].
  rewrite (bind_ok _ _ _ _ _ Hb).
  set (req := mkRequest _ b). assert (is_ok (req_marshal req) = true) as Hq by (apply req_total; intros ? [= <-]; by apply sent_fits).
  destruct (req_marshal req) as [data| |] eqn:Hreq; [|done..]. rewrite bind_lift.
  exists h6, (WithValue c1 PropagateCtxKey (CMap (Some l))), l, b, data.
  split_and!; [done|done|done|done| |done]. by rewrite H6, Hcall.
Qed.

(** ** What the server makes of the request *)

Lemma parseRequestTimeout_ok c l h s t start timeout :
  ctx_map c = Some l ->
  map_at h (Some l) !! StartTimeKey = Some (GStr s) -> ParseInt s = (start, None) ->
  map_at h (Some l) !! RequestTimeout = Some (GStr t) -> Duration.ParseDuration t = (timeout, None) ->
  parseRequestTimeout (Some c) h = (h, Ok (start, timeout)).
Proof.
  intros Hl Hs Hps Ht Hpt. unfold parseRequestTimeout.
  rewrite (bind_ok _ _ _ _ _ (GetCtx_map h c l StartTimeKey Hl)). rewrite Hs. cbn [default].
  rewrite bool_decide_eq_false_2 by done. rewrite (bind_lift_ok _ s) by done. rewrite Hps.
  rewrite bool_decide_eq_false_2 by naive_solver.
  rewrite (bind_ok _ _ _ _ _ (GetCtx_map h c l RequestTimeout Hl)). rewrite Ht. cbn [default].
  rewrite bool_decide_eq_false_2 by done. rewrite (bind_lift_ok _ t) by done. by rewrite Hpt.
Qed.

Lemma received_lookup nuid route m k :
  k <> RouteKey -> k <> RequestIDKey -> received_map nuid route m !! k = m !! k.
Proof.
  intros H1 H2. unfold received_map. destruct (has_request_id m); by rewrite !lookup_insert_ne.
Qed.

(** Where a readable request goes: to the queue of its share id, or to a
    goroutine of its own. *)
Definition dispatch_of (ns : NatsRPCServer) (shareID : gval) (c : ctx) (start timeout : Z) : dispatched :=
  match shareID with
  | GStr id => if workerPool ns && bool_decide (id <> EmptyString) then ToPool id c start timeout
               else ToGoroutine c start timeout
  | _ => ToGoroutine c start timeout
  end.

Lemma processMessages_runs ns nuid req m s t start timeout h :
  rq_Metadata req <> [] -> json_unmarshal (rq_Metadata req) = Ok (Some m) ->
  m !! StartTimeKey = Some (GStr s) -> ParseInt s = (start, None) ->
  m !! RequestTimeout = Some (GStr t) -> Duration.ParseDuration t = (timeout, None) ->
  exists h2 c l, ctx_map c = Some l /\ map_at h2 (Some l) = received_map nuid (GetRoute req) m /\
    processMessages ns nuid req h =
      (h2, Ok (dispatch_of ns (default GNil (m !! ShareIDKey)) c start timeout)).
Proof.
  intros Hb Hj Hs Hps Ht Hpt.
  destruct (Decode_Some h _ m Hb Hj) as (h1 & l & Hd & _ & Hh1).
  destruct (GetContext_spec nuid req h h1 _ l Hd eq_refl) as (h2 & c & Hc & Hl & Hm).
  rewrite Hh1, map_at_insert in Hm.
  exists h2, c, l. split; [done|]. split; [done|].
  assert (parseRequestTimeout (Some c) h2 = (h2, Ok (start, timeout))) as Hp
    by (apply (parseRequestTimeout_ok c l h2 s t); [done| |done| |done]; by rewrite Hm, received_lookup).
  unfold processMessages. rewrite (bind_ok _ _ h h2 (inl c)) by (unfold catch; by rewrite Hc).
  rewrite (bind_ok _ _ h2 h2 (inl (start, timeout))) by (unfold catch; by rewrite Hp).
  rewrite (bind_ok _ _ _ _ _ (GetCtx_map h2 c l ShareIDKey Hl)). rewrite Hm, received_lookup by done.
  unfold dispatch_of. destruct (default GNil (m !! ShareIDKey)); try done. by destruct (_ && _).
Qed.

Lemma serve_runs ns handler nuid now late req m s t start timeout h :
  rq_Metadata req <> [] -> json_unmarshal (rq_Metadata req) = Ok (Some m) ->
  m !! StartTimeKey = Some (GStr s) -> ParseInt s = (start, None) ->
  m !! RequestTimeout = Some (GStr t) -> Duration.ParseDuration t = (timeout, None) ->
  sempWeighted ns <> None ->
  exists h2 c l, ctx_map c = Some l /\ map_at h2 (Some l) = received_map nuid (GetRoute req) m /\
    serve ns handler nuid now late None req h = run_task handler c req start timeout now late h2.
Proof.
  intros Hb Hj Hs Hps Ht Hpt Hsem.
  destruct (processMessages_runs ns nuid req m s t start timeout h Hb Hj Hs Hps Ht Hpt)
    as (h2 & c & l & Hl & Hm & Hd).
  exists h2, c, l. split; [done|]. split; [done|]. unfold serve. rewrite (bind_ok _ _ _ _ _ Hd).
  unfold dispatch_of, run_goroutine. destruct (sempWeighted ns); [|done].
  destruct (default GNil (m !! ShareIDKey)); try done. by destruct (_ && _).
Qed.

(** ** The link between the client and the server *)

(** A connection that carries a request to the server and its answer back:
    the server takes it from its subject in the state [hs], and publishes
    the answer on the inbox of the request. *)
Definition link (srv : NatsRPCServer) (handler : IHandler) (nuid : string) (now : Z) (inbox : string)
    (hs : heap) : Conn := {|
  conn_Request ch data _ :=
    if bool_decide (ch = getChannel (Discovery.Type_ (ns_server srv)) (Discovery.ID (ns_server srv))) then
      match handle_message data inbox with
      | Ok (Some req) =>
          match serve srv handler nuid now false None req hs with
          | (_, Ok [(subject, p)]) => if bool_decide (subject = inbox) then Ok p else Err nats_ErrTimeout
          | _ => Err nats_ErrTimeout
          end
      | _ => Err nats_ErrTimeout
      end
    else Err nats_ErrTimeout;
  conn_Publish _ _ := Ok tt
|}.

(** What the caller gets for a response. *)
Definition as_returned (res : Response) : result Response :=
  match rs_Error (norm_response res) with
  | Some e => Err (ENrpc (Some (mkError
      (if bool_decide (pe_Code e = EmptyString) then ErrUnknownCode else pe_Code e)
      (pe_Msg e) (pe_Metadata e))))
  | None => Ok (norm_response res)
  end.

Lemma read_response_ok res p : res_marshal res = Ok p -> read_response p = as_returned res.
Proof.
  intros Hp. unfold read_response. rewrite (res_roundtrip _ _ Hp). cbn [mbind outcome_bind].
  unfold as_returned. by destruct (rs_Error (norm_response res)).
Qed.

(** The request as the server sees it. *)
Definition arrived (route : Route.Route) (msg : Message.Message) (inbox : string) (b : list byte)
  : Request :=
  mkRequest (Some (mkMsg 0 (Route.String_ route) (Message.Data msg) inbox MsgRequest)) b.

Lemma run_task_answer handler c req start timeout now h h' res e m :
  (time_sub now start <= half timeout)%Z -> handler c req h = (h', Ok (Some res, e)) ->
  rq_Msg req = Some m -> m_Type m <> MsgNotify ->
  (forall e, rs_Error res = Some e -> plain_error e) ->
  exists p, res_marshal res = Ok p /\
    run_task handler c req start timeout now false h = (h', Ok [(m_Reply m, p)]).
Proof.
  intros Hin Hh Hm Ht Hp. pose proof (res_total res Hp) as Hok.
  destruct (res_marshal res) as [p| |] eqn:E; [|done..]. exists p. split; [done|].
  unfold run_task, processRequest. rewrite (proj2 (Z.ltb_ge _ _) Hin).
  rewrite (bind_ok _ _ h h' (Some res)) by (by rewrite (bind_ok _ _ _ _ _ Hh)).
  unfold lift, processResponse. rewrite Hm, bool_decide_eq_false_2 by done.
  cbn [marshalResponse]. by rewrite E.
Qed.

(** A task that finds half of the time used up answers so, and does not call
    the handler. *)
Lemma run_task_late handler c req start timeout now h m :
  (half timeout < time_sub now start)%Z -> rq_Msg req = Some m -> m_Type m <> MsgNotify ->
  exists p, res_marshal (mkResponse [] (Some (mkPError ErrRequestTimeoutCode "rpc server process timeout" None))) = Ok p /\
    run_task handler c req start timeout now false h = (h, Ok [(m_Reply m, p)]).
Proof.
  intros Hlate Hm Ht. set (res := mkResponse _ _).
  pose proof (res_total res ltac:(intros e [= <-]; by repeat split)) as Hok.
  destruct (res_marshal res) as [p| |] eqn:E; [|done..]. exists p. split; [done|].
  unfold run_task, processRequest. rewrite (proj2 (Z.ltb_lt _ _) Hlate).
  cbn [mret st_ret]. unfold lift, processResponse, mbind, st_bind. cbn. rewrite Hm, bool_decide_eq_false_2 by done.
  unfold error_response. cbn [marshalResponse]. fold res. by rewrite E.
Qed.

(** A request the server answers over the link. *)
Lemma call_through ns srv handler h h' hs hs1 c c0 route msg nuid nuid' inbox now arrival done t b data res p :
  prepare ns nuid now (Some c) route msg (Some (ns_server srv)) h = (h', Ok (c0, ns_server srv, GStr t, data)) ->
  Message.Typ msg = Message.Request ->
  req_marshal (mkRequest (Some (mkMsg 0 (Route.String_ route) (Message.Data msg) EmptyString MsgRequest)) b) = Ok data ->
  serve srv handler nuid' arrival false None (arrived route msg inbox b) hs = (hs1, Ok [(inbox, p)]) ->
  res_marshal res = Ok p ->
  Call (C := link srv handler nuid' arrival inbox hs) ns nuid now done [] tt (Some c)
    route msg (Some (ns_server srv)) h = (h', Ok (tt, as_returned res)).
Proof.
  intros Hprep Htyp Hreq Hserve Hrm. unfold Call.
  rewrite (bind_ok (catch _) _ h h' _ (catch_ok _ _ _ _ Hprep)). cbn beta iota.
  assert (transmit (C := link srv handler nuid' arrival inbox hs) ns route msg (ns_server srv) (GStr t) data =
    as_returned res) as Htr.
  { unfold transmit. rewrite Htyp, bool_decide_eq_true_2 by done. cbn [must_string mbind outcome_bind].
    destruct (Duration.ParseDuration t) as [timeout err]. cbn [conn_Request link].
    rewrite bool_decide_eq_true_2 by done. unfold handle_message.
    rewrite (req_roundtrip _ _ Hreq). cbn [rq_Msg rq_Metadata].
    change (mkRequest (Some (set_reply inbox _)) b) with (arrived route msg inbox b).
    rewrite Hserve. rewrite bool_decide_eq_true_2 by done. by apply read_response_ok. }
  rewrite Htr. unfold as_returned. by destruct (rs_Error (norm_response res)).
Qed.

(** Whatever the connection answers, a call leaves the maps as it prepared
    them. *)
Lemma Call_heap {C : Conn} ns nuid now done c route msg server h h' x h1 r :
  prepare ns nuid now c route msg server h = (h', Ok x) ->
  Call ns nuid now done [] tt c route msg server h = (h1, r) -> h1 = h'.
Proof.
  intros Hprep. unfold Call. rewrite (bind_ok (catch _) _ h h' _ (catch_ok _ _ _ _ Hprep)).
  destruct x as [[[c0 sv] t] data]. cbn beta iota.
  destruct (transmit _ _ _ _ _ _); unfold reads, lift, mbind, st_bind, mret, st_ret; cbn;
    repeat case_match; by intros [= <- _].
Qed.

Lemma call_map_start ns nuid now route m0 :
  m0 !! StartTimeKey = None -> call_map ns nuid now route m0 !! StartTimeKey = Some (GStr (FormatInt now)).
Proof.
  intros H. unfold call_map, with_default at 1. rewrite H. cbn [default].
  rewrite bool_decide_eq_true_2 by done. by rewrite lookup_insert_eq.
Qed.

Lemma call_map_timeout ns nuid now route m0 :
  m0 !! RequestTimeout = None ->
  call_map ns nuid now route m0 !! RequestTimeout =
    Some (GStr (Duration.duration_string (cc_RequestTimeout (cl_config ns)))).
Proof.
  intros H. unfold call_map. rewrite with_default_ne by done. unfold with_default. rewrite H.
  cbn [default]. rewrite bool_decide_eq_true_2 by done. by rewrite lookup_insert_eq.
Qed.

Lemma sent_lookup ns carrier m k :
  k <> PeerServiceKey -> k <> PeerIDKey -> k <> SpanPropagateCtxKey ->
  sent_map ns carrier m !! k = m !! k.
Proof. intros H1 H2 H3. unfold sent_map. by rewrite !lookup_insert_ne. Qed.

(** The hypotheses of a call that is made afresh and arrives in time. *)
Record fresh_call (ns : NatsRPCClient) (srv : NatsRPCServer) (h : heap) (c : ctx)
    (route : Route.Route) (msg : Message.Message) (carrier : gmap string string)
    (nuid : string) (now arrival : Z) : Prop := {
  fc_ctx : ctx_ok c;
  fc_running : cl_running ns = true;
  fc_inject n : tracer_inject n = Ok carrier;
  fc_type : Message.Typ msg = Message.Request;
  fc_route : Utf8.valid_string (Route.String_ route) = true;
  fc_start : carried h c !! StartTimeKey = None;
  fc_timeout : carried h c !! RequestTimeout = None;
  fc_plain : plain_map (sent_map ns carrier (call_map ns nuid now route (carried h c)));
  fc_now : (- 2 ^ 63 <= now < 2 ^ 63)%Z;
  fc_bound : (- 2 ^ 63 <= cc_RequestTimeout (cl_config ns) < 2 ^ 63)%Z;
  fc_in_time : (time_sub arrival now <= half (cc_RequestTimeout (cl_config ns)))%Z;
  fc_semaphore : sempWeighted srv <> None
}.

(** A remote call reaches the handler of the server and its response comes
    back: a client that makes a call afresh on a usable context, to a server
    it is linked with and that takes the request within half of the timeout,
    has its request handled by the server's handler with the route and data
    of the call and with the caller's propagated values (and the route,
    request id, deadline and peer the client adds), and gets the handler's
    response, an error of the response being returned as an error with its
    code. *)
Lemma call_reaches_handler (ns : NatsRPCClient) (srv : NatsRPCServer) (handler : IHandler)
    (h hs : heap) (c : ctx) (route : Route.Route) (msg : Message.Message)
    (carrier : gmap string string) (nuid nuid' inbox : string) (now arrival done : Z) :
  fresh_call ns srv h c route msg carrier nuid now arrival ->
  let m := json_norm <$> sent_map ns carrier (call_map ns nuid now route (carried h c)) in
  exists b hs1 c' l,
    b <> [] /\ json_unmarshal b = Ok (Some m) /\ ctx_map c' = Some l /\
    map_at hs1 (Some l) = received_map nuid' (Route.String_ route) m /\
    forall hs2 res e, handler c' (arrived route msg inbox b) hs1 = (hs2, Ok (Some res, e)) ->
      (forall e, rs_Error res = Some e -> plain_error e) ->
      exists h', Call (C := link srv handler nuid' arrival inbox hs) ns nuid now done [] tt (Some c)
        route msg (Some (ns_server srv)) h = (h', Ok (tt, as_returned res)).
Proof.
  intros [Hok Hrun Hinj Htyp Hroute Hst Hto Hplain Hnow Hbound Hin Hsem].
  destruct (prepare_spec ns nuid now c route msg (ns_server srv) carrier h Hok Hrun Hinj Hroute Hplain)
    as (h' & c0 & l0 & b & data & Hj & Hreq & Hprep & _).
  destruct (json_roundtrip _ _ Hplain Hj) as [Hb Hu].
  assert (proto_type (Message.Typ msg) = MsgRequest) as Hpt by (by rewrite Htyp).
  rewrite Hpt in Hreq.
  set (m := sent_map ns carrier (call_map ns nuid now route (carried h c))) in *.
  destruct (serve_runs srv handler nuid' arrival false (arrived route msg inbox b) (json_norm <$> m)
    (FormatInt now) (Duration.duration_string (cc_RequestTimeout (cl_config ns))) now
    (cc_RequestTimeout (cl_config ns)) hs) as (hs1 & c' & l & Hl & Hm & Hserve).
  { done. }
  { done. }
  { rewrite lookup_fmap. unfold m. by rewrite sent_lookup, call_map_start. }
  { by apply ParseInt_FormatInt. }
  { rewrite lookup_fmap. unfold m. by rewrite sent_lookup, call_map_timeout. }
  { by apply Duration.duration_roundtrip. }
  { done. }
  exists b, hs1, c', l. split_and!; [done|done|done|done|]. intros hs2 res e Hh Hp.
  destruct (run_task_answer handler c' (arrived route msg inbox b) now
    (cc_RequestTimeout (cl_config ns)) arrival hs1 hs2 res e
    (mkMsg 0 (Route.String_ route) (Message.Data msg) inbox MsgRequest) Hin Hh eq_refl ltac:(done) Hp)
    as (p & Hrm & Hrun').
  rewrite Hto in Hprep. cbn [default] in Hprep. rewrite bool_decide_eq_true_2 in Hprep by done.
  exists h'. eapply call_through; [exact Hprep|done|exact Hreq|by rewrite Hserve, Hrun'|done].
Qed.

(** What the second call on a context sends: the map of the first with the
    new route. *)
Lemma sent_again ns carrier nuid nuid' now now' route route' m0 :
  m0 !! StartTimeKey = None -> m0 !! RequestTimeout = None -> m0 !! RequestIDKey = None -> nuid <> EmptyString ->
  let m1 := sent_map ns carrier (call_map ns nuid now route m0) in
  m1 !! StartTimeKey = Some (GStr (FormatInt now)) /\
  m1 !! RequestTimeout = Some (GStr (Duration.duration_string (cc_RequestTimeout (cl_config ns)))) /\
  m1 !! RequestIDKey = Some (GStr nuid) /\
  sent_map ns carrier (call_map ns nuid' now' route' m1) = <[RouteKey := GStr (Route.String_ route')]> m1.
Proof.
  intros Hst Hto Hid Hne m1.
  assert (m1 !! StartTimeKey = Some (GStr (FormatInt now))) as H1
    by (unfold m1; by rewrite sent_lookup, call_map_start).
  assert (m1 !! RequestTimeout = Some (GStr (Duration.duration_string (cc_RequestTimeout (cl_config ns))))) as H2
    by (unfold m1; by rewrite sent_lookup, call_map_timeout).
  assert (m1 !! RequestIDKey = Some (GStr nuid)) as H3.
  { unfold m1. rewrite sent_lookup by done. unfold call_map.
    rewrite !with_default_ne by done. unfold with_request_id. rewrite Hid. cbn [default].
    by rewrite lookup_insert_eq. }
  split_and!; [done..|].
  assert (call_map ns nuid' now' route' m1 = <[RouteKey := GStr (Route.String_ route')]> m1) as ->.
  { unfold call_map, with_default, with_request_id. rewrite H1, H2, H3. cbn [default from_option id].
    by rewrite !bool_decide_eq_false_2. }
  apply map_eq. intros k. unfold m1, sent_map.
  destruct (decide (k = PeerServiceKey)) as [->|]; [by rewrite lookup_insert_eq, lookup_insert_ne, lookup_insert_eq|].
  rewrite lookup_insert_ne by done.
  destruct (decide (k = PeerIDKey)) as [->|];
    [by rewrite lookup_insert_eq, 2!lookup_insert_ne, lookup_insert_eq|].
  rewrite lookup_insert_ne by done.
  destruct (decide (k = SpanPropagateCtxKey)) as [->|]; [|by rewrite lookup_insert_ne].
  by rewrite lookup_insert_eq, 3!lookup_insert_ne, lookup_insert_eq.
Qed.

(** C35: the deadline and the id of a call belong to the context, not to the
    call. After a first call on a context that carries a map, whatever came
    of it, a later call on the same context, to any route, is sent with the
    start time and the request id of the first one; so when the server takes
    it after half of the timeout has passed since the first call was made,
    the caller gets the error of a timed-out request and the handler is not
    called, however short ago the second call was made. *)
Theorem second_call_keeps_deadline (C0 : Conn) (ns : NatsRPCClient) (srv : NatsRPCServer) (handler : IHandler)
    (h h1 hs : heap) (c : ctx) (l : loc) (route route' : Route.Route) (msg msg' : Message.Message)
    (carrier : gmap string string) (nuid nuid1 nuid' inbox : string) (now now' arrival done done' : Z)
    (r : result (unit * result Response)) :
  fresh_call ns srv h c route msg carrier nuid now now ->
  ctx_map c = Some l -> carried h c !! RequestIDKey = None -> nuid <> EmptyString ->
  Call (C := C0) ns nuid now done [] tt (Some c) route msg (Some (ns_server srv)) h = (h1, r) ->
  Utf8.valid_string (Route.String_ route') = true -> Message.Typ msg' = Message.Request ->
  (half (cc_RequestTimeout (cl_config ns)) < time_sub arrival now)%Z ->
  (exists h2 c2 t data b m', prepare ns nuid' now' (Some c) route' msg' (Some (ns_server srv)) h1 =
       (h2, Ok (c2, ns_server srv, t, data)) /\
     (req ← req_unmarshal data; Ok (rq_Metadata req)) = Ok b /\ json_unmarshal b = Ok (Some m') /\
     m' !! StartTimeKey = Some (GStr (FormatInt now)) /\ m' !! RequestIDKey = Some (GStr nuid)) /\
  exists h2 e, Call (C := link srv handler nuid1 arrival inbox hs) ns nuid' now' done' [] tt (Some c)
      route' msg' (Some (ns_server srv)) h1 = (h2, Ok (tt, Err (ENrpc (Some e)))) /\
    Code e = ErrRequestTimeoutCode /\ Errors.Message e = "rpc server process timeout".
Proof.
  intros [Hok Hrun Hinj Htyp Hroute Hst Hto Hplain Hnow Hbound _ Hsem] Hl Hid Hne Hcall Hroute' Htyp' Hlate.
  destruct (prepare_spec ns nuid now c route msg (ns_server srv) carrier h Hok Hrun Hinj Hroute Hplain)
    as (h' & c0 & l0 & b0 & data0 & _ & _ & Hprep & _ & Hm & Hsame).
  pose proof (Call_heap _ _ _ _ _ _ _ _ _ _ _ _ _ Hprep Hcall) as ->. specialize (Hsame l Hl). subst l0.
  assert (carried h' c = sent_map ns carrier (call_map ns nuid now route (carried h c))) as Hcar
    by (unfold carried at 1; by rewrite Hl).
  destruct (sent_again ns carrier nuid nuid' now now' route route' (carried h c) Hst Hto Hid Hne)
    as (H1 & H2 & H3 & Hsent). rewrite <-Hcar in *.
  assert (plain_map (<[RouteKey := GStr (Route.String_ route')]> (carried h' c))) as Hplain'
    by (apply map_Forall_insert_2; [by split|exact Hplain]).
  destruct (prepare_spec ns nuid' now' c route' msg' (ns_server srv) carrier h' Hok Hrun Hinj Hroute'
    ltac:(by rewrite Hsent)) as (h2 & c2 & l2 & b & data & Hj & Hreq & Hprep' & _).
  rewrite Hsent in Hj. rewrite Htyp' in Hreq. cbn [proto_type] in Hreq. rewrite H2 in Hprep'.
  cbn [default from_option id] in Hprep'. rewrite bool_decide_eq_false_2 in Hprep' by done.
  destruct (json_roundtrip _ _ Hplain' Hj) as [Hb Hu].
  set (m' := json_norm <$> <[RouteKey := GStr (Route.String_ route')]> (carried h' c)) in *.
  assert (m' !! StartTimeKey = Some (GStr (FormatInt now))) as Hs' by (unfold m'; by rewrite lookup_fmap, lookup_insert_ne, H1).
  split.
  - do 6 eexists. split; [exact Hprep'|]. rewrite (req_roundtrip _ _ Hreq). split; [done|]. split; [exact Hu|].
    split; [done|]. unfold m'. by rewrite lookup_fmap, lookup_insert_ne, H3.
  - destruct (serve_runs srv handler nuid1 arrival false (arrived route' msg' inbox b) m' (FormatInt now)
      (Duration.duration_string (cc_RequestTimeout (cl_config ns))) now (cc_RequestTimeout (cl_config ns)) hs)
      as (hs1 & c' & l' & _ & _ & Hserve); [exact Hb|exact Hu|exact Hs'|by apply ParseInt_FormatInt| |
        by apply Duration.duration_roundtrip|exact Hsem|].
    { unfold m'. by rewrite lookup_fmap, lookup_insert_ne, H2. }
    destruct (run_task_late handler c' (arrived route' msg' inbox b) now (cc_RequestTimeout (cl_config ns)) arrival hs1
      (mkMsg 0 (Route.String_ route') (Message.Data msg') inbox MsgRequest) Hlate eq_refl ltac:(done)) as (p & Hrm & Hrt).
    pose proof (call_through ns srv handler h' h2 hs hs1 c c2 route' msg' nuid' nuid1 inbox now' arrival done' _ b data
      _ p Hprep' Htyp' Hreq ltac:(by rewrite Hserve, Hrt) Hrm) as Hc.
    unfold as_returned, norm_response in Hc. cbn in Hc. do 2 eexists. split; [exact Hc|]. by split.
Qed.

End EndToEnd.

(** ** Witnesses *)

(** A tracer that carries no span, as the default one. *)
Definition no_tracer : Tracer := {|
  start_span _ _ := 0%Z;
  tracer_extract _ := Err (ELib "opentracing.ErrSpanContextNotFound" "span not found");
  tracer_inject _ := Ok ∅
|}.

Definition ex_client : NatsRPCClient :=
  mkClient {| cc_Connect := "nats://localhost:4222"; cc_MaxReconnectionRetries := 15;
     cc_RequestTimeout := 5000; cc_ConnectionTimeout := 2000; cc_WebsocketCompression := false;
     cc_ReconnectJitter := 0; cc_ReconnectJitterTLS := 0; cc_ReconnectWait := 0;
     cc_PingInterval := 0; cc_MaxPingsOutstanding := 0 |} true Discovery.sv_game.
Definition ex_server : NatsRPCServer :=
  mkServer_ (nats_config 100) (Some 100%Z) Discovery.sv_chat true 0 false.
Definition ex_route : Route.Route := Route.NewRoute "chat" "room" "Join".
Definition ex_msg : Message.Message := Message.mkMessage Message.Request 0 "room.Join" [x2a] false false.
Definition ex_heap : heap := {[1%positive := {[ShareIDKey := GStr "u1"]}]}.
Definition ex_ctx : ctx := FromMap (Some 1%positive).
(** Answers with the data of the request. *)
Definition echo : IHandler := fun _ req h => (h, Ok (Some (mkResponse (GetData req) None), None)).

Lemma map_Forall_insert_2' {V} (Q : string -> V -> Prop) (m : gmap string V) k v :
  Q k v -> map_Forall Q m -> map_Forall Q (<[k := v]> m).
Proof. intros. by apply map_Forall_insert_2. Qed.

Lemma carried_fresh_call srv h c route msg arrival :
  ctx_ok c -> carried h c = {[ShareIDKey := GStr "u1"]} -> sempWeighted srv <> None ->
  Message.Typ msg = Message.Request -> Utf8.valid_string (Route.String_ route) = true ->
  (time_sub arrival 1000 <= 2500)%Z ->
  fresh_call (T := no_tracer) ex_client srv h c route msg ∅ "r1" 1000 arrival.
Proof.
  intros Hok Hcar Hsem Ht Hr Ha. split; try done; try lia; rewrite ?Hcar; try done.
  unfold sent_map, call_map, with_default, with_request_id.
  change (default GNil ({[ShareIDKey := GStr "u1"]} !! StartTimeKey)) with GNil.
  change (default GNil ({[ShareIDKey := GStr "u1"]} !! RequestTimeout)) with GNil.
  change (default GNil ({[ShareIDKey := GStr "u1"]} !! RequestIDKey)) with GNil.
  rewrite !bool_decide_eq_true_2 by done.
  repeat (apply map_Forall_insert_2'; [by split|]). apply map_Forall_empty.
Qed.

Lemma ex_fresh_call route msg arrival :
  Message.Typ msg = Message.Request -> Utf8.valid_string (Route.String_ route) = true ->
  (time_sub arrival 1000 <= 2500)%Z ->
  fresh_call (T := no_tracer) ex_client ex_server ex_heap ex_ctx route msg ∅
    "r1" 1000 arrival.
Proof. by apply carried_fresh_call. Qed.

(** The second call is made 8 seconds after the first, to another route, and
    taken at once; the first got no answer. *)
Definition no_answer : Conn := {| conn_Request _ _ _ := Err nats_ErrTimeout; conn_Publish _ _ := Ok tt |}.
Definition second_route : Route.Route := Route.NewRoute "chat" "room" "Leave".

Lemma second_call_keeps_deadline_witness : exists h1 h2 e,
  Call (T := no_tracer) (C := link ex_server echo "r2" 9000 "inbox" ∅) ex_client "r9" 9000 9001 [] tt
    (Some ex_ctx) second_route ex_msg (Some Discovery.sv_chat) h1 = (h2, Ok (tt, Err (ENrpc (Some e)))) /\
  Code e = ErrRequestTimeoutCode.
Proof.
  destruct (Call (T := no_tracer) (C := no_answer) ex_client "r1" 1000 6000 [] tt (Some ex_ctx) ex_route ex_msg
    (Some Discovery.sv_chat) ex_heap) as [h1 r] eqn:E. exists h1.
  destruct (second_call_keeps_deadline (T := no_tracer) ltac:(done) no_answer ex_client ex_server echo
    ex_heap h1 ∅ ex_ctx 1%positive ex_route second_route ex_msg ex_msg ∅ "r1" "r2" "r9" "inbox" 1000 9000 9000 6000 9001 r
    (ex_fresh_call ex_route ex_msg 1000 eq_refl eq_refl ltac:(by vm_compute)) eq_refl eq_refl ltac:(done) E
    eq_refl eq_refl ltac:(by vm_compute)) as [_ (h2 & e & H & Hc & _)].
  exists h2, e. split; [exact H|exact Hc].
Defined.

End Calls.
