(* ===== verification/DieChan.v ===== *)
(** * The end of the application: the die channel between [app.go], the lease
    of [cluster/etcd_service_discovery.go] and the connections of
    [cluster/nats_rpc_common.go]

    The channel has no buffer. [Start] receives from it at its [select]; the
    goroutine of the lease sends on it and waits; the handler of a closed
    connection sends when somebody receives; [Shutdown] and the case of a
    signal close it. *)

From S2P Require Import Prelude Errors Nats NatsConn Discovery Lease.
Import NatsConn.

Module DieChan.

(** Where [Start] is: before its [select], at it, or past it. *)
Inductive phase := Starting | Waiting | Stopping.

#[export] Instance phase_eq_dec : EqDecision phase.
Proof. solve_decision. Defined.

(** The channel, with the number of goroutines blocked in a send on it. *)
Record world := mkWorld { at_ : phase; closed : bool; senders : nat }.

Definition created : world := mkWorld Starting false 0.

Inductive event :=
| ReachSelect
| LeaseEnds (how : Lease.lease_exit)
| ConnCloses (lastError : option error) (setup_waits : bool) (pick : nat)
| Signal
| CallShutdown.

(** What happened to the process. *)
Inductive fate := Lives (w : world) | Killed | Crashes (p : panic).

Definition send_on_closed : panic := PanicMessage "send on closed channel".

(** [Start] gets to its [select]: a closed channel or a blocked sender is
    taken at once. *)
Definition reach_select (w : world) : fate :=
  match at_ w with
  | Starting =>
      if closed w then Lives (mkWorld Stopping true (senders w))
      else match senders w with
           | S n => Lives (mkWorld Stopping false n)
           | O => Lives (mkWorld Waiting false 0)
           end
  | _ => Lives w
  end.

(** [appDieChan <- true] in [watchLeaseChan]. *)
Definition lease_send (w : world) : fate :=
  if closed w then Crashes send_on_closed
  else match at_ w with
       | Waiting => Lives (mkWorld Stopping false (senders w))
       | p => Lives (mkWorld p false (S (senders w)))
       end.

(** SIGTERM: its default action before [signal.Notify]; the case of the
    signal at the [select], which closes the channel; nobody reads it
    later. *)
Definition on_signal (w : world) : fate :=
  match at_ w with
  | Starting => Killed
  | Waiting => if closed w then Crashes CloseOfClosedChannel else Lives (mkWorld Stopping true (senders w))
  | Stopping => Lives w
  end.

(** How [ClosedHandler] finds the channel. *)
Definition seen (w : world) : die_chan :=
  if closed w then ClosedChan else if bool_decide (at_ w = Waiting) then Receiving else NoReceiver.

Definition conn_closes (lastError : option error) (setup_waits : bool) (pick : nat) (w : world) : fate :=
  match ClosedHandler lastError (seen w) setup_waits (Ok tt) (Ok tt) pick with
  | Panics p => Crashes p
  | Ok SentDie => Lives (mkWorld Stopping (closed w) (senders w))
  | Ok SentSIGTERM => on_signal w
  | Ok Exited => Killed
  | Ok _ | Err _ => Lives w
  end.

(** [Shutdown]: it closes the channel unless it can receive from it. *)
Definition call_shutdown (w : world) : fate :=
  if closed w then Lives w
  else match senders w with
       | S n => Lives (mkWorld (at_ w) false n)
       | O => Lives (mkWorld (match at_ w with Waiting => Stopping | p => p end) true 0)
       end.

Definition step (w : world) (e : event) : fate :=
  match e with
  | ReachSelect => reach_select w
  | LeaseEnds Lease.AppDies => lease_send w
  | LeaseEnds _ => Lives w
  | ConnCloses lastError setup_waits pick => conn_closes lastError setup_waits pick w
  | Signal => on_signal w
  | CallShutdown => call_shutdown w
  end.

Fixpoint run (w : world) (es : list event) : fate :=
  match es with
  | [] => Lives w
  | e :: es => match step w e with Lives w => run w es | f => f end
  end.

(** ** Properties *)

(** At the [select] the channel is open and nobody is blocked on it. *)
Definition ok (w : world) : Prop := at_ w = Waiting -> closed w = false /\ senders w = 0%nat.

Lemma step_ok w e w' : ok w -> step w e = Lives w' -> ok w'.
Proof.
  unfold ok. destruct w as [p c n]. intros Hok. destruct e as [|[]|err sw k| |]; cbn [step].
  - unfold reach_select. cbn. destruct p, c, n; intros [= <-]; cbn in *; naive_solver.
  - by intros [= <-].
  - by intros [= <-].
  - unfold lease_send. cbn. destruct c; [done|]. destruct p; intros [= <-]; cbn in *; naive_solver.
  - unfold conn_closes, on_signal, seen. cbn. intros H.
    repeat case_match; simplify_eq; cbn in *; naive_solver.
  - unfold on_signal. cbn. destruct p, c; intros H; simplify_eq; cbn in *; naive_solver.
  - unfold call_shutdown. cbn. destruct c; [by intros [= <-]|].
    destruct n, p; intros [= <-]; cbn in *; naive_solver.
Qed.

Lemma run_ok w es w' : ok w -> run w es = Lives w' -> ok w'.
Proof.
  revert w. induction es as [|e es IH]; intros w Hok; cbn; [by intros [= <-]|].
  destruct (step w e) as [w1| |p] eqn:E; [|done..]. apply IH. by eapply step_ok.
Qed.

(** While [Start] waits, each of the four reasons to end ends the wait: a
    lease that cannot be renewed, a connection closed with an error, a signal
    and [Shutdown]; the last two leave the channel closed, the first two
    leave it open. *)
Theorem every_reason_ends (es : list event) (w : world) (err : error) (pick : nat) :
  run created es = Lives w -> at_ w = Waiting ->
  step w (LeaseEnds Lease.AppDies) = Lives (mkWorld Stopping false 0) /\
  step w (ConnCloses (Some err) false pick) = Lives (mkWorld Stopping false 0) /\
  step w Signal = Lives (mkWorld Stopping true 0) /\
  step w CallShutdown = Lives (mkWorld Stopping true 0).
Proof.
  intros H Ha. destruct (run_ok created es w) as [Hc Hs]; [by intros ?|done|done|].
  destruct w as [p c n]. cbn in *. subst. split_and!; [done| |done|done].
  cbn [step]. unfold conn_closes. by rewrite (ClosedHandler_single err _ _ _ _ (Ok SentDie)).
Qed.

(** A request to end can be lost: a lease that ends while the application
    is still starting is blocked in its send, [Shutdown] then receives it
    instead of closing the channel, and [Start] goes on to wait with nothing
    to wake it. *)
Theorem shutdown_swallows (es : list event) (w : world) :
  run created es = Lives w -> at_ w = Starting -> closed w = false -> senders w = 1%nat ->
  run w [CallShutdown; ReachSelect] = Lives (mkWorld Waiting false 0).
Proof. intros _. destruct w as [p c n]. cbn. by intros -> -> ->. Qed.

Lemma shutdown_swallows_witness :
  run (mkWorld Starting false 1) [CallShutdown; ReachSelect] = Lives (mkWorld Waiting false 0).
Proof. by apply (shutdown_swallows [LeaseEnds Lease.AppDies]). Defined.

(** Once the channel is closed, by a signal or by [Shutdown], the other
    senders crash the process that is shutting down: a lease that cannot be
    renewed and a connection that closes with an error (with nobody setting
    it up) panic in their send. *)
Theorem late_senders_crash (es : list event) (w : world) (err : error) (pick : nat) :
  run created es = Lives w -> closed w = true ->
  step w (LeaseEnds Lease.AppDies) = Crashes send_on_closed /\
  step w (ConnCloses (Some err) false pick) = Crashes send_on_closed /\
  step w (ConnCloses None false pick) = Lives w.
Proof.
  intros _ Hc. cbn [step]. unfold lease_send, conn_closes, seen. rewrite Hc.
  split_and!; [done| |done]. by rewrite (ClosedHandler_single err _ _ _ _ (Panics send_on_closed)).
Qed.

(** As long as the channel is open nothing crashes. *)
Lemma open_never_crashes w e p : closed w = false -> step w e <> Crashes p.
Proof.
  intros Hc. destruct w as [ph c n]. cbn in Hc. subst. destruct e as [|[]|[err|] sw k| |]; cbn [step].
  - unfold reach_select. cbn. by destruct ph, n.
  - done.
  - done.
  - unfold lease_send. cbn. by destruct ph.
  - unfold conn_closes, on_signal.
    destruct (ClosedHandler _ _ _ _ _ _) as [[]|e|p'] eqn:E; try by destruct ph.
    apply ClosedHandler_panics in E. unfold seen in E. cbn in E. by destruct ph.
  - done.
  - unfold on_signal. cbn. by destruct ph.
  - unfold call_shutdown. cbn. by destruct n, ph.
Qed.

Lemma every_reason_ends_witness :
  run created [ReachSelect] = Lives (mkWorld Waiting false 0) /\
  step (mkWorld Waiting false 0) Signal = Lives (mkWorld Stopping true 0).
Proof.
  split; [reflexivity|].
  apply (every_reason_ends [ReachSelect] (mkWorld Waiting false 0) (EText "closed") 0); reflexivity.
Defined.

Lemma late_senders_crash_witness :
  run created [ReachSelect; Signal] = Lives (mkWorld Stopping true 0) /\
  step (mkWorld Stopping true 0) (LeaseEnds Lease.AppDies) = Crashes send_on_closed.
Proof.
  split; [reflexivity|].
  apply (late_senders_crash [ReachSelect; Signal] (mkWorld Stopping true 0) (EText "closed") 0); reflexivity.
Defined.

End DieChan.
