(* ===== verification/Config.v ===== *)
(** * Configuration: [config/config.go]

    The configuration records and their defaults. Durations are
    nanoseconds. *)

From S2P Require Import Prelude Metrics Discovery Nats.
From Stdlib Require Import QArith.
Close Scope Q_scope.
Local Open Scope Z_scope.
Import Metrics Discovery Nats.

Module Config.

Definition Millisecond : Z := 1000000.
Definition Second : Z := 1000 * Millisecond.
Definition Minute : Z := 60 * Second.
Definition Hour : Z := 60 * Minute.
Definition DefaultWriteTimeout : Z := 10 * Second.

(** ** NATS *)

Definition newDefaultNatsRPCClientConfig : NatsRPCClientConfig := {|
  cc_Connect := "nats://localhost:4222";
  cc_MaxReconnectionRetries := 15;
  cc_RequestTimeout := 5 * Second;
  cc_ConnectionTimeout := 2 * Second;
  cc_WebsocketCompression := true;
  cc_ReconnectJitter := 100 * Millisecond;
  cc_ReconnectJitterTLS := 1 * Second;
  cc_ReconnectWait := Second;
  cc_PingInterval := 2 * Minute;
  cc_MaxPingsOutstanding := 3
|}.

Definition newDefaultNatsRPCServerConfig : NatsRPCServerConfig := {|
  sc_Connect := "nats://localhost:4222";
  sc_MaxReconnectionRetries := 15;
  sc_Messages := 75;
  sc_Services := 30;
  sc_Semaphore := 256;
  sc_ConnectionTimeout := 2 * Second;
  sc_WebsocketCompression := true;
  sc_ReconnectJitter := 100 * Millisecond;
  sc_ReconnectJitterTLS := 1 * Second;
  sc_ReconnectWait := Second;
  sc_PingInterval := 2 * Minute;
  sc_MaxPingsOutstanding := 3
|}.

(** ** Service discovery *)

Record InfoRetrieverConfig := mkInfoRetriever { Info_Region : string }.
Definition newDefaultInfoRetrieverConfig : InfoRetrieverConfig := mkInfoRetriever EmptyString.

Definition newDefaultEtcdServiceDiscoveryConfig : EtcdServiceDiscoveryConfig := {|
  Endpoints := ["localhost:2379"];
  User := EmptyString;
  Pass := EmptyString;
  DialTimeout := 5 * Second;
  Prefix := "nrpc/";
  Heartbeat_TTL := 60 * Second;
  Heartbeat_Log := false;
  SyncServers_Interval := 120 * Second;
  SyncServers_Parallelism := 10;
  Revoke_Timeout := 5 * Second;
  GrantLease_Timeout := 60 * Second;
  GrantLease_MaxRetries := 15;
  GrantLease_RetryInterval := 5 * Second;
  Shutdown_Delay := 300 * Millisecond;
  ServerTypesBlacklist := []
|}.

Record ClusterRPCConfig := mkClusterRPC {
  RPC_Client_Nats : NatsRPCClientConfig;
  RPC_Server_Nats : NatsRPCServerConfig
}.
Definition newDefaultClusterRPCConfig : ClusterRPCConfig :=
  mkClusterRPC newDefaultNatsRPCClientConfig newDefaultNatsRPCServerConfig.

Record ClusterSDConfig := mkClusterSD { SD_Etcd : EtcdServiceDiscoveryConfig }.
Definition newDefaultClusterSDConfig : ClusterSDConfig := mkClusterSD newDefaultEtcdServiceDiscoveryConfig.

Record ClusterConfig := mkCluster {
  Info : InfoRetrieverConfig;
  RPC : ClusterRPCConfig;
  SD : ClusterSDConfig
}.
Definition newDefaultClusterConfig : ClusterConfig :=
  mkCluster newDefaultInfoRetrieverConfig newDefaultClusterRPCConfig newDefaultClusterSDConfig.

(** ** Metrics *)

Record PrometheusConfig := mkPrometheus { Prometheus_Port : Z; Prometheus_Enabled : bool }.
Definition newDefaultPrometheusConfig : PrometheusConfig := mkPrometheus 9090 false.

Record StatsdConfig := mkStatsdConfig {
  Statsd_Enabled : bool;
  Statsd_Host : string;
  Statsd_Prefix : string;
  Statsd_Rate : Q
}.
Definition newDefaultStatsdConfig : StatsdConfig := mkStatsdConfig false "localhost:9125" "nrpc." (inject_Z 1).

Definition NewDefaultCustomMetricsSpec : CustomMetricsSpec :=
  {| Summaries := []; Histograms := []; Gauges := []; Counters := [] |}.

Record MetricsConfig := mkMetrics {
  Metrics_App : string;
  Metrics_Period : Z;
  AdditionalLabels : labels;
  ConstLabels : labels;
  Custom : CustomMetricsSpec;
  Prometheus : PrometheusConfig;
  Statsd : StatsdConfig
}.
Definition newDefaultMetricsConfig : MetricsConfig :=
  mkMetrics EmptyString (15 * Second) ∅ ∅ NewDefaultCustomMetricsSpec newDefaultPrometheusConfig
    newDefaultStatsdConfig.

(** ** Worker, groups, modules, rate limiting *)

Record EnqueueOpts := mkEnqueue {
  eo_Enabled : bool; eo_Max : Z; eo_Exponential : Z; eo_MinDelay : Z; eo_MaxDelay : Z; eo_MaxRandom : Z
}.
Definition newDefaultEnqueueOpts : EnqueueOpts := mkEnqueue true 2 5 10 10 0.

Record WorkerConfig := mkWorker {
  Redis_ServerURL : string;
  Redis_Pool : string;
  Redis_Password : string;
  Worker_Namespace : string;
  Worker_Concurrency : Z;
  Worker_Retry : EnqueueOpts
}.
Definition newDefaultWorkerConfig : WorkerConfig :=
  mkWorker "localhost:6379" "10" EmptyString EmptyString 1 newDefaultEnqueueOpts.

Record MemoryGroupConfig := mkMemoryGroup { Memory_TickDuration : Z }.
Definition newDefaultMemoryGroupConfig : MemoryGroupConfig := mkMemoryGroup (30 * Second).

Record EtcdGroupServiceConfig := mkEtcdGroup {
  eg_DialTimeout : Z; eg_Endpoints : list string; eg_Prefix : string; eg_TransactionTimeout : Z
}.
Definition newDefaultEtcdGroupServiceConfig : EtcdGroupServiceConfig :=
  mkEtcdGroup (5 * Second) ["localhost:2379"] "nrpc/" (5 * Second).

Record GroupsConfig := mkGroups { Groups_Etcd : EtcdGroupServiceConfig; Groups_Memory : MemoryGroupConfig }.
Definition newDefaultGroupsConfig : GroupsConfig :=
  mkGroups newDefaultEtcdGroupServiceConfig newDefaultMemoryGroupConfig.

Record ETCDBindingConfig := mkBinding {
  eb_DialTimeout : Z; eb_Endpoints : list string; eb_Prefix : string; eb_LeaseTTL : Z
}.
Definition newDefaultETCDBindingConfig : ETCDBindingConfig :=
  mkBinding (5 * Second) ["localhost:2379"] "nrpc/" (5 * Hour).

Record ModulesConfig := mkModules { BindingStorage_Etcd : ETCDBindingConfig }.
Definition newDefaultModulesConfig : ModulesConfig := mkModules newDefaultETCDBindingConfig.

Record RateLimitingConfig := mkRateLimiting { rl_Limit : Z; rl_Interval : Z; rl_ForceDisable : bool }.
Definition newDefaultRateLimitingConfig : RateLimitingConfig := mkRateLimiting 20 Second false.

(** ** The configuration of an application *)

Record Config := mkConfig {
  ServerID : Z;
  SerializerType : Z;
  StructValidation_Enabled : bool;
  Modules : ModulesConfig;
  Heartbeat_Interval : Z;
  Handler_Messages_Compression : bool;
  PoolSize : Z;
  QueueSize : Z;
  ClearInterval : Z;
  ClearTimePass : Z;
  Conn_RateLimiting : RateLimitingConfig;
  MetricsC : MetricsConfig;
  Cluster : ClusterConfig;
  Groups : GroupsConfig;
  Worker : WorkerConfig
}.

Definition NewDefaultConfig : Config := {|
  ServerID := 0;
  SerializerType := 1;
  StructValidation_Enabled := false;
  Heartbeat_Interval := 30 * Second;
  Handler_Messages_Compression := true;
  PoolSize := 128;
  QueueSize := 256;
  ClearInterval := 30 * Second;
  ClearTimePass := 300 * Second;
  MetricsC := newDefaultMetricsConfig;
  Cluster := newDefaultClusterConfig;
  Groups := newDefaultGroupsConfig;
  Worker := newDefaultWorkerConfig;
  Modules := newDefaultModulesConfig;
  Conn_RateLimiting := newDefaultRateLimitingConfig
|}.

End Config.
