(* ===== verification/Viper.v ===== *)
(** * Reading the configuration: [config/viper_config.go] and the constructors
    of [config/config.go] that read from it

    The viper library and mapstructure are parameters: a store with its
    documented precedence, and the decoding of a value into a record. The Go
    map of defaults is ranged over in an arbitrary order. *)

From S2P Require Import Prelude Utf8 Errors Metrics Discovery Nats Config.
From Stdlib Require Import QArith.
Close Scope Q_scope.
Local Open Scope Z_scope.
Import Metrics Discovery Nats.Nats Config.

Module Viper.

(** ** Values *)

(** The dynamic values of the configuration; [VMap] is a
    [map[string]interface{}]. *)
Inductive cval :=
| VStr (s : string)
| VInt (z : Z)
| VBool (b : bool)
| VRate (q : Q)
| VStrs (l : list string)
| VLabels (m : gmap string string)
| VSpec (spec : CustomMetricsSpec)
| VMap (l : list (string * cval)).

Fixpoint assoc {A} (k : string) (l : list (string * A)) : option A :=
  match l with
  | [] => None
  | (k', v) :: l => if decide (k' = k) then Some v else assoc k l
  end.

(** [strings.Split(key, ".")]. *)
Definition dot : Ascii.ascii := Ascii.ascii_of_nat 46.
Definition path (key : string) : list string := str_split dot key.

(** Keys neither of which leads to the other, whatever the case of their
    letters; only keys of plain ASCII are compared. *)
Definition lower_code (a : Z) : Z := if (65 <=? a) && (a <=? 90) then a + 32 else a.
Definition lower_ascii (s : string) : string := Utf8.string_of (lower_code <$> Utf8.codes s).
Definition is_ascii (s : string) : bool := forallb (fun c => c <? 128) (Utf8.codes s).
Fixpoint path_prefix (p q : list string) : bool :=
  match p, q with
  | [], _ => true
  | a :: p, b :: q => bool_decide (a = b) && path_prefix p q
  | _ :: _, [] => false
  end.
Definition apart (k k' : string) : bool :=
  is_ascii k && is_ascii k' &&
  negb (path_prefix (path (lower_ascii k)) (path (lower_ascii k'))) &&
  negb (path_prefix (path (lower_ascii k')) (path (lower_ascii k))).

(** ** The library *)

(** Viper lower-cases the keys of the maps it is given and reads. *)
Fixpoint canon (lower : string -> string) (v : cval) : cval :=
  match v with
  | VMap l => VMap ((fix go l := match l with [] => [] | (k, v) :: l => (lower k, canon lower v) :: go l end) l)
  | v => v
  end.

(** [Get] ([None] is nil), [Set], [SetDefault], [AllKeys], [New], and the
    call of [SetEnvKeyReplacer] and [AutomaticEnv]; how keys are lower-cased;
    whether a key is shadowed: a shorter path of it has a value that is no
    map among what was set, in the environment or in the file. *)
Class Viper (V : Type) := {
  v_New : V;
  v_AutomaticEnv : V -> V;
  v_Get : V -> string -> option cval;
  v_Set : V -> string -> cval -> V;
  v_SetDefault : V -> string -> cval -> V;
  v_AllKeys : V -> list string;
  v_lower : string -> string;
  v_shadowed : V -> string -> bool
}.
Definition canonical `{Viper V} (x : cval) : Prop := canon v_lower x = x.

(** A value that was set is found again, if its maps have lower-case keys
    already, as all values have that are found. A default counts for a key
    that has no value, unless the key is shadowed. Setting a key that has a
    value, and a default for any key, leave the keys apart from it alone. *)
Class ViperLaws (V : Type) {VV : Viper V} := {
  get_canonical v k x : v_Get v k = Some x -> canonical x;
  set_get v k x : canonical x -> v_Get (v_Set v k x) k = Some x;
  set_other v k k' x : apart k k' = true -> v_Get v k <> None -> v_Get (v_Set v k x) k' = v_Get v k';
  set_shadowed v k k' x : apart k k' = true -> v_Get v k <> None -> v_shadowed (v_Set v k x) k' = v_shadowed v k';
  default_get v k x : canonical x -> v_Get v k = None ->
    v_Get (v_SetDefault v k x) k = if v_shadowed v k then None else Some x;
  default_same v k x : v_Get v k = Some x -> v_Get (v_SetDefault v k x) k = Some x;
  default_other v k k' x : apart k k' = true -> v_Get (v_SetDefault v k x) k' = v_Get v k';
  default_shadowed v k k' x : v_shadowed (v_SetDefault v k x) k' = v_shadowed v k'
}.

(** ** [fillDefaultValues] *)

Definition defaultsMap : list (string * cval) :=
  let d := NewDefaultConfig in
  let cl := RPC_Client_Nats (RPC (Cluster d)) in
  let sv := RPC_Server_Nats (RPC (Cluster d)) in
  let sd := SD_Etcd (SD (Cluster d)) in
  let me := MetricsC d in
  let bs := BindingStorage_Etcd (Modules d) in
  let re := Worker_Retry (Worker d) in
  [("nrpc.serializertype", VInt (SerializerType d));
   ("nrpc.cluster.info.region", VStr (Info_Region (Info (Cluster d))));
   ("nrpc.cluster.rpc.client.nats.connect", VStr (cc_Connect cl));
   ("nrpc.cluster.rpc.client.nats.connectiontimeout", VInt (cc_ConnectionTimeout cl));
   ("nrpc.cluster.rpc.client.nats.maxreconnectionretries", VInt (cc_MaxReconnectionRetries cl));
   ("nrpc.cluster.rpc.client.nats.websocketcompression", VBool (cc_WebsocketCompression cl));
   ("nrpc.cluster.rpc.client.nats.reconnectjitter", VInt (cc_ReconnectJitter cl));
   ("nrpc.cluster.rpc.client.nats.reconnectjittertls", VInt (cc_ReconnectJitterTLS cl));
   ("nrpc.cluster.rpc.client.nats.reconnectwait", VInt (cc_ReconnectWait cl));
   ("nrpc.cluster.rpc.client.nats.pinginterval", VInt (cc_PingInterval cl));
   ("nrpc.cluster.rpc.client.nats.maxpingsoutstanding", VInt (cc_MaxPingsOutstanding cl));
   ("nrpc.cluster.rpc.client.nats.requesttimeout", VInt (cc_RequestTimeout cl));
   ("nrpc.cluster.rpc.server.nats.connect", VStr (sc_Connect sv));
   ("nrpc.cluster.rpc.server.nats.connectiontimeout", VInt (sc_ConnectionTimeout sv));
   ("nrpc.cluster.rpc.server.nats.maxreconnectionretries", VInt (sc_MaxReconnectionRetries sv));
   ("nrpc.cluster.rpc.server.nats.websocketcompression", VBool (sc_WebsocketCompression sv));
   ("nrpc.cluster.rpc.server.nats.reconnectjitter", VInt (sc_ReconnectJitter sv));
   ("nrpc.cluster.rpc.server.nats.reconnectjittertls", VInt (sc_ReconnectJitterTLS sv));
   ("nrpc.cluster.rpc.server.nats.reconnectwait", VInt (sc_ReconnectWait sv));
   ("nrpc.cluster.rpc.server.nats.pinginterval", VInt (sc_PingInterval sv));
   ("nrpc.cluster.rpc.server.nats.maxpingsoutstanding", VInt (sc_MaxPingsOutstanding sv));
   ("nrpc.cluster.rpc.server.nats.services", VInt (sc_Services sv));
   ("nrpc.cluster.rpc.server.nats.buffer.messages", VInt (sc_Messages sv));
   ("nrpc.cluster.sd.etcd.dialtimeout", VInt (DialTimeout sd));
   ("nrpc.cluster.sd.etcd.endpoints", VStrs (Endpoints sd));
   ("nrpc.cluster.sd.etcd.prefix", VStr (Prefix sd));
   ("nrpc.cluster.sd.etcd.grantlease.maxretries", VInt (GrantLease_MaxRetries sd));
   ("nrpc.cluster.sd.etcd.grantlease.retryinterval", VInt (GrantLease_RetryInterval sd));
   ("nrpc.cluster.sd.etcd.grantlease.timeout", VInt (GrantLease_Timeout sd));
   ("nrpc.cluster.sd.etcd.heartbeat.log", VBool (Heartbeat_Log sd));
   ("nrpc.cluster.sd.etcd.heartbeat.ttl", VInt (Heartbeat_TTL sd));
   ("nrpc.cluster.sd.etcd.revoke.timeout", VInt (Revoke_Timeout sd));
   ("nrpc.cluster.sd.etcd.syncservers.interval", VInt (SyncServers_Interval sd));
   ("nrpc.cluster.sd.etcd.syncservers.parallelism", VInt (SyncServers_Parallelism sd));
   ("nrpc.cluster.sd.etcd.shutdown.delay", VInt (Shutdown_Delay sd));
   ("nrpc.cluster.sd.etcd.servertypeblacklist", VStrs (ServerTypesBlacklist sd));
   ("nrpc.defaultpipelines.structvalidation.enabled", VBool (StructValidation_Enabled d));
   ("nrpc.groups.etcd.dialtimeout", VInt (eg_DialTimeout (Groups_Etcd (Groups d))));
   ("nrpc.groups.etcd.endpoints", VStrs (eg_Endpoints (Groups_Etcd (Groups d))));
   ("nrpc.groups.etcd.prefix", VStr (eg_Prefix (Groups_Etcd (Groups d))));
   ("nrpc.groups.etcd.transactiontimeout", VInt (eg_TransactionTimeout (Groups_Etcd (Groups d))));
   ("nrpc.groups.memory.tickduration", VInt (Memory_TickDuration (Groups_Memory (Groups d))));
   ("nrpc.handler.messages.compression", VBool (Handler_Messages_Compression d));
   ("nrpc.heartbeat.interval", VInt (Heartbeat_Interval d));
   ("nrpc.metrics.additionalLabels", VLabels (AdditionalLabels me));
   ("nrpc.metrics.constLabels", VLabels (ConstLabels me));
   ("nrpc.metrics.custom", VSpec (Custom me));
   ("nrpc.metrics.period", VInt (Metrics_Period me));
   ("nrpc.metrics.prometheus.enabled", VBool (Prometheus_Enabled (Prometheus me)));
   ("nrpc.metrics.prometheus.port", VInt (Prometheus_Port (Prometheus me)));
   ("nrpc.metrics.statsd.enabled", VBool (Statsd_Enabled (Statsd me)));
   ("nrpc.metrics.statsd.host", VStr (Statsd_Host (Statsd me)));
   ("nrpc.metrics.statsd.prefix", VStr (Statsd_Prefix (Statsd me)));
   ("nrpc.metrics.statsd.rate", VRate (Statsd_Rate (Statsd me)));
   ("nrpc.modules.bindingstorage.etcd.dialtimeout", VInt (eb_DialTimeout bs));
   ("nrpc.modules.bindingstorage.etcd.endpoints", VStrs (eb_Endpoints bs));
   ("nrpc.modules.bindingstorage.etcd.leasettl", VInt (eb_LeaseTTL bs));
   ("nrpc.modules.bindingstorage.etcd.prefix", VStr (eb_Prefix bs));
   ("nrpc.conn.ratelimiting.limit", VInt (rl_Limit (Conn_RateLimiting d)));
   ("nrpc.conn.ratelimiting.interval", VInt (rl_Interval (Conn_RateLimiting d)));
   ("nrpc.conn.ratelimiting.forcedisable", VBool (rl_ForceDisable (Conn_RateLimiting d)));
   ("nrpc.worker.concurrency", VInt (Worker_Concurrency (Worker d)));
   ("nrpc.worker.redis.pool", VStr (Redis_Pool (Worker d)));
   ("nrpc.worker.redis.url", VStr (Redis_ServerURL (Worker d)));
   ("nrpc.worker.retry.enabled", VBool (eo_Enabled re));
   ("nrpc.worker.retry.exponential", VInt (eo_Exponential re));
   ("nrpc.worker.retry.max", VInt (eo_Max re));
   ("nrpc.worker.retry.maxDelay", VInt (eo_MaxDelay re));
   ("nrpc.worker.retry.maxRandom", VInt (eo_MaxRandom re));
   ("nrpc.worker.retry.minDelay", VInt (eo_MinDelay re))].

Section Viper.
Context {V : Type} {VV : Viper V}.

(** The body of the loop. *)
Definition fill_param (c : V) (pd : string * cval) : V :=
  match v_Get c pd.1 with
  | None => v_SetDefault c pd.1 pd.2
  | Some val => v_Set (v_SetDefault c pd.1 val) pd.1 val
  end.
Definition fillDefaultValues (order : list (string * cval)) (c : V) : V := foldl fill_param c order.

Definition NewViperConfig (order : list (string * cval)) (cfgs : list V) : V :=
  let cfg := match cfgs with cfg :: _ => cfg | [] => v_New end in
  fillDefaultValues order (v_AutomaticEnv cfg).

(** ** [UnmarshalKey] *)

Definition HasPrefix (s p : string) : bool := String.prefix p s.
Definition TrimPrefix (s p : string) : string :=
  if HasPrefix s p then String.substring (String.length p) (String.length s - String.length p) s else s.

(** The name under [prefix] that the key [k] goes through. *)
Definition first_name (prefix k : string) : string :=
  default EmptyString (head (path (TrimPrefix k prefix))).

Definition merge_key (c : V) (key : string) (val : list (string * cval)) (k : string)
  : list (string * cval) :=
  let prefix := key +:+ "." in
  if negb (HasPrefix k prefix) then val
  else
    let mk := first_name prefix k in
    match assoc mk val with
    | Some _ => val
    | None =>
        match v_Get c (prefix +:+ mk) with
        | None => val
        | Some mv => val ++ [(mk, mv)]
        end
    end.

(** What is decoded: nothing when the key has no value, the map with the
    missing names of [AllKeys] added, or the value itself. *)
Definition unmarshal_input (lower : string -> string) (c : V) (key : string) : option cval :=
  let key := lower key in
  match v_Get c key with
  | None => None
  | Some (VMap val) => Some (VMap (foldl (merge_key c key) val (v_AllKeys c)))
  | Some i => Some i
  end.

(** [decode] is mapstructure's, into the record it is given. *)
Definition UnmarshalKey {R} (decode : cval -> R -> result R) (lower : string -> string) (c : V)
    (key : string) (rawVal : R) : result R :=
  match unmarshal_input lower c key with
  | None => Ok rawVal
  | Some i => decode i rawVal
  end.

(** ** Constructors of [config.go] *)

Definition panic_of {R} (r : result R) : result R :=
  match r with Err _ => Panics (PanicMessage "invalid configuration") | r => r end.
Definition NewConfig (decode : cval -> Config -> result Config) (lower : string -> string) (c : V)
  : result Config := panic_of (UnmarshalKey decode lower c "nrpc" NewDefaultConfig).
Definition NewCustomMetricsSpec (decode : cval -> CustomMetricsSpec -> result CustomMetricsSpec)
    (lower : string -> string) (c : V) : result CustomMetricsSpec :=
  match UnmarshalKey decode lower c "nrpc.metrics.custom" NewDefaultCustomMetricsSpec with
  | Err _ => Ok NewDefaultCustomMetricsSpec
  | r => r
  end.
Definition newEtcdGroupServiceConfig (decode : cval -> EtcdGroupServiceConfig -> result EtcdGroupServiceConfig)
    (lower : string -> string) (c : V) : result EtcdGroupServiceConfig :=
  panic_of (UnmarshalKey decode lower c "nrpc.groups.etcd" newDefaultEtcdGroupServiceConfig).

(** ** Defaults are filled in *)

Section Laws.
Context {VL : ViperLaws V}.

(** What a parameter is to have: the value it has, its default otherwise,
    unless it is shadowed. *)
Definition filled (c : V) (k : string) (d : cval) : option cval :=
  match v_Get c k with
  | Some x => Some x
  | None => if v_shadowed c k then None else Some d
  end.

Lemma fill_param_get c k d : canonical d -> v_Get (fill_param c (k, d)) k = filled c k d.
Proof.
  intros Hd. unfold fill_param, filled. cbn. destruct (v_Get c k) as [x|] eqn:E.
  - by eapply set_get, get_canonical.
  - by apply default_get.
Qed.

Lemma fill_param_other c k d k' : apart k k' = true ->
  v_Get (fill_param c (k, d)) k' = v_Get c k' /\ v_shadowed (fill_param c (k, d)) k' = v_shadowed c k'.
Proof.
  intros H. unfold fill_param. cbn. destruct (v_Get c k) as [x|] eqn:E.
  - assert (v_Get (v_SetDefault c k x) k <> None) as Hs by (by rewrite (default_same _ _ _ E)).
    by rewrite set_other, default_other, set_shadowed, default_shadowed.
  - by rewrite default_other, default_shadowed.
Qed.

Definition all_apart (l : list (string * cval)) (k : string) : Prop :=
  Forall (fun pd => apart pd.1 k = true) l.

Lemma fill_other l c k : all_apart l k -> v_Get (fillDefaultValues l c) k = v_Get c k.
Proof.
  unfold fillDefaultValues. intros H. revert c. induction H as [|[k' d] l Hk _ IH]; intros c; [done|].
  cbn [foldl]. rewrite IH. by apply fill_param_other.
Qed.

(** Parameters that are pairwise apart. *)
Fixpoint separate (l : list (string * cval)) : bool :=
  match l with
  | [] => true
  | pd :: l => forallb (fun pd' => apart pd.1 pd'.1 && apart pd'.1 pd.1) l && separate l
  end.

Lemma forallb_perm {A} (f : A -> bool) l l' : l ≡ₚ l' -> forallb f l = forallb f l'.
Proof. induction 1; cbn; [done|congruence|by destruct (f x), (f y)|congruence]. Qed.

Lemma separate_perm l l' : l ≡ₚ l' -> separate l = separate l'.
Proof.
  induction 1 as [|x l l' Hp IH|x y l|l1 l2 l3 _ IH1 _ IH2]; cbn [separate]; [done| | |congruence].
  - by rewrite IH, (forallb_perm _ _ _ Hp).
  - cbn [forallb]. destruct (apart x.1 y.1), (apart y.1 x.1); cbn; try done.
    destruct (forallb _ l), (forallb _ l); done.
Qed.

Lemma fill_get l c k d :
  separate l = true -> (k, d) ∈ l -> canonical d -> v_Get (fillDefaultValues l c) k = filled c k d.
Proof.
  unfold fillDefaultValues. revert c. induction l as [|[k' d'] l IH]; intros c; [by intros _ ?%elem_of_nil|].
  cbn [separate fst foldl]. intros [Ha Hs]%andb_true_iff [[= -> ->]|Hin]%elem_of_cons Hd.
  - fold (fillDefaultValues l (fill_param c (k', d'))). rewrite fill_other, fill_param_get; [done|done|].
    unfold all_apart. apply Forall_forall. intros pd Hpd.
    rewrite forallb_forall in Ha. specialize (Ha pd). apply andb_true_iff in Ha as [_ Ha]; [done|].
    by apply list_elem_of_In.
  - rewrite IH by done. unfold filled.
    rewrite forallb_forall in Ha. specialize (Ha (k, d)). apply andb_true_iff in Ha as [Ha _];
      [|by apply list_elem_of_In].
    by destruct (fill_param_other c k' d' k Ha) as [-> ->].
Qed.

Lemma defaults_separate : separate defaultsMap = true.
Proof. vm_compute. reflexivity. Qed.

Lemma defaults_canonical k d : (k, d) ∈ defaultsMap -> canonical d.
Proof.
  revert k d. cut (Forall (fun pd => canonical pd.2) defaultsMap).
  { rewrite Forall_forall. intros H k d. by apply (H (k, d)). }
  unfold defaultsMap. cbn zeta. repeat (constructor; [reflexivity|]). constructor.
Qed.


End Laws.

(** ** What is decoded *)

Lemma assoc_app {A} k (l l' : list (string * A)) :
  assoc k (l ++ l') = match assoc k l with Some v => Some v | None => assoc k l' end.
Proof. induction l as [|[k' v] l IH]; cbn; [done|]. by case_decide. Qed.

(** The names a list of keys adds under [key]. *)
Definition names (key : string) (ks : list string) : list string :=
  first_name (key +:+ ".") <$> filter (fun k => HasPrefix k (key +:+ ".") = true) ks.

Lemma merge_assoc c key ks val n :
  assoc n (foldl (merge_key c key) val ks) =
    match assoc n val with
    | Some v => Some v
    | None => if decide (n ∈ names key ks) then v_Get c (key +:+ "." +:+ n) else None
    end.
Proof.
  unfold names. revert val. induction ks as [|k ks IH]; intros val; cbn [foldl].
  { rewrite decide_False by (by intros ?%elem_of_nil). by destruct (assoc n val). }
  rewrite IH. clear IH. unfold merge_key. rewrite filter_cons.
  destruct (HasPrefix k (key +:+ ".")) eqn:Hp; cbn [negb];
    [|by rewrite (decide_False (P := false = true)) by done].
  rewrite (decide_True (P := true = true)) by done. cbn [fmap list_fmap]. set (mk := first_name _ k).
  destruct (assoc mk val) as [v|] eqn:Em.
  - destruct (assoc n val) eqn:En; [done|]. apply decide_ext.
    rewrite elem_of_cons. split; [by right|]. intros [->|]; [congruence|done].
  - destruct (v_Get c ((key +:+ ".") +:+ mk)) as [mv|] eqn:Eg.
    + rewrite assoc_app. destruct (assoc n val) eqn:En; [done|]. cbn [assoc].
      destruct (decide (mk = n)) as [<-|Hne].
      * rewrite decide_True by (by apply elem_of_cons; left). by rewrite <-Eg, str_app_assoc.
      * apply decide_ext. rewrite elem_of_cons. split; [by right|]. by intros [->|].
    + destruct (assoc n val) eqn:En; [done|]. destruct (decide (n = mk)) as [->|Hne].
      * rewrite (decide_True (P := mk ∈ mk :: _)) by (by apply elem_of_cons; left).
        rewrite str_app_assoc in Eg. rewrite Eg. by case_decide.
      * apply decide_ext. rewrite elem_of_cons. split; [by right|]. by intros [->|].
Qed.

(** What [UnmarshalKey] decodes: nothing for a key without a value, the
    value itself when it is no map; otherwise the map, in which a name it
    does not have, and through which some key of viper goes, is looked up by
    itself. A name the map has is decoded as it is there: what viper has
    under that name elsewhere is not looked at. *)
Theorem UnmarshalKey_input {R} (decode : cval -> R -> result R) (lower : string -> string) (c : V)
    (key : string) (r : R) :
  match v_Get c (lower key) with
  | None => UnmarshalKey decode lower c key r = Ok r
  | Some (VMap val) =>
      exists m, UnmarshalKey decode lower c key r = decode (VMap m) r /\
        forall n, assoc n m =
          match assoc n val with
          | Some v => Some v
          | None => if decide (n ∈ names (lower key) (v_AllKeys c))
                    then v_Get c (lower key +:+ "." +:+ n) else None
          end
  | Some i => UnmarshalKey decode lower c key r = decode i r
  end.
Proof.
  unfold UnmarshalKey, unmarshal_input. destruct (v_Get c (lower key)) as [[]|]; try done.
  eexists. split; [done|]. intros n. apply merge_assoc.
Qed.

End Viper.
(** ** A store with the laws, for the witnesses

    Three layers of nested maps: what was set, what a file says, and the
    defaults. Keys are compared in lower case. *)

Module Layers.

Abbreviation tree := (list (string * cval)).

Fixpoint find_path (p : list string) (t : tree) : option cval :=
  match p with
  | [] => None
  | [k] => assoc k t
  | k :: p =>
      match assoc k t with Some (VMap t') => find_path p t' | _ => None end
  end.

(** Puts a value at a path, making maps on the way. *)
Definition del (k : string) (t : tree) : tree := filter (fun kv => kv.1 <> k) t.
Fixpoint put (p : list string) (x : cval) (t : tree) : tree :=
  match p with
  | [] => t
  | [k] => (k, x) :: del k t
  | k :: p => (k, VMap (put p x (match assoc k t with Some (VMap t') => t' | _ => [] end))) :: del k t
  end.

Record layers := mkLayers { over : tree; file : tree; defs : tree }.

Definition first_of (a b : option cval) : option cval := match a with Some x => Some x | None => b end.

Definition key_path (k : string) : list string := path (lower_ascii k).
(** A shorter path has a value that is no map. *)
Fixpoint shadows (p : list string) (t : tree) : bool :=
  match p with
  | [] | [_] => false
  | k :: p =>
      match assoc k t with Some (VMap t') => shadows p t' | Some _ => true | None => false end
  end.

(** ASCII in lower case. *)
Definition lower_char (a : Ascii.ascii) : Ascii.ascii :=
  let n := Ascii.nat_of_ascii a in
  if (Nat.leb 65 n && Nat.leb n 90)%bool then Ascii.ascii_of_nat (n + 32) else a.
Fixpoint lower_str (s : string) : string :=
  match s with EmptyString => EmptyString | String a s => String (lower_char a) (lower_str s) end.

(** A layer hides what the layers after it have below a plain value. *)
Definition layer (p : list string) (t : tree) (rest : option cval) : option cval :=
  first_of (find_path p t) (if shadows p t then None else rest).
Definition get (v : layers) (k : string) : option cval :=
  canon lower_str <$> layer (key_path k) (over v) (layer (key_path k) (file v) (find_path (key_path k) (defs v))).

(** The keys of the leaves. *)
Definition join (prefix k : string) : string :=
  if decide (prefix = EmptyString) then k else prefix +:+ "." +:+ k.
Fixpoint leaves (prefix k : string) (v : cval) : list string :=
  match v with
  | VMap l => (fix go l := match l with [] => [] | (k', v') :: l => leaves (join prefix k) k' v' ++ go l end) l
  | _ => [join prefix k]
  end.

#[global] Instance layers_viper : Viper layers := {|
  v_New := mkLayers [] [] [];
  v_AutomaticEnv v := v;
  v_Get := get;
  v_Set v k x := mkLayers (put (key_path k) x (over v)) (file v) (defs v);
  v_SetDefault v k x := mkLayers (over v) (file v) (put (key_path k) x (defs v));
  v_AllKeys v := concat ((fun kv => leaves EmptyString kv.1 kv.2) <$> over v ++ file v ++ defs v);
  v_lower := lower_str;
  v_shadowed v k := shadows (key_path k) (over v) || shadows (key_path k) (file v)
|}.

Lemma lower_char_idemp a : lower_char (lower_char a) = lower_char a.
Proof. destruct a as [[] [] [] [] [] [] [] []]; reflexivity. Qed.
Lemma lower_str_idemp s : lower_str (lower_str s) = lower_str s.
Proof. induction s as [|a s IH]; cbn [lower_str]; [done|]. by rewrite lower_char_idemp, IH. Qed.

Lemma canon_idemp : forall v, canon lower_str (canon lower_str v) = canon lower_str v.
Proof.
  fix IH 1. intros v. destruct v as [| | | | | | |l]; try reflexivity. cbn. f_equal.
  induction l as [|[k v] l IHl]; [reflexivity|]. f_equal; [|exact IHl]. f_equal; [apply lower_str_idemp|apply IH].
Qed.

Lemma find_put p x t : p <> [] -> find_path p (put p x t) = Some x.
Proof.
  revert t. induction p as [|k [|k' p] IH]; intros t Hp; [done| |].
  - cbn. by rewrite decide_True.
  - cbn [put find_path assoc]. rewrite decide_True by done. by apply IH.
Qed.

Lemma assoc_del k k' t : k <> k' -> assoc k' (del k t) = assoc k' t.
Proof.
  intros H. unfold del. induction t as [|[k1 v] t IH]; [done|]. rewrite filter_cons. cbn [fst].
  destruct (decide (k1 <> k)) as [|Hk]; cbn [assoc]; rewrite IH; [done|].
  apply dec_stable in Hk. subst. by rewrite decide_False.
Qed.
Lemma find_cons k p t : p <> [] ->
  find_path (k :: p) t = match assoc k t with Some (VMap t') => find_path p t' | _ => None end.
Proof. by destruct p. Qed.
Lemma put_cons k p x t : p <> [] -> put (k :: p) x t =
  (k, VMap (put p x (match assoc k t with Some (VMap t') => t' | _ => [] end))) :: del k t.
Proof. by destruct p. Qed.
Lemma find_nil p : find_path p [] = None.
Proof. by destruct p as [|? []]. Qed.

Lemma find_put_other p q x t :
  path_prefix p q = false -> path_prefix q p = false -> find_path q (put p x t) = find_path q t.
Proof.
  revert q t. induction p as [|k p IH]; intros q t Hp Hq; [done|].
  destruct q as [|k' q]; [done|]. cbn [path_prefix] in Hp, Hq.
  destruct (decide (k = k')) as [<-|Hne].
  - rewrite bool_decide_eq_true_2 in Hp, Hq by done. cbn [andb] in Hp, Hq.
    rewrite put_cons, !find_cons by (by intros ->). cbn [assoc]. rewrite decide_True by done.
    rewrite IH by done. destruct (assoc k t) as [[]|]; try done; apply find_nil.
  - assert (forall y, assoc k' ((k, y) :: del k t) = assoc k' t) as Ha
      by (intros y; cbn; rewrite decide_False by done; by apply assoc_del).
    assert (exists y, put (k :: p) x t = (k, y) :: del k t) as [y ->] by (destruct p; cbn; eauto).
    by destruct q; cbn [find_path]; rewrite Ha.
Qed.

Lemma path_nonempty k : path k <> [].
Proof. unfold path. destruct (str_split_nonempty dot k) as (h & t & ->). done. Qed.

Lemma shadows_cons k p t : p <> [] -> shadows (k :: p) t =
  match assoc k t with Some (VMap t') => shadows p t' | Some _ => true | None => false end.
Proof. by destruct p. Qed.

Lemma find_shadows p t x : find_path p t = Some x -> shadows p t = false.
Proof.
  revert t. induction p as [|k p IH]; intros t; [done|]. destruct (decide (p = [])) as [->|Hp]; [done|].
  rewrite find_cons, shadows_cons by done. destruct (assoc k t) as [[]|]; try done. apply IH.
Qed.

Lemma shadows_nil p : shadows p [] = false.
Proof. by destruct p as [|? []]. Qed.

Lemma shadows_put_other p q x t : shadows p t = false ->
  path_prefix p q = false -> path_prefix q p = false -> shadows q (put p x t) = shadows q t.
Proof.
  revert q t. induction p as [|k p IH]; intros q t Ht Hp Hq; [done|].
  destruct q as [|k' q]; [done|]. cbn [path_prefix] in Hp, Hq.
  destruct (decide (k = k')) as [<-|Hne].
  - rewrite bool_decide_eq_true_2 in Hp, Hq by done. cbn [andb] in Hp, Hq.
    rewrite shadows_cons in Ht by (by intros ->).
    rewrite put_cons, !shadows_cons by (by intros ->). cbn [assoc]. rewrite decide_True by done.
    destruct (assoc k t) as [[]|] eqn:E; try done; rewrite IH; try done; apply shadows_nil.
  - assert (forall y, assoc k' ((k, y) :: del k t) = assoc k' t) as Ha
      by (intros y; cbn; rewrite decide_False by done; by apply assoc_del).
    assert (exists y, put (k :: p) x t = (k, y) :: del k t) as [y ->] by (destruct p; cbn; eauto).
    destruct q as [|k2 q]; [done|]. by rewrite !shadows_cons, Ha by done.
Qed.

Lemma apart_paths k k' : apart k k' = true ->
  path_prefix (key_path k) (key_path k') = false /\ path_prefix (key_path k') (key_path k) = false.
Proof.
  unfold apart. by intros [[[_ _]%andb_true_iff ?%negb_true_iff]%andb_true_iff ?%negb_true_iff]%andb_true_iff.
Qed.

(** A key that has a value is not below a plain value that was set. *)
Lemma get_over v k : get v k <> None -> shadows (key_path k) (over v) = false.
Proof.
  unfold get, layer at 1. destruct (find_path (key_path k) (over v)) as [x|] eqn:E; [by rewrite (find_shadows _ _ _ E)|].
  cbn. by destruct (shadows _ (over v)).
Qed.

#[global] Instance layers_laws : ViperLaws layers.
Proof.
  split; cbn [v_Get v_Set v_SetDefault v_shadowed v_lower layers_viper]; unfold canonical; cbn [v_lower layers_viper].
  - intros v k x. unfold get. intros (y & _ & ->)%fmap_Some. apply canon_idemp.
  - intros v k x Hx. unfold get, layer at 1. cbn [over]. rewrite find_put by apply path_nonempty. cbn. by rewrite Hx.
  - intros v k k' x [H1 H2]%apart_paths Hg%get_over. unfold get, layer. cbn [over file defs].
    by rewrite find_put_other, shadows_put_other.
  - intros v k k' x [H1 H2]%apart_paths Hg%get_over. cbn [over file]. by rewrite shadows_put_other.
  - intros v k x Hx. unfold get, layer. cbn [over file defs]. rewrite find_put by apply path_nonempty.
    destruct (find_path _ (over v)); [done|]. cbn [first_of]. destruct (shadows _ (over v)); [done|].
    destruct (find_path _ (file v)); [done|]. cbn [first_of]. destruct (shadows _ (file v)); [done|].
    intros _. cbn. by rewrite Hx.
  - intros v k x. unfold get, layer. cbn [over file defs]. rewrite find_put by apply path_nonempty.
    destruct (find_path _ (over v)); [done|]. cbn [first_of]. destruct (shadows _ (over v)); [done|].
    destruct (find_path _ (file v)); [done|]. cbn [first_of]. destruct (shadows _ (file v)); [done|].
    intros (y & _ & ->)%fmap_Some. cbn. by rewrite canon_idemp.
  - intros v k k' x [H1 H2]%apart_paths. unfold get, layer. cbn [over file defs]. by rewrite find_put_other.
  - done.
Qed.

(** A file with an endpoint and credentials of etcd. *)
Definition ex_file : layers := mkLayers []
  [("nrpc", VMap [("cluster", VMap [("sd", VMap [("etcd", VMap
     [("endpoints", VStrs ["etcd:2379"]); ("user", VStr "u"); ("pass", VStr "p")])])])])] [].
Definition ex_filled : layers := NewViperConfig defaultsMap [ex_file].

End Layers.

(** Of a file that gives "nrpc.metrics" a plain value. *)
Definition ex_shadowing : Layers.layers := Layers.mkLayers [] [("nrpc", VMap [("metrics", VBool true)])] [].


(** Credentials in a file are lost: the endpoint in the same file is a
    parameter, so that filling in defaults sets it; the value of "nrpc" is
    then the map of what was set, whose section "cluster" has the endpoint
    alone, and the section is not completed. *)
Example credentials_lost :
  v_Get Layers.ex_filled "nrpc.cluster.sd.etcd.user" = Some (VStr "u") /\
  exists m, unmarshal_input id Layers.ex_filled "nrpc" = Some (VMap m) /\
    Layers.find_path ["cluster"; "sd"; "etcd"; "endpoints"] m = Some (VStrs ["etcd:2379"]) /\
    Layers.find_path ["cluster"; "sd"; "etcd"; "user"] m = None.
Proof.
  split; [vm_compute; reflexivity|]. eexists.
  split; [vm_compute; reflexivity|]. split; vm_compute; reflexivity.
Qed.

End Viper.
