(* ===== verification/Logger.v ===== *)
(** * The default logger: [logger/default.go] and [logger/logger.go]

    A logger has a prefix and a mutex of its own and shares the standard
    logger, whose prefix is one mutable string, with the loggers derived from
    it. What [fmt] makes of a value or of a format and its arguments is an
    argument: a text. Concurrent calls are steps on the shared state: taking
    the mutex, setting the prefix, printing, releasing the mutex. *)

From S2P Require Import Prelude.

Module Logger.

(** ** Loggers *)

(** [lid] tells loggers, that is their mutexes, apart. *)
Record Logger := mkLogger { lid : nat; prefix : string }.

Definition NewDefaultLogger (id : nat) : Logger := mkLogger id EmptyString.

(** The derived loggers; [id] is the new one. *)
Definition WithField (id : nat) (l : Logger) (key value : string) : Logger :=
  mkLogger id (prefix l +:+ key +:+ "=" +:+ value +:+ " ").
Definition WithKv := WithField.
Definition WithKvs := WithField.
Definition WithJson := WithField.
Definition WithErrors := WithField.
Definition WithError (id : nat) (l : Logger) (err : string) : Logger := WithField id l "error" err.
Definition WithFields (id : nat) (l : Logger) (fields : string) : Logger := WithField id l "fields" fields.

(** [logger.Log], before [SetLogger]; nil is not set. *)
Definition initLogger : Logger := WithFields 1 (NewDefaultLogger 0) "map[source:nrpc]".
Definition SetLogger (log : Logger) (l : option Logger) : Logger := default log l.

(** ** Levels *)

Inductive Level := DEBUG | INFO | WARN | ERROR | FATAL | PANIC.

#[export] Instance Level_eq_dec : EqDecision Level.
Proof. solve_decision. Defined.

Definition level_name (v : Level) : string :=
  match v with
  | DEBUG => "DEBUG" | INFO => "INFO" | WARN => "WARN"
  | ERROR => "ERROR" | FATAL => "FATAL" | PANIC => "PANIC"
  end.

(** The methods of the interface, in their three forms; [Warning] is [Warn]. *)
Inductive method :=
| Debug | Info | Warn | Warning | Error | Fatal | Panic
| Debugf | Infof | Warnf | Warningf | Errorf | Fatalf | Panicf
| Debugln | Infoln | Warnln | Warningln | Errorln | Fatalln | Panicln.

Definition level_of (m : method) : Level :=
  match m with
  | Debug | Debugf | Debugln => DEBUG
  | Info | Infof | Infoln => INFO
  | Warn | Warnf | Warnln | Warning | Warningf | Warningln => WARN
  | Error | Errorf | Errorln => ERROR
  | Fatal | Fatalf | Fatalln => FATAL
  | Panic | Panicf | Panicln => PANIC
  end.

(** What a method does after it has logged. *)
Inductive after := Returns | Exits (code : Z) | Panics_.
Definition after_of (m : method) : after :=
  match level_of m with FATAL => Exits 1 | PANIC => Panics_ | _ => Returns end.

(** The prefix [logf] and [log] set. *)
Definition line_prefix (l : Logger) (v : Level) : string :=
  prefix l +:+ "[" +:+ level_name v +:+ "] ".

(** ** Concurrent calls *)

Inductive stage := Called | Locked | Prefixed | Printed | Finished.

#[export] Instance stage_eq_dec : EqDecision stage.
Proof. solve_decision. Defined.

Record call := mkCall { c_logger : Logger; c_level : Level; c_text : string; c_stage : stage }.

(** The shared prefix and the lines written, each with the number of the call
    that wrote it. *)
Record state := mkState {
  calls : list call;
  shared : string;
  lines : list (nat * string * string)
}.

Definition holds_lock (c : call) : bool :=
  match c_stage c with Locked | Prefixed | Printed => true | _ => false end.

(** The mutex of a logger is taken. *)
Definition locked (s : state) (l : nat) : bool :=
  existsb (fun c => holds_lock c && bool_decide (lid (c_logger c) = l)) (calls s).

Definition at_stage (c : call) (st : stage) : call :=
  mkCall (c_logger c) (c_level c) (c_text c) st.

(** One step of the [i]-th call; [None] when it cannot move. *)
Definition step (s : state) (i : nat) : option state :=
  c ← calls s !! i;
  match c_stage c with
  | Called =>
      if locked s (lid (c_logger c)) then None
      else Some (mkState (<[i := at_stage c Locked]> (calls s)) (shared s) (lines s))
  | Locked =>
      Some (mkState (<[i := at_stage c Prefixed]> (calls s)) (line_prefix (c_logger c) (c_level c)) (lines s))
  | Prefixed =>
      Some (mkState (<[i := at_stage c Printed]> (calls s)) (shared s)
              (lines s ++ [(i, shared s, c_text c)]))
  | Printed => Some (mkState (<[i := at_stage c Finished]> (calls s)) (shared s) (lines s))
  | Finished => None
  end.

Fixpoint run (s : state) (sched : list nat) : option state :=
  match sched with
  | [] => Some s
  | i :: sched => s ← step s i; run s sched
  end.

(** The calls as they are made. *)
Definition start (cs : list (Logger * Level * string)) : state :=
  mkState ((fun '(l, v, t) => mkCall l v t Called) <$> cs) EmptyString [].

(** ** One logger, used by any number of goroutines *)

Definition same_logger (l : Logger) (s : state) : Prop := Forall (fun c => c_logger c = l) (calls s).

(** The line of a call, as it should be. *)
Definition proper (s : state) (ln : nat * string * string) : Prop :=
  exists c, calls s !! ln.1.1 = Some c /\ ln.1.2 = line_prefix (c_logger c) (c_level c) /\
    ln.2 = c_text c.

Record good (l : Logger) (s : state) : Prop := {
  good_same : same_logger l s;
  good_one : forall i j ci cj, calls s !! i = Some ci -> calls s !! j = Some cj ->
    holds_lock ci = true -> holds_lock cj = true -> i = j;
  good_prefix : forall i c, calls s !! i = Some c -> c_stage c = Prefixed ->
    shared s = line_prefix (c_logger c) (c_level c);
  good_lines : Forall (proper s) (lines s)
}.

Lemma locked_false s l i c :
  locked s l = false -> calls s !! i = Some c -> lid (c_logger c) = l -> holds_lock c = false.
Proof.
  intros H Hc Hl. destruct (holds_lock c) eqn:E; [|done]. exfalso.
  assert (locked s l = true); [|congruence]. apply existsb_exists. exists c. split.
  - by eapply list_elem_of_In, list_elem_of_lookup_2.
  - by rewrite E, bool_decide_eq_true_2.
Qed.

(** Changing the stage of a call keeps the lines proper. *)
Lemma proper_stage cs sh ls i c st ln :
  cs !! i = Some c -> proper (mkState cs sh ls) ln ->
  forall sh' ls', proper (mkState (<[i := at_stage c st]> cs) sh' ls') ln.
Proof.
  intros Hc (c' & Hl & Hp & Ht) sh' ls'. cbn in *. destruct (decide (ln.1.1 = i)) as [<-|Hne].
  - exists (at_stage c st). cbn. rewrite list_lookup_insert_eq by (by eapply lookup_lt_Some).
    rewrite Hc in Hl. by injection Hl as <-.
  - exists c'. cbn. by rewrite list_lookup_insert_ne.
Qed.

Lemma lookup_stage (cs : list call) (i : nat) (c x : call) j cj :
  cs !! i = Some c -> (<[i := x]> cs) !! j = Some cj ->
  (j = i /\ cj = x) \/ (j <> i /\ cs !! j = Some cj).
Proof.
  intros Hc. destruct (decide (j = i)) as [->|]; [|rewrite list_lookup_insert_ne by done; auto].
  rewrite list_lookup_insert_eq by (by eapply lookup_lt_Some). intros [= <-]. auto.
Qed.

(** A step of the only call that may hold the mutex. *)
Lemma move_good l cs i c st sh ls :
  Forall (fun c => c_logger c = l) cs -> cs !! i = Some c ->
  (forall j cj, j <> i -> cs !! j = Some cj -> holds_lock cj = false) ->
  (st = Prefixed -> sh = line_prefix (c_logger c) (c_level c)) ->
  Forall (proper (mkState (<[i := at_stage c st]> cs) sh ls)) ls ->
  good l (mkState (<[i := at_stage c st]> cs) sh ls).
Proof.
  intros Hs Hc Hfree Hsh Hls. split; cbn; [| | |done].
  - apply Forall_insert; [done|]. cbn. rewrite Forall_lookup in Hs. eauto.
  - assert (forall j cj, (<[i := at_stage c st]> cs) !! j = Some cj -> holds_lock cj = true -> j = i) as H.
    { intros j cj [[-> _]|[Hj Hj']]%(lookup_stage _ _ _ _ _ _ Hc) Hk; [done|].
      by rewrite (Hfree _ _ Hj Hj') in Hk. }
    intros j k cj ck Hj Hk H1 H2. rewrite (H j cj), (H k ck); done.
  - intros j cj [[-> ->]|[Hj Hj']]%(lookup_stage _ _ _ _ _ _ Hc) Hst; [by apply Hsh|].
    specialize (Hfree _ _ Hj Hj'). unfold holds_lock in Hfree. by rewrite Hst in Hfree.
Qed.

Lemma log_step_good l s i s' : good l s -> step s i = Some s' -> good l s'.
Proof.
  intros [Hs Ho Hp Hl]. destruct s as [cs sh ls]. unfold step, same_logger in *.
  cbn [calls shared lines] in *. destruct (cs !! i) as [c|] eqn:Ec; [|done]. cbn [mbind option_bind].
  assert (forall st sh' ls', Forall (proper (mkState (<[i := at_stage c st]> cs) sh' ls')) ls) as Hprop.
  { intros st sh' ls'. eapply Forall_impl; [exact Hl|]. intros ln Hln. by eapply proper_stage. }
  assert (holds_lock c = true -> forall j cj, j <> i -> cs !! j = Some cj -> holds_lock cj = false) as Hfree.
  { intros Hc j cj Hne Hj. destruct (holds_lock cj) eqn:E; [|done]. by destruct Hne; eapply Ho. }
  destruct (c_stage c) eqn:Est; [| | | |done];
    try (assert (holds_lock c = true) as Hc by (unfold holds_lock; by rewrite Est)).
  - destruct (locked _ _) eqn:Elk; [done|]. intros [= <-].
    apply move_good; [done|done| |done|apply Hprop].
    intros j cj _ Hj. eapply locked_false; [exact Elk|done|].
    rewrite Forall_lookup in Hs. by rewrite (Hs _ _ Hj), (Hs _ _ Ec).
  - intros [= <-]. by apply move_good; [done|done|apply Hfree|done|apply Hprop].
  - intros [= <-]. apply move_good; [done|done|by apply Hfree|done|].
    apply Forall_app_2; [apply Hprop|]. apply Forall_singleton. exists (at_stage c Printed). cbn.
    rewrite list_lookup_insert_eq by (by eapply lookup_lt_Some). split_and!; [done| |done]. by eapply Hp.
  - intros [= <-]. by apply move_good; [done|done|apply Hfree|done|apply Hprop].
Qed.

Lemma log_run_good l s sched s' : good l s -> run s sched = Some s' -> good l s'.
Proof.
  revert s. induction sched as [|i sched IH]; intros s Hg; cbn; [by intros [= <-]|].
  destruct (step s i) as [s1|] eqn:E; [|done]. cbn. apply IH. by eapply log_step_good.
Qed.

Lemma start_good l cs : Forall (fun '(l', _, _) => l' = l) cs -> good l (start cs).
Proof.
  intros H. unfold start. assert (forall i c, ((fun '(l, v, t) => mkCall l v t Called) <$> cs) !! i = Some c ->
    c_stage c = Called) as Hst.
  { intros i c. rewrite list_lookup_fmap. destruct (cs !! i) as [[[]]|]; [|done]. by intros [= <-]. }
  split; cbn; [| | |done].
  - unfold same_logger. cbn. apply Forall_fmap. eapply Forall_impl; [exact H|]. by intros [[]].
  - intros i j ci cj Hi _ Hl. apply Hst in Hi. unfold holds_lock in Hl. by rewrite Hi in Hl.
  - intros i c Hc Hp. apply Hst in Hc. congruence.
Qed.

(** A logger may be shared: whatever the schedule of the goroutines that
    log through one logger, every line carries the logger's prefix with the
    level of the call that wrote it, and its text. *)
Theorem one_logger_keeps_prefixes (l : Logger) (cs : list (Logger * Level * string)) (sched : list nat)
    (s : state) :
  Forall (fun '(l', _, _) => l' = l) cs -> run (start cs) sched = Some s ->
  Forall (fun ln => exists c, calls s !! ln.1.1 = Some c /\ c_logger c = l /\
    ln.1.2 = line_prefix l (c_level c) /\ ln.2 = c_text c) (lines s).
Proof.
  intros H Hr. destruct (log_run_good l _ _ _ (start_good l cs H) Hr) as [Hs _ _ Hl].
  unfold same_logger in Hs. rewrite Forall_lookup in Hs.
  eapply Forall_impl; [exact Hl|]. intros ln (c & Hc & Hp & Ht). exists c.
  pose proof (Hs _ _ Hc) as <-. done.
Qed.

Lemma one_logger_keeps_prefixes_witness :
  exists s, run (start [(initLogger, INFO, "a"); (initLogger, WARN, "b")]) [0; 0; 0; 0; 1; 1; 1]%nat = Some s /\
    Forall (fun ln => exists c, calls s !! ln.1.1 = Some c /\ c_logger c = initLogger /\
      ln.1.2 = line_prefix initLogger (c_level c) /\ ln.2 = c_text c) (lines s).
Proof.
  destruct (run (start [(initLogger, INFO, "a"); (initLogger, WARN, "b")]) [0; 0; 0; 0; 1; 1; 1]%nat)
    as [s|] eqn:E; [|exfalso; by vm_compute in E].
  exists s. split; [reflexivity|].
  apply (one_logger_keeps_prefixes initLogger [(initLogger, INFO, "a"); (initLogger, WARN, "b")]
           [0; 0; 0; 0; 1; 1; 1]%nat); [by repeat constructor|exact E].
Defined.

(** A derived logger does not exclude the one it comes from, since the
    mutex is not shared and the prefix is: a goroutine that logs through a
    logger derived with a field can print under the prefix of the other
    logger, and its field is lost. *)
Theorem derived_loggers_race (l : Logger) (id : nat) (key value a b : string) (v w : Level) :
  id <> lid l ->
  let d := WithField id l key value in
  exists s, run (start [(d, v, a); (l, w, b)]) [0; 0; 1; 1; 0; 1]%nat = Some s /\
    lines s = [(0%nat, line_prefix l w, a); (1%nat, line_prefix l w, b)].
Proof.
  intros Hid d. unfold start, run, step, locked, holds_lock. cbn.
  rewrite (bool_decide_eq_false_2 _ Hid). cbn. by eexists.
Qed.

Lemma derived_loggers_race_witness :
  exists s, run (start [(WithField 2 initLogger "user" "u1", INFO, "a"); (initLogger, WARN, "b")])
      [0; 0; 1; 1; 0; 1]%nat = Some s /\
    lines s = [(0%nat, line_prefix initLogger WARN, "a"); (1%nat, line_prefix initLogger WARN, "b")].
Proof. apply (derived_loggers_race initLogger 2 "user" "u1" "a" "b" INFO WARN). cbn. lia. Defined.

End Logger.
