(* ===== verification/App.v ===== *)
(** * The application: [app.go], [module.go], [component.go], [rpc.go] and
    [builder.go]

    Registration and life of modules and components, the guards of the
    operations that are refused while the application runs, the calls it
    makes, and its construction from a configuration. What the hooks of
    modules and components do is not modelled; that they are called, and in
    which order, is recorded as events. A fatal log entry ends the process:
    it is an error outcome. *)

From S2P Require Import Prelude Errors Message Route Context Metrics Pipeline Discovery Router WorkerPool Component Store Protos Nats Remote Config.
From Stdlib Require Import Strings.Byte.
Import Component Protos Remote Nats.Nats.

Module App.

(** ** Modules and components *)

(** A module: what its [Init] returns. *)
Record Module_ := mkModule { mod_Init : result unit }.

Inductive event :=
| ReportsEvery (period : Z)
| ModInit (name : string)
| ModAfterInit (name : string)
| ModBeforeShutdown (name : string)
| ModShutdown (name : string)
| CompInit (i : nat)
| CompAfterInit (i : nat)
| CompBeforeShutdown (i : nat)
| CompShutdown (i : nat).

(** The metrics reporters the builder makes. *)
Inductive reporter :=
| RPrometheus (p : Metrics.PrometheusReporter)
| RStatsd (s : Metrics.StatsdReporter).

(** The fields of the application that only its getters and setters use. *)
Record app_settings := mkSettings {
  config : Config.Config;
  debug : bool;
  heartbeat : Z;
  metricsReporters : list reporter
}.

Section App.
Context {M : Type} {PM : ProtoMsg M}.

Record App := mkApp {
  running : bool;
  router : option Router.Router;
  server : Discovery.Server;
  rpcServer : bool;
  remoteService : option (RemoteService (M := M));
  remoteComp : list (Comp M * list Option_);
  modulesMap : gmap string Module_;
  modulesArr : list (string * Module_);
  dictionary : Message.Dict;
  dieChan_closed : bool;
  settings : app_settings
}.

Definition NewApp (router : option Router.Router) (server : Discovery.Server) (rpcServer : bool)
    (remoteService : option RemoteService) (reporters : list reporter) (config : Config.Config)
    (dictionary : Message.Dict) : App :=
  mkApp false router server rpcServer remoteService [] ∅ [] dictionary false
    (mkSettings config false (Config.Heartbeat_Interval config) reporters).

Definition set_modules (app : App) (m : gmap string Module_) (a : list (string * Module_)) : App :=
  mkApp (running app) (router app) (server app) (rpcServer app) (remoteService app) (remoteComp app)
    m a (dictionary app) (dieChan_closed app) (settings app).
Definition set_running (app : App) (b : bool) : App :=
  mkApp b (router app) (server app) (rpcServer app) (remoteService app) (remoteComp app)
    (modulesMap app) (modulesArr app) (dictionary app) (dieChan_closed app) (settings app).
Definition set_settings (app : App) (s : app_settings) : App :=
  mkApp (running app) (router app) (server app) (rpcServer app) (remoteService app) (remoteComp app)
    (modulesMap app) (modulesArr app) (dictionary app) (dieChan_closed app) s.

(** ** [module.go] *)

Definition alreadyRegistered (app : App) (name : string) : option error :=
  match modulesMap app !! name with
  | Some _ => Some (EText ("module with name " +:+ name +:+ " already exists"))
  | None => None
  end.

Definition RegisterModuleAfter (app : App) (m : Module_) (name : string) : result App :=
  match alreadyRegistered app name with
  | Some err => Err err
  | None => Ok (set_modules app (<[name := m]> (modulesMap app)) (modulesArr app ++ [(name, m)]))
  end.
Definition RegisterModule := RegisterModuleAfter.
Definition RegisterModuleBefore (app : App) (m : Module_) (name : string) : result App :=
  match alreadyRegistered app name with
  | Some err => Err err
  | None => Ok (set_modules app (<[name := m]> (modulesMap app)) ((name, m) :: modulesArr app))
  end.

Definition GetModule (app : App) (name : string) : result Module_ :=
  match modulesMap app !! name with
  | Some m => Ok m
  | None => Err (EText ("module with name " +:+ name +:+ " not found"))
  end.

(** [startModules]: the first module that fails ends the process. *)
Fixpoint init_modules (ms : list (string * Module_)) : list event * result unit :=
  match ms with
  | [] => ([], Ok tt)
  | (name, m) :: ms =>
      match mod_Init m with
      | Ok _ => let '(evs, r) := init_modules ms in (ModInit name :: evs, r)
      | r => ([ModInit name], r)
      end
  end.
Definition startModules (app : App) : list event * result unit :=
  match init_modules (modulesArr app) with
  | (evs, Ok _) => (evs ++ ((fun '(name, _) => ModAfterInit name) <$> modulesArr app), Ok tt)
  | (evs, r) => (evs, r)
  end.

Definition shutdownModules (app : App) : list event :=
  ((fun '(name, _) => ModBeforeShutdown name) <$> reverse (modulesArr app)) ++
  ((fun '(name, _) => ModShutdown name) <$> reverse (modulesArr app)).

(** ** [component.go] *)

Definition Register (app : App) (c : Comp M) (options : list Option_) : App :=
  mkApp (running app) (router app) (server app) (rpcServer app) (remoteService app)
    (remoteComp app ++ [(c, options)]) (modulesMap app) (modulesArr app) (dictionary app)
    (dieChan_closed app) (settings app).

(** [startupComponents]: a registration that fails is logged. *)
Definition register_all (upper : string -> bool) (r : RemoteService) (cs : list (Comp M * list Option_))
  : RemoteService :=
  foldl (fun r '(c, opts) => match Remote.Register upper r c opts with Ok r' => r' | _ => r end) r cs.
Definition startupComponents (upper : string -> bool) (app : App) : App * list event :=
  let n := length (remoteComp app) in
  (mkApp (running app) (router app) (server app) (rpcServer app)
     ((fun r => register_all upper r (remoteComp app)) <$> remoteService app)
     (remoteComp app) (modulesMap app) (modulesArr app) (dictionary app) (dieChan_closed app)
     (settings app),
   (CompInit <$> seq 0 n) ++ (CompAfterInit <$> seq 0 n)).

Definition shutdownComponents (app : App) : list event :=
  let n := length (remoteComp app) in
  (CompBeforeShutdown <$> reverse (seq 0 n)) ++ (CompShutdown <$> reverse (seq 0 n)).

(** ** [app.go] *)

Definition start (upper : string -> bool) (app : App) : App * list event * result unit :=
  let '(app, evs) := startupComponents upper app in
  match startModules app with
  | (evs', Ok _) => (set_running app true, evs ++ evs', Ok tt)
  | (evs', r) => (app, evs ++ evs', r)
  end.

(** The modules [Start] registers. *)
Definition register_builtin (app : App) (rpcServerM rpcClientM sdM : Module_) : result App :=
  app ← RegisterModuleBefore app rpcServerM "rpcServer";
  app ← RegisterModuleBefore app rpcClientM "rpcClient";
  RegisterModuleAfter app sdM "serviceDiscovery".

(** [periodicMetrics]: the period of the goroutine it starts. *)
Definition periodicMetrics (app : App) : Z := Config.Metrics_Period (Config.MetricsC (config (settings app))).

(** What [Start] waits for: the die channel, or a signal. *)
Inductive wakeup := Died | Signalled.

(** [Start]: its events, and the application when it returns. *)
Definition Start (upper : string -> bool) (app : App) (rpcServerM rpcClientM sdM : Module_)
    (w : wakeup) : list event * result App :=
  match register_builtin app rpcServerM rpcClientM sdM with
  | Err e => ([], Err e)
  | Panics p => ([], Panics p)
  | Ok app =>
      let reports := ReportsEvery (periodicMetrics app) in
      match start upper app with
      | (app, evs, Ok _) =>
          let evs := reports :: evs in
          let stop closed :=
            (evs ++ shutdownModules app ++ shutdownComponents app,
             Ok (mkApp false (router app) (server app) (rpcServer app) (remoteService app)
                   (remoteComp app) (modulesMap app) (modulesArr app) (dictionary app) closed
                   (settings app))) in
          match w with
          | Died => stop (dieChan_closed app)
          | Signalled =>
              if dieChan_closed app then (evs, Panics CloseOfClosedChannel) else stop true
          end
      | (_, evs, Err e) => (reports :: evs, Err e)
      | (_, evs, Panics p) => (reports :: evs, Panics p)
      end
  end.

(** Getters and setters; the discovered servers are those [node], the state of
    service discovery, has at the moment of the call. *)
Definition GetDieChan (app : App) : bool := dieChan_closed app.
Definition SetDebug (app : App) (b : bool) : App :=
  set_settings app (mkSettings (config (settings app)) b (heartbeat (settings app))
                      (metricsReporters (settings app))).
Definition SetHeartbeatTime (app : App) (interval : Z) : App :=
  set_settings app (mkSettings (config (settings app)) (debug (settings app)) interval
                      (metricsReporters (settings app))).
Definition GetServerID (app : App) : string := Discovery.ID (server app).
Definition GetMetricsReporters (app : App) : list reporter := metricsReporters (settings app).
Definition GetServer (app : App) : Discovery.Server := server app.
Definition GetServerByID (node : Discovery.etcdServiceDiscovery) (id : string) := Discovery.GetServer node id.
Definition GetServersByType (node : Discovery.etcdServiceDiscovery) (t : string) :=
  Discovery.GetServersByType node t.
Definition GetServers (range : list string) (node : Discovery.etcdServiceDiscovery) :=
  Discovery.GetServers range node.
Definition IsRunning (app : App) : bool := running app.

Definition SetDictionary (app : App) (dict : option (list (string * Z))) : App * option error :=
  if running app then (app, Some (ESentinel ErrChangeDictionaryWhileRunning))
  else
    let '(d, err) := Message.SetDictionary (dictionary app) dict in
    (mkApp (running app) (router app) (server app) (rpcServer app) (remoteService app)
       (remoteComp app) (modulesMap app) (modulesArr app) d (dieChan_closed app) (settings app), err).

(** The remote service holds a pointer to the same router. *)
Definition set_service_router (r : Router.Router) (rs : RemoteService (M := M))
  : RemoteService (M := M) :=
  mkRemoteService (services rs) (remotes rs) r (serviceDiscovery rs) (Remote.server rs)
    (remoteHooks rs).
Definition AddRoute (app : App) (serverType : string) (f : Router.RoutingFunc) : App * option error :=
  match router app with
  | Some r =>
      if running app then (app, Some (ESentinel ErrChangeRouteWhileRunning))
      else
        let r := Router.AddRoute r serverType f in
        (mkApp (running app) (Some r) (server app) (rpcServer app)
           (set_service_router r <$> remoteService app) (remoteComp app) (modulesMap app) (modulesArr app) (dictionary app)
           (dieChan_closed app) (settings app), None)
  | None => (app, Some (ESentinel ErrRouterNotInitialized))
  end.

(** [Shutdown], when nobody is sending on the die channel. *)
Definition Shutdown (app : App) : App :=
  if dieChan_closed app then app
  else mkApp (running app) (router app) (server app) (rpcServer app) (remoteService app)
         (remoteComp app) (modulesMap app) (modulesArr app) (dictionary app) true (settings app).

(** ** [rpc.go] *)

Section Calls.
Context {Ch : Router.Choice}.
Variable rpcClient_Call :
  option Ctx.ctx -> Route.Route -> Message.Message -> option Discovery.Server -> Store.st Response.

(** [doSendRPC]; [reply] is the type of the reply, nil without one. *)
Definition doSendRPC (app : App) (c : option Ctx.ctx) (serverID routeStr : string) (mt : byte)
    (reply : option Type_) (arg : option M) : Store.st (option M) :=
  if negb (rpcServer app) then Store.lift (Err (ESentinel ErrRPCServerNotInitialized))
  else if bool_decide (mt = Message.Request) &&
          match reply with Some t => bool_decide (kind_of t <> Ptr) | None => true end
  then Store.lift (Err (ESentinel ErrReplyShouldBePtr))
  else
    match Route.Decode routeStr with
    | Err e => Store.lift (Err e)
    | Panics p => Store.lift (Panics p)
    | Ok r =>
        if bool_decide (Route.SvType r = EmptyString)
        then Store.lift (Err (ESentinel ErrNoServerTypeChosenForRPC))
        else if bool_decide (Route.SvType r = Discovery.Type_ (server app)) &&
                bool_decide (serverID = EmptyString) ||
                bool_decide (serverID = Discovery.ID (server app))
        then Store.lift (Err (ESentinel ErrNonsenseRPC))
        else
          match remoteService app with
          | None => Store.lift (Panics NilDereference)
          | Some rs => Remote.RPC rpcClient_Call rs c serverID mt r reply arg
          end
    end.

Definition RPC (app : App) (c : option Ctx.ctx) (routeStr : string) (reply : option Type_)
    (arg : option M) := doSendRPC app c EmptyString routeStr Message.Request reply arg.
Definition RPCTo (app : App) (c : option Ctx.ctx) (serverID routeStr : string) (reply : option Type_)
    (arg : option M) := doSendRPC app c serverID routeStr Message.Request reply arg.
Definition Notify (app : App) (c : option Ctx.ctx) (routeStr : string) (arg : option M) :=
  doSendRPC app c EmptyString routeStr Message.Notify None arg.
Definition NotifyTo (app : App) (c : option Ctx.ctx) (serverID routeStr : string) (arg : option M) :=
  doSendRPC app c serverID routeStr Message.Notify None arg.
End Calls.

(** ** [builder.go] *)

(** [reporters.go]; [once] is the singleton of the Prometheus reporter, [dial]
    the result of [statsd.New]. *)
Definition CreatePrometheusReporter (once : option Metrics.PrometheusReporter) (serverType : string)
    (config : Config.MetricsConfig) (customSpecs : Metrics.CustomMetricsSpec) :=
  Metrics.GetPrometheusReporter once serverType (Config.Metrics_App config)
    (Some (Config.ConstLabels config)) (Config.AdditionalLabels config) customSpecs.
Definition CreateStatsdReporter (dial : result unit) (serverType : string)
    (config : Config.MetricsConfig) : result Metrics.StatsdReporter :=
  Metrics.NewStatsdReporter false dial serverType (map_to_list (Config.ConstLabels config)).

(** Registering the framework's metrics writes the application's name and the
    server type into the map of constant labels the configuration holds. *)
Definition label_config (serverType : string) (config : Config.MetricsConfig) : Config.MetricsConfig :=
  Config.mkMetrics (Config.Metrics_App config) (Config.Metrics_Period config)
    (Config.AdditionalLabels config)
    (<["serverType" := serverType]> (<["app" := Config.Metrics_App config]> (Config.ConstLabels config)))
    (Config.Custom config) (Config.Prometheus config) (Config.Statsd config).

(** A reporter that cannot be made is left out. *)
Definition addDefaultPrometheus (once : option Metrics.PrometheusReporter) (config : Config.MetricsConfig)
    (customMetrics : Metrics.CustomMetricsSpec) (reporters : list reporter) (serverType : string)
  : result (Config.MetricsConfig * list reporter) :=
  match CreatePrometheusReporter once serverType config customMetrics with
  | Ok (_, prometheus) =>
      Ok (match once with None => label_config serverType config | Some _ => config end,
          reporters ++ [RPrometheus prometheus])
  | Err _ => Ok (config, reporters)
  | Panics p => Panics p
  end.
Definition addDefaultStatsd (dial : result unit) (config : Config.MetricsConfig)
    (reporters : list reporter) (serverType : string) : result (list reporter) :=
  match CreateStatsdReporter dial serverType config with
  | Ok statsd => Ok (reporters ++ [RStatsd statsd])
  | Err _ => Ok reporters
  | Panics p => Panics p
  end.

(** The reporters the configuration asks for. *)
Definition default_reporters (once : option Metrics.PrometheusReporter) (dial : result unit)
    (serverType : string) (config : Config.MetricsConfig) : result (list reporter) :=
  '(config, reporters) ← (if Config.Prometheus_Enabled (Config.Prometheus config)
                          then addDefaultPrometheus once config (Config.Custom config) [] serverType
                          else Ok (config, []));
  if Config.Statsd_Enabled (Config.Statsd config)
  then addDefaultStatsd dial config reporters serverType
  else Ok reporters.

(** What [Build] puts together; a hook is run on the application. *)
Record Builder := mkBuilder {
  b_postBuildHooks : list (App -> App);
  b_MetricsReporters : list reporter;
  b_Config : Config.Config;
  b_Server : Discovery.Server;
  b_Router : Router.Router;
  b_ServiceDiscovery : Discovery.etcdServiceDiscovery;
  b_RPCServer : NatsRPCServer;
  b_RPCClient : NatsRPCClient;
  b_Pool : WorkerPool.WorkerPool;
  b_Serializer : Serializer;
  b_Hooks : Pipeline.Hooks Ctx.heap (option Ctx.ctx) (option (value M))
}.

(** The id of the server: its type and number, or a new uuid. *)
Definition server_id (serverType : string) (id : Z) (uuid : string) : string :=
  if (0 <? id)%Z then serverType +:+ ":" +:+ GoStd.GoStd.FormatInt id else uuid.

(** [NewBuilder]; a failed part is a fatal log entry. *)
Definition NewBuilder (serverType : string) (serverMetadata : option (gmap string string))
    (config : Config.Config) (uuid : string) (hostname : result string)
    (once : option Metrics.PrometheusReporter) (dial : result unit)
    (json proto : Serializer) : result Builder :=
  let serverId := server_id serverType (Config.ServerID config) uuid in
  let metadata := <["id" := serverId]> (default ∅ serverMetadata) in
  let server := Discovery.NewServer serverId serverType [metadata] hostname in
  reporters ← default_reporters once dial serverType (Config.MetricsC config);
  let sd := Discovery.NewEtcdServiceDiscovery (Config.SD_Etcd (Config.SD (Config.Cluster config))) server false in
  let pool := WorkerPool.NewWorkerPool (Config.PoolSize config) (Config.QueueSize config)
                (Config.ClearInterval config) (Config.ClearTimePass config) in
  natsServer ← NewNatsRPCServer (Config.RPC_Server_Nats (Config.RPC (Config.Cluster config))) server true;
  rpcClient ← NewNatsRPCClient (Config.RPC_Client_Nats (Config.RPC (Config.Cluster config))) server;
  serializer ← NewSerializer json proto (Config.SerializerType config);
  Ok (mkBuilder [] reporters config server Router.New sd natsServer rpcClient pool serializer
        Pipeline.NewRemoteHooks).

Definition AddPostBuildHook (b : Builder) (hook : App -> App) : Builder :=
  mkBuilder (b_postBuildHooks b ++ [hook]) (b_MetricsReporters b) (b_Config b) (b_Server b) (b_Router b)
    (b_ServiceDiscovery b) (b_RPCServer b) (b_RPCClient b) (b_Pool b) (b_Serializer b) (b_Hooks b).

(** [Build]: the router gets the service discovery, the remote service shares
    the router with the application, and the hooks run in their order. *)
Definition Build (b : Builder) (dictionary : Message.Dict) : App :=
  let D := Router.of_node (b_ServiceDiscovery b) in
  let r := Router.SetServiceDiscovery (b_Router b) (Some D) in
  let app := NewApp (Some r) (b_Server b) true
    (Some (NewRemoteService (Some D) r (b_Server b) (b_Hooks b))) (b_MetricsReporters b) (b_Config b)
    dictionary in
  foldl (fun app hook => hook app) app (b_postBuildHooks b).

Definition NewDefaultBuilder := NewBuilder.
Definition NewDefaultApp (serverType : string) (serverMetadata : option (gmap string string))
    (config : Config.Config) (uuid : string) (hostname : result string)
    (once : option Metrics.PrometheusReporter) (dial : result unit)
    (json proto : Serializer) (dictionary : Message.Dict) : result App :=
  b ← NewDefaultBuilder serverType serverMetadata config uuid hostname once dial json proto;
  Ok (Build b dictionary).

(** ** Properties *)

(** The array and the map of the modules agree, and names are unique. *)
Definition modules_ok (app : App) : Prop :=
  NoDup (modulesArr app).*1 /\
  forall name m, modulesMap app !! name = Some m <-> (name, m) ∈ modulesArr app.

Lemma register_ok app m name app' :
  modules_ok app ->
  RegisterModuleAfter app m name = Ok app' \/ RegisterModuleBefore app m name = Ok app' ->
  modules_ok app' /\ name ∉ (modulesArr app).*1.
Proof.
  intros [Hnd Hm] H. unfold RegisterModuleAfter, RegisterModuleBefore, alreadyRegistered in H.
  destruct (modulesMap app !! name) as [x|] eqn:E; [by destruct H|].
  assert (name ∉ (modulesArr app).*1) as Hn.
  { rewrite list_elem_of_fmap. intros ([n x] & -> & Hin). apply Hm in Hin. cbn in E. congruence. }
  split; [|done].
  assert (app' = set_modules app (<[name := m]> (modulesMap app)) (modulesArr app ++ [(name, m)]) \/
          app' = set_modules app (<[name := m]> (modulesMap app)) ((name, m) :: modulesArr app)) as Ha
    by (destruct H as [[= <-]|[= <-]]; auto).
  assert (forall arr, arr ≡ₚ (name, m) :: modulesArr app ->
    modules_ok (set_modules app (<[name := m]> (modulesMap app)) arr)) as Hok.
  { intros arr Hp. split; cbn.
    - rewrite Hp. cbn. by constructor.
    - intros n x. rewrite Hp, lookup_insert_Some, elem_of_cons, <-Hm. split.
      + intros [[-> ->]|[_ ?]]; auto.
      + intros [[= -> ->]|Hl]; [by left|]. right. split; [|done]. intros ->. congruence. }
  destruct Ha as [->| ->]; apply Hok; [|done]. by rewrite Permutation_app_comm.
Qed.

Lemma init_modules_ok ms :
  Forall (fun '(_, m) => mod_Init m = Ok tt) ms ->
  init_modules ms = ((fun '(name, _) => ModInit name) <$> ms, Ok tt).
Proof.
  induction 1 as [|[name m] ms Hm Hms IH]; [done|]. cbn. by rewrite Hm, IH.
Qed.

Lemma register_builtin_ok app s c d app' :
  register_builtin app s c d = Ok app' ->
  modulesArr app' = ("rpcClient", c) :: ("rpcServer", s) :: modulesArr app ++ [("serviceDiscovery", d)] /\
  remoteComp app' = remoteComp app /\ settings app' = settings app.
Proof.
  unfold register_builtin, RegisterModuleBefore, RegisterModuleAfter. intros H. outcome_inv.
  repeat match goal with H : context [alreadyRegistered ?a ?n] |- _ =>
    destruct (alreadyRegistered a n); [done|] end.
  outcome_inv. done.
Qed.

(** C25: the application starts from the inside out and stops in reverse: in
    a run in which every module starts, components are initialised first,
    then the RPC client, the RPC server, the registered modules in their
    order and, last, service discovery, so that the server is announced only
    when it is ready; and on shutdown every stage visits the modules, then
    the components, in the reverse order, service discovery first. *)
Theorem lifecycle_order (upper : string -> bool) (app app' : App) (s c d : Module_) (w : wakeup)
    (evs : list event) :
  Forall (fun '(_, m) => mod_Init m = Ok tt) (("", s) :: ("", c) :: ("", d) :: modulesArr app) ->
  Start upper app s c d w = (evs, Ok app') ->
  let names := "rpcClient" :: "rpcServer" :: (modulesArr app).*1 ++ ["serviceDiscovery"] in
  let comps := seq 0 (length (remoteComp app)) in
  running app' = false /\
  evs = [ReportsEvery (periodicMetrics app)] ++ (CompInit <$> comps) ++ (CompAfterInit <$> comps) ++
        (ModInit <$> names) ++ (ModAfterInit <$> names) ++
        (ModBeforeShutdown <$> reverse names) ++ (ModShutdown <$> reverse names) ++
        (CompBeforeShutdown <$> reverse comps) ++ (CompShutdown <$> reverse comps).
Proof.
  intros Hinit H. unfold Start in H.
  destruct (register_builtin app s c d) as [app1| |] eqn:E; [|done..].
  destruct (register_builtin_ok _ _ _ _ _ E) as (Harr & Hcomp & Hset).
  unfold start, startModules in H. cbn [startupComponents modulesArr fst snd] in H.
  assert (Forall (fun '(_, m) => mod_Init m = Ok tt) (modulesArr app1)) as Hall.
  { rewrite Harr. rewrite !Forall_cons, Forall_app, Forall_singleton in *. tauto. }
  unfold startupComponents in H. cbn [modulesArr] in H. rewrite init_modules_ok in H by done.
  assert (forall (f : string -> event) l, (fun '(name, _) => f name) <$> l = f <$> (l : list (string * Module_)).*1) as Hf.
  { intros f l. rewrite <-list_fmap_compose. apply list_fmap_ext. by intros ? [] ?. }
  intros names comps.
  assert ((modulesArr app1).*1 = names) as Hn by (rewrite Harr; cbn; rewrite fmap_app; done).
  assert (running app' = false /\ evs = ReportsEvery (periodicMetrics app) :: (((CompInit <$> comps) ++ (CompAfterInit <$> comps)) ++
     ((ModInit <$> names) ++ (ModAfterInit <$> names))) ++
     ((ModBeforeShutdown <$> reverse names) ++ (ModShutdown <$> reverse names)) ++
     ((CompBeforeShutdown <$> reverse comps) ++ (CompShutdown <$> reverse comps))) as [Hr ->].
  { unfold comps, periodicMetrics. rewrite <-Hn, <-Hcomp, <-Hset, <-fmap_reverse.
    unfold shutdownModules, shutdownComponents in H. cbn [modulesArr remoteComp set_running] in H.
    rewrite !Hf in H. destruct w; [by simplify_eq|].
    cbn [dieChan_closed set_running] in H. destruct (dieChan_closed app1); by simplify_eq. }
  split; [done|]. by rewrite <-!app_assoc.
Qed.

(** Routes and the dictionary are frozen while the application runs: both
    operations are refused with their error and change nothing; before, they
    take effect, a new route also for the calls of the remote service, which
    shares the router. *)
Theorem frozen_while_running (app : App) (r : Router.Router) (ty : string) (f : Router.RoutingFunc)
    (dict : option (list (string * Z))) :
  router app = Some r ->
  if running app then
    AddRoute app ty f = (app, Some (ESentinel ErrChangeRouteWhileRunning)) /\
    SetDictionary app dict = (app, Some (ESentinel ErrChangeDictionaryWhileRunning))
  else
    (exists app', AddRoute app ty f = (app', None) /\
       router app' = Some (Router.AddRoute r ty f) /\
       (forall rs, remoteService app = Some rs -> exists rs', remoteService app' = Some rs' /\
          Remote.router rs' = Router.AddRoute r ty f /\ remotes rs' = remotes rs)) /\
    (exists app', SetDictionary app dict = (app', (Message.SetDictionary (dictionary app) dict).2) /\
       dictionary app' = (Message.SetDictionary (dictionary app) dict).1).
Proof.
  intros Hr. unfold AddRoute, SetDictionary. rewrite Hr. destruct (running app) eqn:E; [done|]. split.
  - eexists. split; [done|]. split; [done|]. intros rs Hrs. cbn. rewrite Hrs. cbn. by eexists.
  - destruct (Message.SetDictionary (dictionary app) dict) as [dd err]. by eexists.
Qed.

(** Stopping twice is stopping once: the die channel is closed by the
    first call and later calls do nothing, so the application cannot panic
    by closing it again. *)
Theorem Shutdown_idempotent (app : App) :
  dieChan_closed (Shutdown app) = true /\ Shutdown (Shutdown app) = Shutdown app /\
  running (Shutdown app) = running app.
Proof. unfold Shutdown. destruct (dieChan_closed app) eqn:E; cbn; [by rewrite E|done]. Qed.

Section Self.
Context {Ch : Router.Choice} {ChL : Router.ChoiceLaws Ch}.

(** The server is this one. *)
Definition is_self (app : App) (sv : Discovery.Server) : Prop :=
  Discovery.ID sv = Discovery.ID (server app) /\ Discovery.Type_ sv = Discovery.Type_ (server app).

Definition client : Type :=
  option Ctx.ctx -> Route.Route -> Message.Message -> option Discovery.Server -> Store.st Response.

Lemma remoteCall_ext (f g : client) (rs : RemoteService (M := M)) c srv route msg h :
  (forall c sv, (srv = Some sv \/ (srv = None /\
     exists c0, Router.Route (Remote.router rs) c0 (Route.SvType route) route (Some msg) = (c, Ok (Some sv)))) ->
     f c route msg (Some sv) = g c route msg (Some sv)) ->
  (srv = None -> forall c0, (Router.Route (Remote.router rs) c0 (Route.SvType route) route (Some msg)).2 <> Ok None) ->
  remoteCall f rs c srv route msg h = remoteCall g rs c srv route msg h.
Proof.
  intros Hfg Hn. unfold remoteCall, mbind, Store.st_bind. destruct srv as [sv|]; cbn.
  - rewrite (Hfg c sv); auto.
  - specialize (Hn eq_refl c).
    destruct (Router.Route _ c _ route (Some msg)) as [c' [[sv|]|e|p]] eqn:E; cbn in *; try done.
    + rewrite (Hfg c' sv); [done|]. right. split; [done|]. eauto.
    + unfold Store.lift. destruct e as [| | |[]]; reflexivity.
Qed.

Lemma RPC_ext (f g : client) (rs : RemoteService (M := M)) c id mt route reply arg h :
  (forall data h, DoRPC f rs c id mt route data h = DoRPC g rs c id mt route data h) ->
  Remote.RPC f rs c id mt route reply arg h = Remote.RPC g rs c id mt route reply arg h.
Proof.
  intros Hd. unfold Remote.RPC, mbind, Store.st_bind.
  destruct arg as [a|]; cbn; [|by rewrite Hd].
  unfold Store.lift. destruct (pm_marshal a); [|done..]. by rewrite Hd.
Qed.

(** C24: a server never calls itself: over a lawful service discovery and
    without a custom route for the type, the outcome of any call or
    notification of the application does not depend on what the RPC client
    would do with this server as the target. *)
Theorem never_calls_itself (app : App) (rs : RemoteService (M := M)) (D : Router.ServiceDiscovery)
    (f g : client) (c : option Ctx.ctx) (serverID routeStr : string) (mt : byte)
    (reply : option Type_) (arg : option M) (h : Ctx.heap) :
  Router.ServiceDiscoveryLaws D ->
  remoteService app = Some rs -> Remote.serviceDiscovery rs = Some D ->
  Router.serviceDiscovery (Remote.router rs) = Some D ->
  (forall r, Route.Decode routeStr = Ok r -> Router.routesMap (Remote.router rs) !! Route.SvType r = None) ->
  (forall c r m sv, ~ is_self app sv -> f c r m (Some sv) = g c r m (Some sv)) ->
  doSendRPC f app c serverID routeStr mt reply arg h = doSendRPC g app c serverID routeStr mt reply arg h.
Proof.
  intros HD Hrs Hsd Hrsd Hroute Hfg. unfold doSendRPC. destruct (negb _); [done|].
  destruct (_ && _); [done|]. destruct (Route.Decode routeStr) as [r| |] eqn:Er; [|done..].
  destruct (bool_decide (Route.SvType r = EmptyString)); [done|].
  destruct (_ || _) eqn:Eself; [done|]. rewrite Hrs.
  apply orb_false_iff in Eself as [E1 E2]. apply bool_decide_eq_false in E2.
  apply RPC_ext. intros data h'. unfold DoRPC. destruct (decide (serverID = EmptyString)) as [Hid|Hid].
  - rewrite (bool_decide_eq_true_2 _ Hid) in E1 |- *. rewrite andb_true_r in E1. apply bool_decide_eq_false in E1.
    apply remoteCall_ext.
    + intros c' sv [|[_ [c0 Hr]]]; [done|]. apply Hfg. intros [_ Hty].
      destruct (Router.Route_default_spec (Remote.router rs) D c0 (Route.SvType r) r
        (Some (Message.mkMessage mt 0 (Route.Short r) data false false)) HD Hrsd (Hroute r eq_refl))
        as [(m & sv' & _ & _ & Ht & Hr')|[_ Hr']]; [|congruence].
      rewrite Hr in Hr'. injection Hr' as _ ->. congruence.
    + intros _ c0.
      destruct (Router.Route_default_spec (Remote.router rs) D c0 (Route.SvType r) r
        (Some (Message.mkMessage mt 0 (Route.Short r) data false false)) HD Hrsd (Hroute r eq_refl))
        as [(m & sv' & _ & _ & Ht & ->)|[_ ->]]; done.
  - rewrite (bool_decide_eq_false_2 _ Hid), Hsd. destruct (Router.sd_GetServer serverID) as [sv| |] eqn:Eg; [|done..].
    apply remoteCall_ext; [|done]. intros c' sv' [[= <-]|[? _]]; [|done]. apply Hfg.
    intros [Hi _]. apply E2. rewrite <-Hi. symmetry. by eapply Router.get_server_id.
Qed.

(** A call without a server id, once routed, is the call of the server the
    router chose. *)
Lemma DoRPC_routed (rs : RemoteService (M := M)) (D : Router.ServiceDiscovery) (f : client) c sv mt r data h :
  Remote.serviceDiscovery rs = Some D -> Router.sd_GetServer (Discovery.ID sv) = Ok sv ->
  Discovery.ID sv <> EmptyString ->
  (forall c msg, Router.Route (Remote.router rs) c (Route.SvType r) r msg = (c, Ok (Some sv))) ->
  DoRPC f rs c EmptyString mt r data h = DoRPC f rs c (Discovery.ID sv) mt r data h.
Proof.
  intros Hsd Hget Hid Hr. unfold DoRPC. rewrite (bool_decide_eq_false_2 _ Hid), Hsd, Hget.
  change (bool_decide (EmptyString = EmptyString)) with true. cbv iota.
  unfold remoteCall. by rewrite Hr.
Qed.

(** C23: [RPC] and [Notify] without a server id are [RPCTo] and [NotifyTo] for
    a server of the route's type that the discovery lists, so that what is
    proved of calls to a known server holds of routed ones: over a lawful
    discovery that knows this server by its own id, without a custom route,
    for a type other than the server's own. When the discovery lists no
    server of the type, every such call fails without the client being
    called. *)
Theorem RPC_is_RPCTo (app : App) (rs : RemoteService (M := M)) (D : Router.ServiceDiscovery)
    (f : client) (c : option Ctx.ctx) (r : Route.Route) :
  Router.ServiceDiscoveryLaws D ->
  remoteService app = Some rs -> Remote.serviceDiscovery rs = Some D ->
  Router.serviceDiscovery (Remote.router rs) = Some D ->
  Router.routesMap (Remote.router rs) !! Route.SvType r = None ->
  Route.wf_route r -> Route.SvType r <> EmptyString -> Route.SvType r <> Discovery.Type_ (server app) ->
  (forall s, Router.sd_GetServer (Discovery.ID (server app)) = Ok s -> s = server app) ->
  Discovery.ID (server app) <> EmptyString -> (forall s, Router.sd_GetServer EmptyString <> Ok s) ->
  (exists m sv, Router.sd_GetServersByType (Route.SvType r) = Ok m /\ m !! Discovery.ID sv = Some sv /\
     forall reply arg h,
       RPC f app c (Route.String_ r) reply arg h = RPCTo f app c (Discovery.ID sv) (Route.String_ r) reply arg h /\
       Notify f app c (Route.String_ r) arg h = NotifyTo f app c (Discovery.ID sv) (Route.String_ r) arg h) \/
  (Router.sd_GetServersByType (Route.SvType r) = Err (ESentinel ErrNoServersAvailableOfType) /\
     forall reply arg h,
       (exists out, RPC f app c (Route.String_ r) reply arg h = (h, out) /\ is_ok out = false) /\
       (exists out, Notify f app c (Route.String_ r) arg h = (h, out) /\ is_ok out = false)).
Proof.
  intros HD Hrs Hsd Hrsd Hroute Hwf Hty Hown Hself Hne0 Hempty.
  destruct (Router.Route_default_uniform (Remote.router rs) D (Route.SvType r) r HD Hrsd Hroute)
    as [(m & sv & Hm & Hl & Hsv & Hr)|[Hm Hr]]; [left|right].
  - assert (Router.sd_GetServer (Discovery.ID sv) = Ok sv) as Hget by (by eapply Router.by_type_get).
    assert (Discovery.ID sv <> EmptyString) as Hid by (intros E; rewrite E in Hget; by eapply Hempty).
    assert (Discovery.ID sv <> Discovery.ID (server app)) as Hne.
    { intros E. rewrite E in Hget. apply Hself in Hget as ->. congruence. }
    assert (forall mt reply arg h, doSendRPC f app c EmptyString (Route.String_ r) mt reply arg h =
      doSendRPC f app c (Discovery.ID sv) (Route.String_ r) mt reply arg h) as H.
    { intros mt reply arg h. unfold doSendRPC. rewrite (Route.Decode_String r Hwf).
      rewrite !(bool_decide_eq_false_2 _ Hown), (bool_decide_eq_false_2 _ Hne). cbn [andb orb].
      destruct (negb _); [done|]. destruct (_ && _); [done|]. destruct (bool_decide _); [done|].
      rewrite (bool_decide_eq_false_2 (EmptyString = Discovery.ID (server app))), Hrs.
      - unfold Remote.RPC, mbind, Store.st_bind. destruct arg as [a|]; cbn.
        + unfold Store.lift. destruct (pm_marshal a); [|done..]. by rewrite (DoRPC_routed rs D f c sv).
        + by rewrite (DoRPC_routed rs D f c sv).
      - auto. }
    exists m, sv. split_and!; [done..|]. intros. split; apply H.
  - split; [done|].
    assert (forall mt reply arg h, exists out,
      doSendRPC f app c EmptyString (Route.String_ r) mt reply arg h = (h, out) /\ is_ok out = false) as H.
    { intros mt reply arg h. unfold doSendRPC. rewrite (Route.Decode_String r Hwf), Hrs.
      destruct (negb _); [by eexists|]. destruct (_ && _); [by eexists|].
      destruct (bool_decide (Route.SvType r = EmptyString)); [by eexists|]. destruct (_ || _); [by eexists|].
      assert (forall data, exists out, DoRPC f rs c EmptyString mt r data h = (h, out) /\ is_ok out = false) as Hd.
      { intros data. unfold DoRPC. change (bool_decide (EmptyString = EmptyString)) with true. cbv iota.
        unfold remoteCall. rewrite Hr. by eexists. }
      unfold Remote.RPC, mbind, Store.st_bind. destruct arg as [a|]; cbn.
      - unfold Store.lift. destruct (pm_marshal a) as [data| |]; [|by eexists..].
        destruct (Hd data) as ([| |] & -> & Ho); [done|by eexists..].
      - destruct (Hd []) as ([| |] & -> & Ho); [done|by eexists..]. }
    intros. split; apply H.
Qed.

End Self.

(** The default configuration makes a working application: every part is
    built, the RPC server has its semaphore, the pool has 128 queues, the
    rate limiter has a positive limit and the lease is retried, so none of
    the failures that a zero would cause can occur. *)
Theorem default_config_builds (serverType uuid : string) (metadata : option (gmap string string))
    (hostname : result string) (once : option Metrics.PrometheusReporter) (dial : result unit)
    (json proto : Serializer) :
  exists b, NewBuilder serverType metadata Config.NewDefaultConfig uuid hostname once dial json proto = Ok b /\
    sempWeighted (b_RPCServer b) = Some 256%Z /\ GetName (b_Serializer b) = "json" /\
    b_Pool b = WorkerPool.default_pool /\
    (0 < Config.rl_Limit (Config.Conn_RateLimiting (b_Config b)))%Z /\
    (1 < Discovery.grantLeaseMaxRetries (Discovery.conf (b_ServiceDiscovery b)))%Z /\
    Discovery.wf (b_ServiceDiscovery b) /\ Discovery.ID (b_Server b) = uuid.
Proof.
  eexists. split; [reflexivity|]. split_and!; try done.
  apply Discovery.wf_empty; done.
Qed.

End App.

(** ** Witnesses *)

Definition idle : Module_ := mkModule (Ok tt).
Definition ex_app : App (M := nat) :=
  Register (set_modules (NewApp (Some Router.New) Discovery.sv_game true None [] Config.NewDefaultConfig Message.empty_dict)
              {["store" := idle]} [("store", idle)]) counter [].

Lemma lifecycle_order_witness :
  exists evs app', Start no_upper ex_app idle idle idle Signalled = (evs, Ok app') /\
    head evs = Some (ReportsEvery (15 * Config.Second)) /\ last evs = Some (CompShutdown 0).
Proof.
  destruct (Start no_upper ex_app idle idle idle Signalled) as [evs [app'| |]] eqn:E;
    [|exfalso; by vm_compute in E..].
  exists evs, app'. split; [done|].
  destruct (lifecycle_order no_upper ex_app app' idle idle idle Signalled evs) as [_ ->];
    [by repeat constructor|done|]. split; reflexivity.
Defined.

Lemma frozen_while_running_witness :
  AddRoute (set_running ex_app true) "chat" Router.refuse =
    (set_running ex_app true, Some (ESentinel ErrChangeRouteWhileRunning)).
Proof.
  apply (frozen_while_running (set_running ex_app true) Router.New "chat" Router.refuse None).
  reflexivity.
Defined.

Definition ex_service : RemoteService (M := nat) :=
  NewRemoteService (Some (Router.of_node Router.chat_node))
    (Router.SetServiceDiscovery Router.New (Some (Router.of_node Router.chat_node)))
    Discovery.sv_game Pipeline.NewRemoteHooks.
Definition ex_app2 : App (M := nat) :=
  NewApp (Some (Remote.router ex_service)) Discovery.sv_game true (Some ex_service) []
    Config.NewDefaultConfig Message.empty_dict.
(** A client that succeeds only for itself, and one that always fails. *)
Definition selfish : client := fun _ _ _ t h =>
  (h, match t with
      | Some sv => if decide (is_self ex_app2 sv) then Ok (mkResponse [] None) else Err nats_ErrTimeout
      | None => Err nats_ErrTimeout
      end).
Definition broken : client := fun _ _ _ _ h => (h, Err nats_ErrTimeout).

(** A client that reaches the chat server only. *)
Definition chatty : client := fun _ _ _ t h =>
  (h, if decide (Discovery.ID <$> t = Some "c1") then Ok (mkResponse [] None) else Err nats_ErrTimeout).

Lemma RPC_is_RPCTo_witness :
  Notify (Ch := Router.first_choice) chatty ex_app2 None "chat.room.join" None ∅ =
    NotifyTo (Ch := Router.first_choice) chatty ex_app2 None "c1" "chat.room.join" None ∅ /\
  Notify (Ch := Router.first_choice) chatty ex_app2 None "chat.room.join" None ∅ = (∅, Ok None).
Proof.
  split; [|vm_compute; reflexivity].
  assert (Route.wf_route Router.a_route) as Hwf by (split_and!; try reflexivity; by right).
  destruct (RPC_is_RPCTo (Ch := Router.first_choice) (ChL := Router.first_choice_laws) ex_app2 ex_service
    (Router.of_node Router.chat_node) chatty None Router.a_route (Router.of_node_laws _ Router.chat_node_wf)
    eq_refl eq_refl eq_refl eq_refl Hwf ltac:(done) ltac:(done) ltac:(done) ltac:(done) ltac:(done))
    as [(m & sv & Hm & Hl & H)|[H _]]; [|by vm_compute in H].
  assert (m = {["c1" := Discovery.sv_chat]}) as -> by (vm_compute in Hm; injection Hm as <-; reflexivity).
  apply lookup_singleton_Some in Hl as [_ <-]. exact (proj2 (H None None ∅)).
Defined.

Lemma never_calls_itself_witness :
  doSendRPC (Ch := Router.first_choice) selfish ex_app2 None "" "chat.room.join" Message.Notify None None ∅ =
  doSendRPC (Ch := Router.first_choice) broken ex_app2 None "" "chat.room.join" Message.Notify None None ∅.
Proof.
  apply (never_calls_itself (Ch := Router.first_choice) (ChL := Router.first_choice_laws) ex_app2 ex_service
    (Router.of_node Router.chat_node)).
  - apply Router.of_node_laws, Router.chat_node_wf.
  - reflexivity.
  - reflexivity.
  - reflexivity.
  - done.
  - intros c r m sv Hs. unfold selfish, broken. by rewrite decide_False.
Defined.

End App.
