(* ===== verification/EndToEnd.v ===== *)
(** * A remote procedure call from application to method and back

    The application of [rpc.go], the remote service of [service/remote.go] on
    both sides, and the client and server of [cluster/] between them. *)

From S2P Require Import Prelude Utf8 Errors GoStd Duration Message Route Context Metrics Pipeline Discovery Router Component Store Protos Nats Remote Calls Config App.
From Stdlib Require Import Strings.Byte.
Import GoStd Ctx Store Protos Component Pipeline Tracing Nats Remote Calls Config App.

Module EndToEnd.

Section Calls.
Context {M : Type} {PM : ProtoMsg M} {Ch : Router.Choice}.
Context {J : Json} {P : Wire} {T : Tracer}.
Context {JL : JsonLaws J} {PL : WireLaws P}.
Hypothesis extract_returns : forall carrier p, tracer_extract carrier <> Panics p.

(** The RPC client of an application, over a connection. *)
Definition nats_client {C : Conn} (ns : NatsRPCClient) (nuid : string) (now done : Z) : App.client :=
  fun c route msg server => '(_, r) ← Nats.Call ns nuid now done [] tt c route msg server; lift r.

(** The message [DoRPC] makes of a route and the argument's bytes. *)
Definition rpc_message (route : Route.Route) (bs : list byte) : Message.Message :=
  Message.mkMessage Message.Request 0 (Route.Short route) bs false false.

(** The metadata of an error. *)
Definition error_metadata (err : error) : gmap string string :=
  match err with ENrpc (Some e) => smap_get (Metadata e) | _ => ∅ end.

(** What the caller of [RPCTo] gets for a response. *)
Definition seen_by_caller (reply : Type_) (res : Response) : result (option M) :=
  match as_returned res with
  | Ok r => m ← pm_unmarshal reply (rs_Data r); Ok (Some m)
  | Err e => Err e
  | Panics p => Panics p
  end.

(** The caller's application knows the server [srv], which is another one. *)
Record knows (app : App (M := M)) (srv : Discovery.Server) : Prop := {
  k_rpc : rpcServer app = true;
  k_server : exists rs SD, remoteService app = Some rs /\ Remote.serviceDiscovery rs = Some SD /\
    Router.sd_GetServer (Discovery.ID srv) = Ok srv;
  k_other : Discovery.ID srv <> Discovery.ID (server app);
  k_id : Discovery.ID srv <> EmptyString
}.

(** [RPCTo] is the call of the client, when the server is known. *)
Lemma RPCTo_calls (f : App.client) (app : App) srv c route reply a bs h h' r :
  knows app srv -> Route.wf_route route -> Route.SvType route <> EmptyString -> kind_of reply = Ptr ->
  pm_marshal a = Ok bs ->
  f (Some c) route (rpc_message route bs) (Some srv) h = (h', r) ->
  (forall res, r = Ok res -> rs_Error res = None) ->
  RPCTo f app (Some c) (Discovery.ID srv) (Route.String_ route) (Some reply) (Some a) h =
    (h', res ← r; m ← pm_unmarshal reply (rs_Data res); Ok (Some m)).
Proof.
  intros [Hrpc (rs & SD & Hrs & Hsd & Hget) Hother Hid] Hwf Hty Hptr Hbs Hf Hr.
  unfold RPCTo, doSendRPC. rewrite Hrpc. cbn [negb]. rewrite (bool_decide_eq_false_2 (kind_of reply <> Ptr)) by auto.
  rewrite andb_false_r, (Route.Decode_String route Hwf).
  rewrite !(bool_decide_eq_false_2 (_ = EmptyString)) by done.
  rewrite andb_false_r, (bool_decide_eq_false_2 _ Hother). cbn [orb]. rewrite Hrs.
  unfold Remote.RPC. rewrite (bind_lift_ok _ bs) by done. unfold DoRPC.
  rewrite (bool_decide_eq_false_2 _ Hid), Hsd, Hget.
  unfold remoteCall. cbv beta iota.
  unfold mbind at 1, st_bind at 1. unfold mbind at 1, st_bind at 1. cbn [mret st_ret].
  fold (rpc_message route bs). rewrite Hf. destruct r as [res|e|p]; [|done..].
  rewrite (Hr res eq_refl). unfold mbind, st_bind, lift, outcome_bind.
  by destruct (pm_unmarshal reply (rs_Data res)).
Qed.

(** The method a route leads to on the called server: it is registered, takes
    a pointer to a message, and no hooks are set. *)
Record serves (callee : RemoteService (M := M)) (route : Route.Route) (rem : Remote (M := M))
    (argT : Type_) : Prop := {
  sv_remote : remotes callee !! Route.Short route = Some rem;
  sv_args : HasArgs rem = true;
  sv_type : r_Type rem = Some argT;
  sv_ptr : exists n ci e, argT = TNamed n Ptr ci true e;
  sv_hooks : remoteHooks callee = NewRemoteHooks
}.

(** A call runs the method in a context with the caller's values, and the
    caller sees the response to what the method returns. *)
Lemma rpc_response (app : App) (ns : NatsRPCClient) (srv : NatsRPCServer) (callee : RemoteService)
    (rem : Remote) (argT reply : Type_) (route : Route.Route) (a : M) (bs : list byte) (h hs : heap)
    (c : ctx) (carrier : gmap string string) (nuid nuid1 nuid2 inbox : string) (now arrival done : Z) :
  knows app (ns_server srv) -> serves callee route rem argT ->
  Route.wf_route route -> Route.SvType route <> EmptyString -> kind_of reply = Ptr ->
  pm_marshal a = Ok bs -> pm_unmarshal argT bs = Ok a ->
  fresh_call ns srv h c route (rpc_message route bs) carrier nuid now arrival ->
  exists hs1 c' l, ctx_map c' = Some l /\
    map_at hs1 (Some l) = received_map nuid2 (Route.String_ route)
      (json_norm <$> sent_map ns carrier (call_map ns nuid now route (carried h c))) /\
    forall hs2 out res, Func (r_Method rem) hs1 c' (Some (VMsg a)) = (hs2, out) ->
      response_of out (Name (r_Method rem)) = Ok res ->
      (forall e, rs_Error res = Some e -> plain_error e) ->
      exists h', RPCTo (nats_client (C := link srv (Remote.Call callee nuid2) nuid1 arrival inbox hs)
          ns nuid now done) app (Some c) (Discovery.ID (ns_server srv)) (Route.String_ route)
          (Some reply) (Some a) h = (h', seen_by_caller reply res).
Proof.
  intros Hk [Hrem Hargs Hty (n & ci & e & ->) Hhooks] Hwf Hsvt Hptr Hbs Hub Hfc.
  destruct (call_reaches_handler extract_returns ns srv (Remote.Call callee nuid2) h hs c route
    (rpc_message route bs) carrier nuid nuid1 inbox now arrival done Hfc)
    as (b & hs0 & c0 & l0 & Hb & Hj & _ & _ & Hcall).
  destruct (Call_runs callee nuid2 (arrived route (rpc_message route bs) inbox b) _ c0 hs0
    extract_returns Hb Hj) as (hs1 & c' & l & Hl & Hm & Hrun).
  exists hs1, c', l. split_and!; [done|done|]. intros hs2 out res Hf Hres Hplain.
  assert (processRemoteMessage c' (arrived route (rpc_message route bs) inbox b) callee hs1 = (hs2, Ok res)) as Hp.
  { rewrite (process_invoke callee c' (arrived route (rpc_message route bs) inbox b) route rem n ci e a hs1
      (Route.Decode_String route Hwf) Hrem Hargs Hty Hub).
    by rewrite (invoke_response callee rem c' (VMsg a) hs1 hs2 out Hhooks Hargs Hf), Hres. }
  destruct (Hcall hs2 res None (Hrun _ _ Hp) Hplain) as [h' Hc]. exists h'.
  erewrite (RPCTo_calls _ app (ns_server srv) c route reply a bs h h' (as_returned res)); [|done..| |].
  - unfold seen_by_caller. by destruct (as_returned res).
  - unfold nats_client. by rewrite (bind_ok _ _ _ _ _ Hc).
  - intros r. unfold as_returned. destruct (rs_Error (norm_response res)) eqn:E; [done|]. by intros [= <-].
Qed.

(** What the caller sees of an error of the method. *)
Lemma seen_error (reply : Type_) (err : error) (text : string) :
  error_string err = Ok text -> FromError (Some err) <> EmptyString ->
  exists pe e, error_reply err = Ok (mkResponse [] (Some pe)) /\
    pe_Code pe = FromError (Some err) /\ pe_Msg pe = text /\ smap_get (pe_Metadata pe) = error_metadata err /\
    seen_by_caller reply (mkResponse [] (Some pe)) = Err (ENrpc (Some e)) /\
    Errors.Message e = text /\ Code e = FromError (Some err) /\ smap_get (Metadata e) = error_metadata err.
Proof.
  intros Ht Hc. assert (exists pe, error_reply err = Ok (mkResponse [] (Some pe)) /\
    pe_Code pe = FromError (Some err) /\ pe_Msg pe = text /\ smap_get (pe_Metadata pe) = error_metadata err)
    as (pe & Hr & H1 & H2 & H3).
  { unfold error_reply. rewrite Ht. destruct err as [| | |[x|]]; try done; eexists; (split; [reflexivity|]); done. }
  exists pe, (mkError (FromError (Some err)) text (norm_metadata (pe_Metadata pe))).
  split_and!; [done|done|done|done| |done|done|].
  - unfold seen_by_caller, as_returned. cbn [norm_response norm_error rs_Error fmap option_fmap option_map].
    unfold norm_error. cbn [pe_Code pe_Msg pe_Metadata]. rewrite bool_decide_eq_false_2 by (by rewrite H1). by rewrite H1, H2.
  - cbn. rewrite <-H3. unfold norm_metadata. destruct (pe_Metadata pe) as [m|]; [|done].
    by case_decide; subst.
Qed.


End Calls.

(** ** Witnesses *)

(** The game server calls the counter of the chat server, which counts one
    up and panics on zero. *)
Definition game_app : App (M := nat) :=
  let D := Router.of_node Router.chat_node in
  let r := Router.SetServiceDiscovery Router.New (Some D) in
  NewApp (Some r) Discovery.sv_game true
    (Some (NewRemoteService (Some D) r Discovery.sv_game NewRemoteHooks)) [] Config.Config.NewDefaultConfig
    Message.empty_dict.
Definition next_route : Route.Route := Route.NewRoute "chat" "Counter" "Next".

Lemma next_route_wf : Route.wf_route next_route.
Proof. split_and!; try reflexivity. by right. Qed.

Lemma game_knows_chat : knows game_app (ns_server ex_server).
Proof. split; [done| |done|done]. do 2 eexists. split_and!; reflexivity. Qed.
Lemma chat_serves_next : serves counter_service next_route (new_remote next_method) join_arg.
Proof. split; [reflexivity..| |reflexivity]. do 3 eexists. reflexivity. Qed.

Lemma no_tracer_returns carrier p : tracer_extract (Tracer := no_tracer) carrier <> Panics p.
Proof. done. Qed.

Definition call_next (n : nat) : heap * result (option nat) :=
  RPCTo (Ch := Router.first_choice)
    (nats_client (T := no_tracer)
      (C := link ex_server
         (Remote.Call (T := no_tracer) counter_service "r3") "r2" 1500 "inbox" ∅)
      ex_client "r1" 1000 1600)
    game_app (Some ex_ctx) "c1" "chat.Counter.Next" (Some join_arg) (Some n) ex_heap.


End EndToEnd.
