(* ===== verification/Static.v ===== *)
(** * The package-level interface: [static.go], the helpers at the end of
    [app.go], and the constructors that read a configuration

    The default application is a package variable, nil until [Configure] has
    built it. *)

From S2P Require Import Prelude Utf8 Errors GoStd Duration Message Route Context Metrics Discovery Router Store Protos Component Pipeline Nats Remote Calls Config Viper Logger App.
From Stdlib Require Import Strings.Byte.
Import Ctx GoStd Store Protos Nats.Nats Tracing Calls Viper.Viper.

Module Static.

(** ** Helpers of [app.go] *)

(** [Error]. *)
Definition Error (err : option error) (code : string) (metadata : list smap) :=
  NewError err code metadata.

(** [GetDefaultLoggerFromCtx]: the logger of the context, the package's when
    there is none; [is_logger] tells which values are loggers. *)
Definition GetDefaultLoggerFromCtx (is_logger : gval -> option Logger.Logger) (log : Logger.Logger)
    (c : option ctx) : result Logger.Logger :=
  match c with
  | None => Panics NilDereference
  | Some c =>
      match ctx_value c LoggerCtxKey with
      | None | Some (CVal GNil) => Ok log
      | Some (CVal v) => match is_logger v with Some l => Ok l | None => Panics BadTypeAssertion end
      | Some (CMap _) => Panics BadTypeAssertion
      end
  end.

Definition AddMetricTagsToPropagateCtx (c : option ctx) (tags : gmap string string) : st ctx :=
  AddCtx c MetricTagsKey (GTags tags).
Definition AddToPropagateCtx (c : option ctx) (key : string) (val : gval) : st ctx := AddCtx c key val.
Definition GetFromPropagateCtx (c : option ctx) (key : string) : st gval := GetCtx c key.
Definition ExtractSpan {T : Tracer} (c : option ctx) : st (option Z) :=
  reads (fun h => Tracing.ExtractSpan h c).

(** ** [static.go] *)

(** [NewShareKeyContext]: a nil context is replaced by an empty one. *)
Definition NewShareKeyContext (c : option ctx) (shareID : string) : st ctx :=
  AddCtx (Some (default Background c)) ShareIDKey (GStr shareID).

Section Static.
Context {M : Type} {PM : Remote.ProtoMsg M} {V : Type} {VV : Viper V}.

(** [NewBuilderWithConfigs] and [Configure]: the application built from what
    viper has, the defaults filled in. *)
Section Configure.
Variable order : list (string * cval).
Variable decode : cval -> Config.Config -> result Config.Config.
Variable lower : string -> string.
Variable json proto : Serializer.

Definition NewBuilderWithConfigs (serverType : string) (serverMetadata : option (gmap string string))
    (conf : V) (uuid : string) (hostname : result string)
    (once : option Metrics.PrometheusReporter) (dial : result unit) : result (App.Builder (M := M)) :=
  appConfig ← NewConfig decode lower conf;
  App.NewBuilder serverType serverMetadata appConfig uuid hostname once dial json proto.

Definition Configure (serverType : string) (serverMetadata : option (gmap string string))
    (cfgs : list V) (uuid : string) (hostname : result string)
    (once : option Metrics.PrometheusReporter) (dial : result unit) (dictionary : Message.Dict)
  : result (App.App (M := M)) :=
  builder ← NewBuilderWithConfigs serverType serverMetadata (NewViperConfig order cfgs) uuid hostname once dial;
  Ok (App.Build builder dictionary).
End Configure.

(** A call of the package is the call of the default application. *)
Definition default_app (DefaultApp : option (App.App (M := M))) : result (App.App (M := M)) :=
  match DefaultApp with Some app => Ok app | None => Panics NilDereference end.

Section Wrappers.
Variable DefaultApp : option (App.App (M := M)).

Definition GetDieChan : result bool := app ← default_app DefaultApp; Ok (App.GetDieChan app).
Definition SetDebug (b : bool) : result App.App := app ← default_app DefaultApp; Ok (App.SetDebug app b).
Definition SetHeartbeatTime (interval : Z) : result App.App :=
  app ← default_app DefaultApp; Ok (App.SetHeartbeatTime app interval).
Definition GetServerID : result string := app ← default_app DefaultApp; Ok (App.GetServerID app).
Definition GetMetricsReporters : result (list App.reporter) :=
  app ← default_app DefaultApp; Ok (App.GetMetricsReporters app).
Definition GetServer : result Discovery.Server := app ← default_app DefaultApp; Ok (App.GetServer app).
Definition GetServerByID (node : Discovery.sd) (id : string) : result Discovery.Server :=
  _ ← default_app DefaultApp; App.GetServerByID node id.
Definition GetServersByType (node : Discovery.sd) (t : string) :=
  _ ← default_app DefaultApp; App.GetServersByType node t.
Definition GetServers (range : list string) (node : Discovery.sd) : result (list Discovery.Server) :=
  _ ← default_app DefaultApp; Ok (App.GetServers range node).
Definition Start (upper : string -> bool) (s c d : App.Module_) (w : App.wakeup)
  : list App.event * result App.App :=
  match default_app DefaultApp with
  | Ok app => App.Start upper app s c d w
  | Err e => ([], Err e)
  | Panics p => ([], Panics p)
  end.
Definition SetDictionary (dict : option (list (string * Z))) : result (App.App * option error) :=
  app ← default_app DefaultApp; Ok (App.SetDictionary app dict).
Definition AddRoute (serverType : string) (f : Router.RoutingFunc) : result (App.App * option error) :=
  app ← default_app DefaultApp; Ok (App.AddRoute app serverType f).
Definition Shutdown : result App.App := app ← default_app DefaultApp; Ok (App.Shutdown app).
Definition IsRunning : result bool := app ← default_app DefaultApp; Ok (App.IsRunning app).
Definition Register (c : Component.Comp M) (options : list Component.Option_) : result App.App :=
  app ← default_app DefaultApp; Ok (App.Register app c options).
Definition RegisterModule (m : App.Module_) (name : string) : result App.App :=
  app ← default_app DefaultApp; App.RegisterModule app m name.
Definition RegisterModuleAfter (m : App.Module_) (name : string) : result App.App :=
  app ← default_app DefaultApp; App.RegisterModuleAfter app m name.
Definition RegisterModuleBefore (m : App.Module_) (name : string) : result App.App :=
  app ← default_app DefaultApp; App.RegisterModuleBefore app m name.
Definition GetModule (name : string) : result App.Module_ :=
  app ← default_app DefaultApp; App.GetModule app name.

Section Calls.
Context {Ch : Router.Choice}.
Variable rpcClient_Call : App.client.
Definition RPC (c : option ctx) (routeStr : string) (reply : option Component.Type_) (arg : option M)
  : st (option M) :=
  app ← lift (default_app DefaultApp); App.RPC rpcClient_Call app c routeStr reply arg.
Definition RPCTo (c : option ctx) (serverID routeStr : string) (reply : option Component.Type_)
    (arg : option M) : st (option M) :=
  app ← lift (default_app DefaultApp); App.RPCTo rpcClient_Call app c serverID routeStr reply arg.
Definition Notify (c : option ctx) (routeStr : string) (arg : option M) : st (option M) :=
  app ← lift (default_app DefaultApp); App.Notify rpcClient_Call app c routeStr arg.
Definition NotifyTo (c : option ctx) (serverID routeStr : string) (arg : option M) : st (option M) :=
  app ← lift (default_app DefaultApp); App.NotifyTo rpcClient_Call app c serverID routeStr arg.
End Calls.
End Wrappers.

End Static.

(** ** A share id reaches its queue *)

Lemma AddCtx_carried c key v h h' c' :
  AddCtx c key v h = (h', Ok c') ->
  exists l, ctx_map c' = Some l /\ carried h' c' !! key = Some v.
Proof.
  unfold AddCtx, updates, Ctx.AddToPropagateCtx. intros H.
  destruct (ToMap h c) as [[h0 [l|]]|e|p]; try done; cbn in H.
  - destruct (with_value c PropagateCtxKey (CMap (Some l))) as [c0|e|p] eqn:E; [|done..].
    cbn in H. injection H as <- <-. unfold with_value in E. destruct c as [c|]; [|done].
    injection E as <-. exists l. split; [done|]. unfold carried.
    rewrite ctx_map_with_value, map_at_insert. by rewrite lookup_insert_eq.
Qed.

Section ShareKey.
Context {J : Json} {P : Wire} {T : Tracer}.
Context {JL : JsonLaws J} {PL : WireLaws P}.
Hypothesis extract_returns : forall carrier p, tracer_extract carrier <> Panics p.

(** C7: requests that must not overlap are kept together from end to end: the
    request a client sends on a context made by [NewShareKeyContext] is
    dispatched, by a server with a worker pool, to the queue of that share
    id, with the caller's start time and timeout. *)
Theorem share_key_reaches_queue (ns : NatsRPCClient) (srv : NatsRPCServer) (h h1 hs : heap)
    (c : option ctx) (c1 : ctx) (id : string) (route : Route.Route) (msg : Message.Message)
    (carrier : gmap string string) (nuid nuid' inbox : string) (now arrival : Z) :
  NewShareKeyContext c id h = (h1, Ok c1) -> id <> EmptyString -> workerPool srv = true ->
  fresh_call ns srv h1 c1 route msg carrier nuid now arrival ->
  exists h2 x data req hs1 c',
    prepare ns nuid now (Some c1) route msg (Some (ns_server srv)) h1 = (h2, Ok (x, data)) /\
    handle_message data inbox = Ok (Some req) /\
    processMessages srv nuid' req hs =
      (hs1, Ok (ToPool id c' now (cc_RequestTimeout (cl_config ns)))).
Proof.
  intros Hctx Hid Hpool [Hok Hrun Hinj Htyp Hroute Hst Hto Hplain Hnow Hbound _ _].
  destruct (AddCtx_carried _ _ _ _ _ _ Hctx) as (l1 & Hl1 & Hsh).
  destruct (prepare_spec extract_returns ns nuid now c1 route msg (ns_server srv) carrier h1 Hok Hrun Hinj Hroute Hplain)
    as (h2 & c2 & l & b & data & Hj & Hreq & Hprep & _).
  destruct (json_roundtrip _ _ Hplain Hj) as [Hb Hu].
  set (m := sent_map ns carrier (call_map ns nuid now route (carried h1 c1))) in *.
  set (req := mkRequest (Some (mkMsg 0 (Route.String_ route) (Message.Data msg) inbox
                                 (proto_type (Message.Typ msg)))) b).
  destruct (processMessages_runs srv nuid' req (json_norm <$> m) (FormatInt now)
    (Duration.duration_string (cc_RequestTimeout (cl_config ns))) now (cc_RequestTimeout (cl_config ns)) hs)
    as (hs1 & c' & l' & _ & _ & Hd).
  { done. }
  { done. }
  { rewrite lookup_fmap. unfold m. by rewrite sent_lookup, call_map_start. }
  { by apply ParseInt_FormatInt. }
  { rewrite lookup_fmap. unfold m. by rewrite sent_lookup, call_map_timeout. }
  { by apply Duration.duration_roundtrip. }
  assert ((json_norm <$> m) !! ShareIDKey = Some (GStr id)) as Hs.
  { rewrite lookup_fmap. unfold m. rewrite sent_lookup by done. unfold call_map.
    by rewrite !with_default_ne, with_request_id_ne, lookup_insert_ne, Hsh. }
  eexists h2, _, data, req, hs1, c'. split; [exact Hprep|]. split.
  - unfold handle_message. by rewrite (req_roundtrip _ _ Hreq).
  - rewrite Hd, Hs. change (default GNil (Some (GStr id))) with (GStr id). unfold dispatch_of.
    by rewrite Hpool, bool_decide_eq_true_2.
Qed.

End ShareKey.

(** ** Witnesses *)

(** The share id "u1", added to a nil context. *)
Definition share_heap : heap := (NewShareKeyContext None "u1" ∅).1.
Definition share_ctx : ctx := WithValue Background PropagateCtxKey (CMap (Some 1%positive)).

Lemma share_key_reaches_queue_witness :
  exists h2 x data req hs1 c',
    prepare (T := no_tracer) ex_client "r1" 1000 (Some share_ctx) ex_route ex_msg
      (Some (ns_server ex_server)) share_heap = (h2, Ok (x, data)) /\
    handle_message data "inbox" = Ok (Some req) /\
    processMessages ex_server "r2" req ∅ =
      (hs1, Ok (ToPool "u1" c' 1000 (cc_RequestTimeout (cl_config ex_client)))).
Proof.
  refine (share_key_reaches_queue (T := no_tracer) _ ex_client ex_server ∅ share_heap ∅
    None share_ctx "u1" ex_route ex_msg ∅ "r1" "r2" "inbox" 1000 1000 _ _ _ _).
  - done.
  - vm_compute. reflexivity.
  - done.
  - done.
  - apply carried_fresh_call; try done; vm_compute; reflexivity.
Defined.

End Static.
